(* ===== verification/_CoqProject ===== *)
-Q . S2P
Prelude.v
CLib.v
World.v
Listing.v
Server.v
FileNode.v
HashMap.v
Download.v
PeerV2.v
PeerV1.v
Session.v
Registry.v
Ui.v
Words.v
Aes.v
AesSpec.v
Modes.v
KeyWrap.v
Cfb.v
Ctr32.v
AesModes.v
Base64.v
UintSet.v
Md32.v
Sha256.v
Vlint.v
Pqueue.v
Lhash.v
LhStrings.v
Poly1305.v
ChaCha.v
ChachaPoly.v
Fe25519.v
X25519.v
AeadState.v
Ghash.v
Gcm.v
