(* ===== verification/Prelude.v ===== *)
(** * Tomypeers: a verification development

    ** The program

    Tomypeers is a file transfer program for Windows.  Every peer shares the files
    of its directory upload/: a background thread listens on port 12172 and serves
    one connection at a time, while the main thread reads commands, connects to
    another peer, receives the list of its files and downloads files into
    download/.  The repository holds two versions of that peer, tomypeers.c and
    its successor "restructured code/tomypeersV2.c" (both under
    capstone/Project work solo/), a window for it without function yet (ui.c), and
    a different program, "multi-threaded w server client model/tomypeers.c", in
    which a thread accepts peers with select and keeps a table of them.  It also
    bundles OpenSSL 3.3.1 for the encryption that is planned; no file of the
    program calls it yet.

    The protocol has no framing.  On accepting a connection the server sends its
    listing, one line "name (size bytes)" per entry.  The client then sends a name;
    the server answers with the bytes of the file, with "File does not exist.", or
    with nothing; the client counts bytes up to the size of the listing.

    The executables are 32-bit: long, size_t and SOCKET have 32 bits, char is signed.

    ** The files

    This file: the outcomes of a C call ([Done], [Waiting] in a blocking call whose
    input has not arrived, [Crash] for undefined behaviour, [Exit], and [NoFuel],
    which only the model has), a state monad over them with a weakest-precondition
    calculus ([wp]), fixed-width integers, bytes and generic lemmas.

    - CLib: the string functions of C on arrays with indeterminate contents.
    - World: what a process sees - console, disk, sockets, peers - as a record; the
      results of system calls are scripts it consumes.
    - Listing: create_file_list, send_file_list, list_directory (both versions).
    - Server: listen_for_connections with its accept and session loops (both versions).
    - FileNode: the linked list of remote files of tomypeersV2.c, on an explicit heap.
    - HashMap: the hash table that tomypeers.c uses instead.
    - Download: download_files of both versions, once, over the class [SizeIndex] of
      what a store of sizes promises; PeerV2 and PeerV1 are its instances.
    - PeerV2, PeerV1: the clients - command loop, connecting, reading the listing.
    - Session: a server and a client joined into one transfer.
    - Registry: the multi-threaded program, with fd_sets, find_max_fd, bind_and_listen
      and lookup_and_connect.
    - Ui: ui.c, as the calls it makes of the window system; what that system does of its
      own - what GetMessage finds, the messages it passes to WindowProc - is input.

    From the bundled OpenSSL (paths under openssl-3.3.1/), the routines that a
    transfer with encryption, integrity checks and a framed transport would use first:

    - Words: 32-bit words, bytes, exclusive or.
    - Aes: crypto/aes/aes_core.c, the variant with tables; AesSpec: FIPS 197.
    - Modes: cbc128.c, ctr128.c, cfb128.c, ofb128.c over the classes [BlockCipher] and
      [BlockLaws]; Cfb: the steps of cfb128.c by 1 to 128 bits; Ctr32: the counter mode
      of ctr128.c over a function that counts in 32 bits ([CtrFunction], [CtrLaws]);
      KeyWrap: wrap128.c on buffers of a given size; AesModes: their instance for AES
      (aes_cbc.c, aes_cfb.c, aes_ofb.c, aes_wrap.c).
    - Base64: crypto/evp/encode.c.
    - Md32: include/crypto/md32_common.h, the block-wise hash over the classes [Md32] and
      [Md32Laws]; Sha256: crypto/sha/sha256.c, its instance, and FIPS 180-4.
    - Vlint: crypto/quic_vlint.c.  UintSet: ssl/quic/uint_set.c.
      Pqueue: ssl/priority_queue.c, over [Comparison] and [ComparisonLaws].
    - Lhash: crypto/lhash/lhash.c over [LhLaws], what the callbacks of a table promise;
      LhStrings: the string hashes of that file and the comparisons of o_str.c, which
      are instances of it.
    - Poly1305: crypto/poly1305/poly1305.c, the variant with 32-bit words.  ChaCha:
      crypto/chacha/chacha_enc.c and cipher_chacha20_hw.c.  ChachaPoly: the two joined
      into the cipher of cipher_chacha20_poly1305.c and its _hw.c (both under
      providers/implementations/ciphers/), with the path of a TLS record.  AeadState:
      its functions with parameters, called in any order.
    - Ghash, Gcm: crypto/modes/gcm128.c, the multiplication with tables of four bits and
      the mode over [BlockCipher], in the build without assembler.
    - Fe25519: the field arithmetic of crypto/ec/curve25519.c in ten signed limbs, every
      operation on them checked for overflow.  X25519: its Montgomery ladder, ossl_x25519.

    Operations have the names they have in the code; definitions for a loop or a
    branch have names of their own and are mapped to the lines of that loop.

    ** What the theorems show

    Transfer: a listed file that is requested by name arrives complete however the
    stream is cut ([Session.transfer_end_to_end]); both versions see the same sizes
    ([versions_agree]); an empty answer blocks both sides ([empty_answer_deadlock]).
    Server: answers on every branch, confinement to upload/, the exact limits within
    which no buffer overflows, sockets closed.  Client: the listing is read back
    entry by entry, downloads complete, interruptions and files above 4 GiB do what
    the code makes them do, the command loop of tomypeersV2.c cannot end.  Stores:
    list and hash table refine a list and a finite map; freeing is exact, and using
    the list after freeing it faults.  Registry: its invariant in every reachable
    state, the overflow at the sixth peer, what it forgets, sockets of the helpers.
    Ui: a whole session, the messages sent or nested included: the calls made, the lines
    of the list box, and how the message loop ends.

    OpenSSL: AES, SHA-224 and SHA-256 equal their standards, tables and constants
    included (the constants are computed from the roots of primes); decryption
    undoes encryption for AES and for every mode; modes, hashes and base64 do not
    depend on how the data are cut into calls; variable-length integers and base64
    round trip; uint_set refines a set of integers, the queue a finite map with a
    least element and lhash a finite map, allocation failures included; the byte
    loops of key wrapping and of narrow CFB steps compute the registers of their
    standards; counting in 32 bits is counting in 128 bits.  Poly1305, ChaCha20 and
    the authenticated cipher made of them are those of RFC 8439, records those of
    RFC 7905; the calls of one message and of one record are joined with the parts
    through what a context has absorbed ([absorbed]) and where it stands in the key
    stream ([at_position]).  Any sequence of calls of that cipher keeps the type of its
    context ([typed]) and stays within the output ([aead_calls_typed]).  Galois/counter
    mode is that of SP 800-38D for every block cipher and every cutting into calls; its
    hash is proved against the multiplication bit by bit, which is linear ([gf_mul]), and
    the calls through what the context has hashed and keeps waiting ([text_at]).  X25519 is the
    function of RFC 7748 for all keys, without a signed overflow: the limbs stay within
    the bounds the comments give, and a product just beyond them is undefined
    ([fe_products]).

    Properties of code that can misbehave are stated with the behaviour: the
    findings of the manifest name the theorem that shows each.

    ** Fuel

    Loops that are not structural take fuel and fail with [NoFuel]; theorems show
    [Done], so that fuel is enough.  Network loops take one more than the size of
    what has arrived, list traversals one more than the size of the heap, sift
    loops of the queue the index or size, growth the number of elements asked for,
    the descent of find_max_fd the width of SOCKET (it wraps below zero).

    ** Not modelled

    Time and scheduling: the two threads of a peer share no variable, so a peer is
    modelled one thread at a time.  The text of addresses, and the message of an
    error code, are left out of console lines.  The bytes of structures (padding,
    WIN32_FIND_DATA, sockaddr) are records.  upnp_tests.c has an empty main and
    encrpyt.c is empty.  pthread.h, sched.h, semaphore.h and unistd.h are
    third-party headers.  Of OpenSSL everything else is left out: the constant-time
    and assembler variants of AES and SHA, the other modes and hashes, public keys
    other than those of X25519 (the part of curve25519.c for Ed25519, with its tables,
    computes X25519's own public keys too), ASN.1, TLS and QUIC.

    ** What is left

    Further hashes as instances of [Md32] (SHA-1, MD5), SHA-512, SipHash, the modes
    left (CTS, CCM, XTS), the variant of AES in constant time, Ed25519. *)

From Stdlib Require Export ZArith Lia.
From stdpp Require Export base tactics option list list_numbers strings gmap.

#[global] Set Default Goal Selector "!".
#[global] Open Scope Z_scope.

(** ** Faults and outcomes

    A C call may finish, wait in a blocking system call for an input that the
    environment has not supplied, run into undefined behaviour, end the process,
    or (only in this model) exhaust the fuel of a loop. *)

Inductive fault :=
  | BufferOverflow      (* a store past the end of an array *)
  | OverRead            (* a load past the end of an array *)
  | UseAfterFree        (* a dereference of memory that is not allocated *)
  | WildPointer         (* an integer used as an address *)
  | NullDereference     (* a dereference of a null pointer *)
  | SignedOverflow.     (* a signed integer out of the range of its type *)

#[global] Instance fault_eq_dec : EqDecision fault.
Proof. solve_decision. Defined.

Inductive outcome (A : Type) :=
  | Done (a : A)
  | Waiting
  | Crash (f : fault)
  | Exit (code : Z)
  | NoFuel.
Arguments Done {A} a.
Arguments Waiting {A}.
Arguments Crash {A} f.
Arguments Exit {A} code.
Arguments NoFuel {A}.

#[global] Instance outcome_eq_dec `{EqDecision A} : EqDecision (outcome A).
Proof. solve_decision. Defined.

#[global] Instance outcome_ret : MRet outcome := fun A a => Done a.
#[global] Instance outcome_bind : MBind outcome :=
  fun A B f m =>
    match m with
    | Done a => f a
    | Waiting => Waiting
    | Crash e => Crash e
    | Exit c => Exit c
    | NoFuel => NoFuel
    end.

Definition is_done {A} (o : outcome A) : bool :=
  match o with Done _ => true | _ => false end.

Lemma outcome_bind_done {A B} (m : outcome A) (f : A -> outcome B) b :
  (m ≫= f) = Done b -> exists a, m = Done a /\ f a = Done b.
Proof. destruct m; simpl; [eauto | done..]. Qed.

(** ** The state and outcome monad

    Stateful code runs on a state [S]; the state reached is kept whatever the
    outcome, so that what happened before a crash or a wait can be stated. *)

Definition M (S A : Type) : Type := S -> outcome A * S.

#[global] Instance M_ret {S} : MRet (M S) := fun A a s => (Done a, s).
#[global] Instance M_bind {S} : MBind (M S) :=
  fun A B f m s =>
    match m s with
    | (Done a, s') => f a s'
    | (Waiting, s') => (Waiting, s')
    | (Crash e, s') => (Crash e, s')
    | (Exit c, s') => (Exit c, s')
    | (NoFuel, s') => (NoFuel, s')
    end.

Definition lift {S A} (o : outcome A) : M S A := fun s => (o, s).
Definition gets {S A} (f : S -> A) : M S A := fun s => (Done (f s), s).
Definition modify {S} (f : S -> S) : M S unit := fun s => (Done tt, f s).
Definition wait {S A} : M S A := lift Waiting.
Definition no_fuel {S A} : M S A := lift NoFuel.

Section monad_laws.
Context {S A B : Type}.
Implicit Types (s : S).

Lemma bind_done (m : M S A) (f : A -> M S B) s a s' :
  m s = (Done a, s') -> (m ≫= f) s = f a s'.
Proof. unfold mbind, M_bind. by intros ->. Qed.

Lemma bind_ret (a : A) (f : A -> M S B) s : (mret a ≫= f) s = f a s.
Proof. done. Qed.

Lemma bind_lift_done (a : A) (f : A -> M S B) s : (lift (Done a) ≫= f) s = f a s.
Proof. done. Qed.

Lemma bind_crash (m : M S A) (f : A -> M S B) s e s' :
  m s = (Crash e, s') -> (m ≫= f) s = (Crash e, s').
Proof. unfold mbind, M_bind. by intros ->. Qed.

Lemma bind_waiting (m : M S A) (f : A -> M S B) s s' :
  m s = (Waiting, s') -> (m ≫= f) s = (Waiting, s').
Proof. unfold mbind, M_bind. by intros ->. Qed.

Lemma bind_inv_done (m : M S A) (f : A -> M S B) s b s' :
  (m ≫= f) s = (Done b, s') -> exists a s1, m s = (Done a, s1) /\ f a s1 = (Done b, s').
Proof.
  unfold mbind, M_bind. destruct (m s) as [[] s1]; intros; simplify_eq; eauto.
Qed.
End monad_laws.

(** ** Machine integers *)

Definition wrap (w : Z) (x : Z) : Z := x mod 2 ^ w.
Definition u8 (x : Z) : Z := wrap 8 x.
Definition u16 (x : Z) : Z := wrap 16 x.
Definition u32 (x : Z) : Z := wrap 32 x.
Definition u64 (x : Z) : Z := wrap 64 x.

(** The conversions to int32_t and int64_t, and arithmetic on them, which must not
    overflow. *)
Definition i32 (x : Z) : Z := (x + 2147483648) mod 4294967296 - 2147483648.
Definition i64 (x : Z) : Z := (x + 9223372036854775808) mod 18446744073709551616 - 9223372036854775808.
Definition int32 (x : Z) : outcome Z :=
  if (-2147483648 <=? x) && (x <=? 2147483647) then Done x else Crash SignedOverflow.
Definition int64 (x : Z) : outcome Z :=
  if (-9223372036854775808 <=? x) && (x <=? 9223372036854775807) then Done x else Crash SignedOverflow.

(** A plain [char] is signed with the compilers the repository names. *)
Definition schar (c : Z) : Z := if c <? 128 then c else c - 256.

Lemma wrap_range w x : 0 <= w -> 0 <= wrap w x < 2 ^ w.
Proof. intros. apply Z.mod_pos_bound. by apply Z.pow_pos_nonneg. Qed.

Lemma wrap_small w x : 0 <= x < 2 ^ w -> wrap w x = x.
Proof. apply Z.mod_small. Qed.

Lemma i32_small x : -2147483648 <= x <= 2147483647 -> i32 x = x.
Proof. intros Hx. unfold i32. rewrite Z.mod_small; lia. Qed.

Lemma i64_small x : -9223372036854775808 <= x <= 9223372036854775807 -> i64 x = x.
Proof. intros Hx. unfold i64. rewrite Z.mod_small; lia. Qed.

Lemma int32_done x : -2147483648 <= x <= 2147483647 -> int32 x = Done x.
Proof. intros Hx. unfold int32. rewrite (proj2 (Z.leb_le _ _)) by lia. by rewrite (proj2 (Z.leb_le x _)) by lia. Qed.

Lemma int64_done x : -9223372036854775808 <= x <= 9223372036854775807 -> int64 x = Done x.
Proof. intros Hx. unfold int64. rewrite (proj2 (Z.leb_le _ _)) by lia. by rewrite (proj2 (Z.leb_le x _)) by lia. Qed.

Lemma u32_range x : 0 <= u32 x < 4294967296.
Proof. apply (wrap_range 32). lia. Qed.

Lemma u32_small x : 0 <= x < 4294967296 -> u32 x = x.
Proof. apply (wrap_small 32). Qed.

Lemma u64_small x : 0 <= x < 18446744073709551616 -> u64 x = x.
Proof. apply (wrap_small 64). Qed.

Lemma u32_add x y : u32 (u32 x + y) = u32 (x + y).
Proof. apply Zplus_mod_idemp_l. Qed.

(** ** Bytes and lists *)

Abbreviation bytes := (list Z).

Definition byte_ok (c : Z) : Prop := 0 <= c < 256.
Definition bytes_ok (b : bytes) : Prop := Forall byte_ok b.

(** The bytes of a string literal. *)
Fixpoint bs (s : string) : bytes :=
  match s with
  | EmptyString => []
  | String a s' => Z.of_N (Ascii.N_of_ascii a) :: bs s'
  end.

(** The length of a list as an integer of the program. *)
Definition zlen {A} (l : list A) : Z := Z.of_nat (length l).

Lemma zlen_app {A} (l1 l2 : list A) : zlen (l1 ++ l2) = zlen l1 + zlen l2.
Proof. unfold zlen. rewrite length_app. lia. Qed.

Lemma zlen_nonneg {A} (l : list A) : 0 <= zlen l.
Proof. unfold zlen. lia. Qed.

Lemma zlen_cons {A} (x : A) l : zlen (x :: l) = 1 + zlen l.
Proof. unfold zlen. simpl. lia. Qed.

Create HintDb bytes.
Create Rewrite HintDb bytes.
#[export] Hint Resolve u32_range zlen_nonneg : bytes.
#[export] Hint Rewrite @zlen_app @zlen_cons : bytes.

(** [k]-sized pieces of a list: the shape of data cut by a fixed-size buffer. *)
Fixpoint pieces {A} (fuel : nat) (k : nat) (l : list A) : list (list A) :=
  match fuel with
  | O => []
  | S fuel' =>
      match l with
      | [] => []
      | _ => take k l :: pieces fuel' k (drop k l)
      end
  end.

Lemma concat_pieces {A} k fuel (l : list A) :
  (0 < k)%nat -> (length l <= fuel)%nat -> concat (pieces fuel k l) = l.
Proof.
  intros Hk. revert l. induction fuel as [|fuel IH]; intros l Hl; simpl.
  - by destruct l; [|simpl in Hl; lia].
  - destruct l as [|x l]; [done|]. cbn [concat].
    rewrite IH; [by rewrite take_drop|].
    rewrite length_drop. simpl in *. lia.
Qed.

Lemma pieces_fuel {A} f1 f2 k (l : list A) :
  (0 < k)%nat -> (length l <= f1)%nat -> (length l <= f2)%nat -> pieces f1 k l = pieces f2 k l.
Proof.
  intros Hk. revert f2 l. induction f1 as [|f1 IH]; intros f2 l H1 H2.
  - destruct l; [by destruct f2|simpl in H1; lia].
  - destruct l as [|x l]; [by destruct f2|]. destruct f2 as [|f2]; [simpl in H2; lia|]. cbn [pieces].
    f_equal. apply IH; rewrite length_drop; simpl in *; lia.
Qed.

Lemma pieces_app {A} k n (l1 l2 : list A) :
  (0 < k)%nat -> length l1 = (n * k)%nat ->
  pieces (length (l1 ++ l2)) k (l1 ++ l2) = pieces n k l1 ++ pieces (length l2) k l2.
Proof.
  intros Hk. revert l1. induction n as [|n IH]; intros l1 Hl.
  - by apply nil_length_inv in Hl as ->.
  - rewrite <- (take_drop k l1), <- app_assoc.
    assert (Ht : length (take k l1) = k) by (rewrite length_take; lia).
    assert (Hd : length (drop k l1) = (n * k)%nat) by (rewrite length_drop; lia).
    destruct (take k l1) as [|x t] eqn:E; [simpl in Ht; lia|].
    change (pieces (length ((x :: t) ++ drop k l1 ++ l2)) k ((x :: t) ++ drop k l1 ++ l2)) with
      (take k ((x :: t) ++ drop k l1 ++ l2) ::
       pieces (length (t ++ drop k l1 ++ l2)) k (drop k ((x :: t) ++ drop k l1 ++ l2))).
    cbn [pieces]. change ((x :: t) ++ drop k l1) with (x :: t ++ drop k l1) at 1. cbn match.
    change (x :: t ++ drop k l1) with ((x :: t) ++ drop k l1).
    rewrite !take_app_length', !drop_app_length' by done. cbn [app]. f_equal. rewrite <- IH by done.
    apply pieces_fuel; rewrite ?length_app; simpl in Ht; lia.
Qed.

(** One unit of fuel for each piece is enough. *)
Lemma pieces_exact {A} k n (l : list A) :
  (0 < k)%nat -> length l = (n * k)%nat -> pieces n k l = pieces (length l) k l.
Proof.
  intros Hk Hl. pose proof (pieces_app k n l [] Hk Hl) as H. rewrite app_nil_r in H. by rewrite H, app_nil_r.
Qed.

Lemma pieces_bounds {A} k fuel (l : list A) :
  (0 < k)%nat -> Forall (fun p => 0 < length p <= k)%nat (pieces fuel k l).
Proof.
  intros Hk. revert l. induction fuel as [|fuel IH]; intros l; simpl; [done|].
  destruct l as [|x l]; constructor; [|apply IH].
  rewrite length_take. simpl. lia.
Qed.

(** ** Automation *)

(** Rewrites the boolean comparisons of the goal that [lia] decides. *)
Ltac decide_z :=
  cbv beta; repeat match goal with
  | |- context [?a <=? ?b] =>
      first [rewrite (proj2 (Z.leb_le a b)) by lia | rewrite (proj2 (Z.leb_gt a b)) by lia]
  | |- context [?a <? ?b] =>
      first [rewrite (proj2 (Z.ltb_lt a b)) by lia | rewrite (proj2 (Z.ltb_ge a b)) by lia]
  | |- context [?a =? ?b] =>
      first [rewrite (proj2 (Z.eqb_eq a b)) by lia | rewrite (proj2 (Z.eqb_neq a b)) by lia]
  end; cbn [andb orb negb].

(** Case analysis on the boolean comparisons of the goal, left to right. *)
Ltac case_z :=
  match goal with
  | |- context [?a <=? ?b] => destruct (Z.leb_spec a b)
  | |- context [?a <? ?b] => destruct (Z.ltb_spec a b)
  | |- context [?a =? ?b] => destruct (Z.eqb_spec a b)
  end.

#[global] Arguments bs _ : simpl never.
#[global] Arguments zlen {_} _ : simpl never.
#[global] Arguments u32 _ : simpl never.
#[global] Arguments u16 _ : simpl never.
#[global] Arguments u64 _ : simpl never.

(** ** Postconditions

    [wp m Q s]: running [m] from [s] ends in an outcome and a state that
    satisfy [Q]; the bind rule passes the abnormal outcomes on. *)

Definition wp {S A} (m : M S A) (Q : outcome A -> S -> Prop) (s : S) : Prop :=
  Q (fst (m s)) (snd (m s)).

Definition wp_k {S A B} (f : A -> M S B) (Q : outcome B -> S -> Prop) (o : outcome A) (s : S) : Prop :=
  match o with
  | Done a => wp (f a) Q s
  | Waiting => Q Waiting s
  | Crash e => Q (Crash e) s
  | Exit c => Q (Exit c) s
  | NoFuel => Q NoFuel s
  end.

Section wp_rules.
Context {S : Type}.

Lemma wp_bind {A B} (m : M S A) (f : A -> M S B) Q s :
  wp m (wp_k f Q) s -> wp (m ≫= f) Q s.
Proof. unfold wp, wp_k, mbind, M_bind. destruct (m s) as [[] s']; done. Qed.

Lemma wp_mono {A} (m : M S A) (Q1 Q2 : outcome A -> S -> Prop) s :
  wp m Q1 s -> (forall o s', Q1 o s' -> Q2 o s') -> wp m Q2 s.
Proof. unfold wp. auto. Qed.

Lemma wp_and {A} (m : M S A) (Q1 Q2 : outcome A -> S -> Prop) s :
  wp m Q1 s -> wp m Q2 s -> wp m (fun o s' => Q1 o s' /\ Q2 o s') s.
Proof. unfold wp. auto. Qed.

Lemma wp_ret {A} (a : A) (Q : outcome A -> S -> Prop) s : Q (Done a) s -> wp (mret a) Q s.
Proof. done. Qed.

Lemma wp_lift {A} (o : outcome A) (Q : outcome A -> S -> Prop) s : Q o s -> wp (lift o) Q s.
Proof. done. Qed.

Lemma wp_gets {A} (f : S -> A) (Q : outcome A -> S -> Prop) s : Q (Done (f s)) s -> wp (gets f) Q s.
Proof. done. Qed.

Lemma wp_modify (f : S -> S) (Q : outcome unit -> S -> Prop) s : Q (Done tt) (f s) -> wp (modify f) Q s.
Proof. done. Qed.

Lemma wp_intro {A} (m : M S A) (Q : outcome A -> S -> Prop) s o s' :
  m s = (o, s') -> Q o s' -> wp m Q s.
Proof. unfold wp. by intros ->. Qed.

Lemma wp_elim {A} (m : M S A) (Q : outcome A -> S -> Prop) s o s' :
  wp m Q s -> m s = (o, s') -> Q o s'.
Proof. unfold wp. intros H E. by rewrite E in H. Qed.
End wp_rules.

(** Neither undefined behaviour nor exhausted fuel. *)
Definition no_fault {A} (o : outcome A) : Prop :=
  match o with Crash _ | NoFuel => False | _ => True end.

(** An invariant [I] of the state that [m] keeps while it causes no fault. *)
Definition keeps {S A} (I : S -> Prop) (m : M S A) : Prop :=
  forall s, I s -> wp m (fun o s' => no_fault o /\ I s') s.

Lemma keeps_bind {S A B} (I : S -> Prop) (m : M S A) (f : A -> M S B) :
  keeps I m -> (forall a, keeps I (f a)) -> keeps I (m ≫= f).
Proof.
  intros Hm Hf s Hs. apply wp_bind. eapply wp_mono; [by apply Hm|].
  intros o s' [Ho Hs']. destruct o; simpl in *; try done. by apply Hf.
Qed.

Lemma keeps_ret {S A} (I : S -> Prop) (a : A) : keeps I (mret a).
Proof. by intros s Hs. Qed.

Lemma keeps_lift_done {S A} (I : S -> Prop) (a : A) : keeps I (lift (Done a)).
Proof. by intros s Hs. Qed.

Lemma keeps_gets {S A} (I : S -> Prop) (f : S -> A) : keeps I (gets f).
Proof. by intros s Hs. Qed.

Lemma keeps_modify {S} (I : S -> Prop) (f : S -> S) : (forall s, I s -> I (f s)) -> keeps I (modify f).
Proof. intros H s Hs. split; [done|]. by apply H. Qed.

Lemma keeps_wait {S A} (I : S -> Prop) : keeps I (wait : M S A).
Proof. by intros s Hs. Qed.

Create HintDb keeps.
#[export] Hint Resolve keeps_ret keeps_lift_done keeps_gets keeps_wait : keeps.

(** [m] leaves the component [f] of the state as it is. *)
Definition frames {S A X} (f : S -> X) (m : M S A) : Prop := forall s, f (snd (m s)) = f s.

(** A frame added to a postcondition. *)
Lemma wp_frames {S A X} (f : S -> X) (m : M S A) (Q : outcome A -> S -> Prop) s :
  frames f m -> wp m Q s -> wp m (fun o s' => Q o s' /\ f s' = f s) s.
Proof. intros Hf HQ. split; [exact HQ|apply Hf]. Qed.

Lemma frames_bind {S A B X} (f : S -> X) (m : M S A) (k : A -> M S B) :
  frames f m -> (forall a, frames f (k a)) -> frames f (m ≫= k).
Proof.
  intros Hm Hk s. unfold mbind, M_bind. specialize (Hm s).
  destruct (m s) as [[] s']; simpl in *; try done. by rewrite Hk.
Qed.

Lemma frames_ret {S A X} (f : S -> X) (a : A) : frames f (mret a).
Proof. by intros s. Qed.

Lemma frames_lift {S A X} (f : S -> X) (o : outcome A) : frames f (lift o).
Proof. by intros s. Qed.

Lemma frames_gets {S A X} (f : S -> X) (g : S -> A) : frames f (gets g).
Proof. by intros s. Qed.

Lemma frames_modify {S X} (f : S -> X) (g : S -> S) : (forall s, f (g s) = f s) -> frames f (modify g).
Proof. intros H s. apply H. Qed.

Create HintDb frames.
#[export] Hint Resolve frames_ret frames_lift frames_gets : frames.

(** Splits a program along its binds and branches, closing leaves by hints. *)
Ltac solve_frames :=
  repeat match goal with
  | |- frames _ (_ ≫= _) => apply frames_bind; [|intros]
  | |- frames _ (if ?b then _ else _) => destruct b
  | |- frames _ (match ?x with _ => _ end) => destruct x
  | |- _ => solve [eauto 3 with frames]
  end.
