(* ===== verification/CLib.v ===== *)
(** * The part of the C run-time library the programs use

    Byte arrays with bounds-checked stores, NUL-terminated strings, and the
    string functions of <string.h> and <stdio.h> that tomypeers.c and
    tomypeersV2.c call.  A [char] array is the list of its bytes; a store past
    its end is [Crash BufferOverflow] and reading a string that is not
    terminated inside its array is [Crash OverRead]. *)

From S2P Require Import Prelude.

(** What the C standard leaves open: the contents of an uninitialised array and
    of an uninitialised int, and the value stored by a scanf conversion whose
    input is out of range. *)
Class Platform := {
  indet_array : nat -> bytes;
  indet_array_length : forall n, length (indet_array n) = n;
  indet_int : Z;
  scan_out_of_range : Z -> Z;
  last_error : Z;  (* what WSAGetLastError() and errno hold *)
}.

(** ** Arrays and NUL-terminated strings *)

Definition write_at (buf : bytes) (off : Z) (d : bytes) : outcome bytes :=
  if (0 <=? off) && (off + zlen d <=? zlen buf) then
    Done (take (Z.to_nat off) buf ++ d ++ drop (Z.to_nat (off + zlen d)) buf)
  else Crash BufferOverflow.

Fixpoint until_nul (b : bytes) : bytes :=
  match b with
  | [] => []
  | c :: b' => if c =? 0 then [] else c :: until_nul b'
  end.

Definition has_nul (b : bytes) : bool := existsb (fun c => c =? 0) b.

(** The string that starts at the first byte of an array. *)
Definition c_string (buf : bytes) : outcome bytes :=
  if has_nul buf then Done (until_nul buf) else Crash OverRead.

Definition no_nul (b : bytes) : Prop := Forall (fun c => c <> 0) b.

Definition memset0 (n : nat) : bytes := replicate n 0.

(** [strcat(buf, s)] for a string [s]. *)
Definition strcat (buf s : bytes) : outcome bytes :=
  old ← c_string buf;
  write_at buf (zlen old) (s ++ [0]).

(** [strcpy(buf, s)] *)
Definition strcpy (buf s : bytes) : outcome bytes := write_at buf 0 (s ++ [0]).

(** [strncpy(buf, s, n)]: at most [n] bytes, padded with NULs up to [n]. *)
Definition strncpy (buf s : bytes) (n : nat) : outcome bytes :=
  write_at buf 0 (take n s ++ replicate (n - length s) 0).

(** [snprintf(buf, cap, "%s%s", a, b)]: truncated to [cap - 1] bytes. *)
Definition snprintf_concat (cap : nat) (a b : bytes) : bytes :=
  take (cap - 1) (a ++ b).

Fixpoint is_prefix (p s : bytes) : bool :=
  match p, s with
  | [], _ => true
  | _ :: _, [] => false
  | c :: p', d :: s' => (c =? d) && is_prefix p' s'
  end.

(** [strstr(hay, needle) != NULL] *)
Fixpoint strstr (hay needle : bytes) : bool :=
  is_prefix needle hay ||
  match hay with
  | [] => false
  | _ :: hay' => strstr hay' needle
  end.

(** [strcmp(a, b) == 0] *)
Definition strcmp_eq (a b : bytes) : bool := bool_decide (a = b).

(** ** Decimal output and input *)

Fixpoint dec_digits (fuel : nat) (n : Z) : bytes :=
  match fuel with
  | O => []
  | S fuel' => if n <? 10 then [48 + n] else dec_digits fuel' (n / 10) ++ [48 + n mod 10]
  end.

(** %lu, %llu and %d of a non-negative value: twenty digits hold any 64-bit one. *)
Definition dec (n : Z) : bytes := dec_digits 20 n.

Definition is_digit (c : Z) : bool := (48 <=? c) && (c <=? 57).
Definition is_space (c : Z) : bool := (c =? 32) || ((9 <=? c) && (c <=? 13)).

Fixpoint span (p : Z -> bool) (b : bytes) : bytes * bytes :=
  match b with
  | [] => ([], [])
  | c :: b' => if p c then let '(x, y) := span p b' in (c :: x, y) else ([], b)
  end.

Definition skip_space (b : bytes) : bytes := snd (span is_space b).

Definition digits_value (ds : bytes) : Z := fold_left (fun a c => 10 * a + (c - 48)) ds 0.

(** The integer a scanf conversion reads: [None] for a matching failure. *)
Definition scan_integer (b : bytes) : option Z :=
  let b := skip_space b in
  let '(neg, b) :=
    match b with
    | c :: b' => if c =? 45 then (true, b') else if c =? 43 then (false, b') else (false, b)
    | [] => (false, b)
    end in
  let '(ds, _) := span is_digit b in
  match ds with
  | [] => None
  | _ => Some (if neg : bool then - digits_value ds else digits_value ds)
  end.

(** [strtok(s, sep)] called until it returns NULL, for one separator. *)
Fixpoint strtok (sep : Z) (cur : bytes) (s : bytes) : list bytes :=
  match s with
  | [] => match cur with [] => [] | _ => [rev cur] end
  | c :: s' =>
      if c =? sep then
        match cur with [] => strtok sep [] s' | _ => rev cur :: strtok sep [] s' end
      else strtok sep (c :: cur) s'
  end.

Section scanf.
Context `{Platform}.

(** The value stored by %d into an int, and by %lu into a 32-bit size_t. *)
Definition scan_d (z : Z) : Z :=
  if (- 2147483648 <=? z) && (z <=? 2147483647) then z else scan_out_of_range z.
Definition scan_lu (z : Z) : Z :=
  if (- 4294967295 <=? z) && (z <=? 4294967295) then u32 z else scan_out_of_range z.

Lemma scan_d_small z : - 2147483648 <= z <= 2147483647 -> scan_d z = z.
Proof. intros. unfold scan_d. by decide_z. Qed.

Lemma scan_lu_small z : 0 <= z <= 4294967295 -> scan_lu z = z.
Proof. intros. unfold scan_lu. decide_z. apply u32_small. lia. Qed.

(** [sscanf(token, "%s (%d bytes)", filename, &filesize)] (or %lu): the two
    objects after the call.  A failed conversion leaves its object as it was. *)
Definition sscanf_entry (conv : Z -> Z) (token filename : bytes) (filesize : Z)
  : outcome (bytes * Z) :=
  match span (fun c => negb (is_space c)) (skip_space token) with
  | ([], _) => Done (filename, filesize)
  | (word, rest) =>
      filename' ← write_at filename 0 (word ++ [0]);
      match skip_space rest with
      | c :: rest' =>
          if c =? 40 then
            match scan_integer rest' with
            | Some z => Done (filename', conv z)
            | None => Done (filename', filesize)
            end
          else Done (filename', filesize)
      | [] => Done (filename', filesize)
      end
  end.
End scanf.

(** ** Lemmas: arrays and strings *)

Lemma write_at_done buf off d :
  0 <= off -> off + zlen d <= zlen buf ->
  write_at buf off d =
    Done (take (Z.to_nat off) buf ++ d ++ drop (Z.to_nat (off + zlen d)) buf).
Proof. intros. unfold write_at. by decide_z. Qed.

Lemma write_at_inside (buf d : bytes) m : (m + length d <= length buf)%nat ->
  write_at buf (Z.of_nat m) d = Done (take m buf ++ d ++ drop (m + length d) buf).
Proof.
  intros Hm. unfold write_at, zlen. destruct (Z.leb_spec 0 (Z.of_nat m)); [|lia]. destruct (Z.leb_spec (Z.of_nat m + Z.of_nat (length d)) (Z.of_nat (length buf))); [|lia].
  cbn [andb]. rewrite Nat2Z.id. do 4 f_equal. lia.
Qed.

Lemma write_at_overflow buf off d :
  zlen buf < off + zlen d -> write_at buf off d = Crash BufferOverflow.
Proof.
  intros. unfold write_at. rewrite andb_comm. by decide_z.
Qed.

Lemma write_at_length buf off d buf' :
  write_at buf off d = Done buf' -> length buf' = length buf.
Proof.
  unfold write_at. destruct (_ && _) eqn:E; [|done]. intros [= <-].
  apply andb_prop in E as [E1%Z.leb_le E2%Z.leb_le]. unfold zlen in *.
  rewrite !length_app, length_take, length_drop. lia.
Qed.

Lemma has_nul_app a b : has_nul (a ++ b) = has_nul a || has_nul b.
Proof. apply existsb_app. Qed.

Lemma no_nul_has_nul s : no_nul s -> has_nul s = false.
Proof.
  induction 1 as [|c s Hc _ IH]; simpl; [done|]. by decide_z.
Qed.

Lemma until_nul_app s r : no_nul s -> until_nul (s ++ r) = s ++ until_nul r.
Proof.
  induction 1 as [|c s Hc _ IH]; simpl; [done|].
  decide_z. by rewrite IH.
Qed.

Lemma until_nul_no_nul s : no_nul (until_nul s).
Proof.
  induction s as [|c s IH]; simpl; [constructor|].
  destruct (Z.eqb_spec c 0); [constructor|]. by constructor.
Qed.

Lemma until_nul_id s : no_nul s -> until_nul s = s.
Proof. intros. rewrite <- (app_nil_r s) at 1. rewrite until_nul_app by done. by rewrite app_nil_r. Qed.

Lemma until_nul_snoc s r : until_nul (s ++ 0 :: r) = until_nul s.
Proof.
  induction s as [|c s IH]; simpl; [done|]. destruct (c =? 0); [done|]. by rewrite IH.
Qed.

Lemma until_nul_length s : (length (until_nul s) <= length s)%nat.
Proof. induction s as [|c s IH]; simpl; [lia|]. destruct (c =? 0); simpl; lia. Qed.

Lemma c_string_terminated s r : c_string (s ++ 0 :: r) = Done (until_nul s).
Proof.
  unfold c_string. rewrite has_nul_app. simpl. rewrite orb_true_r.
  by rewrite until_nul_snoc.
Qed.

Lemma c_string_no_nul s r : no_nul s -> c_string (s ++ 0 :: r) = Done s.
Proof. intros. by rewrite c_string_terminated, until_nul_id. Qed.

Lemma c_string_inv buf s :
  c_string buf = Done s -> no_nul s /\ exists r, buf = s ++ 0 :: r.
Proof.
  unfold c_string. destruct (has_nul buf) eqn:E; [|done]. intros [= <-].
  split; [apply until_nul_no_nul|].
  induction buf as [|c buf IH]; simpl in *; [done|].
  destruct (Z.eqb_spec c 0) as [->|Hc]; [by exists buf|].
  destruct (IH E) as [r Hr]. exists r. simpl. by rewrite <- Hr.
Qed.

(** A buffer filled from its start with [d] and a terminator. *)
Lemma store_string buf d :
  zlen d < zlen buf ->
  exists buf', write_at buf 0 (d ++ [0]) = Done buf' /\
    length buf' = length buf /\ c_string buf' = Done (until_nul d).
Proof.
  intros Hlen. assert (Hz : zlen (d ++ [0]) = zlen d + 1) by (by rewrite zlen_app).
  assert (Hw := write_at_done buf 0 (d ++ [0]) ltac:(lia) ltac:(lia)).
  eexists. split; [exact Hw|]. split; [exact (write_at_length _ _ _ _ Hw)|].
  simpl. rewrite <- app_assoc. simpl. by rewrite c_string_terminated.
Qed.

Lemma strcat_done buf old s :
  c_string buf = Done old -> zlen old + zlen s < zlen buf -> no_nul s ->
  exists buf', strcat buf s = Done buf' /\ length buf' = length buf /\
    c_string buf' = Done (old ++ s).
Proof.
  intros Hb Hlen Hs. unfold strcat. rewrite Hb. simpl.
  assert (Hz : zlen (s ++ [0]) = zlen s + 1) by (by rewrite zlen_app).
  pose proof (zlen_nonneg old).
  destruct (c_string_inv _ _ Hb) as [Hold [r Hbuf]].
  assert (Hw := write_at_done buf (zlen old) (s ++ [0]) ltac:(lia) ltac:(lia)).
  eexists. split; [exact Hw|]. split; [exact (write_at_length _ _ _ _ Hw)|].
  rewrite Hbuf at 1. unfold zlen at 1. rewrite Nat2Z.id, take_app_length.
  rewrite <- app_assoc. simpl. rewrite app_assoc. apply c_string_no_nul.
  by apply Forall_app.
Qed.

Lemma strcat_overflow buf old s :
  c_string buf = Done old -> zlen buf <= zlen old + zlen s ->
  strcat buf s = Crash BufferOverflow.
Proof.
  intros Hb Hlen. unfold strcat. rewrite Hb. simpl. apply write_at_overflow.
  rewrite zlen_app. change (zlen [0]) with 1. lia.
Qed.

(** ** Lemmas: searching *)

Lemma is_prefix_spec p s : is_prefix p s = true <-> exists r, s = p ++ r.
Proof.
  revert s. induction p as [|c p IH]; intros [|d s]; simpl.
  - split; eauto.
  - split; eauto.
  - split; [done|]. by intros [r Hr].
  - rewrite andb_true_iff, Z.eqb_eq, IH. split.
    + intros [-> [r ->]]. eauto.
    + intros [r [= -> ->]]. eauto.
Qed.

Lemma strstr_spec hay needle :
  strstr hay needle = true <-> exists a b, hay = a ++ needle ++ b.
Proof.
  induction hay as [|c hay IH]; simpl.
  - rewrite orb_false_r, is_prefix_spec. split.
    + intros [r Hr]. by exists [], r.
    + intros [a [b Hab]]. destruct a; [|done]. by exists b.
  - rewrite orb_true_iff, is_prefix_spec, IH. split.
    + intros [[r Hr]|[a [b ->]]]; [by exists [], r|by exists (c :: a), b].
    + intros [[|x a] [b Hab]]; simpl in Hab; [left; by exists b|].
      right. simplify_eq/=. by exists a, b.
Qed.

Lemma strstr_Forall (P : Z -> Prop) hay needle :
  strstr hay needle = true -> Forall P hay -> Forall P needle.
Proof.
  intros [a [b ->]]%strstr_spec [_ [H _]%Forall_app]%Forall_app. done.
Qed.

Lemma strstr_concat (ls : list bytes) l needle :
  l ∈ ls -> strstr l needle = true -> strstr (concat ls) needle = true.
Proof.
  intros Hl [a [b ->]]%strstr_spec. apply list_elem_of_split in Hl as (l1 & l2 & ->).
  apply strstr_spec. rewrite concat_app. simpl. exists (concat l1 ++ a), (b ++ concat l2).
  by rewrite <- !app_assoc.
Qed.

(** ** Lemmas: decimal numbers and scanning *)

Lemma dec_digits_digit fuel n :
  0 <= n -> Forall (fun c => is_digit c = true) (dec_digits fuel n).
Proof.
  revert n. induction fuel as [|fuel IH]; intros n Hn; simpl; [constructor|].
  pose proof (Z.mod_pos_bound n 10 ltac:(lia)). unfold is_digit.
  case_z; [constructor; [by decide_z|done]|].
  apply Forall_app. split; [apply IH; apply Z.div_pos; lia|].
  constructor; [by decide_z|done].
Qed.

Lemma dec_digits_value fuel n :
  0 <= n < 10 ^ Z.of_nat fuel -> digits_value (dec_digits fuel n) = n.
Proof.
  revert n. induction fuel as [|fuel IH]; intros n Hn; simpl; [simpl in Hn; unfold digits_value; simpl; lia|].
  case_z; [unfold digits_value; simpl; lia|].
  rewrite Nat2Z.inj_succ, Z.pow_succ_r in Hn by lia.
  unfold digits_value in *. rewrite fold_left_app, IH; cbn [fold_left].
  - pose proof (Z.div_mod n 10 ltac:(lia)). lia.
  - split; [apply Z.div_pos; lia|]. apply Z.div_lt_upper_bound; lia.
Qed.

Lemma dec_digits_nonempty fuel n : (0 < fuel)%nat -> dec_digits fuel n <> [].
Proof.
  destruct fuel; [lia|]. intros _. simpl. case_z; [done|].
  by destruct (dec_digits _ _).
Qed.

Lemma dec_digit n : 0 <= n -> Forall (fun c => is_digit c = true) (dec n).
Proof. apply dec_digits_digit. Qed.

Lemma dec_value n : 0 <= n < 100000000000000000000 -> digits_value (dec n) = n.
Proof. intros. by apply (dec_digits_value 20). Qed.

Lemma dec_nonempty n : dec n <> [].
Proof. apply dec_digits_nonempty. lia. Qed.

Lemma digit_range c : is_digit c = true -> 48 <= c <= 57.
Proof. unfold is_digit. intros [?%Z.leb_le ?%Z.leb_le]%andb_prop. lia. Qed.

Lemma span_app p a rest :
  Forall (fun c => p c = true) a ->
  match rest with [] => True | c :: _ => p c = false end ->
  span p (a ++ rest) = (a, rest).
Proof.
  intros Ha Hr. induction Ha as [|c a Hc _ IH]; simpl.
  - destruct rest as [|c rest]; simpl; [done|]. by rewrite Hr.
  - by rewrite Hc, IH.
Qed.

Lemma skip_space_id b :
  match b with [] => True | c :: _ => is_space c = false end -> skip_space b = b.
Proof. intros. unfold skip_space. by rewrite (span_app _ [] b). Qed.

Lemma digit_not_space c : is_digit c = true -> is_space c = false.
Proof. intros ?%digit_range. unfold is_space. by decide_z. Qed.

(** Reading back a printed number that is followed by a non-digit. *)
Lemma scan_integer_dec n rest :
  0 <= n < 100000000000000000000 ->
  match rest with [] => True | c :: _ => is_digit c = false end ->
  scan_integer (dec n ++ rest) = Some n.
Proof.
  intros Hn Hr. unfold scan_integer.
  pose proof (dec_digit n ltac:(lia)) as Hd. pose proof (dec_nonempty n) as Hne.
  pose proof (dec_value n Hn) as Hv.
  destruct (dec n) as [|c ds]; [done|].
  assert (Hc := Forall_inv Hd). simpl in Hc.
  rewrite skip_space_id by (by apply digit_not_space).
  pose proof (digit_range c Hc).
  simpl app. cbv beta iota. decide_z.
  change (c :: ds ++ rest) with ((c :: ds) ++ rest).
  rewrite span_app by done. by rewrite Hv.
Qed.

Lemma strtok_line sep cur l rest :
  Forall (fun c => c <> sep) l -> rev cur ++ l <> [] ->
  strtok sep cur (l ++ sep :: rest) = (rev cur ++ l) :: strtok sep [] rest.
Proof.
  intros Hl. revert cur. induction Hl as [|c l Hc _ IH]; intros cur Hne; simpl.
  - rewrite Z.eqb_refl. rewrite app_nil_r in *. by destruct cur.
  - decide_z. rewrite IH; simpl; by rewrite <- app_assoc.
Qed.

(** A whole text of terminated lines. *)
Lemma strtok_lines sep (ls : list bytes) :
  Forall (fun l => l <> [] /\ Forall (fun c => c <> sep) l) ls ->
  strtok sep [] (concat (map (fun l => l ++ [sep]) ls)) = ls.
Proof.
  induction 1 as [|l ls [Hne Hl] _ IH]; simpl; [done|].
  rewrite <- app_assoc. simpl. rewrite strtok_line by done. by rewrite IH.
Qed.

(** What a successful strcat did. *)
Lemma strcat_inv buf old s buf' :
  c_string buf = Done old -> strcat buf s = Done buf' ->
  length buf' = length buf /\ c_string buf' = Done (old ++ until_nul s).
Proof.
  intros Hb. unfold strcat. rewrite Hb. cbn [mbind outcome_bind]. intros Hw.
  split; [exact (write_at_length _ _ _ _ Hw)|].
  destruct (c_string_inv _ _ Hb) as [Hold [r Hbuf]].
  unfold write_at in Hw. destruct (_ && _); [|done].
  assert (Ht : take (Z.to_nat (zlen old)) buf = old).
  { rewrite Hbuf. unfold zlen. by rewrite Nat2Z.id, take_app_length. }
  rewrite Ht in Hw. injection Hw as <-.
  rewrite <- app_assoc. simpl. rewrite app_assoc, c_string_terminated.
  by rewrite until_nul_app.
Qed.

Lemma until_nul_Forall (P : Z -> Prop) s : Forall P s -> Forall P (until_nul s).
Proof.
  induction 1 as [|c s Hc _ IH]; simpl; [done|]. destruct (c =? 0); [done|]. by constructor.
Qed.

(** A platform to evaluate the definitions on. *)
Definition demo_platform : Platform := {|
  indet_array := fun n => replicate n 170;
  indet_array_length := fun n => length_replicate n 170;
  indet_int := -858993460;
  scan_out_of_range := fun z => -1;
  last_error := 0
|}.

(** The idiom [n = recv(s, buf, ...); buf[n] = '\0'] when the bytes leave room. *)
Lemma store_terminated buf d :
  zlen d < zlen buf ->
  exists b1 b2, write_at buf 0 d = Done b1 /\ write_at b1 (zlen d) [0] = Done b2 /\
    length b2 = length buf /\ c_string b2 = Done (until_nul d).
Proof.
  intros Hlen. pose proof (zlen_nonneg d).
  assert (H1 : write_at buf 0 d = Done (d ++ drop (Z.to_nat (0 + zlen d)) buf))
    by (apply write_at_done; lia).
  pose proof (write_at_length _ _ _ _ H1) as Hl1.
  set (b1 := d ++ drop (Z.to_nat (0 + zlen d)) buf) in *.
  assert (Hz : zlen b1 = zlen buf) by (unfold zlen; by rewrite Hl1).
  assert (H2 := write_at_done b1 (zlen d) [0] ltac:(lia)
                  ltac:(change (zlen [0]) with 1; lia)).
  pose proof (write_at_length _ _ _ _ H2) as Hl2.
  eexists _, _. split; [exact H1|]. split; [exact H2|]. split; [congruence|].
  unfold b1 at 1. unfold zlen at 1. rewrite Nat2Z.id, take_app_length.
  apply c_string_terminated.
Qed.

(** The same store when the array is full: the terminator lands past its end. *)
Lemma store_terminated_overflow buf d b1 :
  write_at buf 0 d = Done b1 -> zlen buf <= zlen d ->
  write_at b1 (zlen d) [0] = Crash BufferOverflow.
Proof.
  intros H1 Hlen. apply write_at_length in H1. apply write_at_overflow.
  change (zlen [0]) with 1. unfold zlen in *. lia.
Qed.

Lemma take_stored buf d b1 b2 :
  write_at buf 0 d = Done b1 -> write_at b1 (zlen d) [0] = Done b2 ->
  take (Z.to_nat (zlen d)) b2 = d.
Proof.
  unfold write_at. destruct (_ && _); [|done]. intros [= <-].
  destruct (_ && _); [|done]. intros [= <-].
  change (take (Z.to_nat 0) buf) with (@nil Z). cbn [app].
  unfold zlen. rewrite Nat2Z.id. rewrite take_app_length.
  by rewrite take_app_length.
Qed.

(** [atoi], for the short inputs it is given here. *)
Definition atoi (b : bytes) : Z := default 0 (scan_integer b).

(** The port a connection is made to: [htons(atoi(port))] keeps 16 bits. *)
Definition port_number (port : bytes) : Z := u16 (atoi port).

Lemma dec_digits_length fuel n : (length (dec_digits fuel n) <= fuel)%nat.
Proof.
  revert n. induction fuel as [|fuel IH]; intros n; simpl; [lia|].
  case_z; simpl; [lia|]. rewrite length_app. simpl. specialize (IH (n / 10)). lia.
Qed.

Lemma dec_digits_fuel f1 f2 n :
  0 <= n < 10 ^ Z.of_nat f1 -> (f1 <= f2)%nat -> (0 < f1)%nat -> dec_digits f2 n = dec_digits f1 n.
Proof.
  revert f2 n. induction f1 as [|f1 IH]; intros f2 n Hn Hf Hpos; [lia|].
  destruct f2 as [|f2]; [lia|]. simpl. case_z; [done|]. f_equal.
  rewrite Nat2Z.inj_succ, Z.pow_succ_r in Hn by lia.
  assert (Hd : 0 <= n / 10 < 10 ^ Z.of_nat f1).
  { split; [apply Z.div_pos; lia|]. apply Z.div_lt_upper_bound; lia. }
  apply IH; [done|lia|]. destruct f1; [simpl in Hn; lia|lia].
Qed.

Lemma dec_length k n : 0 <= n < 10 ^ Z.of_nat k -> (0 < k <= 20)%nat -> (length (dec n) <= k)%nat.
Proof.
  intros Hn Hk. unfold dec. rewrite (dec_digits_fuel k) by lia. apply dec_digits_length.
Qed.

Lemma atoi_dec n : 0 <= n < 100000000000000000000 -> atoi (dec n) = n.
Proof.
  intros Hn. unfold atoi. rewrite <- (app_nil_r (dec n)). by rewrite scan_integer_dec.
Qed.

(** Reading back the line the listing prints for a file. *)
Lemma sscanf_entry_line `{Platform} conv name n buf size :
  name <> [] -> Forall (fun c => is_space c = false) name -> no_nul name ->
  zlen name < zlen buf -> 0 <= n < 100000000000000000000 ->
  exists buf', sscanf_entry conv (name ++ bs " (" ++ dec n ++ bs " bytes)") buf size = Done (buf', conv n) /\
    c_string buf' = Done name.
Proof.
  intros Hne Hsp Hnul Hlen Hn. unfold sscanf_entry.
  rewrite skip_space_id.
  2: { destruct name; [done|]. simpl. by apply Forall_inv in Hsp. }
  rewrite span_app; [|by eapply Forall_impl; [exact Hsp|]; simpl; intros c ->|done].
  destruct (store_string buf name Hlen) as (b & Hb & _ & Hc).
  rewrite (until_nul_id name) in Hc by done.
  exists b. split; [|done].
  destruct name as [|c name]; [done|].
  rewrite Hb. cbn [mbind outcome_bind].
  change (skip_space (bs " (" ++ dec n ++ bs " bytes)")) with (40 :: dec n ++ bs " bytes)").
  cbv beta iota. change (40 =? 40) with true. cbv iota.
  by rewrite scan_integer_dec.
Qed.

(** The same with memory that happens to be zero. *)
Definition zero_platform : Platform := {|
  indet_array := fun n => replicate n 0;
  indet_array_length := fun n => length_replicate n 0;
  indet_int := 0;
  scan_out_of_range := fun z => -1;
  last_error := 0
|}.
