(* ===== verification/World.v ===== *)
(** * The world a peer runs in

    The state outside the C program: what the user types, what the socket
    delivers, what has been sent, the files of the disk and the console.  The
    environment's choices (how the byte stream is cut into [recv] results, which
    calls fail) are scripts in the state, so that a theorem quantifies over them.
    [mem] is the memory of the program that runs (the heap of tomypeersV2.c, the
    hash table of tomypeers.c). *)

From S2P Require Import Prelude CLib.

(** What one [recv] call finds: bytes, an orderly shutdown, or an error. *)
Inductive recv_event :=
  | RData (d : bytes)
  | RClosed
  | RError.

#[global] Instance recv_event_eq_dec : EqDecision recv_event.
Proof. solve_decision. Defined.

(** An argument of a printf call. *)
Inductive arg :=
  | AStr (s : bytes)
  | AInt (z : Z).

#[global] Instance arg_eq_dec : EqDecision arg.
Proof. solve_decision. Defined.

Record world (mem : Type) := World {
  memory : mem;  (* the memory of the program *)
  stdin : list bytes;  (* the whitespace-separated words to come *)
  inbox : list recv_event;  (* what the connected socket will deliver *)
  dials : list (bool * list recv_event);  (* the outcome of each connect or accept to come *)
  outbox : list bytes;  (* the payloads sent, oldest first *)
  send_results : list bool;  (* whether each send to come succeeds *)
  calls : list bool;  (* whether each other fallible call to come succeeds *)
  next_socket : Z;  (* the next handle socket() or accept() returns *)
  open_sockets : gset Z;  (* the handles that are open *)
  disk : gmap bytes bytes;  (* file contents by path *)
  can_create : bytes -> bool;  (* whether fopen(path, "wb") succeeds *)
  console : list (string * list arg);  (* the printf calls made *)
  connects : list (bytes * Z)  (* the address and port of each connect made *)
}.
Arguments World {mem}.
Arguments memory {mem}.
Arguments stdin {mem}.
Arguments inbox {mem}.
Arguments dials {mem}.
Arguments outbox {mem}.
Arguments send_results {mem}.
Arguments calls {mem}.
Arguments next_socket {mem}.
Arguments open_sockets {mem}.
Arguments disk {mem}.
Arguments can_create {mem}.
Arguments console {mem}.
Arguments connects {mem}.

Section world.
Context {mem : Type}.
Implicit Types (w : world mem).

Definition set_memory (x : mem) w : world mem :=
  World x (stdin w) (inbox w) (dials w) (outbox w) (send_results w) (calls w) (next_socket w) (open_sockets w) (disk w) (can_create w) (console w) (connects w).
Definition set_stdin (x : list bytes) w : world mem :=
  World (memory w) x (inbox w) (dials w) (outbox w) (send_results w) (calls w) (next_socket w) (open_sockets w) (disk w) (can_create w) (console w) (connects w).
Definition set_inbox (x : list recv_event) w : world mem :=
  World (memory w) (stdin w) x (dials w) (outbox w) (send_results w) (calls w) (next_socket w) (open_sockets w) (disk w) (can_create w) (console w) (connects w).
Definition set_dials (x : list (bool * list recv_event)) w : world mem :=
  World (memory w) (stdin w) (inbox w) x (outbox w) (send_results w) (calls w) (next_socket w) (open_sockets w) (disk w) (can_create w) (console w) (connects w).
Definition set_outbox (x : list bytes) w : world mem :=
  World (memory w) (stdin w) (inbox w) (dials w) x (send_results w) (calls w) (next_socket w) (open_sockets w) (disk w) (can_create w) (console w) (connects w).
Definition set_send_results (x : list bool) w : world mem :=
  World (memory w) (stdin w) (inbox w) (dials w) (outbox w) x (calls w) (next_socket w) (open_sockets w) (disk w) (can_create w) (console w) (connects w).
Definition set_calls (x : list bool) w : world mem :=
  World (memory w) (stdin w) (inbox w) (dials w) (outbox w) (send_results w) x (next_socket w) (open_sockets w) (disk w) (can_create w) (console w) (connects w).
Definition set_next_socket (x : Z) w : world mem :=
  World (memory w) (stdin w) (inbox w) (dials w) (outbox w) (send_results w) (calls w) x (open_sockets w) (disk w) (can_create w) (console w) (connects w).
Definition set_open_sockets (x : gset Z) w : world mem :=
  World (memory w) (stdin w) (inbox w) (dials w) (outbox w) (send_results w) (calls w) (next_socket w) x (disk w) (can_create w) (console w) (connects w).
Definition set_disk (x : gmap bytes bytes) w : world mem :=
  World (memory w) (stdin w) (inbox w) (dials w) (outbox w) (send_results w) (calls w) (next_socket w) (open_sockets w) x (can_create w) (console w) (connects w).
Definition set_console (x : list (string * list arg)) w : world mem :=
  World (memory w) (stdin w) (inbox w) (dials w) (outbox w) (send_results w) (calls w) (next_socket w) (open_sockets w) (disk w) (can_create w) x (connects w).
Definition set_connects (x : list (bytes * Z)) w : world mem :=
  World (memory w) (stdin w) (inbox w) (dials w) (outbox w) (send_results w) (calls w) (next_socket w) (open_sockets w) (disk w) (can_create w) (console w) x.

(** ** System calls and stdio *)

Definition printf (fmt : string) (args : list arg) : M (world mem) unit :=
  modify (fun w => set_console (console w ++ [(fmt, args)]) w).

(** [scanf("%s", buf)] into an array of [cap] bytes: the next word and its
    terminator are stored without a bound. *)
Definition scanf_s (cap : Z) : M (world mem) bytes := fun w =>
  match stdin w with
  | [] => (Waiting, w)
  | word :: rest =>
      if zlen word <? cap then (Done word, set_stdin rest w)
      else (Crash BufferOverflow, set_stdin rest w)
  end.

(** [recv(s, buf, cap, 0)]: the return value and the bytes stored.  At most
    [cap] bytes are taken; what is left stays in the stream. *)
Definition recv (cap : nat) : M (world mem) (Z * bytes) := fun w =>
  match inbox w with
  | [] => (Waiting, w)
  | RData d :: rest =>
      if bool_decide (length d <= cap)%nat then (Done (zlen d, d), set_inbox rest w)
      else (Done (Z.of_nat cap, take cap d), set_inbox (RData (drop cap d) :: rest) w)
  | RClosed :: rest => (Done (0, []), set_inbox rest w)
  | RError :: rest => (Done (-1, []), set_inbox rest w)
  end.

(** [send(s, d, strlen, 0)]: [false] stands for SOCKET_ERROR. *)
Definition send (d : bytes) : M (world mem) bool := fun w =>
  match send_results w with
  | false :: rest => (Done false, set_send_results rest w)
  | _ => (Done true, set_outbox (outbox w ++ [d]) (set_send_results (tail (send_results w)) w))
  end.

(** A fallible call whose result the environment scripts (true once the script
    is used up): WSAStartup, bind, listen, gethostname, gethostbyname, socket. *)
Definition syscall : M (world mem) bool := fun w =>
  match calls w with
  | [] => (Done true, w)
  | ok :: rest => (Done ok, set_calls rest w)
  end.

Definition new_socket : M (world mem) Z := fun w =>
  let s := next_socket w in
  (Done s, set_next_socket (s + 1) (set_open_sockets ({[s]} ∪ open_sockets w) w)).

(** [socket(...)]: [None] stands for INVALID_SOCKET. *)
Definition socket : M (world mem) (option Z) :=
  ok ← syscall;
  if ok : bool then s ← new_socket; mret (Some s) else mret None.

Definition closesocket (s : Z) : M (world mem) unit :=
  modify (fun w => set_open_sockets (open_sockets w ∖ {[s]}) w).

(** [accept]: a new socket that delivers the events of this connection. *)
Definition accept : M (world mem) (option Z) := fun w =>
  match dials w with
  | [] => (Waiting, w)
  | (true, events) :: rest => (s ← new_socket; mret (Some s)) (set_inbox events (set_dials rest w))
  | (false, _) :: rest => (Done None, set_dials rest w)
  end.

(** [connect(s, addr, port)]: the socket then delivers the events of this attempt.
    On an invalid socket the call fails at once, and so does the recv after it. *)
Definition connect (s : option Z) (addr : bytes) (port : Z) : M (world mem) bool := fun w =>
  match s with
  | None => (Done false, set_inbox [RError] w)
  | Some _ =>
      let w := set_connects (connects w ++ [(addr, port)]) w in
      match dials w with
      | [] => (Waiting, w)
      | (ok, events) :: rest => (Done ok, set_inbox events (set_dials rest w))
      end
  end.

(** [fopen(path, "wb")] truncates or creates the file. *)
Definition fopen_wb (path : bytes) : M (world mem) bool := fun w =>
  if can_create w path then (Done true, set_disk (<[path := []]> (disk w)) w)
  else (Done false, w).

(** [fwrite(d, 1, n, file)] at the end of a file opened for writing. *)
Definition fwrite (path d : bytes) : M (world mem) unit :=
  modify (fun w => set_disk (alter (fun old => old ++ d) path (disk w)) w).
End world.

(** ** Directory enumeration *)

Record find_data := FindData {
  cFileName : bytes;
  is_directory : bool;      (* dwFileAttributes & FILE_ATTRIBUTE_DIRECTORY *)
  nFileSizeHigh : Z;
  nFileSizeLow : Z
}.

(** FindFirstFile("upload\\*") and the FindNextFile calls that follow it: an
    error, or the entries found and the final GetLastError value. *)
Inductive dir_scan :=
  | FindFailed (err : Z)
  | Found (first : find_data) (rest : list find_data) (err : Z).

Definition ERROR_NO_MORE_FILES : Z := 18.

(** ** Handles *)

Section handles.
Context {mem : Type}.
Implicit Types (w : world mem).

(** The handles in use were all handed out before. *)
Definition handles_ok w : Prop := forall s, s ∈ open_sockets w -> s < next_socket w.

(** A socket just opened, [cs] being the script of calls that is left. *)
Definition with_socket (cs : list bool) w : world mem :=
  set_next_socket (next_socket w + 1) (set_open_sockets ({[next_socket w]} ∪ open_sockets w) (set_calls cs w)).

Lemma wp_syscall (Q : outcome bool -> world mem -> Prop) w :
  (forall ok cs, Q (Done ok) (set_calls cs w)) -> wp syscall Q w.
Proof.
  intros HQ. unfold wp, syscall. destruct (calls w) as [|ok rest] eqn:Hc; simpl; [|apply HQ].
  specialize (HQ true []). by destruct w; simpl in *; subst.
Qed.

Lemma wp_socket (Q : outcome (option Z) -> world mem -> Prop) w :
  (forall cs, Q (Done None) (set_calls cs w)) ->
  (forall cs, Q (Done (Some (next_socket w))) (with_socket cs w)) -> wp socket Q w.
Proof.
  intros Hnone Hsome. unfold socket. apply wp_bind, wp_syscall. intros ok cs. cbn [wp_k].
  destruct ok; [apply Hsome|by apply wp_ret].
Qed.

Lemma wp_socket_ok (Q : outcome (option Z) -> world mem -> Prop) w :
  calls w = [] -> Q (Done (Some (next_socket w))) (with_socket [] w) -> wp socket Q w.
Proof.
  intros Hc HQ. unfold wp, socket, mbind, M_bind, syscall. rewrite Hc. simpl.
  by destruct w; simpl in *; subst.
Qed.

Lemma handles_ok_fresh w : handles_ok w -> next_socket w ∉ open_sockets w.
Proof. intros Hok Hin%Hok. lia. Qed.

Lemma handles_ok_socket cs w : handles_ok w -> handles_ok (with_socket cs w).
Proof.
  intros Hok s. simpl. intros [->%elem_of_singleton|Hs%Hok]%elem_of_union; lia.
Qed.
End handles.

(** ** What the calls leave alone, and what they keep *)

Section frames_lemmas.
Context {mem : Type}.
Implicit Types (w : world mem).

(** A component of the world that only the console does not touch, and so on:
    the frame lemmas the client proofs need, by component. *)
Lemma frames_printf {X} (f : world mem -> X) fmt args :
  (forall c w, f (set_console c w) = f w) -> frames f (printf fmt args).
Proof. intros H w. apply H. Qed.

Lemma frames_recv {X} (f : world mem -> X) cap :
  (forall i w, f (set_inbox i w) = f w) -> frames f (recv cap).
Proof.
  intros H w. unfold recv. destruct (inbox w) as [|[d| |] rest]; simpl; try done.
  case_bool_decide; apply H.
Qed.

Lemma frames_send {X} (f : world mem -> X) d :
  (forall o w, f (set_outbox o w) = f w) ->
  (forall r w, f (set_send_results r w) = f w) -> frames f (send d).
Proof.
  intros H1 H2 w. unfold send. destruct (send_results w) as [|[] rest]; simpl;
    by rewrite ?H1, ?H2.
Qed.

Lemma frames_syscall {X} (f : world mem -> X) :
  (forall c w, f (set_calls c w) = f w) -> frames f syscall.
Proof. intros H w. unfold syscall. destruct (calls w); simpl; by rewrite ?H. Qed.
End frames_lemmas.

#[export] Hint Extern 2 (frames _ (printf _ _)) => apply frames_printf; done : frames.
#[export] Hint Extern 2 (frames _ (recv _)) => apply frames_recv; done : frames.
#[export] Hint Extern 2 (frames _ (send _)) => apply frames_send; done : frames.
#[export] Hint Extern 2 (frames _ syscall) => apply frames_syscall; done : frames.
#[export] Hint Extern 3 (frames _ (modify _)) => apply frames_modify; done : frames.

(** Enough fuel for the events of an inbox: every [recv] consumes a byte of
    the stream or an event. *)
Definition inbox_size (evs : list recv_event) : nat :=
  sum_list_with (fun ev => match ev with RData d => S (length d) | _ => 1%nat end) evs.

Section recv_lemmas.
Context {mem : Type}.
Implicit Types (w : world mem).

Lemma recv_fits cap d rest w :
  inbox w = RData d :: rest -> (length d <= cap)%nat ->
  recv cap w = (Done (zlen d, d), set_inbox rest w).
Proof. intros Hi Hd. unfold recv. rewrite Hi. by rewrite bool_decide_eq_true_2. Qed.

Lemma recv_full cap d rest w :
  inbox w = RData d :: rest -> (cap <= length d)%nat ->
  exists w', recv cap w = (Done (zlen (take cap d), take cap d), w').
Proof.
  intros Hi Hd. unfold recv. rewrite Hi.
  assert (Hz : zlen (take cap d) = Z.of_nat cap) by (unfold zlen; rewrite length_take; lia).
  case_bool_decide; [|rewrite Hz; eauto]. rewrite take_ge by lia. eauto.
Qed.
Lemma send_any d w :
  exists ok w', send d w = (Done ok, w') /\ inbox w' = inbox w /\ disk w' = disk w /\
    can_create w' = can_create w /\ memory w' = memory w /\ stdin w' = stdin w /\
    (send_results w = [] -> send_results w' = [] /\ outbox w' = outbox w ++ [d]).
Proof.
  unfold send. destruct (send_results w) as [|[] rest]; eexists _, _; split; try done; by split_and!.
Qed.

Lemma recv_shrinks cap w n d w' :
  recv cap w = (Done (n, d), w') -> (0 < cap)%nat -> (inbox_size (inbox w') < inbox_size (inbox w))%nat.
Proof.
  unfold recv, inbox_size. destruct (inbox w) as [|[e| |] rest]; [done|..]; simpl.
  - case_bool_decide; intros [= <- <- <-] Hc; simpl; [lia|]. rewrite length_drop. lia.
  - intros [= <- <- <-] _. simpl. lia.
  - intros [= <- <- <-] _. simpl. lia.
Qed.
End recv_lemmas.

(** Everything but the memory, the inbox, the console and the open sockets. *)
Definition io_state {mem} (w : world mem) :=
  (stdin w, outbox w, send_results w, disk w, can_create w).

Lemma bind_printf {mem B} fmt args (f : unit -> M (world mem) B) w :
  (printf fmt args ≫= f) w = f tt (set_console (console w ++ [(fmt, args)]) w).
Proof. done. Qed.

Lemma bind_gets {S A B} (g : S -> A) (f : A -> M S B) s : (gets g ≫= f) s = f (g s) s.
Proof. done. Qed.
