(* ===== verification/Listing.v ===== *)
(** * The listing of the upload directory

    [create_file_list], [send_file_list] and [list_directory], which
    tomypeers.c and tomypeersV2.c share word for word. *)

From S2P Require Import Prelude CLib World.

Definition file_size64 (f : find_data) : Z :=
  u64 (u64 (Z.shiftl (nFileSizeHigh f) 32) + nFileSizeLow f).

(** The line sprintf builds for one entry: "%s (%lu bytes)\n". *)
Definition entry_line (f : find_data) : bytes :=
  cFileName f ++ bs " (" ++ dec (nFileSizeLow f) ++ bs " bytes)" ++ [10].

Definition not_dot (f : find_data) : bool :=
  negb (strcmp_eq (cFileName f) (bs ".")) && negb (strcmp_eq (cFileName f) (bs "..")).

Section listing.
Context `{Platform} {mem : Type}.

(** One entry: sprintf into [char file_info[256]], then strcat. *)
Definition append_entry (f : find_data) (file_list : bytes) : outcome bytes :=
  file_info ← write_at (indet_array 256) 0 (entry_line f ++ [0]);
  info ← c_string file_info;
  strcat file_list info.

(** The do-while loop over the entries found. *)
Fixpoint append_entries (fs : list find_data) (file_list : bytes) : outcome bytes :=
  match fs with
  | [] => Done file_list
  | f :: fs' =>
      if not_dot f then
        file_list' ← append_entry f file_list;
        append_entries fs' file_list'
      else append_entries fs' file_list
  end.

Definition report_scan_error (err : Z) : M (world mem) unit :=
  if err =? ERROR_NO_MORE_FILES then mret tt
  else printf "Error listing directory: %d\n" [AInt err].

(** The caller's array after the call. *)
Definition create_file_list (scan : dir_scan) (file_list : bytes) : M (world mem) bytes :=
  match scan with
  | FindFailed err =>
      printf "Error listing directory: %d\n" [AInt err];;
      mret file_list
  | Found first rest err =>
      file_list' ← lift (append_entries (first :: rest) file_list);
      report_scan_error err;;
      mret file_list'
  end.

Definition send_file_list (scan : dir_scan) : M (world mem) unit :=
  match scan with
  | FindFailed err => printf "Error listing directory: %d\n" [AInt err]
  | Found first rest err =>
      file_list ← lift (append_entries (first :: rest) (memset0 1024));
      report_scan_error err;;
      text ← lift (c_string file_list);
      send text;;
      mret tt
  end.

Fixpoint print_entries (fs : list find_data) : M (world mem) unit :=
  match fs with
  | [] => mret tt
  | f :: fs' =>
      (if is_directory f then mret tt
       else printf "%s (%llu bytes)\n" [AStr (cFileName f); AInt (file_size64 f)]);;
      print_entries fs'
  end.

Definition list_directory (scan : dir_scan) : M (world mem) unit :=
  match scan with
  | FindFailed err => printf "Error listing directory: %d\n" [AInt err]
  | Found first rest err =>
      printf "\nFiles in 'upload' directory:\n" [];;
      print_entries (first :: rest);;
      printf "\n" [];;
      report_scan_error err
  end.
End listing.

(** ** The listing as a text: the reference the buffers are compared with *)

Definition visible (fs : list find_data) : list find_data := List.filter not_dot fs.

Definition listing_text (fs : list find_data) : bytes := concat (map entry_line (visible fs)).

(** A file name and size for which sprintf stays inside [file_info]. *)
Definition entry_ok (f : find_data) : Prop :=
  no_nul (cFileName f) /\ 0 <= nFileSizeLow f /\ zlen (entry_line f) < 256.

Definition scan_entries (scan : dir_scan) : list find_data :=
  match scan with FindFailed _ => [] | Found first rest _ => first :: rest end.

Lemma digits_no_nul ds : Forall (fun c => is_digit c = true) ds -> no_nul ds.
Proof. intros H. eapply Forall_impl; [exact H|]. simpl. intros c ?%digit_range. lia. Qed.

Lemma entry_line_no_nul f : no_nul (cFileName f) -> 0 <= nFileSizeLow f -> no_nul (entry_line f).
Proof.
  intros Hn Hs. unfold entry_line, no_nul. rewrite !Forall_app.
  pose proof (digits_no_nul _ (dec_digit _ Hs)).
  repeat split; try done; repeat constructor; done.
Qed.

Lemma entry_line_Forall (P : Z -> Prop) f :
  Forall P (cFileName f) -> Forall P (dec (nFileSizeLow f)) ->
  Forall P (bs " (" ++ bs " bytes)" ++ [10]) -> Forall P (entry_line f).
Proof.
  intros Hn Hd Hr. unfold entry_line.
  apply Forall_app in Hr as [Hr1 [Hr2 Hr3]%Forall_app]. by rewrite !Forall_app.
Qed.

Lemma listing_text_Forall (P : Z -> Prop) fs :
  Forall (fun f => Forall P (entry_line f)) fs -> Forall P (listing_text fs).
Proof.
  intros H. unfold listing_text, visible. induction H as [|f fs Hf _ IH]; simpl; [done|].
  destruct (not_dot f); simpl; [|done]. by apply Forall_app.
Qed.

Section listing_lemmas.
Context `{Platform} {mem : Type}.
Implicit Types (w : world mem).

Lemma append_entry_sprintf f file_list :
  entry_ok f -> append_entry f file_list = strcat file_list (entry_line f).
Proof.
  intros (Hn & Hs & Hlen). unfold append_entry.
  destruct (store_string (indet_array 256) (entry_line f)) as (b & Hb & _ & Hs').
  { unfold zlen at 2. by rewrite indet_array_length. }
  rewrite Hb. simpl. rewrite Hs'. simpl.
  by rewrite until_nul_id by (by apply entry_line_no_nul).
Qed.

Lemma append_entries_done fs buf old :
  c_string buf = Done old -> Forall entry_ok (visible fs) ->
  zlen old + zlen (listing_text fs) < zlen buf ->
  exists buf', append_entries fs buf = Done buf' /\ length buf' = length buf /\
    c_string buf' = Done (old ++ listing_text fs).
Proof.
  revert buf old. induction fs as [|f fs IH]; intros buf old Hb Hok Hlen.
  - exists buf. unfold listing_text. simpl. by rewrite app_nil_r.
  - unfold listing_text, visible in *. simpl in *. destruct (not_dot f); simpl in *; [|by apply IH].
    apply Forall_cons in Hok as [Hf Hok]. rewrite append_entry_sprintf by done.
    rewrite zlen_app in Hlen. pose proof (zlen_nonneg (concat (map entry_line (List.filter not_dot fs)))).
    destruct (strcat_done buf old (entry_line f)) as (buf1 & Hs & Hl1 & Hc1); [done|lia|..].
    { by apply entry_line_no_nul; destruct Hf as (?&?&?). }
    rewrite Hs. simpl.
    destruct (IH buf1 (old ++ entry_line f)) as (buf2 & Ha & Hl2 & Hc2); [done..| |].
    { assert (Hz : zlen buf1 = zlen buf) by (unfold zlen; by rewrite Hl1).
      rewrite zlen_app. lia. }
    exists buf2. rewrite Ha, Hl2, Hl1, Hc2, app_assoc. done.
Qed.

Lemma append_entries_overflow fs buf old :
  c_string buf = Done old -> Forall entry_ok (visible fs) ->
  zlen old < zlen buf <= zlen old + zlen (listing_text fs) ->
  append_entries fs buf = Crash BufferOverflow.
Proof.
  revert buf old. induction fs as [|f fs IH]; intros buf old Hb Hok Hlen.
  - unfold listing_text in Hlen. simpl in Hlen. change (zlen (@nil Z)) with 0 in Hlen. lia.
  - unfold listing_text, visible in *. simpl in *. destruct (not_dot f); simpl in *; [|by eapply IH].
    apply Forall_cons in Hok as [Hf Hok]. rewrite append_entry_sprintf by done.
    rewrite zlen_app in Hlen.
    destruct (decide (zlen buf <= zlen old + zlen (entry_line f))) as [Hover|Hfit].
    { by rewrite (strcat_overflow _ old). }
    destruct (strcat_done buf old (entry_line f)) as (buf1 & Hs & Hl1 & Hc1); [done|lia|..].
    { by apply entry_line_no_nul; destruct Hf as (?&?&?). }
    rewrite Hs. simpl. apply (IH buf1 (old ++ entry_line f)); [done..|].
    assert (Hz : zlen buf1 = zlen buf) by (unfold zlen; by rewrite Hl1).
    rewrite zlen_app. lia.
Qed.

Lemma c_string_memset0 n : (0 < n)%nat -> c_string (memset0 n) = Done [].
Proof. destruct n; [lia|done]. Qed.
End listing_lemmas.

(** What an array holds after the loop is made of the characters of the lines. *)
Lemma append_entries_Forall `{Platform} (P : Z -> Prop) fs buf old buf' :
  c_string buf = Done old -> Forall P old ->
  Forall (fun f => Forall P (entry_line f)) fs ->
  append_entries fs buf = Done buf' ->
  exists s, c_string buf' = Done s /\ Forall P s.
Proof.
  intros Hb Hold Hfs. revert buf old Hb Hold.
  induction Hfs as [|f fs Hf _ IH]; intros buf old Hb Hold; simpl.
  - intros [= <-]. eauto.
  - destruct (not_dot f); [|by eapply IH].
    intros [buf1 [Ha Hr]]%outcome_bind_done.
    unfold append_entry in Ha. apply outcome_bind_done in Ha as [info [Hi Ha]].
    apply outcome_bind_done in Ha as [i [Hci Hs]].
    assert (Hin : Forall P i).
    { unfold write_at in Hi. destruct (_ && _); [|done]. injection Hi as <-.
      simpl in Hci. rewrite <- app_assoc in Hci. simpl in Hci.
      rewrite c_string_terminated in Hci. injection Hci as <-. by apply until_nul_Forall. }
    destruct (strcat_inv _ _ _ _ Hb Hs) as [_ Hc].
    eapply IH; [exact Hc| |exact Hr].
    apply Forall_app. split; [done|]. by apply until_nul_Forall.
Qed.

(** ** Sending the listing *)

Section listing_properties.
Context `{Platform} {mem : Type}.
Implicit Types (w : world mem).

(** The two arrays of a session hold the text of the directory when it fits. *)
Lemma listing_array n scan :
  Forall entry_ok (visible (scan_entries scan)) ->
  zlen (listing_text (scan_entries scan)) < Z.of_nat n -> (0 < n)%nat ->
  exists buf, append_entries (scan_entries scan) (memset0 n) = Done buf /\
    c_string buf = Done (listing_text (scan_entries scan)).
Proof.
  intros Hok Hlen Hn.
  destruct (append_entries_done (scan_entries scan) (memset0 n) []) as (buf & Ha & _ & Hc).
  - by apply c_string_memset0.
  - done.
  - unfold memset0, zlen at 1 3. rewrite length_replicate. simpl. lia.
  - eauto.
Qed.

Lemma report_scan_error_run err w :
  exists c, report_scan_error err w = (Done tt, set_console c w).
Proof.
  unfold report_scan_error. destruct (err =? _).
  - exists (console w). by destruct w.
  - eauto.
Qed.

Lemma send_run d w :
  send_results w = [] -> send d w = (Done true, set_outbox (outbox w ++ [d]) w).
Proof. intros Hs. unfold send. rewrite Hs. destruct w. simpl in *. by subst. Qed.

(** C7: The directory listing is sent exactly when it is shorter than the
    1024-byte array that holds it: then the single payload is the line
    "name (size bytes)" of every entry other than . and .., in the order of the
    scan; otherwise strcat writes past the array and nothing has been sent. *)
Theorem send_file_list_exact first rest err w :
  let scan := Found first rest err in
  Forall entry_ok (visible (scan_entries scan)) -> send_results w = [] ->
  wp (send_file_list scan)
    (fun o w' =>
       if decide (zlen (listing_text (scan_entries scan)) < 1024)
       then o = Done tt /\ outbox w' = outbox w ++ [listing_text (scan_entries scan)]
       else o = Crash BufferOverflow /\ w' = w) w.
Proof.
  intros scan Hok Hs. unfold send_file_list. subst scan. cbn [scan_entries] in *.
  apply wp_bind, wp_lift. case_decide as Hlen.
  - destruct (listing_array 1024 (Found first rest err)) as (buf & Ha & Hc); [done..|lia|].
    cbn [scan_entries] in Ha. rewrite Ha. cbn [wp_k].
    destruct (report_scan_error_run err w) as [c Hr].
    apply wp_bind. eapply wp_intro; [exact Hr|]. cbn [wp_k].
    apply wp_bind, wp_lift. rewrite Hc. cbn [wp_k scan_entries].
    apply wp_bind. eapply wp_intro; [by apply send_run|]. cbn [wp_k]. by apply wp_ret.
  - rewrite (append_entries_overflow _ _ []); [done|by apply c_string_memset0; lia|done|].
    change (zlen (memset0 1024)) with 1024. change (zlen (@nil Z)) with 0. lia.
Qed.

(** The local listing prints every regular file of the directory with its full
    64-bit size, in scan order, and no directory. *)
Theorem list_directory_spec first rest w :
  wp (list_directory (Found first rest ERROR_NO_MORE_FILES))
    (fun o w' => o = Done tt /\
       console w' = console w ++
         [("\nFiles in 'upload' directory:\n", [])] ++
         map (fun f => ("%s (%llu bytes)\n", [AStr (cFileName f); AInt (file_size64 f)]))
           (List.filter (fun f => negb (is_directory f)) (first :: rest)) ++
         [("\n", [])]) w.
Proof.
  assert (Hp : forall fs w, exists w', print_entries fs w = (Done tt, w') /\
    console w' = console w ++
      map (fun f => ("%s (%llu bytes)\n", [AStr (cFileName f); AInt (file_size64 f)]))
        (List.filter (fun f => negb (is_directory f)) fs)).
  { induction fs as [|f fs IH]; intros v; simpl.
    - exists v. by rewrite app_nil_r.
    - unfold mbind, M_bind. destruct (is_directory f); simpl.
      + apply IH.
      + edestruct IH as (w' & Hr & Hc). exists w'. split; [exact Hr|].
        rewrite Hc. simpl. by rewrite <- app_assoc. }
  unfold list_directory. apply wp_bind, wp_modify. cbn [wp_k]. apply wp_bind.
  edestruct (Hp (first :: rest)) as (w' & Hr & Hc). eapply wp_intro; [exact Hr|]. cbn [wp_k].
  apply wp_bind, wp_modify. cbn [wp_k]. apply wp_ret. split; [done|].
  simpl console at 1. rewrite Hc. simpl console at 1. by rewrite <- !app_assoc.
Qed.
End listing_properties.

Definition demo_scan : dir_scan :=
  Found (FindData (bs ".") true 0 0)
    [FindData (bs "..") true 0 0; FindData (bs "a.txt") false 0 5;
     FindData (bs "docs") true 0 0; FindData (bs "big.iso") false 1 7] ERROR_NO_MORE_FILES.

Lemma send_file_list_exact_witness :
  let w := World tt [] [] [] [] [] [] 0 ∅ ∅ (fun _ => true) [] [] in
  exists P : Platform,
    Forall entry_ok (visible (scan_entries demo_scan)) /\
    zlen (listing_text (scan_entries demo_scan)) = 49 /\
    wp (send_file_list demo_scan)
      (fun o w' =>
         if decide (zlen (listing_text (scan_entries demo_scan)) < 1024)
         then o = Done tt /\ outbox w' = outbox w ++ [listing_text (scan_entries demo_scan)]
         else o = Crash BufferOverflow /\ w' = w) w.
Proof.
  intros w. exists demo_platform.
  assert (Hok : Forall entry_ok (visible (scan_entries demo_scan))).
  { repeat constructor; done. }
  split; [exact Hok|]. split; [reflexivity|].
  exact (@send_file_list_exact demo_platform unit _ _ _ w Hok eq_refl).
Defined.

(** ** Lines as the peer reads them back *)

(** An entry whose line can be read back: a name of 1 to 71 bytes without white
    space, and a size below 2 GiB. *)
Definition listable (f : find_data) : Prop :=
  cFileName f <> [] /\ Forall (fun c => is_space c = false) (cFileName f) /\
  no_nul (cFileName f) /\ zlen (cFileName f) <= 71 /\ 0 <= nFileSizeLow f < 2147483648.

Definition token (f : find_data) : bytes :=
  cFileName f ++ bs " (" ++ dec (nFileSizeLow f) ++ bs " bytes)".

Definition name_and_size (f : find_data) : bytes * Z := (cFileName f, nFileSizeLow f).

Lemma entry_line_token f : entry_line f = token f ++ [10].
Proof. unfold entry_line, token. by rewrite <- !app_assoc. Qed.

Lemma token_line f : listable f -> token f <> [] /\ Forall (fun c => c <> 10) (token f).
Proof.
  intros (Hne & Hsp & _ & _ & Hs). unfold token. split; [by destruct (cFileName f)|].
  rewrite !Forall_app. split_and!.
  - eapply Forall_impl; [exact Hsp|]. simpl. intros c Hc ->. done.
  - repeat constructor; done.
  - eapply Forall_impl; [apply dec_digit; lia|]. simpl. intros c ?%digit_range. lia.
  - repeat constructor; done.
Qed.

Lemma strtok_listing fs :
  Forall listable (visible fs) -> strtok 10 [] (listing_text fs) = map token (visible fs).
Proof.
  intros Hl. unfold listing_text.
  replace (map entry_line (visible fs)) with (map (fun l => l ++ [10]) (map token (visible fs))).
  - apply strtok_lines. rewrite Forall_map. eapply Forall_impl; [exact Hl|]. apply token_line.
  - rewrite map_map. apply map_ext. intros f. by rewrite entry_line_token.
Qed.

Lemma listing_no_nul fs : Forall listable (visible fs) -> no_nul (listing_text fs).
Proof.
  unfold listing_text. induction 1 as [|f fs' Hf _ IH]; simpl; [by constructor|].
  apply Forall_app. split; [|done]. destruct Hf as (_ & _ & Hn & _ & Hs).
  apply entry_line_no_nul; [done|lia].
Qed.
