(* ===== verification/Server.v ===== *)
(** * The serving side

    The background thread of a peer: [listen_for_connections] of tomypeersV2.c
    (and of tomypeers.c, which differs in one message): set up the listening
    socket, then for every accepted connection send the listing and answer file
    requests until the client leaves. *)

From S2P Require Import Prelude CLib World Listing.

Definition no_such_file : bytes := bs "File does not exist.".

Section server.
Context `{Platform} {mem : Type}.

(** The fread/send loop, [char file_buffer[3072]]. *)
Fixpoint send_file (fuel : nat) (content : bytes) : M (world mem) unit :=
  match fuel with
  | O => no_fuel
  | S fuel' =>
      match content with
      | [] => mret tt
      | _ =>
          ok ← send (take 3072 content);
          if ok : bool then send_file fuel' (drop 3072 content)
          else printf "Error sending file data: %d\n" [AInt last_error]
      end
  end.

(** The answer to one request, [file_list] being the text of the listing. *)
Definition answer_request (file_list file_name : bytes) : M (world mem) unit :=
  if strstr file_list file_name then
    let upload_path := snprintf_concat 128 (bs "upload/") file_name in
    file ← gets (fun w => disk w !! upload_path);
    match file with
    | Some content =>
        printf "Sending file '%s' to connection...\n" [AStr file_name];;
        send_file (S (length content)) content
    | None => printf "Error opening file '%s': %d\n" [AStr file_name; AInt last_error]
    end
  else
    send no_such_file;;
    mret tt.

(** The receive loop of a session; [file_list] and [file_name] are the arrays. *)
Fixpoint serve_requests (grab : string) (fuel : nat) (file_list file_name : bytes)
  : M (world mem) unit :=
  match fuel with
  | O => no_fuel
  | S fuel' =>
      printf grab [];;
      '(bytes_received, d) ← recv 128;
      if 0 <? bytes_received then
        file_name ← lift (write_at file_name 0 d);
        file_name ← lift (write_at file_name bytes_received [0]);
        name ← lift (c_string file_name);
        printf "\nFile wanted from connection: %s\n" [AStr name];;
        list ← lift (c_string file_list);
        answer_request list name;;
        if strcmp_eq name (bs "exit") then mret tt
        else serve_requests grab fuel' file_list file_name
      else if bytes_received =? 0 then printf "Client disconnected.\n" []
      else printf "Recv error: %d\n" [AInt last_error]
  end.

Definition serve_client (grab : string) (scan1 scan2 : dir_scan) : M (world mem) unit :=
  send_file_list scan1;;
  file_list ← create_file_list scan2 (memset0 2048);
  fuel ← gets (fun w => S (inbox_size (inbox w)));
  serve_requests grab fuel file_list (indet_array 128).

(** The accept loop; the directory is scanned twice for every connection. *)
Fixpoint accept_loop (grab : string) (listen_socket : Z) (scans : list (dir_scan * dir_scan))
  : M (world mem) unit :=
  match scans with
  | [] => wait
  | (scan1, scan2) :: scans' =>
      client ← accept;
      match client with
      | None =>
          printf "Accept failed: %d\n" [AInt last_error];;
          closesocket listen_socket
      | Some client_socket =>
          printf "Incoming connection accepted from %s:%d\n" [];;
          serve_client grab scan1 scan2;;
          closesocket client_socket;;
          accept_loop grab listen_socket scans'
      end
  end.

(** One step of the set-up: on failure report, close the socket and return. *)
Definition guard_call (listen_socket : Z) (msg : string) (k : M (world mem) unit)
  : M (world mem) unit :=
  ok ← syscall;
  if ok : bool then k
  else printf msg [AInt last_error];; closesocket listen_socket.

Definition listen_for_connections (grab : string) (scans : list (dir_scan * dir_scan))
  : M (world mem) unit :=
  s ← socket;
  match s with
  | None => printf "Error creating listen socket: %d\n" [AInt last_error]
  | Some listen_socket =>
      guard_call listen_socket "Bind failed with error: %d\n" (
      guard_call listen_socket "Error getting hostname: %d\n" (
      guard_call listen_socket "Error getting host information: %d\n" (
      printf "\nHosted on IP address: %s\n" [];;
      printf "Hosted on port number: %d\n" [AInt 12172];;
      guard_call listen_socket "Listen failed with error: %d\n" (
      printf "Listening for incoming connections...\n" [];;
      accept_loop grab listen_socket scans))))
  end.
End server.

(** ** Frames: a session touches neither the disk nor the open sockets *)

Section server_frames.
Context `{Platform} {mem : Type}.

(** A component that printing, receiving and sending leave alone. *)
Definition io_frame {X} (f : world mem -> X) : Prop :=
  (forall x w, f (set_console x w) = f w) /\ (forall x w, f (set_inbox x w) = f w) /\
  (forall x w, f (set_outbox x w) = f w) /\ (forall x w, f (set_send_results x w) = f w).

Context {X : Type} (f : world mem -> X) (Hf : io_frame f).

Lemma io_printf fmt args : frames f (printf fmt args).
Proof. apply frames_printf, Hf. Qed.

Lemma io_recv cap : frames f (recv cap).
Proof. apply frames_recv, Hf. Qed.

Lemma io_send d : frames f (send d).
Proof. apply frames_send; apply Hf. Qed.

#[local] Hint Resolve io_printf io_recv io_send : frames.

Lemma send_file_frames fuel content : frames f (send_file fuel content).
Proof.
  revert content. induction fuel as [|fuel IH]; intros content; cbn [send_file].
  - apply frames_lift.
  - solve_frames.
Qed.

#[local] Hint Resolve send_file_frames : frames.

Lemma answer_request_frames l n : frames f (answer_request l n).
Proof. unfold answer_request. solve_frames. Qed.

#[local] Hint Resolve answer_request_frames : frames.

Lemma serve_requests_frames grab fuel l n : frames f (serve_requests grab fuel l n).
Proof.
  revert l n. induction fuel as [|fuel IH]; intros l n; cbn [serve_requests].
  - apply frames_lift.
  - solve_frames.
Qed.

Lemma create_file_list_frames scan l : frames f (create_file_list scan l).
Proof. unfold create_file_list, report_scan_error. solve_frames. Qed.

Lemma send_file_list_frames scan : frames f (send_file_list scan).
Proof. unfold send_file_list, report_scan_error. solve_frames. Qed.

#[local] Hint Resolve serve_requests_frames create_file_list_frames send_file_list_frames : frames.

Lemma serve_client_frames grab s1 s2 : frames f (serve_client grab s1 s2).
Proof. unfold serve_client. solve_frames. Qed.
End server_frames.

Lemma io_frame_disk {mem} : io_frame (mem := mem) disk.
Proof. done. Qed.

Lemma io_frame_sockets {mem} : io_frame (mem := mem) (fun w => (open_sockets w, next_socket w)).
Proof. done. Qed.

(** ** Answering a request *)

Section server_properties.
Context `{Platform} {mem : Type}.
Implicit Types (w : world mem).

Lemma send_file_run fuel content w :
  send_results w = [] -> (length content < fuel)%nat ->
  send_file fuel content w =
    (Done tt, set_outbox (outbox w ++ pieces (length content) 3072 content) w).
Proof.
  assert (Hgen : forall n, (length content <= n)%nat -> (length content < fuel)%nat ->
    send_results w = [] ->
    send_file fuel content w = (Done tt, set_outbox (outbox w ++ pieces n 3072 content) w)).
  { revert content w. induction fuel as [|fuel IH]; intros content w n Hn Hf Hs; [lia|].
    cbn [send_file]. destruct content as [|c content].
    - destruct n; simpl; rewrite app_nil_r; by destruct w.
    - destruct n as [|n]; [simpl in Hn; lia|].
      unfold mbind, M_bind. unfold send at 1. rewrite Hs.
      assert (Hl : (length (drop 3072 (c :: content)) <= length content)%nat).
      { rewrite length_drop. simpl length. lia. }
      simpl in Hn, Hf. rewrite (IH _ _ n); [|lia|lia|done].
      cbn [pieces]. simpl. rewrite <- app_assoc. destruct w. simpl in *. by subst. }
  intros. by apply Hgen.
Qed.

(** The payloads sent for a file: at most 3072 bytes each, its bytes in order. *)
Lemma send_file_payloads (content : bytes) :
  let sent := pieces (length content) 3072 content in
  concat sent = content /\ Forall (fun p => 0 < length p <= 3072)%nat sent.
Proof. split; [apply concat_pieces; lia|apply pieces_bounds; lia]. Qed.

Lemma answer_request_post file_list file_name w :
  send_results w = [] ->
  wp (answer_request file_list file_name)
    (fun o w' => o = Done tt /\ disk w' = disk w /\
      exists sent, outbox w' = outbox w ++ sent /\
        Forall (fun p => 0 < length p <= 3072)%nat sent /\
        concat sent =
          if strstr file_list file_name then
            default [] (disk w !! snprintf_concat 128 (bs "upload/") file_name)
          else bs "File does not exist.") w.
Proof.
  intros Hs. unfold answer_request. destruct (strstr file_list file_name).
  - apply wp_bind, wp_gets. cbn [wp_k]. destruct (disk w !! _) as [content|]; cbn [default].
    + apply wp_bind, wp_modify. cbn [wp_k].
      eapply wp_intro; [apply send_file_run; [done|lia]|]. simpl.
      destruct (send_file_payloads content) as [Hc Hb]. eauto 8.
    + apply wp_modify. simpl. split_and!; [done..|]. exists []. by rewrite app_nil_r.
  - apply wp_bind. unfold wp, send. rewrite Hs. simpl. unfold wp. simpl.
    split_and!; [done..|]. exists [no_such_file]. split; [done|]. split; [|by vm_compute].
    constructor; [|done]. vm_compute. lia.
Qed.

(** C5: A request is answered on every branch as the code means to, when no send
    fails: a name that occurs in the listing and opens is answered by exactly
    the bytes of the file in payloads of 1 to 3072 bytes; a name that occurs in
    the listing but does not open is answered by nothing at all; any other name
    is answered by the 20 bytes "File does not exist."; and the disk is only
    read. *)
Theorem answer_request_spec file_list file_name w :
  send_results w = [] ->
  wp (answer_request file_list file_name)
    (fun o w' => o = Done tt /\ disk w' = disk w /\
      exists sent, outbox w' = outbox w ++ sent /\
        Forall (fun p => 0 < length p <= 3072)%nat sent /\
        concat sent =
          if strstr file_list file_name then
            default [] (disk w !! snprintf_concat 128 (bs "upload/") file_name)
          else bs "File does not exist.") w.
Proof. apply answer_request_post. Qed.

Definition demo_file : find_data := FindData (bs "a.txt") false 0 5.
Definition demo_world : world unit :=
  World tt [] [RData (bs "a.txt"); RClosed] [] [] [] [] 0 ∅
    {[ bs "upload/a.txt" := bs "hello" ]} (fun _ => true) [] [].
End server_properties.

Lemma answer_request_spec_witness :
  exists (P : Platform) (file_list file_name : bytes),
    send_results demo_world = [] /\
    wp (answer_request file_list file_name)
      (fun o w' => o = Done tt /\ disk w' = disk demo_world /\
        exists sent, outbox w' = outbox demo_world ++ sent /\
          Forall (fun p => 0 < length p <= 3072)%nat sent /\
          concat sent =
            if strstr file_list file_name then
              default [] (disk demo_world !! snprintf_concat 128 (bs "upload/") file_name)
            else bs "File does not exist.") demo_world.
Proof.
  exists demo_platform, (entry_line demo_file), (bs "a.txt").
  split; [reflexivity|].
  apply (@answer_request_spec demo_platform unit (entry_line demo_file) (bs "a.txt") demo_world).
  reflexivity.
Defined.

(** ** Confinement: only files directly inside upload/ matter *)

Section confinement.
Context `{Platform} {mem : Type}.
Implicit Types (w : world mem).

(** Neither path separator of Windows. *)
Definition no_separator (s : bytes) : Prop := Forall (fun c => c <> 47 /\ c <> 92) s.

(** The paths the server may open: upload/ and one path component. *)
Definition upload_path (p : bytes) : Prop :=
  exists c, no_separator c /\ p = snprintf_concat 128 (bs "upload/") c.

(** Two worlds that differ at most in files outside of upload/. *)
Definition same_uploads w1 w2 : Prop :=
  w2 = set_disk (disk w2) w1 /\ forall p, upload_path p -> disk w1 !! p = disk w2 !! p.

(** [m] does the same in such worlds: same outcome, same payloads and console. *)
Definition confined {A} (m : M (world mem) A) : Prop :=
  forall w1 w2, same_uploads w1 w2 ->
    fst (m w1) = fst (m w2) /\ same_uploads (snd (m w1)) (snd (m w2)).

Lemma confined_bind {A B} (m : M (world mem) A) (f : A -> M (world mem) B) :
  confined m -> (forall a, confined (f a)) -> confined (m ≫= f).
Proof.
  intros Hm Hf w1 w2 Hw. destruct (Hm w1 w2 Hw) as [Ho Hs]. unfold mbind, M_bind.
  destruct (m w1) as [o1 w1'], (m w2) as [o2 w2']. simpl in *. subst.
  destruct o2; simpl; [by apply Hf|done..].
Qed.

(** The same when the first program only returns values in [P]. *)
Lemma confined_bind_post {A B} (P : A -> Prop) (m : M (world mem) A) (f : A -> M (world mem) B) :
  confined m -> (forall w a w', m w = (Done a, w') -> P a) ->
  (forall a, P a -> confined (f a)) -> confined (m ≫= f).
Proof.
  intros Hm HP Hf w1 w2 Hw. destruct (Hm w1 w2 Hw) as [Ho Hs].
  specialize (HP w1). unfold mbind, M_bind.
  destruct (m w1) as [o1 w1'], (m w2) as [o2 w2']. simpl in *. subst.
  destruct o2; simpl; [by eapply Hf; eauto|done..].
Qed.

Lemma confined_ret {A} (a : A) : confined (mret a).
Proof. by intros w1 w2 Hw. Qed.

Lemma confined_lift {A} (o : outcome A) : confined (lift o).
Proof. by intros w1 w2 Hw. Qed.

Lemma confined_gets {A} (f : world mem -> A) :
  (forall w1 w2, same_uploads w1 w2 -> f w1 = f w2) -> confined (gets f).
Proof. intros Hf w1 w2 Hw. simpl. split; [|done]. by rewrite (Hf _ _ Hw). Qed.

Lemma confined_modify (f : world mem -> world mem) :
  (forall w d, f (set_disk d w) = set_disk d (f w)) ->
  (forall w, disk (f w) = disk w) -> confined (modify f).
Proof.
  intros Hf Hd w1 w2 [Hw Hp]. split; [done|]. simpl. split.
  - rewrite Hd. rewrite Hw at 1. by rewrite Hf.
  - intros p ?. rewrite !Hd. by apply Hp.
Qed.

Lemma confined_printf fmt args : confined (printf fmt args).
Proof. by apply confined_modify. Qed.

Lemma confined_send d : confined (send d).
Proof.
  intros w1 w2 [Hw Hp]. rewrite Hw. unfold send. destruct w1, w2. simpl in *.
  destruct send_results as [|[] ?]; simpl; split; try done; split; simpl; done.
Qed.

Lemma confined_recv cap : confined (recv cap).
Proof.
  intros w1 w2 [Hw Hp]. rewrite Hw. unfold recv. destruct w1, w2. simpl in *.
  destruct inbox as [|[d| |] ?]; simpl; try (split; [done|split; done]).
  case_bool_decide; simpl; split; try done; split; simpl; done.
Qed.

Lemma confined_no_fuel {A} : confined (no_fuel : M (world mem) A).
Proof. apply confined_lift. Qed.

#[local] Hint Resolve confined_ret confined_lift confined_no_fuel confined_printf
  confined_send confined_recv : confined.

Ltac solve_confined :=
  repeat match goal with
  | |- confined (_ ≫= _) => apply confined_bind; [|intros]
  | |- confined (if ?b then _ else _) => destruct b
  | |- confined (match ?x with _ => _ end) => destruct x
  | |- _ => solve [eauto 3 with confined]
  end.

Lemma confined_send_file fuel content : confined (send_file fuel content).
Proof.
  revert content. induction fuel as [|fuel IH]; intros content; cbn [send_file]; solve_confined.
Qed.

#[local] Hint Resolve confined_send_file : confined.

Lemma confined_answer file_list name :
  no_separator file_list -> confined (answer_request file_list name).
Proof.
  intros Hl. unfold answer_request. destruct (strstr file_list name) eqn:E; [|solve_confined].
  apply confined_bind; [|intros ?; solve_confined].
  apply confined_gets. intros w1 w2 [_ Hp]. apply Hp. exists name.
  split; [|done]. by eapply strstr_Forall.
Qed.

Lemma confined_requests grab fuel file_list name text :
  c_string file_list = Done text -> no_separator text ->
  confined (serve_requests grab fuel file_list name).
Proof.
  intros Hc Ht. revert name. induction fuel as [|fuel IH]; intros name;
    cbn [serve_requests]; rewrite ?Hc; [apply confined_lift|].
  apply confined_bind; [apply confined_printf|intros _].
  apply confined_bind; [apply confined_recv|intros [n d]].
  destruct (0 <? n); [|solve_confined].
  do 3 (apply confined_bind; [apply confined_lift|intros ?]).
  apply confined_bind; [apply confined_printf|intros _].
  intros w1 w2 Hw. rewrite !bind_lift_done. revert w1 w2 Hw.
  apply confined_bind; [by apply confined_answer|intros _]. solve_confined.
Qed.

Lemma no_separator_line f :
  0 <= nFileSizeLow f -> no_separator (cFileName f) -> no_separator (entry_line f).
Proof.
  intros Hs Hn. apply entry_line_Forall; [done| |].
  - eapply Forall_impl; [by apply dec_digit|]. simpl. intros c ?%digit_range. lia.
  - repeat constructor; done.
Qed.

(** What the array of the allowed names holds after [create_file_list]. *)
Lemma create_file_list_text scan w file_list w' :
  Forall (fun f => 0 <= nFileSizeLow f /\ no_separator (cFileName f)) (scan_entries scan) ->
  create_file_list scan (memset0 2048) w = (Done file_list, w') ->
  exists text, c_string file_list = Done text /\ no_separator text.
Proof.
  intros Hn. unfold create_file_list.
  assert (H0 : c_string (memset0 2048) = Done []) by (apply c_string_memset0; lia).
  destruct scan as [err|first rest err].
  - intros (_ & w1 & _ & E)%bind_inv_done. injection E as <- <-. exists [].
    split; [done|constructor].
  - intros (buf & w1 & Ha & E)%bind_inv_done.
    apply bind_inv_done in E as (_ & w2 & _ & E). injection E as <- <-.
    injection Ha as Ha <-.
    eapply (append_entries_Forall (fun c => c <> 47 /\ c <> 92)); [exact H0|done| |exact (Ha : append_entries (first :: rest) _ = _)].
    eapply Forall_impl; [exact Hn|]. simpl. intros f [? ?]. by apply no_separator_line.
Qed.

(** C2: Confinement (no path traversal).  When no name in the upload directory
    contains a path separator, which Windows guarantees, a whole session behaves
    the same, in its outcome, in every payload it sends and in its console, on
    any two disks that agree on the files directly inside upload/: whatever a
    client sends, it learns nothing about any other file. *)
Theorem serve_client_confined grab scan1 scan2 :
  Forall (fun f => 0 <= nFileSizeLow f /\ no_separator (cFileName f)) (scan_entries scan2) ->
  confined (serve_client grab scan1 scan2).
Proof.
  intros Hn. unfold serve_client.
  apply confined_bind; [unfold send_file_list, report_scan_error; solve_confined|intros _].
  eapply (confined_bind_post (fun fl => exists text, c_string fl = Done text /\ no_separator text)).
  - unfold create_file_list, report_scan_error. solve_confined.
  - intros w a w'. by apply create_file_list_text.
  - intros file_list (text & Hc & Ht). apply confined_bind.
    + apply confined_gets. intros w1 w2 [-> _]. done.
    + intros fuel. by eapply confined_requests.
Qed.
End confinement.

Lemma serve_client_confined_witness :
  exists P : Platform,
    Forall (fun f => 0 <= nFileSizeLow f /\ no_separator (cFileName f))
      (scan_entries (Found demo_file [] 18)) /\
    confined (mem := unit) (@serve_client P unit "" (FindFailed 2) (Found demo_file [] 18)).
Proof.
  exists demo_platform.
  assert (Hn : Forall (fun f => 0 <= nFileSizeLow f /\ no_separator (cFileName f))
    (scan_entries (Found demo_file [] 18))).
  { repeat constructor; done. }
  split; [exact Hn|]. exact (@serve_client_confined demo_platform unit "" _ _ Hn).
Defined.

(** ** Memory safety of a session *)

Section session_safety.
Context `{Platform} {mem : Type}.
Implicit Types (w : world mem).

(** Every delivery is shorter than the 128-byte array of the request. *)
Definition short_requests (evs : list recv_event) : Prop :=
  Forall (fun ev => match ev with RData d => (length d < 128)%nat | _ => True end) evs.

Definition inbox_is (i : list recv_event) w : Prop := inbox w = i.

Lemma keeps_printf i fmt args : keeps (inbox_is i) (printf fmt args).
Proof. by apply keeps_modify. Qed.

Lemma keeps_send i d : keeps (inbox_is i) (send d).
Proof. intros w Hw. unfold wp, send. by destruct (send_results w) as [|[] ?]. Qed.

#[local] Hint Resolve keeps_printf keeps_send : keeps.

Lemma keeps_send_file i fuel content :
  (length content < fuel)%nat -> keeps (inbox_is i) (send_file fuel content).
Proof.
  revert content. induction fuel as [|fuel IH]; intros content Hf; [lia|]. cbn [send_file].
  destruct content as [|c content]; [apply keeps_ret|].
  apply keeps_bind; [auto with keeps|]. intros []; [|auto with keeps].
  apply IH. rewrite length_drop. simpl in *. lia.
Qed.

Lemma keeps_answer i l n : keeps (inbox_is i) (answer_request l n).
Proof.
  unfold answer_request. destruct (strstr l n).
  - apply keeps_bind; [auto with keeps|]. intros [content|]; [|auto with keeps].
    apply keeps_bind; [auto with keeps|]. intros _. apply keeps_send_file. lia.
  - apply keeps_bind; auto with keeps.
Qed.

Lemma serve_requests_no_fault grab fuel file_list file_name text w :
  c_string file_list = Done text -> length file_name = 128%nat ->
  short_requests (inbox w) -> (inbox_size (inbox w) < fuel)%nat ->
  wp (serve_requests grab fuel file_list file_name) (fun o _ => no_fault o) w.
Proof.
  intros Hc. revert file_name w. induction fuel as [|fuel IH]; intros name w Hn Hi Hf; [lia|].
  cbn [serve_requests]. apply wp_bind, wp_modify. cbn [wp_k].
  set (w1 := set_console _ w). change (inbox w) with (inbox w1) in *. clearbody w1. clear w.
  apply wp_bind. unfold wp, recv. destruct (inbox w1) as [|ev rest] eqn:E; [done|].
  inversion_clear Hi as [|? ? Hev Hrest]. unfold inbox_size in Hf. simpl in Hf.
  destruct ev as [d| |]; [|done|done].
  rewrite bool_decide_eq_true_2 by lia. cbn [fst snd wp_k].
  destruct (Z.ltb_spec 0 (zlen d)) as [Hd|Hd]; [|by destruct (zlen d =? 0)].
  destruct (store_terminated name d) as (n1 & n2 & H1 & H2 & Hl & Hs); [unfold zlen; lia|].
  apply wp_bind, wp_lift. rewrite H1. cbn [wp_k].
  apply wp_bind, wp_lift. rewrite H2. cbn [wp_k].
  apply wp_bind, wp_lift. rewrite Hs. cbn [wp_k].
  apply wp_bind, wp_modify. cbn [wp_k]. apply wp_bind, wp_lift. rewrite Hc. cbn [wp_k].
  apply wp_bind. eapply wp_mono; [by eapply (keeps_answer rest)|].
  intros o w2 [Ho Hw2]. destruct o; cbn [wp_k]; try done.
  destruct (strcmp_eq _ _); [done|]. apply IH; [congruence|by rewrite Hw2|].
  rewrite Hw2. unfold inbox_size. lia.
Qed.

(** The payloads of the listing: none when the directory cannot be opened. *)
Definition sent_listing (scan : dir_scan) : list bytes :=
  match scan with
  | FindFailed _ => []
  | Found _ _ _ => [listing_text (scan_entries scan)]
  end.

(** The two scans before the request loop, when the listing fits. *)
Lemma listing_setup scan w :
  Forall entry_ok (visible (scan_entries scan)) ->
  zlen (listing_text (scan_entries scan)) < 1024 ->
  exists w1 w2 fl, send_file_list scan w = (Done tt, w1) /\
    create_file_list scan (memset0 2048) w1 = (Done fl, w2) /\
    inbox w2 = inbox w /\ disk w2 = disk w /\
    (send_results w = [] -> send_results w2 = [] /\ outbox w2 = outbox w ++ sent_listing scan) /\
    c_string fl = Done (listing_text (scan_entries scan)).
Proof.
  intros Hok Hlen.
  destruct (listing_array 1024 scan) as (b1 & Ha1 & Hc1); [done|lia|lia|].
  destruct (listing_array 2048 scan) as (b2 & Ha2 & Hc2); [done|lia|lia|].
  destruct scan as [err|first rest err]; cbn [scan_entries sent_listing] in *.
  - eexists _, _, _. split; [done|]. split; [done|]. split; [done|]. split; [done|].
    split; [by rewrite app_nil_r|]. by apply c_string_memset0; lia.
  - unfold send_file_list, create_file_list. rewrite Ha1, Ha2.
    rewrite !bind_lift_done. destruct (report_scan_error_run err w) as [c1 Hr1].
    rewrite (bind_done _ _ _ _ _ Hr1), Hc1, bind_lift_done.
    destruct (send_any (listing_text (first :: rest)) (set_console c1 w))
      as (ok & w1 & Hs & Hi & Hd & _ & _ & _ & Ho).
    rewrite (bind_done _ _ _ _ _ Hs).
    destruct (report_scan_error_run err w1) as [c2 Hr2].
    eexists _, _, _. split; [done|]. rewrite bind_lift_done, (bind_done _ _ _ _ _ Hr2).
    split; [done|]. simpl. rewrite Hi, Hd. split_and!; [done..| |done].
    intros Hsr. by apply Ho.
Qed.

Lemma serve_requests_overflow grab fuel file_list file_name d rest w :
  length file_name = 128%nat -> inbox w = RData d :: rest -> (128 <= length d)%nat ->
  wp (serve_requests grab (S fuel) file_list file_name) (fun o _ => o = Crash BufferOverflow) w.
Proof.
  intros Hn Hi Hd. cbn [serve_requests]. apply wp_bind, wp_modify. cbn [wp_k].
  apply wp_bind. destruct (recv_full 128 d rest (set_console (console w ++ [(grab, [])]) w))
    as [w' Hr]; [done..|].
  eapply wp_intro; [exact Hr|]. cbn [wp_k]. set (e := take 128 d).
  assert (Hz : zlen e = 128) by (unfold e, zlen; rewrite length_take; lia).
  assert (Hb : zlen file_name = 128) by (unfold zlen; lia).
  decide_z. apply wp_bind, wp_lift.
  assert (Hw := write_at_done file_name 0 e ltac:(lia) ltac:(lia)). rewrite Hw. cbn [wp_k].
  apply wp_bind, wp_lift. by rewrite (store_terminated_overflow _ _ _ Hw) by lia.
Qed.

(** C6: Memory safety of a session, and its bound.  When the listing fits the
    1024-byte array and every delivery of the client is shorter than the
    128-byte request array, the session ends or waits for the client, without
    undefined behaviour, whichever sends fail; a first delivery of 128 bytes or
    more makes the terminator land one byte past the array. *)
Theorem serve_client_bounds grab scan w :
  Forall entry_ok (visible (scan_entries scan)) ->
  zlen (listing_text (scan_entries scan)) < 1024 ->
  (short_requests (inbox w) -> wp (serve_client grab scan scan) (fun o _ => no_fault o) w) /\
  (forall d rest, inbox w = RData d :: rest -> (128 <= length d)%nat ->
     wp (serve_client grab scan scan) (fun o _ => o = Crash BufferOverflow) w).
Proof.
  intros Hok Hlen.
  assert (Hpre : forall Q,
    (forall file_list text w', c_string file_list = Done text -> inbox w' = inbox w ->
       wp (serve_requests grab (S (inbox_size (inbox w'))) file_list (indet_array 128)) Q w') ->
    wp (serve_client grab scan scan) Q w).
  { intros Q HQ. unfold serve_client. destruct (listing_setup scan w Hok Hlen)
      as (w1 & w2 & fl & H1 & H2 & Hi & _ & _ & Hc).
    apply wp_bind. eapply wp_intro; [exact H1|]. cbn [wp_k].
    apply wp_bind. eapply wp_intro; [exact H2|]. cbn [wp_k].
    apply wp_bind, wp_gets. cbn [wp_k]. by eapply HQ. }
  split.
  - intros Hs. apply Hpre. intros fl text w' Hc Hi.
    eapply serve_requests_no_fault; [exact Hc|apply indet_array_length|by rewrite Hi|lia].
  - intros d rest Hi Hd. apply Hpre. intros fl text w' Hc Hi'.
    eapply serve_requests_overflow; [apply indet_array_length|by rewrite Hi'|done].
Qed.
End session_safety.

Lemma serve_client_bounds_witness :
  exists P : Platform,
    Forall entry_ok (visible (scan_entries demo_scan)) /\
    zlen (listing_text (scan_entries demo_scan)) < 1024 /\
    short_requests (inbox demo_world) /\
    wp (serve_client "" demo_scan demo_scan) (fun o _ => no_fault o) demo_world /\
    wp (serve_client "" demo_scan demo_scan) (fun o _ => o = Crash BufferOverflow)
      (set_inbox [RData (replicate 128 97)] demo_world).
Proof.
  exists demo_platform.
  assert (Hok : Forall entry_ok (visible (scan_entries demo_scan))) by (repeat constructor; done).
  assert (Hlen : zlen (listing_text (scan_entries demo_scan)) < 1024) by done.
  assert (Hs : short_requests (inbox demo_world)) by (repeat constructor; simpl; lia).
  split_and!; [exact Hok|exact Hlen|exact Hs| |].
  - exact (proj1 (@serve_client_bounds demo_platform unit "" demo_scan demo_world Hok Hlen) Hs).
  - refine (proj2 (@serve_client_bounds demo_platform unit "" demo_scan
      (set_inbox [RData (replicate 128 97)] demo_world) Hok Hlen) _ [] eq_refl _).
    rewrite length_replicate. lia.
Defined.

(** ** The sockets of the listening thread *)

Section listener.
Context `{Platform} {mem : Type}.
Implicit Types (w : world mem).

Lemma accept_loop_sockets grab ls base scans w :
  open_sockets w = {[ls]} ∪ base -> ls ∉ base -> handles_ok w ->
  wp (accept_loop grab ls scans) (fun o w' => o = Done tt -> open_sockets w' = base) w.
Proof.
  intros Ho Hls Hok. revert w Ho Hok.
  induction scans as [|[s1 s2] scans IH]; intros w Ho Hok; cbn [accept_loop]; [done|].
  apply wp_bind. unfold wp at 1, accept. destruct (dials w) as [|[[] evs] rest]; [done|..]; cbn [fst snd].
  - cbn [wp_k mbind M_bind mret M_ret new_socket fst snd].
    set (c := next_socket w).
    apply wp_bind, wp_modify. cbn [wp_k]. apply wp_bind.
    set (w1 := set_console _ _).
    pose proof (serve_client_frames _ io_frame_sockets grab s1 s2 w1) as [= Hf1 Hf2].
    unfold wp at 1. destruct (serve_client grab s1 s2 w1) as [[[]| | | |] w2]; cbn [fst snd wp_k]; try done.
    simpl in Hf1, Hf2. apply wp_bind, wp_modify. cbn [wp_k]. apply IH; simpl.
    + assert (Hc : c ∉ open_sockets w) by (intros Hc%Hok; unfold c in Hc; lia).
      rewrite Hf1, Ho in *. clear -Hc. set_solver.
    + intros s. simpl. rewrite Hf1, Hf2. intros [[Hs|Hs]%elem_of_union _]%elem_of_difference.
      * apply elem_of_singleton in Hs as ->. unfold c. lia.
      * apply Hok in Hs. unfold c. lia.
  - cbn [wp_k]. apply wp_bind, wp_modify. cbn [wp_k]. apply wp_modify. intros _. simpl.
    rewrite Ho. clear -Hls. set_solver.
Qed.

Lemma guard_call_sockets ls base msg k w :
  open_sockets w = {[ls]} ∪ base -> ls ∉ base -> handles_ok w ->
  (forall w', open_sockets w' = {[ls]} ∪ base -> handles_ok w' ->
     wp k (fun o w'' => o = Done tt -> open_sockets w'' = base) w') ->
  wp (guard_call ls msg k) (fun o w' => o = Done tt -> open_sockets w' = base) w.
Proof.
  intros Ho Hls Hok Hk. unfold guard_call. apply wp_bind. unfold wp at 1, syscall.
  destruct (calls w) as [|[] rest]; cbn [fst snd wp_k]; [by apply Hk..|].
  apply wp_bind, wp_modify. cbn [wp_k]. apply wp_modify. intros _. simpl. rewrite Ho. clear -Hls. set_solver.
Qed.

Lemma open_socket_run w :
  (s ← new_socket; mret (Some s)) w =
    (Done (Some (next_socket w)),
     set_next_socket (next_socket w + 1) (set_open_sockets ({[next_socket w]} ∪ open_sockets w) w)).
Proof. done. Qed.

(** C9: The listening thread leaks no socket: whichever set-up call or accept
    fails, and whatever happens in the sessions before, when the thread returns
    the open sockets are those that were open before it started. *)
Theorem listen_releases_sockets grab scans w :
  handles_ok w ->
  wp (listen_for_connections grab scans)
    (fun o w' => o = Done tt -> open_sockets w' = open_sockets w) w.
Proof.
  intros Hok. unfold listen_for_connections, socket.
  apply wp_bind, wp_bind. unfold wp at 1, syscall.
  assert (Hgo : forall v, open_sockets v = open_sockets w -> next_socket v = next_socket w ->
    wp (s ← new_socket; mret (Some s))
      (wp_k (fun s => match s with
         | None => printf "Error creating listen socket: %d\n" [AInt last_error]
         | Some listen_socket =>
             guard_call listen_socket "Bind failed with error: %d\n" (
             guard_call listen_socket "Error getting hostname: %d\n" (
             guard_call listen_socket "Error getting host information: %d\n" (
             printf "\nHosted on IP address: %s\n" [];;
             printf "Hosted on port number: %d\n" [AInt 12172];;
             guard_call listen_socket "Listen failed with error: %d\n" (
             printf "Listening for incoming connections...\n" [];;
             accept_loop grab listen_socket scans))))
         end) (fun o w' => o = Done tt -> open_sockets w' = open_sockets w)) v).
  { intros v Hv Hn. eapply wp_intro; [apply open_socket_run|]. cbn [wp_k].
    set (v1 := set_next_socket (next_socket v + 1) (set_open_sockets ({[next_socket v]} ∪ open_sockets v) v)).
    set (ls := next_socket v).
    assert (Hls : ls ∉ open_sockets w) by (intros Hc%Hok; unfold ls in Hc; lia).
    assert (Hv1 : open_sockets v1 = {[ls]} ∪ open_sockets w) by (simpl; by rewrite Hv).
    assert (Hok1 : handles_ok v1).
    { intros s. rewrite Hv1. intros [Hs|Hs]%elem_of_union; simpl; [apply elem_of_singleton in Hs as ->; unfold ls; lia|].
      apply Hok in Hs. lia. }
    clearbody v1.
    do 3 (apply (guard_call_sockets ls (open_sockets w)); [done..|]; clear v1 Hv1 Hok1; intros v1 Hv1 Hok1).
    do 2 (apply wp_bind, wp_modify; cbn [wp_k]).
    apply (guard_call_sockets ls (open_sockets w)); [done..|]; clear v1 Hv1 Hok1; intros v1 Hv1 Hok1.
    apply wp_bind, wp_modify; cbn [wp_k]. by apply accept_loop_sockets. }
  destruct (calls w) as [|[] rest]; cbn [fst snd wp_k]; [by apply Hgo..|].
  apply wp_ret. cbn [wp_k]. by apply wp_modify.
Qed.
End listener.

Lemma listen_releases_sockets_witness :
  let w := World tt [] [] [(false, [])] [] [] [] 3 {[ 1; 2 ]} ∅ (fun _ => true) [] [] in
  exists P : Platform,
    handles_ok w /\
    is_done (fst (listen_for_connections "" [(demo_scan, demo_scan)] w)) = true /\
    wp (listen_for_connections "" [(demo_scan, demo_scan)])
      (fun o w' => o = Done tt -> open_sockets w' = open_sockets w) w.
Proof.
  intros w. exists demo_platform.
  assert (Hok : handles_ok w) by (intros s; simpl; set_solver by lia).
  split; [exact Hok|]. split; [reflexivity|].
  exact (@listen_releases_sockets demo_platform unit "" [(demo_scan, demo_scan)] w Hok).
Defined.
