(* ===== verification/FileNode.v ===== *)
(** * The linked list of remote files (tomypeersV2.c)

    [filenode], [createNode], [appendNode], [get_filesize], [printlist] and
    [freelist] on an explicit heap: a pointer is [None] (NULL) or the address of
    a block, and dereferencing an address that is not allocated is
    [Crash UseAfterFree]. *)

From S2P Require Import Prelude CLib World.

Record filenode := Filenode {
  filename : bytes;         (* char filename[128] *)
  filesize : Z;             (* long, 32 bits *)
  next : option Z
}.

Abbreviation heap := (gmap Z filenode).

(** malloc: NULL or a block that is not in use. *)
Class Malloc := {
  malloc : heap -> option Z;
  malloc_fresh : forall h l, malloc h = Some l -> h !! l = None;
}.

Section filenode.
Context `{Platform} `{Malloc}.

Definition createNode (name : bytes) (size : Z) : M (world heap) Z :=
  h ← gets memory;
  match malloc h with
  | None =>
      printf "Memory allocation error\n" [];;
      lift (Exit 1)
  | Some l =>
      f ← lift (strncpy (indet_array 128) name 72);
      f ← lift (write_at f 71 [0]);
      modify (set_memory (<[l := Filenode f size None]> h));;
      mret l
  end.

(** The walk [while (temp->next != NULL) temp = temp->next]. *)
Fixpoint last_node (fuel : nat) (h : heap) (temp : Z) : outcome Z :=
  match fuel with
  | O => NoFuel
  | S fuel' =>
      match h !! temp with
      | None => Crash UseAfterFree
      | Some node =>
          match next node with
          | None => Done temp
          | Some temp' => last_node fuel' h temp'
          end
      end
  end.

Definition set_next (p : option Z) (node : filenode) : filenode :=
  Filenode (filename node) (filesize node) p.

(** The value of [*start] after the call. *)
Definition appendNode (start : option Z) (name : bytes) (size : Z) : M (world heap) (option Z) :=
  newNode ← createNode name size;
  match start with
  | None => mret (Some newNode)
  | Some first =>
      h ← gets memory;
      temp ← lift (last_node (S (base.size h)) h first);
      modify (set_memory (alter (set_next (Some newNode)) temp h));;
      mret start
  end.

Fixpoint find_size (fuel : nat) (h : heap) (current : option Z) (name : bytes) : outcome Z :=
  match current with
  | None => Done 0
  | Some p =>
      match fuel with
      | O => NoFuel
      | S fuel' =>
          match h !! p with
          | None => Crash UseAfterFree
          | Some node =>
              s ← c_string (filename node);
              if strcmp_eq s name then Done (filesize node)
              else find_size fuel' h (next node) name
          end
      end
  end.

Definition get_filesize (name : bytes) (start : option Z) : M (world heap) Z :=
  h ← gets memory;
  lift (find_size (S (base.size h)) h start name).

Fixpoint print_nodes (fuel : nat) (temp : option Z) : M (world heap) unit :=
  match temp with
  | None => mret tt
  | Some p =>
      match fuel with
      | O => no_fuel
      | S fuel' =>
          h ← gets memory;
          match h !! p with
          | None => lift (Crash UseAfterFree)
          | Some node =>
              s ← lift (c_string (filename node));
              printf "Filename: %s, Filesize: %d bytes\n" [AStr s; AInt (filesize node)];;
              print_nodes fuel' (next node)
          end
      end
  end.

Definition printlist (start : option Z) : M (world heap) unit :=
  match start with
  | None => printf "\nLIST EMPTY\n" []
  | Some _ =>
      h ← gets memory;
      print_nodes (S (base.size h)) start
  end.

Fixpoint free_nodes (fuel : nat) (start : option Z) (h : heap) : outcome heap :=
  match start with
  | None => Done h
  | Some temp =>
      match fuel with
      | O => NoFuel
      | S fuel' =>
          match h !! temp with
          | None => Crash UseAfterFree
          | Some node => free_nodes fuel' (next node) (delete temp h)
          end
      end
  end.

Definition freelist (start : option Z) : M (world heap) unit :=
  h ← gets memory;
  h' ← lift (free_nodes (S (base.size h)) start h);
  modify (set_memory h').
End filenode.

(** ** What a pointer represents *)

(** The blocks of a list, with the name and size each one holds. *)
Fixpoint chain (h : heap) (p : option Z) (ls : list (Z * (bytes * Z))) : Prop :=
  match ls with
  | [] => p = None
  | (l, (name, size)) :: ls' =>
      p = Some l /\
      exists node, h !! l = Some node /\ c_string (filename node) = Done name /\
        filesize node = size /\ chain h (next node) ls'
  end.

(** [start] points to an acyclic list that holds [files], in the blocks [locs]. *)
Definition represents (h : heap) (start : option Z) (locs : list Z) (files : list (bytes * Z)) : Prop :=
  length locs = length files /\ NoDup locs /\ chain h start (zip locs files).

(** The size the abstract list gives to a name: its first entry, 0 if none. *)
Fixpoint first_size (files : list (bytes * Z)) (name : bytes) : Z :=
  match files with
  | [] => 0
  | (n, s) :: files' => if bool_decide (n = name) then s else first_size files' name
  end.

Lemma chain_lookup h p ls l x : chain h p ls -> (l, x) ∈ ls -> exists node, h !! l = Some node.
Proof.
  revert p. induction ls as [|[l' [n s]] ls IH]; intros p; [by intros _ ?%elem_of_nil|].
  intros (-> & node & Hl & _ & _ & Hc). rewrite elem_of_cons. intros [[= -> _]|Hin]; eauto.
Qed.

Lemma chain_locs_in_heap h p locs files :
  represents h p locs files -> forall l, l ∈ locs -> exists node, h !! l = Some node.
Proof.
  intros (Hlen & _ & Hc) l Hl. apply list_elem_of_lookup in Hl as [i Hi].
  destruct (lookup_lt_is_Some_2 files i) as [x Hx].
  { rewrite <- Hlen. by eapply lookup_lt_Some. }
  eapply (chain_lookup _ _ _ l x Hc). apply list_elem_of_lookup. exists i.
  apply lookup_zip_Some. done.
Qed.

(** A list only depends on its own blocks. *)
Lemma chain_agree h h' p ls :
  (forall l, l ∈ ls.*1 -> h' !! l = h !! l) -> chain h p ls -> chain h' p ls.
Proof.
  revert p. induction ls as [|[l [n s]] ls IH]; intros p Hag; [done|].
  intros (-> & node & Hl & Hn & Hs & Hc). split; [done|]. exists node.
  rewrite Hag by (simpl; set_solver). split_and!; [done..|].
  apply IH; [|done]. intros l' Hl'. apply Hag. simpl. set_solver.
Qed.

Lemma zip_fst {A B} (l1 : list A) (l2 : list B) : length l1 = length l2 -> (zip l1 l2).*1 = l1.
Proof. intros. apply fst_zip. lia. Qed.

(** The number of blocks of a list is bounded by the heap: the fuel suffices. *)
Lemma represents_size h p locs files :
  represents h p locs files -> (length locs <= base.size h)%nat.
Proof.
  intros Hr. pose proof (chain_locs_in_heap _ _ _ _ Hr) as Hin. destruct Hr as (_ & Hnd & _).
  rewrite <- (size_list_to_set (C := gset Z) locs Hnd), <- size_dom.
  apply subseteq_size. intros l Hl%elem_of_list_to_set. apply elem_of_dom.
  destruct (Hin l Hl) as [node ->]. eauto.
Qed.

(** ** The operations refine the abstract list *)

Section refinement.
Context `{Platform} `{Malloc}.
Implicit Types (w : world heap) (h : heap).

Lemma last_node_chain h p ls x fuel :
  chain h (Some p) (ls ++ [x]) -> (length ls < fuel)%nat -> last_node fuel h p = Done x.1.
Proof.
  destruct x as [lx [nx sx]].
  revert p fuel. induction ls as [|[l [n s]] ls IH]; intros p fuel; destruct fuel as [|fuel];
    try (simpl; lia); simpl app.
  - intros ([= ->] & node & Hl & _ & _ & Hc) _. simpl in *. by rewrite Hl, Hc.
  - intros ([= ->] & node & Hl & _ & _ & Hc) Hf. simpl. rewrite Hl.
    destruct (next node) as [q|] eqn:Hq.
    + apply IH; [done|]. simpl in Hf. lia.
    + destruct ls as [|[l' [n' s']] ls]; by destruct Hc.
Qed.

(** Linking a new last block behind the last one. *)
Lemma chain_snoc h p ls l0 n0 s0 l name size node :
  chain h p (ls ++ [(l0, (n0, s0))]) -> NoDup (l :: (ls ++ [(l0, (n0, s0))]).*1) ->
  h !! l = Some node -> next node = None ->
  c_string (filename node) = Done name -> filesize node = size ->
  chain (alter (set_next (Some l)) l0 h) p (ls ++ [(l0, (n0, s0)); (l, (name, size))]).
Proof.
  intros Hc Hnd Hl Hnext Hn Hs. rewrite fmap_app in Hnd. simpl in Hnd.
  apply NoDup_cons in Hnd as [Hnl Hnd].
  assert (Hll0 : l0 <> l) by (intros ->; set_solver).
  revert p Hc Hnl Hnd. induction ls as [|[l1 [n1 s1]] ls IH]; intros p; simpl.
  - intros (-> & nd & Hl0 & Hn0 & Hs0 & Hc) _ _. split; [done|].
    exists (set_next (Some l) nd). rewrite lookup_alter_eq, Hl0. split_and!; [done..|].
    exists node. by rewrite lookup_alter_ne.
  - intros (-> & nd & Hl1 & Hn1 & Hs1 & Hc) Hnl Hnd. split; [done|]. exists nd.
    apply NoDup_cons in Hnd as [Hnl1 Hnd].
    rewrite lookup_alter_ne by (intros ->; set_solver). split_and!; [done..|].
    apply IH; [done| |done]. set_solver.
Qed.

(** The string a node keeps of a name: its first 71 bytes. *)
Lemma stored_name name :
  no_nul name ->
  exists f1 f2, strncpy (indet_array 128) name 72 = Done f1 /\
    write_at f1 71 [0] = Done f2 /\ c_string f2 = Done (take 71 name).
Proof.
  intros Hn. unfold strncpy.
  set (d := take 72 name ++ replicate (72 - length name) 0).
  assert (Hd : length d = 72%nat)
    by (unfold d; rewrite length_app, length_take, length_replicate; lia).
  assert (Hi : zlen (indet_array 128) = 128) by (unfold zlen; by rewrite indet_array_length).
  assert (Hz : zlen d = 72) by (unfold zlen; lia).
  assert (H1 : write_at (indet_array 128) 0 d = Done (d ++ drop (Z.to_nat (0 + zlen d)) (indet_array 128)))
    by (apply write_at_done; lia).
  pose proof (write_at_length _ _ _ _ H1) as Hl1.
  rewrite H1. set (f1 := d ++ _) in *. rewrite indet_array_length in Hl1.
  assert (Hz1 : zlen f1 = 128) by (unfold zlen; lia).
  assert (H2 := write_at_done f1 71 [0] ltac:(lia) ltac:(change (zlen [0]) with 1; lia)).
  eexists _, _. split; [done|]. split; [exact H2|].
  change (Z.to_nat 71) with 71%nat. unfold f1 at 1.
  rewrite take_app_le by lia.
  etrans; [apply c_string_terminated|]. f_equal.
  unfold d. destruct (decide (length name <= 71)%nat) as [Hle|Hgt].
  - rewrite (take_ge name 72), (take_ge name 71) by lia.
    rewrite take_app_ge, take_replicate by lia.
    rewrite until_nul_app by done. replace (until_nul _) with (@nil Z); [by rewrite app_nil_r|].
    by destruct ((71 - length name) `min` (72 - length name))%nat.
  - rewrite take_app_le by (rewrite length_take; lia).
    rewrite take_take. change (71 `min` 72)%nat with 71%nat. apply until_nul_id.
    by apply Forall_take.
Qed.

Lemma createNode_run name size w l :
  no_nul name -> malloc (memory w) = Some l ->
  exists f, createNode name size w =
      (Done l, set_memory (<[l := Filenode f size None]> (memory w)) w) /\
    c_string f = Done (take 71 name).
Proof.
  intros Hn Hm. destruct (stored_name name Hn) as (f1 & f2 & H1 & H2 & Hc).
  exists f2. split; [|done]. unfold createNode.
  rewrite (bind_done _ _ _ (memory w) w) by done. rewrite Hm, H1, bind_lift_done, H2, bind_lift_done.
  done.
Qed.

Lemma appendNode_post start locs files name size w l :
  represents (memory w) start locs files -> no_nul name -> malloc (memory w) = Some l ->
  wp (appendNode start name size)
    (fun o w' => exists start', o = Done start' /\
       represents (memory w') start' (locs ++ [l]) (files ++ [(take 71 name, size)]) /\
       (start <> None -> start' = start) /\
       forall l', l' ∉ locs -> l' <> l -> memory w' !! l' = memory w !! l') w.
Proof.
  intros Hr Hn Hm. pose proof (malloc_fresh _ _ Hm) as Hfresh.
  pose proof (chain_locs_in_heap _ _ _ _ Hr) as Hin. pose proof (represents_size _ _ _ _ Hr) as Hsz.
  destruct Hr as (Hlen & Hnd & Hc).
  assert (Hl : l ∉ locs) by (intros [node Hx]%Hin; congruence).
  destruct (createNode_run name size w l Hn Hm) as (f & Hrun & Hf).
  unfold appendNode. apply wp_bind. eapply wp_intro; [exact Hrun|]. cbn [wp_k].
  assert (Hnd' : NoDup (locs ++ [l])).
  { apply NoDup_app. split_and!; [done|set_solver|by apply NoDup_singleton]. }
  assert (Hlen' : length (locs ++ [l]) = length (files ++ [(take 71 name, size)]))
    by (rewrite !length_app; simpl; lia).
  assert (Hzip : zip (locs ++ [l]) (files ++ [(take 71 name, size)]) =
    zip locs files ++ [(l, (take 71 name, size))]) by by rewrite zip_with_app.
  set (h1 := <[l := _]> _).
  assert (Hc1 : chain h1 start (zip locs files)).
  { apply (chain_agree (memory w)); [|done]. rewrite zip_fst by done.
    intros l' Hl'. apply lookup_insert_ne. set_solver. }
  destruct start as [p|].
  - apply wp_bind, wp_gets. cbn [wp_k]. simpl memory.
    destruct locs as [|l0 locs0 _] using rev_ind; [by destruct files|].
    destruct files as [|[n0 s0] files0 _] using rev_ind; [rewrite length_app in Hlen; simpl in Hlen; lia|].
    rewrite !length_app in Hlen. simpl in Hlen. 
    assert (Hz : zip (locs0 ++ [l0]) (files0 ++ [(n0, s0)]) = zip locs0 files0 ++ [(l0, (n0, s0))])
      by (by rewrite zip_with_app by lia).
    rewrite Hz in Hc1, Hzip.
    assert (Hsz1 : base.size h1 = S (base.size (memory w))) by (by apply map_size_insert_None).
    assert (Hlz : length (zip locs0 files0) = length locs0) by (rewrite length_zip_with; lia).
    rewrite length_app in Hsz. simpl in Hsz.
    apply wp_bind, wp_lift. rewrite (last_node_chain _ _ _ _ _ Hc1) by lia. cbn [wp_k].
    apply wp_bind, wp_modify. cbn [wp_k]. apply wp_ret. exists (Some p). split; [done|].
    split; [split_and!; [done..|]|split; [done|]].
    + rewrite Hzip, <- app_assoc. simpl. eapply chain_snoc; [exact Hc1| |apply lookup_insert_eq|done..].
      rewrite fmap_app. simpl. rewrite zip_fst by lia. apply NoDup_cons. by split.
    + intros l' Hl' Hne. simpl. rewrite lookup_alter_ne by set_solver. by apply lookup_insert_ne.
  - destruct locs as [|l0 locs]; [|destruct files as [|[? ?] ?]; [done|by destruct Hc]].
    destruct files; [|done]. apply wp_ret. exists (Some l). split; [done|].
    split; [split_and!; [done..|]|split; [done|]].
    + simpl. split; [done|]. eexists. split; [apply lookup_insert_eq|done].
    + intros l' _ Hne. simpl. by apply lookup_insert_ne.
Qed.

(** appendNode refines appending to a list: from a heap in which [start]
    represents [files], when malloc has memory, it returns a pointer that
    represents [files] followed by the new entry, whose name is cut to its first
    71 bytes, in the old blocks and one fresh one; every block that is not of
    the list keeps its contents. *)
Theorem appendNode_refines start locs files name size w l :
  represents (memory w) start locs files -> no_nul name -> malloc (memory w) = Some l ->
  wp (appendNode start name size)
    (fun o w' => exists start', o = Done start' /\
       represents (memory w') start' (locs ++ [l]) (files ++ [(take 71 name, size)]) /\
       (start <> None -> start' = start) /\
       forall l', l' ∉ locs -> l' <> l -> memory w' !! l' = memory w !! l') w.
Proof. apply appendNode_post. Qed.
(** Looking a name up in a list. *)
Lemma find_size_chain h p ls fuel name :
  chain h p ls -> (length ls < fuel)%nat ->
  find_size fuel h p name = Done (first_size ls.*2 name).
Proof.
  revert p fuel. induction ls as [|[l [n s]] ls IH]; intros p fuel Hc Hf.
  - simpl in Hc. subst. by destruct fuel.
  - destruct Hc as (-> & node & Hl & Hn & Hs & Hc). destruct fuel as [|fuel]; [simpl in Hf; lia|].
    simpl. rewrite Hl, Hn. simpl. unfold strcmp_eq. case_bool_decide; [by subst|].
    apply IH; [done|]. simpl in Hf. lia.
Qed.

Lemma get_filesize_list start locs files name w :
  represents (memory w) start locs files ->
  get_filesize name start w = (Done (first_size files name), w).
Proof.
  intros Hr. pose proof (represents_size _ _ _ _ Hr). destruct Hr as (Hlen & _ & Hc).
  unfold get_filesize. rewrite (bind_done _ _ _ (memory w) w) by done. unfold lift. f_equal.
  rewrite (find_size_chain _ _ _ _ _ Hc) by (rewrite length_zip_with; lia).
  by rewrite snd_zip by lia.
Qed.

(** get_filesize is the lookup of the abstract list: on a pointer that
    represents [files] it terminates, changes nothing and returns the size of
    the first entry with the name asked for, or 0 when there is none. *)
Theorem get_filesize_refines start locs files name w :
  represents (memory w) start locs files ->
  get_filesize name start w = (Done (first_size files name), w).
Proof. apply get_filesize_list. Qed.

Lemma print_nodes_chain p ls fuel w :
  chain (memory w) p ls -> (length ls < fuel)%nat ->
  print_nodes fuel p w =
    (Done tt, set_console (console w ++
       map (fun x => ("Filename: %s, Filesize: %d bytes\n", [AStr x.2.1; AInt x.2.2])) ls) w).
Proof.
  revert p fuel w. induction ls as [|[l [n s]] ls IH]; intros p fuel w Hc Hf.
  - simpl in Hc. subst. rewrite app_nil_r. by destruct fuel, w.
  - destruct Hc as (-> & node & Hl & Hn & Hs & Hc). destruct fuel as [|fuel]; [simpl in Hf; lia|].
    cbn [print_nodes]. rewrite (bind_done _ _ _ (memory w) w) by done.
    rewrite Hl, Hn, bind_lift_done, Hs. unfold mbind, M_bind, printf, modify. simpl in Hf.
    rewrite IH; [|done|lia]. simpl. by rewrite <- app_assoc.
Qed.

(** Freeing a list walks it once. *)
Lemma free_nodes_chain h p ls fuel :
  chain h p ls -> NoDup ls.*1 -> (length ls < fuel)%nat ->
  exists h', free_nodes fuel p h = Done h' /\
    forall l, h' !! l = if decide (l ∈ ls.*1) then None else h !! l.
Proof.
  revert h p fuel. induction ls as [|[l [n s]] ls IH]; intros h p fuel Hc Hnd Hf.
  - simpl in Hc. subst. exists h. split; [by destruct fuel|]. intros l. by case_decide as Hl; [set_solver|].
  - destruct Hc as (-> & node & Hl & Hn & Hs & Hc). destruct fuel as [|fuel]; [simpl in Hf; lia|].
    simpl in Hnd. apply NoDup_cons in Hnd as [Hnl Hnd].
    destruct (IH (delete l h) (next node) fuel) as (h' & Hfree & Hlk); [|done|simpl in Hf; lia|].
    { apply (chain_agree h); [|done]. intros l' Hl'. apply lookup_delete_ne. set_solver. }
    exists h'. simpl. rewrite Hl. split; [done|]. intros l'. rewrite Hlk.
    destruct (decide (l' = l)) as [->|Hne].
    + rewrite lookup_delete_eq. repeat case_decide; set_solver.
    + rewrite lookup_delete_ne by done. repeat case_decide; set_solver.
Qed.

Lemma freelist_post start locs files w :
  represents (memory w) start locs files ->
  wp (freelist start)
    (fun o w' => o = Done tt /\
       forall l, memory w' !! l = if decide (l ∈ locs) then None else memory w !! l) w.
Proof.
  intros Hr. pose proof (represents_size _ _ _ _ Hr). destruct Hr as (Hlen & Hnd & Hc).
  unfold freelist. apply wp_bind, wp_gets. cbn [wp_k]. apply wp_bind, wp_lift.
  destruct (free_nodes_chain _ _ _ (S (base.size (memory w))) Hc) as (h' & Hfree & Hlk).
  - by rewrite zip_fst.
  - rewrite length_zip_with. lia.
  - rewrite Hfree. cbn [wp_k]. apply wp_modify. split; [done|]. intros l. simpl.
    rewrite Hlk, zip_fst by done. done.
Qed.

(** freelist frees the blocks of the list, each exactly once, and no other:
    it terminates without touching freed memory, afterwards no block of the list
    is allocated and every other block is as it was. *)
Theorem freelist_frees start locs files w :
  represents (memory w) start locs files ->
  wp (freelist start)
    (fun o w' => o = Done tt /\
       forall l, memory w' !! l = if decide (l ∈ locs) then None else memory w !! l) w.
Proof. apply freelist_post. Qed.

(** Walking a block that points to itself never ends. *)
Lemma self_loop_diverges fuel h l node s name :
  h !! l = Some node -> next node = Some l -> c_string (filename node) = Done s -> s <> name ->
  find_size fuel h (Some l) name = NoFuel.
Proof.
  intros Hl Hn Hs Hne. induction fuel as [|fuel IH]; [done|].
  simpl. rewrite Hl, Hs. simpl. unfold strcmp_eq. rewrite bool_decide_eq_false_2 by done.
  by rewrite Hn.
Qed.

(** main keeps [start] after [freelist(start)], so the next connection appends
    to a dangling pointer.  After the list has been freed, appendNode on the old
    [start] is never right: if malloc returns another block the walk reads freed
    memory; if malloc hands out the block of [start] again, that block is linked
    to itself, and get_filesize of any other name then never returns, whatever
    number of steps it is given. *)
Theorem append_after_free p locs files w name size l :
  represents (memory w) (Some p) locs files -> no_nul name ->
  wp (freelist (Some p))
    (fun _ w1 => malloc (memory w1) = Some l ->
       wp (appendNode (Some p) name size)
         (fun o w2 =>
            if decide (l = p) then
              o = Done (Some p) /\
              forall other fuel, other <> take 71 name ->
                find_size fuel (memory w2) (Some p) other = NoFuel
            else o = Crash UseAfterFree) w1) w.
Proof.
  intros Hr Hn. eapply wp_mono; [by apply (freelist_post _ locs files)|].
  intros o w1 [_ Hlk] Hm.
  assert (Hp : p ∈ locs).
  { destruct Hr as (Hlen & _ & Hc). destruct locs as [|l0 locs], files as [|[n s] files]; try done.
    destruct Hc as [[= ->] _]. set_solver. }
  assert (Hnone : memory w1 !! p = None) by (rewrite Hlk; by case_decide).
  destruct (createNode_run name size w1 l Hn Hm) as (f & Hrun & Hf).
  unfold appendNode. apply wp_bind. eapply wp_intro; [exact Hrun|]. cbn [wp_k].
  apply wp_bind, wp_gets. cbn [wp_k]. simpl memory. apply wp_bind, wp_lift. cbn [last_node].
  case_decide as Hlp.
  - subst l. rewrite lookup_insert_eq. cbn [next wp_k].
    apply wp_bind, wp_modify. cbn [wp_k]. apply wp_ret. split; [done|].
    intros other fuel Hother. simpl. eapply self_loop_diverges.
    + by rewrite lookup_alter_eq, lookup_insert_eq.
    + done.
    + exact Hf.
    + done.
  - rewrite lookup_insert_ne, Hnone by done. done.
Qed.
End refinement.

(** ** Instances to evaluate on *)

Definition demo_malloc_fun (h : heap) : option Z :=
  match h !! 1 with None => Some 1 | Some _ => Some (fresh (dom h)) end.

Lemma demo_malloc_fresh h l : demo_malloc_fun h = Some l -> h !! l = None.
Proof.
  unfold demo_malloc_fun. destruct (h !! 1) eqn:E; intros [= <-]; [|done].
  apply not_elem_of_dom. apply is_fresh.
Qed.

Definition demo_malloc : Malloc :=
  {| malloc := demo_malloc_fun; malloc_fresh := demo_malloc_fresh |}.

Definition demo_heap : heap := {[ 1 := Filenode (bs "a.txt" ++ [0]) 5 None ]}.
Definition demo_files_world : world heap :=
  World demo_heap [] [] [] [] [] [] 0 ∅ ∅ (fun _ => true) [] [].

Lemma demo_represents : represents demo_heap (Some 1) [1] [(bs "a.txt", 5)].
Proof.
  split; [done|]. split; [by apply NoDup_singleton|]. simpl. split; [done|].
  exists (Filenode (bs "a.txt" ++ [0]) 5 None). done.
Qed.

Lemma appendNode_refines_witness :
  exists (P : Platform) (m : Malloc) l,
    represents (memory demo_files_world) (Some 1) [1] [(bs "a.txt", 5)] /\
    no_nul (bs "b.txt") /\ malloc (memory demo_files_world) = Some l /\
    wp (appendNode (Some 1) (bs "b.txt") 7)
      (fun o w' => exists start', o = Done start' /\
         represents (memory w') start' ([1] ++ [l])
           ([(bs "a.txt", 5)] ++ [(take 71 (bs "b.txt"), 7)]) /\
         (Some 1 <> None -> start' = Some 1) /\
         forall l', l' ∉ [1] -> l' <> l -> memory w' !! l' = memory demo_files_world !! l')
      demo_files_world.
Proof.
  exists demo_platform, demo_malloc, (fresh (dom demo_heap)).
  assert (Hn : no_nul (bs "b.txt")) by (repeat constructor; done).
  split; [exact demo_represents|]. split; [exact Hn|]. split; [reflexivity|].
  exact (@appendNode_refines demo_platform demo_malloc (Some 1) [1] [(bs "a.txt", 5)]
    (bs "b.txt") 7 demo_files_world _ demo_represents Hn eq_refl).
Defined.

Lemma get_filesize_refines_witness :
  represents (memory demo_files_world) (Some 1) [1] [(bs "a.txt", 5)] /\
  get_filesize (bs "a.txt") (Some 1) demo_files_world =
    (Done (first_size [(bs "a.txt", 5)] (bs "a.txt")), demo_files_world).
Proof.
  split; [exact demo_represents|].
  exact (get_filesize_refines (Some 1) [1] _ (bs "a.txt") demo_files_world demo_represents).
Defined.

Lemma freelist_frees_witness :
  represents (memory demo_files_world) (Some 1) [1] [(bs "a.txt", 5)] /\
  wp (freelist (Some 1))
    (fun o w' => o = Done tt /\
       forall l, memory w' !! l = if decide (l ∈ [1]) then None else memory demo_files_world !! l)
    demo_files_world.
Proof.
  split; [exact demo_represents|].
  exact (freelist_frees (Some 1) [1] _ demo_files_world demo_represents).
Defined.

Lemma append_after_free_witness :
  exists (P : Platform) (m : Malloc),
    represents (memory demo_files_world) (Some 1) [1] [(bs "a.txt", 5)] /\
    no_nul (bs "b.txt") /\ malloc (delete 1 demo_heap) = Some 1 /\
    wp (freelist (Some 1))
      (fun _ w1 => malloc (memory w1) = Some 1 ->
         wp (appendNode (Some 1) (bs "b.txt") 7)
           (fun o w2 =>
              if decide (1 = 1) then
                o = Done (Some 1) /\
                forall other fuel, other <> take 71 (bs "b.txt") ->
                  find_size fuel (memory w2) (Some 1) other = NoFuel
              else o = Crash UseAfterFree) w1) demo_files_world.
Proof.
  exists demo_platform, demo_malloc.
  assert (Hn : no_nul (bs "b.txt")) by (repeat constructor; done).
  split; [exact demo_represents|]. split; [exact Hn|]. split; [reflexivity|].
  exact (@append_after_free demo_platform demo_malloc 1 [1] [(bs "a.txt", 5)]
    demo_files_world (bs "b.txt") 7 1 demo_represents Hn).
Defined.
