(* ===== verification/HashMap.v ===== *)
(** * The hash table of remote files (tomypeers.c)

    [Node], [hash_function], [insert], [get_filesize] and [print_hashmap]: a
    table of 100 chains, new entries in front.  A chain never shares or frees
    nodes, so it is modelled as the list of its entries. *)

From S2P Require Import Prelude CLib World.

Definition HASH_SIZE : Z := 100.

(** A chain: the name and size of each Node, first node first. *)
Abbreviation node_chain := (list (bytes * Z)).
Abbreviation table := (list node_chain).

(** [hash = 31 * hash + filename[i]] on a 32-bit size_t; char is signed. *)
Definition hash_step (hash c : Z) : Z := u32 (31 * hash + schar c).
Definition hash_function (filename : bytes) : Z := fold_left hash_step filename 0 mod HASH_SIZE.

Definition bucket (t : table) (index : Z) : node_chain := default [] (t !! Z.to_nat index).

(** [Node]: the array and the size; strcpy is bounded by [char filename[256]]. *)
Definition fill_node `{Platform} (filename : bytes) (filesize : Z) : outcome (bytes * Z) :=
  copy ← strcpy (indet_array 256) filename;
  name ← c_string copy;
  Done (name, filesize).

Definition insert `{Platform} (filename : bytes) (filesize : Z) : M (world table) unit :=
  let index := hash_function filename in
  ok ← syscall;
  if ok : bool then
    node ← lift (fill_node filename filesize);
    modify (fun w => set_memory (<[Z.to_nat index := node :: bucket (memory w) index]> (memory w)) w)
  else
    printf "Memory allocation failed\n" [];;
    lift (Exit 1).

Fixpoint find_in_chain (current : node_chain) (filename : bytes) : option Z :=
  match current with
  | [] => None
  | (name, size) :: current' =>
      if strcmp_eq name filename then Some size else find_in_chain current' filename
  end.

Definition get_filesize (filename : bytes) : M (world table) Z :=
  gets (fun w => default 0 (find_in_chain (bucket (memory w) (hash_function filename)) filename)).

Fixpoint print_chain (current : node_chain) : M (world table) unit :=
  match current with
  | [] => mret tt
  | (name, size) :: current' =>
      printf "Filename: %s, Filesize: %lu\n" [AStr name; AInt size];;
      print_chain current'
  end.

Fixpoint print_buckets (chains : table) : M (world table) unit :=
  match chains with
  | [] => mret tt
  | c :: chains' => print_chain c;; print_buckets chains'
  end.

Definition print_hashmap : M (world table) unit :=
  printf "Hashmap contents:\n" [];;
  t ← gets memory;
  print_buckets t.

(** The global array before main: a hundred NULL pointers. *)
Definition empty_table : table := replicate 100 [].

(** ** The table as a finite map *)

(** Every entry is in the chain of its hash, and looking a name up in that chain
    gives what the map says. *)
Definition well_placed (t : table) : Prop :=
  forall i c name size, t !! i = Some c -> (name, size) ∈ c -> Z.to_nat (hash_function name) = i.

Definition abstracts (t : table) (m : gmap bytes Z) : Prop :=
  length t = 100%nat /\ well_placed t /\
  forall name, find_in_chain (bucket t (hash_function name)) name = m !! name.

Lemma hash_bound name : 0 <= hash_function name < 100.
Proof. apply Z.mod_pos_bound. unfold HASH_SIZE. lia. Qed.

Lemma hash_index (t : table) name : length t = 100%nat -> (Z.to_nat (hash_function name) < length t)%nat.
Proof. pose proof (hash_bound name). lia. Qed.

Lemma hash_inj_index n1 n2 :
  Z.to_nat (hash_function n1) = Z.to_nat (hash_function n2) -> hash_function n1 = hash_function n2.
Proof. pose proof (hash_bound n1). pose proof (hash_bound n2). lia. Qed.

Lemma empty_abstracts : abstracts empty_table ∅.
Proof.
  split; [done|]. split.
  - intros i c name size [-> _]%lookup_replicate Hin. by apply elem_of_nil in Hin.
  - intros name. rewrite lookup_empty. unfold bucket, empty_table.
    pose proof (hash_bound name). by rewrite lookup_replicate_2 by lia.
Qed.

Section refinement.
Context `{Platform}.
Implicit Types (w : world table).

Lemma fill_node_done name size :
  no_nul name -> zlen name < 256 -> fill_node name size = Done (name, size).
Proof.
  intros Hn Hl. unfold fill_node, strcpy.
  destruct (store_string (indet_array 256) name) as (b & Hb & _ & Hs).
  { unfold zlen at 2. by rewrite indet_array_length. }
  rewrite Hb. simpl. rewrite Hs. simpl. by rewrite until_nul_id.
Qed.

(** The state after an insertion that finds memory. *)
Definition inserted (t : table) (name : bytes) (size : Z) : table :=
  <[Z.to_nat (hash_function name) := (name, size) :: bucket t (hash_function name)]> t.

Lemma inserted_abstracts t m name size :
  abstracts t m -> abstracts (inserted t name size) (<[name := size]> m).
Proof.
  intros (Hlen & Hwf & Hlk). unfold inserted.
  pose proof (hash_index t name Hlen) as Hi. split; [by rewrite length_insert|]. split.
  - intros i c n s Hc Hin.
    destruct (decide (i = Z.to_nat (hash_function name))) as [->|Hne].
    + rewrite list_lookup_insert_eq in Hc by done. injection Hc as <-.
      apply elem_of_cons in Hin as [[= -> ->]|Hin]; [done|].
      unfold bucket in Hin. destruct (t !! _) as [c|] eqn:E; [|by apply elem_of_nil in Hin].
      by eapply Hwf.
    + rewrite list_lookup_insert_ne in Hc by done. by eapply Hwf.
  - intros n. destruct (decide (hash_function n = hash_function name)) as [Heq|Hne].
    + unfold bucket. rewrite Heq, list_lookup_insert_eq by done. simpl. unfold strcmp_eq.
      case_bool_decide as Hn; [subst; by rewrite lookup_insert_eq|].
      rewrite lookup_insert_ne by done. rewrite <- Hlk, Heq. done.
    + unfold bucket. rewrite list_lookup_insert_ne.
      2: { intros E. symmetry in E. by apply hash_inj_index in E. }
      rewrite lookup_insert_ne by (intros ->; done). apply Hlk.
Qed.

Lemma insert_run name size w :
  no_nul name -> zlen name < 256 -> calls w = [] ->
  insert name size w = (Done tt, set_memory (inserted (memory w) name size) w).
Proof.
  intros Hn Hl Hc. unfold insert. rewrite (bind_done _ _ _ true w).
  - rewrite fill_node_done, bind_lift_done by done. done.
  - unfold syscall. by rewrite Hc.
Qed.

(** C8: insert refines the update of a finite map, on every branch: a name of at
    most 255 bytes updates the map and keeps the table well placed; a longer one
    overflows the node's array with the table unchanged; and when malloc fails
    the process exits with status 1. *)
Theorem insert_refines t m name size w :
  memory w = t -> abstracts t m -> no_nul name ->
  wp (insert name size)
    (fun o w' =>
       if decide (head (calls w) = Some false) then o = Exit 1 /\ memory w' = t
       else if decide (zlen name < 256) then
         o = Done tt /\ abstracts (memory w') (<[name := size]> m)
       else o = Crash BufferOverflow /\ memory w' = t) w.
Proof.
  intros Hm Ha Hn. unfold insert. apply wp_bind. unfold wp at 1, syscall.
  assert (Hgo : forall v, memory v = t ->
    wp (node ← lift (fill_node name size);
        modify (fun w => set_memory (<[Z.to_nat (hash_function name) :=
          node :: bucket (memory w) (hash_function name)]> (memory w)) w))
      (fun o w' => if decide (zlen name < 256) then
         o = Done tt /\ abstracts (memory w') (<[name := size]> m)
       else o = Crash BufferOverflow /\ memory w' = t) v).
  { intros v Hv. apply wp_bind, wp_lift. case_decide as Hl.
    - rewrite fill_node_done by done. cbn [wp_k]. apply wp_modify. split; [done|].
      simpl. rewrite Hv. by apply inserted_abstracts.
    - unfold fill_node, strcpy. rewrite write_at_overflow; [done|].
      rewrite zlen_app. change (zlen [0]) with 1. unfold zlen at 1.
      rewrite indet_array_length. lia. }
  destruct (decide (head (calls w) = Some false)) as [Hd|Hd];
    destruct (calls w) as [|[] rest]; try done; cbn [fst snd wp_k]; by apply Hgo.
Qed.

Lemma get_filesize_table m name w :
  abstracts (memory w) m -> get_filesize name w = (Done (default 0 (m !! name)), w).
Proof. intros (_ & _ & Hlk). unfold get_filesize, gets. by rewrite Hlk. Qed.

(** get_filesize is the lookup of the map, 0 for a name that was never
    inserted, and changes nothing. *)
Theorem get_filesize_map m name w :
  abstracts (memory w) m -> get_filesize name w = (Done (default 0 (m !! name)), w).
Proof. apply get_filesize_table. Qed.
End refinement.

Lemma insert_refines_witness :
  let w := World empty_table [] [] [] [] [] [] 0 ∅ ∅ (fun _ => true) [] [] in
  exists P : Platform,
    memory w = empty_table /\ abstracts empty_table ∅ /\ no_nul (bs "a.txt") /\
    wp (insert (bs "a.txt") 5)
      (fun o w' =>
         if decide (head (calls w) = Some false) then o = Exit 1 /\ memory w' = empty_table
         else if decide (zlen (bs "a.txt") < 256) then
           o = Done tt /\ abstracts (memory w') (<[bs "a.txt" := 5]> ∅)
         else o = Crash BufferOverflow /\ memory w' = empty_table) w.
Proof.
  intros w. exists demo_platform.
  assert (Hn : no_nul (bs "a.txt")) by (repeat constructor; done).
  split; [reflexivity|]. split; [exact empty_abstracts|]. split; [exact Hn|].
  exact (@insert_refines demo_platform empty_table ∅ (bs "a.txt") 5 w eq_refl empty_abstracts Hn).
Defined.

Lemma get_filesize_map_witness :
  let w := World (inserted empty_table (bs "a.txt") 5) [] [] [] [] [] [] 0 ∅ ∅ (fun _ => true) [] [] in
  abstracts (memory w) (<[bs "a.txt" := 5]> ∅) /\
  get_filesize (bs "a.txt") w = (Done (default 0 (<[bs "a.txt" := 5]> (∅ : gmap bytes Z) !! bs "a.txt")), w).
Proof.
  intros w. assert (Ha : abstracts (memory w) (<[bs "a.txt" := 5]> ∅))
    by (apply inserted_abstracts, empty_abstracts).
  split; [exact Ha|]. exact (get_filesize_map _ (bs "a.txt") w Ha).
Defined.
