(* ===== verification/Download.v ===== *)
(** * Downloading a file

    The receiving side of a transfer, which tomypeers.c and tomypeersV2.c share
    up to the messages they print and up to where the expected size of a file
    is kept.  That store is the interface [SizeIndex]. *)

From S2P Require Import Prelude CLib World Server.

(** What a download needs from the store of the announced sizes: reading the
    size of a name gives what the store is said to hold. *)
Class SizeIndex (mem : Type) := {
  lookup_size : bytes -> mem -> outcome Z;
  holds : mem -> (bytes -> Z) -> Prop;
  lookup_size_ok : forall m sizes name,
    holds m sizes -> lookup_size name m = Done (sizes name);
}.

(** The informational messages of one version of the program. *)
Record dialect := Dialect {
  prompt : string;
  on_first : Z -> list (string * list arg);
  on_opening : list (string * list arg);
  on_created : list (string * list arg);
  on_grabbing : list (string * list arg);
  on_total : Z -> list (string * list arg)
}.

Section download.
Context {mem : Type}.
Implicit Types (w : world mem).

Definition say (msgs : list (string * list arg)) : M (world mem) unit :=
  modify (fun w => set_console (console w ++ msgs) w).

(** The do-while loop that receives until the announced size is reached.  The
    byte count is an unsigned long of 32 bits; [filesize] is converted to it for
    the comparison.  A failed recv returns -1, which fwrite takes as a count of
    4294967295 bytes of the 4096-byte buffer.  The percentage is logged as its
    two operands. *)
Fixpoint receive_rest (fuel : nat) (path : bytes) (filesize total_bytes_recv : Z)
  : M (world mem) unit :=
  match fuel with
  | O => no_fuel
  | S fuel' =>
      '(bytes_received, d) ← recv 4096;
      let total_bytes_recv := u32 (total_bytes_recv + bytes_received) in
      (if bytes_received <? 0 then lift (Crash OverRead) else fwrite path d);;
      (if total_bytes_recv mod 10000 =? 0
       then printf "\n(%f/100.000000)\n" [AInt total_bytes_recv; AInt filesize]
       else mret tt);;
      if u32 filesize =? total_bytes_recv then mret tt
      else receive_rest fuel' path filesize total_bytes_recv
  end.

Context `{SizeIndex mem}.

(** One round of the download loop, for a name other than "exit". *)
Definition download_one (v : dialect) (send_buffer : bytes) : M (world mem) unit :=
  send send_buffer;;
  printf "\nSENT THE FILENAME\n" [];;
  '(bytes_received, d) ← recv 4096;
  let total_bytes_recv := u32 bytes_received in
  say (on_first v total_bytes_recv);;
  if 0 <? bytes_received then
    recv_buffer ← lift (write_at (memset0 4096) 0 d);
    recv_buffer ← lift (write_at recv_buffer bytes_received [0]);
    s ← lift (c_string recv_buffer);
    if strcmp_eq s no_such_file then printf "\nFile Does not exist.\n" []
    else
      let download_path := snprintf_concat 128 (bs "download/") send_buffer in
      say (on_opening v);;
      file ← fopen_wb download_path;
      say (on_created v);;
      if file : bool then
        say (on_grabbing v);;
        fwrite download_path (take (Z.to_nat bytes_received) recv_buffer);;
        m ← gets memory;
        filesize ← lift (lookup_size send_buffer m);
        say (on_total v filesize);;
        fuel ← gets (fun w => S (inbox_size (inbox w)));
        (if u32 filesize =? total_bytes_recv then mret tt
         else receive_rest fuel download_path filesize total_bytes_recv);;
        printf "\nFile '%s' downloaded successfully.\n" [AStr send_buffer]
      else printf "\nFile error creating '%s'" [AStr send_buffer]
  else mret tt.

(** The prompt loop: until the user types exit. *)
Fixpoint download_loop (v : dialect) (fuel : nat) : M (world mem) unit :=
  match fuel with
  | O => no_fuel
  | S fuel' =>
      printf (prompt v) [];;
      send_buffer ← scanf_s 128;
      if strcmp_eq send_buffer (bs "exit") then mret tt
      else download_one v send_buffer;; download_loop v fuel'
  end.

Definition download_session (v : dialect) : M (world mem) unit :=
  fuel ← gets (fun w => S (length (stdin w)));
  download_loop v fuel.
End download.

(** ** Receiving *)

Section receiving.
Context {mem : Type}.
Implicit Types (w : world mem).

(** Data as the socket may deliver it into a 4096-byte buffer. *)
Definition deliveries (cs : list bytes) : Prop :=
  Forall (fun c => 0 < length c <= 4096)%nat cs.

Lemma deliveries_concat cs : deliveries cs -> cs <> [] -> 0 < zlen (concat cs).
Proof.
  intros [|c cs' Hc _]; [done|]. intros _. simpl. rewrite zlen_app.
  pose proof (zlen_nonneg (concat cs')). unfold zlen at 1. lia.
Qed.

Lemma fwrite_run path d old w :
  disk w !! path = Some old -> fwrite path d w = (Done tt, set_disk (<[path := old ++ d]> (disk w)) w).
Proof.
  intros Hd. unfold fwrite, modify. do 2 f_equal. apply map_eq. intros p.
  destruct (decide (p = path)) as [->|Hne].
  - by rewrite lookup_alter_eq, Hd, lookup_insert_eq.
  - by rewrite lookup_alter_ne, lookup_insert_ne.
Qed.

(** The state that matters after a transfer. *)
Definition received path (content : bytes) (rest : list recv_event) w w' : Prop :=
  disk w' = <[path := content]> (disk w) /\ inbox w' = rest /\ outbox w' = outbox w /\
  stdin w' = stdin w /\ memory w' = memory w.

Lemma receive_rest_complete fuel path old filesize cs rest w :
  cs <> [] -> deliveries cs -> inbox w = map RData cs ++ rest ->
  disk w !! path = Some old ->
  u32 filesize = zlen old + zlen (concat cs) -> (length cs <= fuel)%nat ->
  wp (receive_rest fuel path filesize (zlen old))
    (fun o w' => o = Done tt /\ received path (old ++ concat cs) rest w w') w.
Proof.
  revert cs old w. induction fuel as [|fuel IH]; intros cs old w Hne Hcs Hi Hd Hsz Hf.
  { destruct cs; [done|]. simpl in Hf. lia. }
  destruct Hcs as [|c cs Hc Hcs]; [done|]. cbn [receive_rest].
  pose proof (u32_range filesize). pose proof (zlen_nonneg old).
  pose proof (zlen_nonneg (concat cs)). simpl in Hsz. rewrite zlen_app in Hsz.
  assert (Hcp : 0 < zlen c) by (unfold zlen; lia).
  apply wp_bind. eapply wp_intro; [by apply recv_fits; [exact Hi|lia]|]. cbn [wp_k].
  rewrite (u32_small (_ + _)) by lia. rewrite (proj2 (Z.ltb_ge (zlen c) 0)) by lia.
  apply wp_bind. eapply wp_intro; [by apply fwrite_run; exact Hd|]. cbn [wp_k].
  set (w1 := set_disk _ _).
  assert (Hw1 : received path (old ++ c) (map RData cs ++ rest) w w1) by done. clearbody w1.
  apply wp_bind.
  assert (Hp : exists con, (if (zlen old + zlen c) mod 10000 =? 0
     then printf "\n(%f/100.000000)\n" [AInt (zlen old + zlen c); AInt filesize]
     else mret tt) w1 = (Done tt, set_console con w1)).
  { destruct ((zlen old + zlen c) mod 10000 =? 0); [eexists; reflexivity|]. exists (console w1). by destruct w1. }
  destruct Hp as [con Hp]. eapply wp_intro; [exact Hp|]. cbn [wp_k].
  destruct Hw1 as (Hd1 & Hi1 & Ho1 & Hs1 & Hm1).
  destruct (Z.eqb_spec (u32 filesize) (zlen old + zlen c)) as [Heq|Hneq].
  - destruct Hcs as [|c' cs' Hc' Hcs'].
    2: { assert (0 < zlen (concat (c' :: cs'))) by (apply deliveries_concat; [by constructor|done]). lia. }
    apply wp_ret. split; [done|]. simpl. rewrite app_nil_r. done.
  - rewrite <- zlen_app. eapply wp_mono.
    + apply (IH cs (old ++ c)); simpl.
      * intros ->. simpl in Hsz. change (zlen (@nil Z)) with 0 in Hsz. lia.
      * done.
      * done.
      * by rewrite Hd1, lookup_insert_eq.
      * rewrite zlen_app. lia.
      * simpl in Hf. lia.
    + intros o w' (Ho & Hd' & Hi' & Ho' & Hs' & Hm'). split; [done|].
      split_and!; [|done|..]; simpl in *; try congruence.
      rewrite Hd', Hd1, insert_insert_eq. simpl. by rewrite <- app_assoc.
Qed.
End receiving.

(** ** One download *)

Section download_properties.
Context {mem : Type} `{SizeIndex mem}.
Implicit Types (w : world mem).

Definition download_path (name : bytes) : bytes := snprintf_concat 128 (bs "download/") name.

(** Up to the first delivery: the file is open and holds it. *)
Lemma download_one_first v name c rest w sizes (Q : outcome unit -> world mem -> Prop) :
  holds (memory w) sizes -> can_create w (download_path name) = true ->
  inbox w = RData c :: rest -> (0 < length c < 4096)%nat -> until_nul c <> no_such_file ->
  (forall w1,
     disk w1 = <[download_path name := c]> (disk w) -> inbox w1 = rest -> stdin w1 = stdin w ->
     memory w1 = memory w -> (send_results w = [] -> outbox w1 = outbox w ++ [name]) ->
     wp ((if u32 (sizes name) =? zlen c then mret tt
          else receive_rest (S (inbox_size rest)) (download_path name) (sizes name) (zlen c));;
         printf "\nFile '%s' downloaded successfully.\n" [AStr name]) Q w1) ->
  wp (download_one v name) Q w.
Proof.
  intros Hh Hcan Hi Hc Hmsg HQ. unfold download_one. fold (download_path name).
  destruct (send_any name w) as (ok & w1 & Hs & Hi1 & Hd1 & Hcan1 & Hm1 & Hin1 & Ho1').
  assert (Ho1 : send_results w = [] -> outbox w1 = outbox w ++ [name]) by apply Ho1'.
  apply wp_bind. eapply wp_intro; [exact Hs|]. cbn [wp_k].
  apply wp_bind, wp_modify. cbn [wp_k].
  assert (Hz : 0 < zlen c < 4096) by (unfold zlen; lia).
  apply wp_bind. eapply wp_intro; [apply (recv_fits 4096 c rest); [by simpl; rewrite Hi1|lia]|]. cbn [wp_k].
  rewrite (u32_small (zlen c)) by lia.
  apply wp_bind, wp_modify. cbn [wp_k]. rewrite (proj2 (Z.ltb_lt 0 (zlen c))) by lia.
  assert (Hz0 : zlen (memset0 4096) = 4096) by done.
  destruct (store_terminated (memset0 4096) c) as (b1 & b2 & H1 & H2 & Hl & Hs2); [lia|].
  assert (Ht : take (Z.to_nat (zlen c)) b2 = c) by (by eapply take_stored).
  apply wp_bind, wp_lift. rewrite H1. cbn [wp_k]. apply wp_bind, wp_lift. rewrite H2. cbn [wp_k].
  apply wp_bind, wp_lift. rewrite Hs2. cbn [wp_k]. unfold strcmp_eq.
  rewrite bool_decide_eq_false_2 by done.
  apply wp_bind, wp_modify. cbn [wp_k]. apply wp_bind.
  eapply wp_intro; [unfold fopen_wb; simpl; rewrite Hcan1, Hcan; done|]. cbn [wp_k].
  apply wp_bind, wp_modify. cbn [wp_k]. apply wp_bind, wp_modify. cbn [wp_k].
  apply wp_bind. rewrite Ht.
  eapply wp_intro; [by apply fwrite_run; simpl; apply lookup_insert_eq|]. cbn [wp_k].
  apply wp_bind, wp_gets. cbn [wp_k]. apply wp_bind, wp_lift. simpl memory.
  rewrite Hm1, (lookup_size_ok _ sizes) by done. cbn [wp_k].
  apply wp_bind, wp_modify. cbn [wp_k]. apply wp_bind, wp_gets. cbn [wp_k]. simpl inbox.
  apply HQ; simpl; [by rewrite Hd1, insert_insert_eq|done..|exact Ho1].
Qed.

Lemma download_one_complete v name c cs rest w sizes :
  holds (memory w) sizes -> can_create w (download_path name) = true ->
  send_results w = [] -> inbox w = map RData (c :: cs) ++ rest ->
  (0 < length c < 4096)%nat -> deliveries cs -> until_nul c <> no_such_file ->
  u32 (sizes name) = zlen (concat (c :: cs)) ->
  wp (download_one v name)
    (fun o w' => o = Done tt /\
       disk w' = <[download_path name := concat (c :: cs)]> (disk w) /\
       inbox w' = rest /\ outbox w' = outbox w ++ [name] /\
       stdin w' = stdin w /\ memory w' = memory w) w.
Proof.
  intros Hh Hcan Hs Hi Hc Hcs Hmsg Hsz.
  eapply download_one_first; [exact Hh|exact Hcan|exact Hi|exact Hc|exact Hmsg|].
  intros w1 Hd1 Hi1 Hin1 Hm1 Ho1. specialize (Ho1 Hs).
  simpl in Hsz. rewrite zlen_app in Hsz. pose proof (zlen_nonneg (concat cs)).
  apply wp_bind. destruct (Z.eqb_spec (u32 (sizes name)) (zlen c)) as [Heq|Hne].
  - destruct cs as [|c' cs'].
    2: { assert (0 < zlen (concat (c' :: cs'))) by (by apply deliveries_concat). lia. }
    apply wp_ret. cbn [wp_k]. apply wp_modify. simpl. rewrite app_nil_r. by split_and!.
  - eapply wp_mono.
    + apply (receive_rest_complete _ _ c (sizes name) cs rest); [|done|done| |lia|].
      * intros ->. simpl in Hsz. change (zlen (@nil Z)) with 0 in Hsz. lia.
      * by rewrite Hd1, lookup_insert_eq.
      * unfold inbox_size. clear. induction cs; simpl in *; lia.
    + intros o w2 (-> & Hd2 & Hi2 & Ho2 & Hin2 & Hm2). cbn [wp_k]. apply wp_modify. simpl.
      split_and!; try congruence. by rewrite Hd2, Hd1, insert_insert_eq.
Qed.

(** C3: A download completes with the right file.  Whatever way the network cuts
    the bytes of a file into deliveries of 1 to 4096 bytes (the first one short
    of the 4096-byte buffer), when they add up to the announced size and do not
    begin with the not-found message, one round of the download loop terminates,
    has sent exactly the name, leaves download/<name> with exactly those bytes
    in order and every other file as it was, and takes nothing more from the
    socket.  This holds for either program, whichever store keeps the sizes. *)
Theorem download_complete v name c cs rest w sizes :
  holds (memory w) sizes -> can_create w (download_path name) = true ->
  send_results w = [] -> inbox w = map RData (c :: cs) ++ rest ->
  (0 < length c < 4096)%nat -> deliveries cs -> until_nul c <> no_such_file ->
  u32 (sizes name) = zlen (concat (c :: cs)) ->
  wp (download_one v name)
    (fun o w' => o = Done tt /\
       disk w' = <[download_path name := concat (c :: cs)]> (disk w) /\
       inbox w' = rest /\ outbox w' = outbox w ++ [name] /\
       stdin w' = stdin w /\ memory w' = memory w) w.
Proof. apply download_one_complete. Qed.

Lemma receive_rest_closed fuel path filesize total k w old :
  inbox w = replicate k RClosed -> (k < fuel)%nat -> disk w !! path = Some old ->
  0 <= total < 4294967296 -> u32 filesize <> total ->
  wp (receive_rest fuel path filesize total)
    (fun o w' => o = Waiting /\ disk w' = disk w) w.
Proof.
  revert k w. induction fuel as [|fuel IH]; intros k w Hi Hf Hd Ht Hne; [lia|]. cbn [receive_rest].
  apply wp_bind. destruct k as [|k]; [by unfold wp, recv; rewrite Hi|].
  eapply wp_intro; [unfold recv; rewrite Hi; reflexivity|]. cbn [wp_k]. rewrite Z.add_0_r, (u32_small total) by done.
  change (0 <? 0) with false. cbn [wp_k]. apply wp_bind.
  eapply wp_intro; [by apply fwrite_run; exact Hd|]. cbn [wp_k]. rewrite app_nil_r.
  simpl disk. rewrite insert_id by done. apply wp_bind.
  assert (Hgo : forall v, inbox v = replicate k RClosed -> disk v = disk w ->
    wp_k (fun _ : unit => if u32 filesize =? total then mret tt
                          else receive_rest fuel path filesize total)
      (fun o w' => o = Waiting /\ disk w' = disk w) (Done tt) v).
  { intros v Hiv Hdv. cbn [wp_k]. rewrite (proj2 (Z.eqb_neq _ _) Hne).
    eapply wp_mono; [apply (IH k)|]; [done|lia|by rewrite Hdv|done|done|].
    intros o w' [-> ->]. by rewrite Hdv. }
  destruct (total mod 10000 =? 0); by apply Hgo.
Qed.

(** Files above 4 GiB are cut.  The listing announces a size modulo 2^32, so for
    a file of 2^32 + k bytes the announced size is k: if the deliveries reach a
    boundary after the first k bytes, the download ends there and reports
    success with a file of k bytes that is not the file, and the other 4 GiB are
    left in the stream, where the next answer is expected. *)
Theorem large_file_truncated v name content k c cs cs' w sizes :
  zlen content = 4294967296 + k -> 0 < k < 4294967296 ->
  holds (memory w) sizes -> sizes name = u32 (zlen content) ->
  can_create w (download_path name) = true -> send_results w = [] ->
  inbox w = map RData (c :: cs) ++ map RData cs' ->
  concat (c :: cs) ++ concat cs' = content -> zlen (concat (c :: cs)) = k ->
  (0 < length c < 4096)%nat -> deliveries cs -> until_nul c <> no_such_file ->
  wp (download_one v name)
    (fun o w' => o = Done tt /\ inbox w' = map RData cs' /\
       zlen (concat cs') = 4294967296 /\
       exists got, disk w' !! download_path name = Some got /\ zlen got = k /\ got <> content) w.
Proof.
  intros Hlen Hk Hh Hsz Hcan Hs Hi Hcat Hck Hc Hcs Hmsg.
  assert (Hu : u32 (zlen content) = k).
  { unfold u32, wrap. change (2 ^ 32) with 4294967296. rewrite Hlen, Z.add_mod by lia.
    change (4294967296 mod 4294967296) with 0. rewrite Z.add_0_l, Z.mod_mod by lia.
    apply Z.mod_small. lia. }
  eapply wp_mono.
  - eapply (download_one_complete v name c cs (map RData cs')); [exact Hh|exact Hcan|exact Hs|exact Hi|done..|].
    rewrite Hsz, Hu, Hck. apply u32_small. lia.
  - intros o w' (-> & Hd & Hi' & _). split; [done|]. split; [done|].
    assert (Hl2 : zlen (concat (c :: cs)) + zlen (concat cs') = 4294967296 + k)
      by (by rewrite <- zlen_app, Hcat).
    split; [lia|].
    exists (concat (c :: cs)). rewrite Hd, lookup_insert_eq. split_and!; [done|done|].
    intros Heq. rewrite <- Heq in Hlen. lia.
Qed.

(** C11: What an interrupted or ill-timed delivery does.  (1) If the peer closes
    the connection before the announced size has arrived, the loop never ends:
    after any number of recv calls that report the closed connection it is
    still running and the file holds the first delivery only.  (2) If recv fails
    there, the byte count -1 is handed to fwrite, which reads past the buffer.
    (3) If the first delivery fills the 4096-byte buffer, its terminator is
    stored one byte past the end. *)
Theorem download_interrupted v name c rest w sizes :
  holds (memory w) sizes -> can_create w (download_path name) = true ->
  (0 < length c)%nat -> until_nul c <> no_such_file -> inbox w = RData c :: rest ->
  (length c < 4096)%nat -> u32 (sizes name) <> zlen c ->
  (forall k, rest = replicate k RClosed ->
     wp (download_one v name)
       (fun o w' => o = Waiting /\ disk w' = <[download_path name := c]> (disk w)) w) /\
  (forall rest', rest = RError :: rest' ->
     wp (download_one v name) (fun o _ => o = Crash OverRead) w) /\
  (forall d, (4096 <= length d)%nat ->
     wp (download_one v name) (fun o _ => o = Crash BufferOverflow) (set_inbox [RData d] w)).
Proof.
  intros Hh Hcan Hc0 Hmsg Hi Hc Hne. assert (Hz : 0 < zlen c < 4096) by (unfold zlen; lia).
  split_and!.
  - intros k ->. eapply download_one_first; [exact Hh|exact Hcan|exact Hi|lia|exact Hmsg|].
    intros w1 Hd1 Hi1 Hin1 Hm1 _. apply wp_bind. rewrite (proj2 (Z.eqb_neq _ _) Hne).
    eapply wp_mono.
    + eapply (receive_rest_closed _ _ _ _ k); [exact Hi1| | |lia|done].
      * unfold inbox_size. clear. induction k; simpl in *; lia.
      * by rewrite Hd1, lookup_insert_eq.
    + intros o w2 [-> Hd2]. cbn [wp_k]. by rewrite Hd2.
  - intros rest' ->. eapply download_one_first; [exact Hh|exact Hcan|exact Hi|lia|exact Hmsg|].
    intros w1 Hd1 Hi1 Hin1 Hm1 _. apply wp_bind. rewrite (proj2 (Z.eqb_neq _ _) Hne).
    cbn [receive_rest]. apply wp_bind. unfold wp at 1, recv. rewrite Hi1. cbn [fst snd wp_k].
    by apply wp_bind, wp_lift.
  - intros d Hd. unfold download_one.
    destruct (send_any name (set_inbox [RData d] w)) as (ok & w1 & Hs & Hi1 & _).
    apply wp_bind. eapply wp_intro; [exact Hs|]. cbn [wp_k].
    apply wp_bind, wp_modify. cbn [wp_k]. apply wp_bind.
    destruct (recv_full 4096 d [] (set_console (console w1 ++ [("\nSENT THE FILENAME\n", [])]) w1))
      as [w2 Hr]; [by simpl; rewrite Hi1|done|].
    eapply wp_intro; [exact Hr|]. cbn [wp_k]. set (e := take 4096 d).
    assert (He : zlen e = 4096) by (unfold e, zlen; rewrite length_take; lia).
    assert (Hb : zlen (memset0 4096) = 4096) by done.
    apply wp_bind, wp_modify. cbn [wp_k]. rewrite (proj2 (Z.ltb_lt 0 (zlen e))) by lia.
    assert (Hw := write_at_done (memset0 4096) 0 e ltac:(lia) ltac:(lia)).
    apply wp_bind, wp_lift. rewrite Hw. cbn [wp_k]. apply wp_bind, wp_lift.
    by rewrite (store_terminated_overflow _ _ _ Hw) by lia.
Qed.
End download_properties.

(** ** Instances to evaluate on *)

Definition const_index (n : Z) : SizeIndex unit := {|
  lookup_size := fun _ _ => Done n;
  holds := fun _ sizes => forall name, sizes name = n;
  lookup_size_ok := fun _ sizes name H => f_equal Done (eq_sym (H name))
|}.

Definition silent : dialect := Dialect "" (fun _ => []) [] [] [] (fun _ => []).

Definition client_world (i : list recv_event) : world unit :=
  World tt [] i [] [] [] [] 0 ∅ ∅ (fun _ => true) [] [].

Lemma download_complete_witness :
  let w := client_world [RData (bs "hel"); RData (bs "lo"); RClosed] in
  @holds unit (const_index 5) (memory w) (fun _ => 5) /\
  wp (@download_one unit (const_index 5) silent (bs "a.txt"))
    (fun o w' => o = Done tt /\
       disk w' = <[download_path (bs "a.txt") := concat [bs "hel"; bs "lo"]]> (disk w) /\
       inbox w' = [RClosed] /\ outbox w' = outbox w ++ [bs "a.txt"] /\
       stdin w' = stdin w /\ memory w' = memory w) w.
Proof.
  intros w. assert (Hh : @holds unit (const_index 5) (memory w) (fun _ => 5)) by done.
  split; [exact Hh|].
  refine (@download_complete unit (const_index 5) silent (bs "a.txt") (bs "hel") [bs "lo"] [RClosed]
    w (fun _ => 5) Hh eq_refl eq_refl eq_refl _ _ _ eq_refl).
  - simpl. lia.
  - repeat constructor; simpl; lia.
  - done.
Defined.

Lemma large_file_truncated_witness :
  let big := replicate (Z.to_nat 4294967296) 0 in
  let w := client_world (map RData [[7]] ++ map RData [big]) in
  zlen ([7] ++ big) = 4294967296 + 1 /\
  @holds unit (const_index 1) (memory w) (fun _ => 1) /\
  wp (@download_one unit (const_index 1) silent (bs "a.iso"))
    (fun o w' => o = Done tt /\ inbox w' = map RData [big] /\
       zlen (concat [big]) = 4294967296 /\
       exists got, disk w' !! download_path (bs "a.iso") = Some got /\ zlen got = 1 /\
         got <> [7] ++ big) w.
Proof.
  intros big w.
  assert (Hb : zlen big = 4294967296) by (unfold zlen, big; rewrite length_replicate; lia).
  clearbody big.
  assert (Hl : zlen ([7] ++ big) = 4294967296 + 1) by (rewrite zlen_app, Hb; reflexivity).
  assert (Hh : @holds unit (const_index 1) (memory w) (fun _ => 1)) by done.
  split; [exact Hl|]. split; [exact Hh|].
  refine (@large_file_truncated unit (const_index 1) silent (bs "a.iso") ([7] ++ big) 1 [7] [] [big]
    w (fun _ => 1) Hl _ Hh _ eq_refl eq_refl eq_refl _ eq_refl _ _ _).
  - lia.
  - rewrite Hl. reflexivity.
  - simpl. by rewrite app_nil_r.
  - simpl. lia.
  - constructor.
  - done.
Defined.

Lemma download_interrupted_witness :
  let w := client_world (RData (bs "hel") :: replicate 9 RClosed) in
  @holds unit (const_index 5) (memory w) (fun _ => 5) /\ u32 5 <> zlen (bs "hel") /\
  wp (@download_one unit (const_index 5) silent (bs "a.txt"))
    (fun o w' => o = Waiting /\ disk w' = <[download_path (bs "a.txt") := bs "hel"]> (disk w)) w.
Proof.
  intros w. assert (Hh : @holds unit (const_index 5) (memory w) (fun _ => 5)) by done.
  split; [exact Hh|]. split; [done|].
  refine (proj1 (@download_interrupted unit (const_index 5) silent (bs "a.txt") (bs "hel")
    (replicate 9 RClosed) w (fun _ => 5) Hh eq_refl _ _ eq_refl _ _) 9%nat eq_refl).
  - simpl. lia.
  - done.
  - simpl. lia.
  - done.
Defined.
