(* ===== verification/PeerV2.v ===== *)
(** * The restructured program (tomypeersV2.c): the connecting side

    Commands, connecting, the remote listing and the session, on the heap of
    [FileNode]. *)

From S2P Require Import Prelude CLib World Listing Server FileNode Download.

Section peer.
Context `{Platform} `{Malloc}.

(** The strtok loop; [filename] and [filesize] are uninitialised in every round. *)
Fixpoint add_entries (tokens : list bytes) (start : option Z) : M (world heap) (option Z) :=
  match tokens with
  | [] => mret start
  | token :: tokens' =>
      '(filename, filesize) ← lift (sscanf_entry scan_d token (indet_array 72) indet_int);
      name ← lift (c_string filename);
      start ← appendNode start name filesize;
      add_entries tokens' start
  end.

Definition recv_and_display_file_list (start : option Z) : M (world heap) (option Z) :=
  '(bytes_received, d) ← recv 2048;
  start ← (if 0 <=? bytes_received then
      file_info ← lift (write_at (indet_array 2048) 0 d);
      file_info ← lift (write_at file_info bytes_received [0]);
      text ← lift (c_string file_info);
      printf "\nFiles available for download:\n%s\n" [AStr text];;
      add_entries (strtok 10 [] text) start
    else
      printf "Recv error: %d\n" [AInt last_error];;
      mret start);
  printlist start;;
  mret start.

(** The list that [start] points to, as the store of the announced sizes. *)
Lemma list_index_ok (start : option Z) (m : heap) (sizes : bytes -> Z) (name : bytes) :
  (exists locs files, represents m start locs files /\ forall n, sizes n = first_size files n) ->
  find_size (S (base.size m)) m start name = Done (sizes name).
Proof.
  intros (locs & files & Hr & Hs).
  pose proof (represents_size _ _ _ _ Hr). destruct Hr as (Hlen & _ & Hc).
  rewrite (find_size_chain _ _ _ _ _ Hc) by (rewrite length_zip_with; lia).
  by rewrite snd_zip, Hs by lia.
Qed.

Definition list_index (start : option Z) : SizeIndex heap := {|
  lookup_size := fun name h => find_size (S (base.size h)) h start name;
  holds := fun h sizes => exists locs files, represents h start locs files /\
             forall n, sizes n = first_size files n;
  lookup_size_ok := fun h sizes name => list_index_ok start h sizes name
|}.

Definition v2_messages : dialect := {|
  prompt := "Enter filename you would like to download(type exit to quit)> ";
  on_first := fun n => [("\nInitially RECEIVED THE FILE DATA : %d\n", [AInt n])];
  on_opening := [("\nOPENING FILE.\n", [])];
  on_created := [("\nCREATED FILE.\n", [])];
  on_grabbing := [("\nGRABBING THE REST OF THE DATA.\n", [])];
  on_total := fun n => [("\nTOTAL SIZE OF FILE DATA: %d\n", [AInt n])]
|}.

Definition download_files (start : option Z) : M (world heap) unit :=
  printlist start;;
  @download_session heap (list_index start) v2_messages.

(** A failed socket or connect is reported and ignored. *)
Definition establish_connection : M (world heap) (option Z) :=
  printf "Enter ip address to connect to> " [];;
  host ← scanf_s 16;
  printf "Enter port number to connect to> " [];;
  port ← scanf_s 6;
  connection ← socket;
  (if connection then mret tt else printf "Could not create socket: %d\n" [AInt last_error]);;
  ok ← connect connection host (port_number port);
  (if ok : bool then mret tt else printf "Connection failed\n" []);;
  printf "Connected to server at %s:%s\n" [AStr host; AStr port];;
  mret connection.

(** The last test, [strcmp(command[0], "e")], takes a character for a pointer. *)
Definition command_selection : M (world heap) Z :=
  printf "Enter command (exit, connect, upload_list)> " [];;
  command ← scanf_s 12;
  if strcmp_eq command (bs "upload_list") then mret 2
  else if strcmp_eq command (bs "connect") then mret 1
  else lift (Crash WildPointer).

Definition close_connection (connection : option Z) : M (world heap) unit :=
  match connection with Some s => closesocket s | None => mret tt end.

(** The branch for [command == 1]. *)
Definition connect_command (start : option Z) : M (world heap) (option Z) :=
  connection ← establish_connection;
  start ← recv_and_display_file_list start;
  download_files start;;
  close_connection connection;;
  freelist start;;
  mret start.

(** One round of the command loop: the values of [command] and [start] after it.
    The last test is the assignment [command = -1]. *)
Definition command_round (select : M (world heap) Z) (scan : dir_scan) (start : option Z)
  : M (world heap) (Z * option Z) :=
  command ← select;
  '(command, start) ←
    (if command =? 1 then
       start ← connect_command start;
       mret (command, start)
     else if command =? 2 then
       list_directory scan;;
       mret (command, start)
     else
       printf "Incorrect command: failed with error\n" [];;
       mret (-1, start));
  printf "%i\n" [AInt command];;
  mret (command, start).

Fixpoint command_loop (select : M (world heap) Z) (fuel : nat) (scan : dir_scan) (start : option Z)
  : M (world heap) unit :=
  match fuel with
  | O => no_fuel
  | S fuel' =>
      '(command, start) ← command_round select scan start;
      if command =? 0 then mret tt else command_loop select fuel' scan start
  end.

(** main; the listening thread runs beside it on its own state. *)
Definition main (scan : dir_scan) : M (world heap) Z :=
  ok ← syscall;
  if negb ok then printf "WSAStartup failed with error: %d\n" [AInt last_error];; mret 1
  else
    connection ← socket;
    match connection with
    | None => printf "Could not create socket: %d\n" [AInt last_error];; mret 1
    | Some _ =>
        fuel ← gets (fun w => S (length (stdin w)));
        command_loop command_selection fuel scan None;;
        mret 0
    end.
End peer.

(** ** Reading the remote listing *)

Section listing.
Context `{Platform} `{Malloc}.
Implicit Types (w : world heap).

(** The components a list operation leaves alone. *)
Definition outside w := (io_state w, inbox w, dials w, calls w, open_sockets w).

Lemma appendNode_outside start name size : frames outside (appendNode start name size).
Proof. unfold appendNode, createNode. solve_frames. Qed.

Lemma print_nodes_outside fuel p : frames outside (print_nodes fuel p).
Proof.
  revert p. induction fuel as [|fuel IH]; intros [q|]; cbn [print_nodes];
    [apply frames_lift|apply frames_ret| |apply frames_ret].
  apply frames_bind; [apply frames_gets|]. intros h.
  destruct (h !! q); [|apply frames_lift]. solve_frames.
Qed.

Lemma printlist_outside start : frames outside (printlist start).
Proof.
  unfold printlist. pose proof print_nodes_outside. destruct start; [|solve_frames].
  apply frames_bind; [apply frames_gets|auto].
Qed.

Lemma printlist_run start locs files w :
  represents (memory w) start locs files ->
  exists w', printlist start w = (Done tt, w') /\ memory w' = memory w /\ outside w' = outside w.
Proof.
  intros Hr. pose proof (represents_size _ _ _ _ Hr). destruct Hr as (Hlen & _ & Hc).
  pose proof (printlist_outside start w) as Hout. unfold printlist in *.
  destruct start as [p|]; [|eexists; split; [done|by split]].
  rewrite (bind_done _ _ _ (memory w) w) in * by done.
  rewrite (print_nodes_chain _ _ _ _ Hc) in * by (rewrite length_zip_with; lia).
  eexists. by split.
Qed.

Lemma add_entries_listing fs start locs files w :
  (forall h, is_Some (malloc h)) -> Forall listable fs ->
  represents (memory w) start locs files ->
  wp (add_entries (map token fs) start)
    (fun o w' => exists start' locs', o = Done start' /\
       represents (memory w') start' locs' (files ++ map name_and_size fs) /\
       outside w' = outside w) w.
Proof.
  intros Hmalloc Hfs. revert start locs files w.
  induction Hfs as [|f fs Hf _ IH]; intros start locs files w Hr; simpl.
  - apply wp_ret. exists start, locs. by rewrite app_nil_r.
  - destruct Hf as (Hne & Hsp & Hnul & Hlen & Hs).
    destruct (sscanf_entry_line scan_d (cFileName f) (nFileSizeLow f) (indet_array 72) indet_int)
      as (buf & Hscan & Hbuf); [done..| |lia|].
    { unfold zlen at 2. rewrite indet_array_length. lia. }
    apply wp_bind, wp_lift. unfold token. rewrite Hscan, scan_d_small by lia. cbn [wp_k].
    apply wp_bind, wp_lift. rewrite Hbuf. cbn [wp_k].
    destruct (Hmalloc (memory w)) as [l Hl].
    apply wp_bind. eapply wp_mono.
    { eapply wp_frames; [apply appendNode_outside|]. by apply (appendNode_post _ locs files). }
    intros o w1 [(start1 & -> & Hr1 & _) Hout1]. cbn [wp_k].
    rewrite take_ge in Hr1 by (unfold zlen in Hlen; lia).
    eapply wp_mono; [by apply (IH _ (locs ++ [l]))|].
    intros o w2 (start2 & locs2 & -> & Hr2 & Hout2). exists start2, locs2.
    split; [done|]. split; [|congruence]. rewrite <- app_assoc in Hr2. done.
Qed.

Lemma listing_roundtrip_post fs start locs files rest w :
  (forall h, is_Some (malloc h)) -> Forall listable (visible fs) ->
  zlen (listing_text fs) < 2048 ->
  inbox w = RData (listing_text fs) :: rest -> represents (memory w) start locs files ->
  wp (recv_and_display_file_list start)
    (fun o w' => exists start' locs', o = Done start' /\
       represents (memory w') start' locs' (files ++ map name_and_size (visible fs)) /\
       outside w' = outside (set_inbox rest w)) w.
Proof.
  intros Hmalloc Hfs Hlen Hi Hr. unfold recv_and_display_file_list.
  assert (Hb : zlen (indet_array 2048) = 2048) by (unfold zlen; by rewrite indet_array_length).
  apply wp_bind. eapply wp_intro; [apply (recv_fits _ _ _ _ Hi); unfold zlen in Hlen; lia|].
  cbn [wp_k]. rewrite (proj2 (Z.leb_le 0 _)) by apply zlen_nonneg.
  destruct (store_terminated (indet_array 2048) (listing_text fs)) as (b1 & b2 & H1 & H2 & _ & Hs); [lia|].
  rewrite until_nul_id in Hs by (by apply listing_no_nul).
  apply wp_bind. apply wp_bind, wp_lift. rewrite H1. cbn [wp_k].
  apply wp_bind, wp_lift. rewrite H2. cbn [wp_k]. apply wp_bind, wp_lift. rewrite Hs. cbn [wp_k].
  apply wp_bind, wp_modify. cbn [wp_k]. rewrite strtok_listing by done.
  eapply wp_mono; [by apply (add_entries_listing _ _ locs files)|].
  intros o w1 (start1 & locs1 & -> & Hr1 & Hout1). cbn [wp_k].
  destruct (printlist_run _ _ _ _ Hr1) as (w2 & Hrun & Hm2 & Hout2).
  apply wp_bind. eapply wp_intro; [exact Hrun|]. cbn [wp_k]. apply wp_ret.
  exists start1, locs1. split; [done|]. rewrite Hm2. split; [done|]. by rewrite Hout2, Hout1.
Qed.

(** C4: The listing round trip.  When a peer's listing, of entries with names of
    1 to 71 bytes without white space and sizes below 2 GiB, arrives in one
    delivery shorter than the 2048-byte buffer, the client's list is extended,
    in order, by exactly the names and sizes the peer printed, whatever the
    uninitialised variables held; nothing else is read from the socket, sent or
    written to disk. *)
Theorem listing_roundtrip fs start locs files rest w :
  (forall h, is_Some (malloc h)) -> Forall listable (visible fs) ->
  zlen (listing_text fs) < 2048 ->
  inbox w = RData (listing_text fs) :: rest -> represents (memory w) start locs files ->
  wp (recv_and_display_file_list start)
    (fun o w' => exists start' locs', o = Done start' /\
       represents (memory w') start' locs' (files ++ map name_and_size (visible fs)) /\
       outside w' = outside (set_inbox rest w)) w.
Proof. apply listing_roundtrip_post. Qed.
End listing.

Lemma listing_roundtrip_witness :
  let fs := scan_entries demo_scan in
  let w := set_inbox [RData (listing_text fs); RClosed] (set_memory (∅ : heap) demo_files_world) in
  exists (P : Platform) (m : Malloc),
    (forall h, is_Some (malloc h)) /\ Forall listable (visible fs) /\
    zlen (listing_text fs) < 2048 /\ represents (memory w) None [] [] /\
    wp (recv_and_display_file_list None)
      (fun o w' => exists start' locs', o = Done start' /\
         represents (memory w') start' locs' ([] ++ map name_and_size (visible fs)) /\
         outside w' = outside (set_inbox [RClosed] w)) w.
Proof.
  intros fs w. exists demo_platform, demo_malloc.
  assert (Hm : forall h, is_Some (@malloc demo_malloc h)).
  { intros h. simpl. unfold demo_malloc_fun. destruct (h !! 1); eauto. }
  assert (Hl : Forall listable (visible fs)).
  { repeat constructor; try done. }
  assert (Hr : represents (memory w) None [] []) by (split_and!; [done|constructor|done]).
  split_and!; [exact Hm|exact Hl|reflexivity|exact Hr|].
  exact (@listing_roundtrip demo_platform demo_malloc fs None [] [] [RClosed] w Hm Hl eq_refl eq_refl Hr).
Defined.

(** ** Connecting *)

Section commands.
Context `{Platform} `{Malloc}.
Implicit Types (w : world heap).

(** Connecting to a host and a decimal port: the port typed as the digits of a
    16-bit number fits the 6-byte array and is the port connected to; and
    whether or not the connection is made, the function returns the new socket
    and ends by printing "Connected to server": a refused connection only adds
    the line "Connection failed" before it. *)
Theorem establish_connection_spec host p rest ok evs ds w :
  stdin w = host :: dec p :: rest -> zlen host < 16 -> 0 <= p < 65536 ->
  calls w = [] -> dials w = (ok, evs) :: ds ->
  wp establish_connection
    (fun o w' => o = Done (Some (next_socket w)) /\ connects w' = connects w ++ [(host, p)] /\
       inbox w' = evs /\ stdin w' = rest /\
       console w' = console w ++
         [("Enter ip address to connect to> ", []); ("Enter port number to connect to> ", [])] ++
         (if ok : bool then [] else [("Connection failed\n", [])]) ++
         [("Connected to server at %s:%s\n", [AStr host; AStr (dec p)])]) w.
Proof.
  intros Hin Hh Hp Hc Hd. unfold establish_connection.
  assert (Hlen : zlen (dec p) < 6).
  { pose proof (dec_length 5 p ltac:(lia) ltac:(lia)). unfold zlen. lia. }
  assert (Hport : port_number (dec p) = p).
  { unfold port_number. rewrite atoi_dec by lia. apply (wrap_small 16). lia. }
  apply wp_bind, wp_modify. cbn [wp_k]. apply wp_bind.
  eapply wp_intro; [unfold scanf_s; simpl; rewrite Hin, (proj2 (Z.ltb_lt _ _) Hh); done|]. cbn [wp_k].
  apply wp_bind, wp_modify. cbn [wp_k]. apply wp_bind.
  eapply wp_intro; [unfold scanf_s; simpl; rewrite (proj2 (Z.ltb_lt _ _) Hlen); done|]. cbn [wp_k].
  apply wp_bind. eapply wp_intro; [unfold socket, mbind, M_bind, syscall; simpl; rewrite Hc; reflexivity|].
  cbn [wp_k]. apply wp_bind, wp_ret. cbn [wp_k]. apply wp_bind. rewrite Hport.
  eapply wp_intro; [unfold connect; simpl; rewrite Hd; reflexivity|]. cbn [wp_k].
  apply wp_bind. destruct ok.
  - apply wp_ret. cbn [wp_k]. apply wp_bind, wp_modify. cbn [wp_k]. apply wp_ret. simpl.
    split_and!; try done. by rewrite <- !app_assoc.
  - apply wp_modify. cbn [wp_k]. apply wp_bind, wp_modify. cbn [wp_k]. apply wp_ret. simpl.
    split_and!; try done. by rewrite <- !app_assoc.
Qed.

(** ** The command loop *)

(** Whatever a round does, [command] is never 0 after it. *)
Lemma command_round_nonzero select scan start w :
  wp (command_round select scan start)
    (fun o _ => match o with Done (command, _) => command <> 0 | _ => True end) w.
Proof.
  unfold command_round. apply wp_bind. unfold wp at 1.
  destruct (select w) as [[c| | | |] w1]; try done. cbn [fst snd wp_k].
  apply wp_bind. destruct (Z.eqb_spec c 1) as [->|Hc1].
  { apply wp_bind. unfold wp at 1. by destruct (connect_command start w1) as [[]]. }
  destruct (Z.eqb_spec c 2) as [->|Hc2].
  - apply wp_bind. unfold wp at 1. by destruct (list_directory scan w1) as [[]].
  - by apply wp_bind, wp_modify.
Qed.

(** C13: The command loop never ends.  Whatever function selects the commands, even
    one that returns 0 for exit, whatever is typed and whatever the network
    does, and however many rounds are run, the loop does not return: the last
    test of a round assigns -1 to [command].  And with the code's own
    [command_selection] the word exit, which the prompt offers, ends in a
    dereference of a character value. *)
Theorem command_loop_never_returns select fuel scan start w :
  wp (command_loop select fuel scan start) (fun o _ => o <> Done tt) w /\
  (forall rest, stdin w = bs "exit" :: rest ->
     wp (command_loop command_selection (S fuel) scan start)
       (fun o _ => o = Crash WildPointer) w).
Proof.
  split.
  - revert start w. induction fuel as [|fuel IH]; intros start w; cbn [command_loop]; [done|].
    apply wp_bind. eapply wp_mono; [apply command_round_nonzero|].
    intros o w1 Ho. destruct o as [[command start']| | | |]; cbn [wp_k]; try done.
    rewrite (proj2 (Z.eqb_neq command 0) Ho). apply IH.
  - intros rest Hin. cbn [command_loop]. apply wp_bind. unfold command_round.
    apply wp_bind. unfold command_selection. apply wp_bind, wp_modify. cbn [wp_k].
    apply wp_bind. eapply wp_intro; [unfold scanf_s; simpl; by rewrite Hin|]. cbn [wp_k].
    by apply wp_lift.
Qed.
End commands.

Lemma establish_connection_spec_witness :
  let w := set_stdin [bs "127.0.0.1"; dec 12172; bs "b.txt"]
             (set_dials [(false, [RError])] demo_files_world) in
  exists P : Platform,
    stdin w = bs "127.0.0.1" :: dec 12172 :: [bs "b.txt"] /\
    zlen (bs "127.0.0.1") < 16 /\ 0 <= 12172 < 65536 /\ calls w = [] /\
    dials w = (false, [RError]) :: [] /\
    wp establish_connection
      (fun o w' => o = Done (Some (next_socket w)) /\
         connects w' = connects w ++ [(bs "127.0.0.1", 12172)] /\
         inbox w' = [RError] /\ stdin w' = [bs "b.txt"] /\
         console w' = console w ++
           [("Enter ip address to connect to> ", []); ("Enter port number to connect to> ", [])] ++
           [("Connection failed\n", [])] ++
           [("Connected to server at %s:%s\n", [AStr (bs "127.0.0.1"); AStr (dec 12172)])]) w.
Proof.
  intros w. exists demo_platform. split_and!; try reflexivity; try lia.
  refine (@establish_connection_spec demo_platform (bs "127.0.0.1") 12172 [bs "b.txt"] false
    [RError] [] w eq_refl eq_refl _ eq_refl eq_refl). lia.
Defined.

Lemma command_loop_never_returns_witness :
  let w := set_stdin [bs "exit"] demo_files_world in
  exists (P : Platform) (m : Malloc),
    wp (command_loop (mret 0) 3 demo_scan None) (fun o _ => o <> Done tt) w /\
    wp (command_loop command_selection 4 demo_scan None) (fun o _ => o = Crash WildPointer) w.
Proof.
  intros w. exists demo_platform, demo_malloc.
  pose proof (@command_loop_never_returns demo_platform demo_malloc (mret 0) 3 demo_scan None w) as [H1 H2].
  split; [exact H1|]. exact (H2 [] eq_refl).
Defined.
