(* ===== verification/PeerV1.v ===== *)
(** * The first program (tomypeers.c): the connecting side

    The same protocol with the sizes in the hash table of [HashMap]; the command
    loop is written out in main. *)

From S2P Require Import Prelude CLib World Listing Server Download HashMap.

Lemma table_index_ok (t : table) (sizes : bytes -> Z) (name : bytes) :
  (exists m, abstracts t m /\ forall n, sizes n = default 0 (m !! n)) ->
  Done (default 0 (find_in_chain (bucket t (hash_function name)) name)) = Done (sizes name).
Proof. intros (m & (_ & _ & Hlk) & Hs). by rewrite Hs, Hlk. Qed.

(** The hash table as the store of the announced sizes. *)
Definition table_index : SizeIndex table := {|
  lookup_size := fun name t => Done (default 0 (find_in_chain (bucket t (hash_function name)) name));
  holds := fun t sizes => exists m, abstracts t m /\ forall n, sizes n = default 0 (m !! n);
  lookup_size_ok := table_index_ok
|}.

Definition v1_messages : dialect := {|
  prompt := "Enter a file you would like to download(or exit)> ";
  on_first := fun _ => [("\nRECEIVED THE FILE DATA\n", [])];
  on_opening := [];
  on_created := [];
  on_grabbing := [];
  on_total := fun _ => []
|}.

Section peer.
Context `{Platform}.

(** The routines the two programs share: tomypeers.c has its own copy of each, of
    which only the listening thread differs, in one message. *)
Definition send_file_list : dir_scan -> M (world table) unit := Listing.send_file_list.
Definition create_file_list : dir_scan -> bytes -> M (world table) bytes := Listing.create_file_list.
Definition list_directory : dir_scan -> M (world table) unit := Listing.list_directory.
Definition listen_for_connections : list (dir_scan * dir_scan) -> M (world table) unit :=
  Server.listen_for_connections "\nTRYING TO GRAB THE FILE FROM THE USER\n".
Definition download_files : M (world table) unit := @download_session table table_index v1_messages.

Fixpoint populate (tokens : list bytes) : M (world table) unit :=
  match tokens with
  | [] => mret tt
  | token :: tokens' =>
      '(filename, filesize) ← lift (sscanf_entry scan_lu token (indet_array 256) (u32 indet_int));
      name ← lift (c_string filename);
      insert name filesize;;
      populate tokens'
  end.

Definition receive_listing : M (world table) unit :=
  '(bytes_received, d) ← recv 2048;
  if 0 <=? bytes_received then
    file_info ← lift (write_at (indet_array 2048) 0 d);
    file_info ← lift (write_at file_info bytes_received [0]);
    text ← lift (c_string file_info);
    printf "\nFiles available for download:\n%s\n" [AStr text];;
    populate (strtok 10 [] text)
  else printf "Recv error: %d\n" [AInt last_error].

(** The branch of main for the command connect: [Some] is a return from main. *)
Definition connect_command : M (world table) (option Z) :=
  printf "Enter ip address to connect to> " [];;
  host ← scanf_s 256;
  printf "Enter port number to connect to> " [];;
  port ← scanf_s 10;
  connection ← socket;
  match connection with
  | None => printf "Could not create socket: %d\n" [AInt last_error];; mret (Some 1)
  | Some s =>
      ok ← connect connection host (port_number port);
      if negb ok then printf "Connection failed\n" [];; mret (Some 1)
      else
        printf "Connected to server at %s:%s\n" [AStr host; AStr port];;
        receive_listing;;
        download_files;;
        closesocket s;;
        mret None
  end.

Fixpoint command_loop (fuel : nat) (scan : dir_scan) (command : bytes) : M (world table) Z :=
  match fuel with
  | O => no_fuel
  | S fuel' =>
      if strcmp_eq command (bs "exit") then mret 0
      else
        printf "Enter command (exit, connect, uplist)> " [];;
        command ← scanf_s 10;
        if strcmp_eq command (bs "connect") then
          r ← connect_command;
          match r with
          | Some code => mret code
          | None => command_loop fuel' scan command
          end
        else if strcmp_eq command (bs "uplist") then
          list_directory scan;;
          print_hashmap;;
          command_loop fuel' scan command
        else command_loop fuel' scan command
  end.

(** main; [command] is read before it is ever written. *)
Definition main (scan : dir_scan) : M (world table) Z :=
  ok ← syscall;
  if negb ok then printf "WSAStartup failed with error: %d\n" [AInt last_error];; mret 1
  else
    command ← lift (c_string (indet_array 10));
    fuel ← gets (fun w => (2 + length (stdin w))%nat);
    command_loop fuel scan command.
End peer.

(** ** Reading the remote listing *)

(** The map after the lines of a listing, in order. *)
Definition insert_all (fs : list find_data) (m : gmap bytes Z) : gmap bytes Z :=
  fold_left (fun m f => <[cFileName f := nFileSizeLow f]> m) fs m.

Section peer_properties.
Context `{Platform}.
Implicit Types (w : world table).

Definition outside w := (io_state w, inbox w, dials w, calls w, open_sockets w).

Lemma populate_listing fs m w :
  Forall listable fs -> abstracts (memory w) m -> calls w = [] ->
  wp (populate (map token fs))
    (fun o w' => o = Done tt /\ abstracts (memory w') (insert_all fs m) /\ outside w' = outside w) w.
Proof.
  intros Hfs. revert m w. induction Hfs as [|f fs Hf _ IH]; intros m w Ha Hc; simpl; [done|].
  destruct Hf as (Hne & Hsp & Hnul & Hlen & Hs).
  destruct (sscanf_entry_line scan_lu (cFileName f) (nFileSizeLow f) (indet_array 256) (u32 indet_int))
    as (buf & Hscan & Hbuf); [done..| |lia|].
  { unfold zlen at 2. rewrite indet_array_length. lia. }
  apply wp_bind, wp_lift. unfold token. rewrite Hscan, scan_lu_small by lia. cbn [wp_k].
  apply wp_bind, wp_lift. rewrite Hbuf. cbn [wp_k].
  apply wp_bind. eapply wp_intro; [apply insert_run; [done|lia|done]|]. cbn [wp_k].
  eapply wp_mono; [apply (IH (<[cFileName f := nFileSizeLow f]> m)); [|done]|done].
  by apply inserted_abstracts.
Qed.

(** C12: The first program reads a listing back into its hash table: when the
    listing arrives in one delivery shorter than the 2048-byte buffer and
    malloc does not fail, the table is the map it was, updated line by line with
    the names and sizes the peer printed; nothing else is read, sent or written. *)
Theorem receive_listing_table fs m rest w :
  Forall listable (visible fs) -> zlen (listing_text fs) < 2048 ->
  inbox w = RData (listing_text fs) :: rest -> abstracts (memory w) m -> calls w = [] ->
  wp receive_listing
    (fun o w' => o = Done tt /\ abstracts (memory w') (insert_all (visible fs) m) /\
       outside w' = outside (set_inbox rest w)) w.
Proof.
  intros Hfs Hlen Hi Ha Hc. unfold receive_listing.
  assert (Hb : zlen (indet_array 2048) = 2048) by (unfold zlen; by rewrite indet_array_length).
  apply wp_bind. eapply wp_intro; [apply (recv_fits _ _ _ _ Hi); unfold zlen in Hlen; lia|].
  cbn [wp_k]. rewrite (proj2 (Z.leb_le 0 _)) by apply zlen_nonneg.
  destruct (store_terminated (indet_array 2048) (listing_text fs)) as (b1 & b2 & H1 & H2 & _ & Hs); [lia|].
  rewrite until_nul_id in Hs by (by apply listing_no_nul).
  apply wp_bind, wp_lift. rewrite H1. cbn [wp_k]. apply wp_bind, wp_lift. rewrite H2. cbn [wp_k].
  apply wp_bind, wp_lift. rewrite Hs. cbn [wp_k]. apply wp_bind, wp_modify. cbn [wp_k].
  rewrite strtok_listing by done. eapply wp_mono; [by apply (populate_listing _ m)|done].
Qed.

(** The words at the prompt that keep the loop going without connecting. *)
Definition idle_word (word : bytes) : Prop :=
  zlen word < 10 /\ word <> bs "exit" /\ word <> bs "connect".

Lemma list_directory_done scan w :
  exists c, list_directory scan w = (Done tt, set_console c w).
Proof.
  destruct scan as [err|first rest err]; [eexists; reflexivity|]. unfold list_directory, Listing.list_directory.
  rewrite bind_printf.
  assert (Hp : forall fs (v : world table), exists c, print_entries fs v = (Done tt, set_console c v)).
  { induction fs as [|f fs IH]; intros v; [exists (console v); by destruct v|].
    cbn [print_entries]. unfold mbind, M_bind. destruct (is_directory f); [apply IH|].
    edestruct IH as [c Hc]. eexists. cbn [printf modify]. rewrite Hc. reflexivity. }
  edestruct Hp as [c1 Hc1]. rewrite (bind_done _ _ _ _ _ Hc1).
  rewrite bind_printf. edestruct (@report_scan_error_run table) as [c2 Hc2].
  eexists. rewrite Hc2. reflexivity.
Qed.

Lemma print_hashmap_done w : exists c, print_hashmap w = (Done tt, set_console c w).
Proof.
  assert (Hc : forall ch (v : world table), exists c, print_chain ch v = (Done tt, set_console c v)).
  { induction ch as [|[n s] ch IH]; intros v; [exists (console v); by destruct v|].
    cbn [print_chain]. rewrite bind_printf.
    edestruct IH as [c Hc]. eexists. rewrite Hc. reflexivity. }
  assert (Hb : forall t (v : world table), exists c, print_buckets t v = (Done tt, set_console c v)).
  { induction t as [|ch t IH]; intros v; [exists (console v); by destruct v|].
    cbn [print_buckets]. edestruct Hc as [c1 H1]. rewrite (bind_done _ _ _ _ _ H1).
    edestruct IH as [c2 H2]. eexists. rewrite H2. reflexivity. }
  unfold print_hashmap. rewrite bind_printf, bind_gets. edestruct Hb as [c H1]. eexists. rewrite H1. reflexivity.
Qed.

(** The first program's exit works: whatever words other than connect are typed
    before it, the word exit ends main with status 0, without undefined
    behaviour, having sent and written nothing, provided the array that the loop
    tests before its first scanf happens to hold a terminated string other than
    exit. *)
Theorem main_exits scan words rest s w :
  stdin w = words ++ bs "exit" :: rest -> Forall idle_word words ->
  c_string (indet_array 10) = Done s -> s <> bs "exit" -> calls w = [] ->
  wp (main scan)
    (fun o w' => o = Done 0 /\ stdin w' = rest /\ outbox w' = outbox w /\
       disk w' = disk w /\ memory w' = memory w) w.
Proof.
  intros Hin Hw Hs Hne Hc. unfold main.
  assert (Hloop : forall words fuel command v, stdin v = words ++ bs "exit" :: rest ->
    Forall idle_word words -> command <> bs "exit" -> (2 + length words <= fuel)%nat ->
    wp (command_loop fuel scan command)
      (fun o w' => o = Done 0 /\ stdin w' = rest /\ outbox w' = outbox v /\
         disk w' = disk v /\ memory w' = memory v) v).
  { clear. intros words. induction words as [|word words IH]; intros fuel command v Hin Hw Hne Hf;
      (destruct fuel as [|fuel]; [lia|]); cbn [command_loop];
      unfold strcmp_eq at 1; rewrite (bool_decide_eq_false_2 _ Hne);
      apply wp_bind, wp_modify; cbn [wp_k]; apply wp_bind.
    - eapply wp_intro; [unfold scanf_s; simpl; rewrite Hin; reflexivity|]. cbn [wp_k].
      destruct fuel as [|fuel]; [simpl in Hf; lia|]. done.
    - apply Forall_cons in Hw as [(Hl & He & Hcn) Hw].
      eapply wp_intro; [unfold scanf_s; simpl; rewrite Hin; simpl;
        rewrite (proj2 (Z.ltb_lt _ _) Hl); reflexivity|]. cbn [wp_k].
      unfold strcmp_eq. rewrite (bool_decide_eq_false_2 (word = bs "connect")) by done.
      simpl in Hf.
      case_bool_decide.
      + destruct (list_directory_done scan (set_stdin (words ++ bs "exit" :: rest)
          (set_console (console v ++ [("Enter command (exit, connect, uplist)> ", [])]) v))) as [c1 H1].
        apply wp_bind. eapply wp_intro; [exact H1|]. cbn [wp_k].
        edestruct print_hashmap_done as [c2 H2]. apply wp_bind. eapply wp_intro; [exact H2|]. cbn [wp_k].
        eapply wp_mono; [apply IH; [done|done|done|lia]|]. done.
      + eapply wp_mono; [apply IH; [done|done|done|lia]|]. done. }
  apply wp_bind. eapply wp_intro; [unfold syscall; rewrite Hc; reflexivity|]. cbn [wp_k negb].
  apply wp_bind, wp_lift. rewrite Hs. cbn [wp_k]. apply wp_bind, wp_gets. cbn [wp_k].
  apply (Hloop words); [done..|]. rewrite Hin, length_app. simpl. lia.
Qed.
End peer_properties.

Definition demo_table_world : world table :=
  World empty_table [] [] [] [] [] [] 0 ∅ ∅ (fun _ => true) [] [].

Lemma receive_listing_table_witness :
  let fs := scan_entries demo_scan in
  let w := set_inbox [RData (listing_text fs)] demo_table_world in
  exists P : Platform,
    Forall listable (visible fs) /\ zlen (listing_text fs) < 2048 /\
    abstracts (memory w) ∅ /\
    wp receive_listing
      (fun o w' => o = Done tt /\ abstracts (memory w') (insert_all (visible fs) ∅) /\
         outside w' = outside (set_inbox [] w)) w.
Proof.
  intros fs w. exists demo_platform.
  assert (Hl : Forall listable (visible fs)) by (repeat constructor; try done).
  split_and!; [exact Hl|reflexivity|exact empty_abstracts|].
  exact (@receive_listing_table demo_platform fs ∅ [] w Hl eq_refl eq_refl empty_abstracts eq_refl).
Defined.

Lemma main_exits_witness :
  let w := set_stdin [bs "uplist"; bs "help"; bs "exit"] demo_table_world in
  exists P : Platform,
    Forall idle_word [bs "uplist"; bs "help"] /\ c_string (indet_array 10) = Done [] /\
    wp (main demo_scan)
      (fun o w' => o = Done 0 /\ stdin w' = [] /\ outbox w' = outbox w /\
         disk w' = disk w /\ memory w' = memory w) w.
Proof.
  intros w. exists zero_platform.
  assert (Hw : Forall idle_word [bs "uplist"; bs "help"]) by (repeat constructor; done).
  split_and!; [exact Hw|reflexivity|].
  refine (@main_exits zero_platform demo_scan [bs "uplist"; bs "help"] [] [] w eq_refl Hw eq_refl _ eq_refl).
  done.
Defined.
