(* ===== verification/Session.v ===== *)
(** * Two peers

    The serving thread of one peer composed with the connecting side of another:
    a whole transfer, the ways in which both sides wait for each other, and how
    the two programs answer the same listing. *)

From S2P Require Import Prelude CLib World Listing Server FileNode HashMap Download.
From S2P Require PeerV2 PeerV1.

Lemma elem_of_map_entry {A B} (f : A -> B) l x : x ∈ l -> f x ∈ map f l.
Proof. rewrite !list_elem_of_In. apply in_map. Qed.

(** ** The lookups of the two programs *)

Lemma first_size_app l1 l2 name :
  first_size (l1 ++ l2) name =
    if decide (name ∈ map fst l1) then first_size l1 name else first_size l2 name.
Proof.
  induction l1 as [|[n s] l1 IH]; [by destruct (decide _) as [?%elem_of_nil|]|]. simpl.
  rewrite IH. destruct (decide (n = name)) as [->|Hne].
  - rewrite bool_decide_eq_true_2 by done. by rewrite decide_True by apply list_elem_of_here.
  - rewrite bool_decide_eq_false_2 by done. repeat case_decide; set_solver.
Qed.

Lemma first_size_none files name : name ∉ map fst files -> first_size files name = 0.
Proof.
  induction files as [|[n s] files IH]; simpl; [done|]. intros Hn.
  rewrite bool_decide_eq_false_2 by (intros ->; apply Hn, list_elem_of_here).
  apply IH. intros Hin. by apply Hn, list_elem_of_further.
Qed.

Lemma first_size_in files name size :
  NoDup (map fst files) -> (name, size) ∈ files -> first_size files name = size.
Proof.
  induction files as [|[n s] files IH]; simpl; [by intros _ ?%elem_of_nil|].
  intros [Hn Hnd]%NoDup_cons [[= -> ->]|Hin]%elem_of_cons; [by rewrite bool_decide_eq_true_2|].
  rewrite bool_decide_eq_false_2; [by apply IH|]. intros ->. apply Hn.
  by apply (elem_of_map_entry fst _ (name, size)).
Qed.

Lemma first_size_rev files name :
  NoDup (map fst files) -> first_size (rev files) name = first_size files name.
Proof.
  induction files as [|[n s] files IH]; simpl; [done|]. intros [Hn Hnd]%NoDup_cons.
  rewrite first_size_app. case_bool_decide as Heq.
  - subst. rewrite decide_False.
    + simpl. by rewrite bool_decide_eq_true_2.
    + by rewrite map_rev, list_elem_of_In, <- in_rev, <- list_elem_of_In.
  - case_decide as Hin; [by apply IH|]. simpl. rewrite bool_decide_eq_false_2 by done.
    rewrite first_size_none; [done|].
    by rewrite map_rev, list_elem_of_In, <- in_rev, <- list_elem_of_In in Hin.
Qed.

Lemma insert_all_lookup fs m name :
  PeerV1.insert_all fs m !! name =
    if decide (name ∈ map cFileName fs) then Some (first_size (rev (map name_and_size fs)) name)
    else m !! name.
Proof.
  revert m. induction fs as [|f fs IH]; intros m; [by destruct (decide _) as [?%elem_of_nil|]|].
  change (PeerV1.insert_all (f :: fs) m) with (PeerV1.insert_all fs (<[cFileName f := nFileSizeLow f]> m)).
  rewrite IH. cbn [map rev]. rewrite first_size_app.
  assert (Hrev : forall n, n ∈ map fst (rev (map name_and_size fs)) <-> n ∈ map cFileName fs).
  { intros n. rewrite map_rev, map_map, !list_elem_of_In, <- in_rev. done. }
  destruct (decide (name ∈ map cFileName fs)) as [Hin|Hnin].
  - rewrite (decide_True (P := name ∈ _ :: _)) by (by apply list_elem_of_further).
    by rewrite decide_True by by apply Hrev.
  - rewrite (decide_False (P := name ∈ map fst (rev _))) by (by rewrite Hrev).
    destruct (decide (name = cFileName f)) as [->|Hne].
    + rewrite lookup_insert_eq, decide_True by apply list_elem_of_here.
      simpl. by rewrite bool_decide_eq_true_2.
    + rewrite lookup_insert_ne by done. rewrite decide_False; [done|].
      intros [|]%elem_of_cons; done.
Qed.

(** The two programs answer a listing from opposite ends.  After both have read
    the same listing, the size tomypeers.c announces for a name is the size
    tomypeersV2.c would announce for the listing read backwards: with a repeated
    name the first keeps the last size and the second the first size, and with
    distinct names the two agree. *)
Theorem versions_agree fs h start locs t name w1 w2 :
  represents h start locs (map name_and_size fs) -> memory w2 = h ->
  abstracts t (PeerV1.insert_all fs ∅) -> memory w1 = t ->
  HashMap.get_filesize name w1 = (Done (first_size (rev (map name_and_size fs)) name), w1) /\
  FileNode.get_filesize name start w2 = (Done (first_size (map name_and_size fs) name), w2) /\
  (NoDup (map cFileName fs) ->
     first_size (rev (map name_and_size fs)) name = first_size (map name_and_size fs) name).
Proof.
  intros Hr <- Ha <-. split; [|split].
  - rewrite (get_filesize_table _ _ _ Ha), insert_all_lookup, lookup_empty. case_decide as Hn; [done|].
    do 2 f_equal. rewrite first_size_none; [done|].
    by rewrite map_rev, map_map, list_elem_of_In, <- in_rev, <- list_elem_of_In.
  - apply get_filesize_list with (1 := Hr).
  - intros Hnd. apply first_size_rev. by rewrite map_map.
Qed.

Lemma versions_agree_witness :
  let fs := [FindData (bs "a.txt") false 0 5] in
  let w1 := set_memory (inserted empty_table (bs "a.txt") 5) PeerV1.demo_table_world in
  represents demo_heap (Some 1) [1] (map name_and_size fs) /\
  abstracts (memory w1) (PeerV1.insert_all fs ∅) /\
  HashMap.get_filesize (bs "a.txt") w1 =
    (Done (first_size (rev (map name_and_size fs)) (bs "a.txt")), w1) /\
  FileNode.get_filesize (bs "a.txt") (Some 1) demo_files_world =
    (Done (first_size (map name_and_size fs) (bs "a.txt")), demo_files_world) /\
  (NoDup (map cFileName fs) ->
     first_size (rev (map name_and_size fs)) (bs "a.txt") = first_size (map name_and_size fs) (bs "a.txt")).
Proof.
  intros fs w1.
  assert (Ha : abstracts (memory w1) (PeerV1.insert_all fs ∅))
    by (apply (inserted_abstracts _ ∅), empty_abstracts).
  split; [exact demo_represents|]. split; [exact Ha|].
  exact (versions_agree fs demo_heap (Some 1) [1] _ (bs "a.txt") w1 demo_files_world
    demo_represents eq_refl Ha eq_refl).
Defined.

(** ** A whole transfer *)

Section transfer.
Context `{Platform}.

(** The serving side, up to the answer to the first request. *)
Lemma serve_first_request {mem} grab scan name events (w : world mem) (Q : outcome unit -> world mem -> Prop) :
  Forall entry_ok (visible (scan_entries scan)) ->
  zlen (listing_text (scan_entries scan)) < 1024 ->
  send_results w = [] -> inbox w = RData name :: events -> (0 < length name < 128)%nat ->
  no_nul name -> name <> bs "exit" -> strstr (listing_text (scan_entries scan)) name = true ->
  (forall w' fuel fl buf sent,
     outbox w' = outbox w ++ sent_listing scan ++ sent -> inbox w' = events ->
     concat sent = default [] (disk w !! snprintf_concat 128 (bs "upload/") name) ->
     (inbox_size events < fuel)%nat ->
     wp (serve_requests grab fuel fl buf) Q w') ->
  wp (serve_client grab scan scan) Q w.
Proof.
  intros Hok Hlen Hsr Hi Hn Hnul Hne Hstr HQ. unfold serve_client.
  destruct (listing_setup scan w Hok Hlen) as (w1 & w2 & fl & H1 & H2 & Hi2 & Hd2 & Ho2 & Hc).
  destruct (Ho2 Hsr) as [Hsr2 Ho2']. clear Ho2.
  apply wp_bind. eapply wp_intro; [exact H1|]. cbn [wp_k].
  apply wp_bind. eapply wp_intro; [exact H2|]. cbn [wp_k].
  apply wp_bind, wp_gets. cbn [wp_k serve_requests]. apply wp_bind, wp_modify. cbn [wp_k].
  apply wp_bind. eapply wp_intro; [apply (recv_fits 128 name events); [by simpl; rewrite Hi2|lia]|].
  cbn [wp_k]. assert (Hz : 0 < zlen name < 128) by (unfold zlen; lia).
  rewrite (proj2 (Z.ltb_lt 0 _)) by lia.
  destruct (store_terminated (indet_array 128) name) as (b1 & b2 & Hb1 & Hb2 & _ & Hs).
  { unfold zlen at 2. rewrite indet_array_length. lia. }
  rewrite until_nul_id in Hs by done.
  apply wp_bind, wp_lift. rewrite Hb1. cbn [wp_k]. apply wp_bind, wp_lift. rewrite Hb2. cbn [wp_k].
  apply wp_bind, wp_lift. rewrite Hs. cbn [wp_k]. apply wp_bind, wp_modify. cbn [wp_k].
  apply wp_bind, wp_lift. rewrite Hc. cbn [wp_k]. apply wp_bind.
  set (v := set_console _ _).
  assert (Hv : send_results v = [] /\ disk v = disk w /\ outbox v = outbox w ++ sent_listing scan /\
    inbox v = events) by done.
  clearbody v. destruct Hv as (Hv1 & Hv2 & Hv3 & Hv4).
  eapply wp_mono.
  { apply wp_and; [by apply (answer_request_post (listing_text (scan_entries scan)) name v)|].
    by apply (keeps_answer events). }
  intros o w3 [(-> & Hd3 & sent & Ho3 & _ & Hcat) [_ Hi3]]. cbn [wp_k].
  unfold strcmp_eq. rewrite bool_decide_eq_false_2 by done.
  rewrite Hstr in Hcat. eapply (HQ _ _ _ _ sent).
  - by rewrite Ho3, Hv3, app_assoc.
  - done.
  - by rewrite Hcat, Hv2.
  - rewrite Hi2, Hi. unfold inbox_size. simpl. lia.
Qed.
(** A name of the directory occurs in the listing. *)
Lemma listed_name fs f : f ∈ visible fs -> strstr (listing_text fs) (cFileName f) = true.
Proof.
  intros Hf. unfold listing_text. apply (strstr_concat _ (entry_line f)).
  - by apply (elem_of_map_entry entry_line).
  - apply strstr_spec. exists [], (bs " (" ++ dec (nFileSizeLow f) ++ bs " bytes)" ++ [10]).
    done.
Qed.

Context `{Malloc}.

(** What the connecting side does between connecting and closing, once. *)
Definition fetch : M (world heap) unit :=
  start ← PeerV2.recv_and_display_file_list None;
  PeerV2.download_files start.

(** The connecting side, when the network delivers the listing and then [c], [cs]. *)
Lemma fetch_file fs f content c cs rest w :
  (forall h, is_Some (malloc h)) -> Forall listable (visible fs) ->
  zlen (listing_text fs) < 1024 -> NoDup (map cFileName (visible fs)) ->
  f ∈ visible fs -> cFileName f <> bs "exit" -> nFileSizeLow f = zlen content ->
  concat (c :: cs) = content -> (0 < length c < 4096)%nat -> deliveries cs ->
  until_nul c <> no_such_file ->
  inbox w = RData (listing_text fs) :: map RData (c :: cs) ->
  stdin w = cFileName f :: bs "exit" :: rest -> send_results w = [] -> memory w = ∅ ->
  can_create w (download_path (cFileName f)) = true ->
  wp fetch
    (fun o w' => o = Done tt /\ outbox w' = outbox w ++ [cFileName f] /\
       disk w' = <[download_path (cFileName f) := content]> (disk w) /\
       inbox w' = [] /\ stdin w' = rest) w.
Proof.
  intros Hm Hfs Hlen Hnd Hf Hne Hsz Hcat Hc Hcs Hmsg Hi Hin Hsr Hmem Hcan.
  assert (Hr0 : represents (memory w) None [] []).
  { rewrite Hmem. split_and!; [done|constructor|done]. }
  apply wp_bind. eapply wp_mono; [eapply PeerV2.listing_roundtrip_post; [done|done|lia|exact Hi|exact Hr0]|].
  intros o w1 (start & locs & -> & Hr & Hout). cbn [wp_k app] in *.
  injection Hout as Hin1 Ho1 Hsr1 Hd1 Hcan1 Hi1 _ _ _. simpl in *.
  unfold PeerV2.download_files.
  destruct (PeerV2.printlist_run _ _ _ _ Hr) as (w2 & Hrun & Hm2 & Hout2).
  injection Hout2 as Hin2 Ho2 Hsr2 Hd2 Hcan2 Hi2 _ _ _.
  apply wp_bind. eapply wp_intro; [exact Hrun|]. cbn [wp_k].
  unfold download_session. apply wp_bind, wp_gets. cbn [wp_k].
  rewrite Hin2, Hin1, Hin. cbn [length download_loop]. apply wp_bind, wp_modify. cbn [wp_k].
  apply wp_bind. rewrite Forall_forall in Hfs.
  destruct (Hfs f Hf) as (_ & _ & _ & Hl71 & Hs31).
  eapply wp_intro.
  { unfold scanf_s. simpl. rewrite Hin2, Hin1, Hin. rewrite (proj2 (Z.ltb_lt _ _)) by lia. done. }
  cbn [wp_k]. unfold strcmp_eq at 1. rewrite bool_decide_eq_false_2 by done.
  apply wp_bind. eapply wp_mono.
  { eapply (@download_one_complete heap (PeerV2.list_index start) PeerV2.v2_messages (cFileName f) c cs []
      _ (first_size (map name_and_size (visible fs)))); simpl.
    - rewrite Hm2. exists locs, (map name_and_size (visible fs)). by split.
    - by rewrite Hcan2, Hcan1.
    - by rewrite Hsr2, Hsr1.
    - by rewrite Hi2, Hi1, app_nil_r.
    - done.
    - done.
    - done.
    - rewrite (first_size_in _ _ (nFileSizeLow f)).
      + simpl. rewrite Hcat, <- Hsz. apply u32_small. lia.
      + by rewrite map_map.
      + by apply (elem_of_map_entry name_and_size). }
  intros o w3 (-> & Hd3 & Hi3 & Ho3 & Hin3 & _). cbn [wp_k]. simpl in *.
  apply wp_bind, wp_modify. cbn [wp_k]. apply wp_bind.
  eapply wp_intro; [unfold scanf_s; simpl; rewrite Hin3; reflexivity|]. cbn [wp_k].
  change (strcmp_eq (bs "exit") (bs "exit")) with true. apply wp_ret. simpl.
  split_and!; [done|by rewrite Ho3, Ho2, Ho1|by rewrite Hd3, Hd2, Hd1, Hcat|done|done].
Qed.

(** C1: A whole transfer between two peers is correct.  Let the serving peer offer a
    directory of entries with distinct names that fit its arrays and lines, one
    of them a file [f] with its true size, and let the request [f] reach it in
    one delivery.  Then it sends the listing and payloads [sent], and for every
    way in which the network may cut those payloads into deliveries of 1 to 4096
    bytes (the first short of 4096), a client that has received the listing,
    asks for [f] and then types exit, terminates, has sent exactly that
    request, and its download/f holds exactly the bytes of the server's
    upload/f, its other files being untouched. *)
Theorem transfer_end_to_end {mem} grab scan f content (ws : world mem) :
  let fs := scan_entries scan in
  Forall entry_ok (visible fs) -> Forall listable (visible fs) ->
  zlen (listing_text fs) < 1024 -> NoDup (map cFileName (visible fs)) ->
  f ∈ visible fs -> cFileName f <> bs "exit" -> nFileSizeLow f = zlen content ->
  disk ws !! snprintf_concat 128 (bs "upload/") (cFileName f) = Some content ->
  send_results ws = [] -> inbox ws = [RData (cFileName f); RClosed] ->
  (forall h, is_Some (malloc h)) ->
  wp (serve_client grab scan scan)
    (fun o ws' => o = Done tt /\
       exists sent, outbox ws' = outbox ws ++ sent_listing scan ++ sent /\
         forall c cs rest (wc : world heap),
           concat (c :: cs) = concat sent -> (0 < length c < 4096)%nat -> deliveries cs ->
           until_nul c <> no_such_file ->
           inbox wc = RData (listing_text fs) :: map RData (c :: cs) ->
           stdin wc = cFileName f :: bs "exit" :: rest -> send_results wc = [] ->
           memory wc = ∅ -> can_create wc (download_path (cFileName f)) = true ->
           wp fetch
             (fun o wc' => o = Done tt /\ outbox wc' = outbox wc ++ [cFileName f] /\
                disk wc' = <[download_path (cFileName f) := content]> (disk wc) /\
                inbox wc' = [] /\ stdin wc' = rest) wc) ws.
Proof.
  intros fs Hok Hfs Hlen Hnd Hf Hne Hsz Hdisk Hsr Hi Hm.
  pose proof (proj1 (Forall_forall _ _) Hfs f Hf) as (Hn0 & _ & Hnul & H71 & _).
  eapply (serve_first_request grab scan (cFileName f) [RClosed]); [done..| |done|done| |].
  { unfold zlen in H71. destruct (cFileName f); [done|]. simpl in *. lia. }
  { by apply listed_name. }
  intros w' fuel fl buf sent Ho Hi' Hcat Hfuel. rewrite Hdisk in Hcat. simpl in Hcat.
  destruct fuel as [|fuel]; [lia|]. cbn [serve_requests].
  apply wp_bind, wp_modify. cbn [wp_k]. apply wp_bind.
  eapply wp_intro; [unfold recv; simpl; rewrite Hi'; reflexivity|]. cbn [wp_k].
  change (0 <? 0) with false. change (0 =? 0) with true. cbv iota.
  apply wp_modify. split; [done|]. exists sent. split; [done|].
  intros c cs rest wc Hcs. intros. eapply (fetch_file fs f content c cs rest); try done.
  by rewrite Hcs.
Qed.

(** C10: Both sides can wait for each other for ever.  When a request occurs in the
    listing but there is nothing to send for it, because the file is empty or
    because the text asked for (part of a name, or "bytes)") names no file, the
    server sends no byte after the listing and waits for the next request, while
    the client that sent the request waits for the first byte of the answer. *)
Theorem empty_answer_deadlock {mem} grab scan name (ws : world mem)
    {cm} {index : SizeIndex cm} v (wc : world cm) :
  Forall entry_ok (visible (scan_entries scan)) ->
  zlen (listing_text (scan_entries scan)) < 1024 ->
  strstr (listing_text (scan_entries scan)) name = true ->
  default [] (disk ws !! snprintf_concat 128 (bs "upload/") name) = [] ->
  (0 < length name < 128)%nat -> no_nul name -> name <> bs "exit" ->
  send_results ws = [] -> inbox ws = [RData name] ->
  send_results wc = [] -> inbox wc = [] ->
  wp (serve_client grab scan scan)
    (fun o ws' => o = Waiting /\ concat (outbox ws') = concat (outbox ws ++ sent_listing scan)) ws /\
  wp (download_one v name)
    (fun o wc' => o = Waiting /\ outbox wc' = outbox wc ++ [name] /\ disk wc' = disk wc) wc.
Proof.
  intros Hok Hlen Hstr Hempty Hn Hnul Hne Hsr Hi Hsrc Hic. split.
  - eapply (serve_first_request grab scan name []); [done..|].
    intros w' fuel fl buf sent Ho Hi' Hcat Hfuel. rewrite Hempty in Hcat.
    destruct fuel as [|fuel]; [lia|]. cbn [serve_requests].
    apply wp_bind, wp_modify. cbn [wp_k]. apply wp_bind.
    eapply wp_intro; [unfold recv; simpl; rewrite Hi'; reflexivity|]. cbn [wp_k].
    split; [done|]. simpl. by rewrite Ho, !concat_app, Hcat, app_nil_r.
  - unfold download_one.
    destruct (send_any name wc) as (ok & w1 & Hs & Hi1 & Hd1 & _ & _ & _ & Ho1).
    apply wp_bind. eapply wp_intro; [exact Hs|]. cbn [wp_k].
    apply wp_bind, wp_modify. cbn [wp_k]. apply wp_bind.
    eapply wp_intro; [unfold recv; simpl; rewrite Hi1, Hic; reflexivity|]. cbn [wp_k].
    split; [done|]. simpl. by split; [apply Ho1|].
Qed.
End transfer.

(** ** Witnesses *)

Definition demo_server : world unit :=
  World tt [] [RData (bs "a.txt"); RClosed] [] [] [] [] 0 ∅
    {[ bs "upload/a.txt" := bs "hello" ]} (fun _ => true) [] [].

Definition demo_entry : find_data := FindData (bs "a.txt") false 0 5.

Lemma demo_malloc_total h : is_Some (@malloc demo_malloc h).
Proof. simpl. unfold demo_malloc_fun. destruct (h !! 1); eauto. Qed.

Lemma transfer_end_to_end_witness :
  let fs := scan_entries demo_scan in
  exists (P : Platform) (m : Malloc),
    Forall entry_ok (visible fs) /\ Forall listable (visible fs) /\
    NoDup (map cFileName (visible fs)) /\ demo_entry ∈ visible fs /\
    disk demo_server !! bs "upload/a.txt" = Some (bs "hello") /\
    wp (serve_client "" demo_scan demo_scan)
      (fun o ws' => o = Done tt /\
         exists sent, outbox ws' = outbox demo_server ++ sent_listing demo_scan ++ sent /\
           forall c cs rest (wc : world heap),
             concat (c :: cs) = concat sent -> (0 < length c < 4096)%nat -> deliveries cs ->
             until_nul c <> no_such_file ->
             inbox wc = RData (listing_text fs) :: map RData (c :: cs) ->
             stdin wc = bs "a.txt" :: bs "exit" :: rest -> send_results wc = [] ->
             memory wc = ∅ -> can_create wc (download_path (bs "a.txt")) = true ->
             wp fetch
               (fun o wc' => o = Done tt /\ outbox wc' = outbox wc ++ [bs "a.txt"] /\
                  disk wc' = <[download_path (bs "a.txt") := bs "hello"]> (disk wc) /\
                  inbox wc' = [] /\ stdin wc' = rest) wc) demo_server.
Proof.
  intros fs. exists demo_platform, demo_malloc.
  assert (H1 : Forall entry_ok (visible fs)) by (repeat constructor; done).
  assert (H2 : Forall listable (visible fs)) by (repeat constructor; done).
  assert (H3 : NoDup (map cFileName (visible fs))) by (by apply (bool_decide_unpack _); vm_compute).
  assert (H4 : demo_entry ∈ visible fs) by apply list_elem_of_here.
  assert (H5 : disk demo_server !! bs "upload/a.txt" = Some (bs "hello")) by reflexivity.
  split_and!; [done..|].
  exact (@transfer_end_to_end demo_platform demo_malloc unit "" demo_scan demo_entry (bs "hello") demo_server
    H1 H2 eq_refl H3 H4 ltac:(done) eq_refl H5 eq_refl eq_refl demo_malloc_total).
Defined.

(** The request "bytes" occurs in every line of the listing and names no file. *)
Lemma empty_answer_deadlock_witness :
  let ws := set_inbox [RData (bs "bytes")] demo_server in
  exists P : Platform,
    Forall entry_ok (visible (scan_entries demo_scan)) /\
    strstr (listing_text (scan_entries demo_scan)) (bs "bytes") = true /\
    wp (serve_client "" demo_scan demo_scan)
      (fun o ws' => o = Waiting /\ concat (outbox ws') = concat (outbox ws ++ sent_listing demo_scan)) ws /\
    wp (@download_one unit (const_index 5) silent (bs "bytes"))
      (fun o wc' => o = Waiting /\ outbox wc' = outbox (client_world []) ++ [bs "bytes"] /\
         disk wc' = disk (client_world [])) (client_world []).
Proof.
  intros ws. exists demo_platform.
  assert (H1 : Forall entry_ok (visible (scan_entries demo_scan))) by (repeat constructor; done).
  split_and!; [exact H1|reflexivity|..]; 
  apply (@empty_answer_deadlock demo_platform unit "" demo_scan (bs "bytes") ws unit (const_index 5)
    silent (client_world []) H1 eq_refl eq_refl eq_refl);
  first [reflexivity | (simpl; lia) | (repeat constructor; done) | done].
Defined.
