(* ===== verification/Registry.v ===== *)
(** * The multi-threaded program (multi-threaded w server client model/tomypeers.c)

    A peer registry around one select loop, with the two helpers that open
    sockets, and the entry point that starts a registry or a peer. *)

From S2P Require Import Prelude CLib World.

Definition MAX_PENDING : Z := 5.
Definition INVALID_SOCKET : Z := 4294967295.

(** ** fd_set, as winsock2.h implements it: an array of at most 64 handles *)

Definition FD_ISSET (s : Z) (fs : list Z) : bool := bool_decide (s ∈ fs).

Definition FD_SET (s : Z) (fs : list Z) : list Z :=
  if FD_ISSET s fs then fs
  else if (length fs <? 64)%nat then fs ++ [s]
  else fs.

Fixpoint FD_CLR (s : Z) (fs : list Z) : list Z :=
  match fs with
  | [] => []
  | x :: fs' => if x =? s then fs' else x :: FD_CLR s fs'
  end.

(** ** The registry *)

(** The locals of run_registry that outlive a round.  Of a peer_entry only the
    descriptor is ever used; [None] is an entry not yet written.  [max_socket]
    is kept as the unsigned 32-bit value it is compared as. *)
Record registry := Registry {
  peer : list (option Z);
  numOfSocket : Z;
  all_sockets : list Z;
  max_socket : Z
}.

(** [peer[numOfSocket].socket_descriptor = s]. *)
Definition store_peer (i s : Z) (peers : list (option Z)) : outcome (list (option Z)) :=
  if (0 <=? i) && (i <? MAX_PENDING) then Done (<[Z.to_nat i := Some s]> peers)
  else Crash BufferOverflow.

(** accept: the environment proposes a handle; one that is open already, or out
    of the range of socket handles, stands for a failure. *)
Definition accept_result (e : Z) (st : registry) : Z :=
  if (3 <=? e) && (e <? INVALID_SOCKET) && negb (FD_ISSET e (all_sockets st)) then e
  else INVALID_SOCKET.

(** The branch for the listening socket. *)
Definition on_listen (newFD : Z) (st : registry) : outcome registry :=
  peer' ← store_peer (numOfSocket st) newFD (peer st);
  if newFD =? INVALID_SOCKET then
    Done (Registry peer' (numOfSocket st) (all_sockets st) (max_socket st))
  else
    Done (Registry peer' (numOfSocket st + 1) (FD_SET newFD (all_sockets st))
            (if max_socket st <? newFD then newFD else max_socket st)).

(** The branch for a connected peer; what is received is not looked at. *)
Definition on_peer (s numbytes : Z) (st : registry) : registry :=
  if numbytes <=? 0 then
    Registry (peer st) (numOfSocket st - 1) (FD_CLR s (all_sockets st)) (max_socket st)
  else st.

Definition visit (listen_socket s e : Z) (st : registry) : outcome registry :=
  if s =? listen_socket then on_listen (accept_result e st) st
  else Done (on_peer s e st).

(** [for (SOCKET s = 3; s <= max_socket; ++s)]; [events] are the results of the
    accept and recv calls to come. *)
Fixpoint scan_sockets (fuel : nat) (listen_socket : Z) (call_set : list Z) (s : Z) (events : list Z)
  : M registry unit :=
  match fuel with
  | O => no_fuel
  | S fuel' =>
      st ← gets id;
      if max_socket st <? s then mret tt
      else if negb (FD_ISSET s call_set) then
        scan_sockets fuel' listen_socket call_set (u32 (s + 1)) events
      else
        match events with
        | [] => wait
        | e :: events' =>
            st' ← lift (visit listen_socket s e st);
            modify (fun _ => st');;
            scan_sockets fuel' listen_socket call_set (u32 (s + 1)) events'
        end
  end.

(** The select loop: per round what select leaves in [call_set] ([None] for an
    error), and the results of the calls made in that round. *)
Fixpoint select_loop (fuel : nat) (listen_socket : Z) (rounds : list (option (list Z) * list Z))
  : M registry unit :=
  match rounds with
  | [] => wait
  | (None, _) :: _ => mret tt
  | (Some ready, events) :: rounds' =>
      st ← gets id;
      let call_set := List.filter (fun s => FD_ISSET s ready) (all_sockets st) in
      scan_sockets fuel listen_socket call_set 3 events;;
      select_loop fuel listen_socket rounds'
  end.

Definition initial (listen_socket : Z) : registry :=
  Registry (replicate 5 None) 0 (FD_SET listen_socket []) listen_socket.

(** run_registry once bind_and_listen has returned. *)
Definition run_registry (fuel : nat) (listen_socket : Z) (rounds : list (option (list Z) * list Z))
  : outcome unit * registry :=
  select_loop fuel listen_socket rounds (initial listen_socket).

(** [find_max_fd]: the counter is an unsigned SOCKET, so that [i >= 0] always
    holds and [--i] wraps at 0; the result is an int. *)
Definition s32 (x : Z) : Z := if x <? 2147483648 then x else x - 4294967296.

Fixpoint find_max_from (fuel : nat) (i : Z) (fs : list Z) : outcome Z :=
  match fuel with
  | O => NoFuel
  | S fuel' =>
      let ret := if FD_ISSET i fs then s32 i else 0 in
      if ret =? 0 then find_max_from fuel' (u32 (i - 1)) fs else Done ret
  end.

Definition find_max_fd (fuel : nat) (fs : list Z) : outcome Z := find_max_from fuel MAX_PENDING fs.

(** ** Opening sockets *)

Section sockets.
Context `{Platform}.

(** The memory of these helpers is the number of address lists that
    getaddrinfo has allocated and freeaddrinfo has not freed. *)
Definition getaddrinfo (addrs : option (list (bytes * Z))) : M (world nat) (option (list (bytes * Z))) :=
  match addrs with
  | None => mret None
  | Some result => modify (fun w => set_memory (S (memory w)) w);; mret (Some result)
  end.

Definition freeaddrinfo : M (world nat) unit := modify (fun w => set_memory (pred (memory w)) w).

(** The loop over the candidates of bind_and_listen. *)
Fixpoint bind_first (result : list (bytes * Z)) : M (world nat) (option Z) :=
  match result with
  | [] => mret None
  | rp :: result' =>
      s ← socket;
      match s with
      | None => bind_first result'
      | Some s =>
          ok ← syscall;
          if ok : bool then mret (Some s)
          else closesocket s;; bind_first result'
      end
  end.

Definition bind_and_listen (addrs : option (list (bytes * Z))) : M (world nat) (option Z) :=
  r ← getaddrinfo addrs;
  match r with
  | None => printf "getaddrinfo: %s\n" [];; mret None
  | Some result =>
      s ← bind_first result;
      match s with
      | None =>
          printf "Unable to bind socket\n" [];;
          freeaddrinfo;;
          mret None
      | Some s =>
          freeaddrinfo;;
          ok ← syscall;
          if ok : bool then mret (Some s)
          else
            printf "listen" [];;
            closesocket s;;
            mret None
      end
  end.

(** The loop over the candidates of lookup_and_connect. *)
Fixpoint connect_first (result : list (bytes * Z)) : M (world nat) (option Z) :=
  match result with
  | [] => mret None
  | rp :: result' =>
      s ← socket;
      match s with
      | None => connect_first result'
      | Some s =>
          ok ← connect (Some s) (fst rp) (snd rp);
          if ok : bool then mret (Some s)
          else closesocket s;; connect_first result'
      end
  end.

Definition lookup_and_connect (addrs : option (list (bytes * Z))) : M (world nat) (option Z) :=
  r ← getaddrinfo addrs;
  match r with
  | None => printf "getaddrinfo: %s\n" [];; mret None
  | Some result =>
      s ← connect_first result;
      freeaddrinfo;;
      match s with
      | None => printf "Unable to connect\n" [];; mret None
      | Some s => mret (Some s)
      end
  end.

Definition run_peer (addrs : option (list (bytes * Z))) : M (world nat) unit :=
  registry_socket ← lookup_and_connect addrs;
  match registry_socket with
  | None => printf "Unable to connect to registry" []
  | Some _ => mret tt
  end.

(** main, given the registry thread as a computation. *)
Definition main (argc : Z) (registry_thread : M (world nat) unit) (addrs : option (list (bytes * Z)))
  : M (world nat) Z :=
  ok ← syscall;
  if negb ok then printf "WSAStartup failed\n" [];; mret 1
  else if negb (argc =? 2) then
    printf "ERROR: Incorrect number of arguments.\n" [];;
    printf "USAGE: %s <port number>\n" [];;
    mret 1
  else
    printf "Enter 'registry' to start as registry or 'peer' to start as peer: " [];;
    role ← scanf_s 10;
    if strcmp_eq role (bs "registry") then registry_thread;; mret 0
    else if strcmp_eq role (bs "peer") then run_peer addrs;; mret 0
    else
      printf "Invalid role entered. Please enter 'registry' or 'peer'.\n" [];;
      mret 1.
End sockets.

(** ** The select loop *)

(** What holds of the registry between two calls: the set is the listening
    socket and the connected peers, of which there are [numOfSocket], and the
    scan reaches all of them. *)
Record consistent (l : Z) (st : registry) : Prop := Consistent {
  c_nodup : NoDup (all_sockets st);
  c_listen : l ∈ all_sockets st;
  c_entries : length (peer st) = 5%nat;
  c_count : zlen (all_sockets st) = numOfSocket st + 1;
  c_few : numOfSocket st <= MAX_PENDING;
  c_range : Forall (fun s => 3 <= s <= max_socket st) (all_sockets st);
  c_max : max_socket st < INVALID_SOCKET
}.

(** The first [length cs] entries are the peers [cs], and they are connected. *)
Definition records (l : Z) (st : registry) (cs : list Z) : Prop :=
  take (length cs) (peer st) = map Some cs /\ all_sockets st ≡ₚ l :: cs.

Lemma elem_FD_CLR s x fs : x <> s -> x ∈ fs -> x ∈ FD_CLR s fs.
Proof.
  intros Hne. induction fs as [|y fs IH]; simpl; [done|].
  intros [->|Hin]%elem_of_cons.
  - rewrite (proj2 (Z.eqb_neq _ _)) by done. apply list_elem_of_here.
  - destruct (y =? s); [done|]. apply list_elem_of_further. by apply IH.
Qed.

Lemma FD_CLR_Permutation s fs : s ∈ fs -> fs ≡ₚ s :: FD_CLR s fs.
Proof.
  induction fs as [|y fs IH]; simpl; [by intros ?%elem_of_nil|].
  destruct (Z.eqb_spec y s) as [->|Hne]; [done|].
  intros [->|Hin]%elem_of_cons; [done|]. rewrite (IH Hin) at 1. apply Permutation_swap.
Qed.

Lemma FD_SET_new s fs : s ∉ fs -> (length fs < 64)%nat -> FD_SET s fs = fs ++ [s].
Proof.
  intros Hs Hl. unfold FD_SET, FD_ISSET. rewrite bool_decide_eq_false_2 by done.
  by rewrite (proj2 (Nat.ltb_lt _ _)).
Qed.

Lemma accept_result_cases e st :
  accept_result e st = INVALID_SOCKET \/
  (accept_result e st = e /\ 3 <= e < INVALID_SOCKET /\ e ∉ all_sockets st).
Proof.
  unfold accept_result, FD_ISSET. destruct (_ && _ && _) eqn:E; [right|by left].
  apply andb_prop in E as [[E1 E2]%andb_prop E3].
  apply negb_true_iff, bool_decide_eq_false in E3. split_and!; [done|lia|lia|done].
Qed.

Lemma accept_result_new e st :
  3 <= e < INVALID_SOCKET -> e ∉ all_sockets st -> accept_result e st = e.
Proof.
  intros He Hn. unfold accept_result, FD_ISSET. rewrite bool_decide_eq_false_2 by done.
  by decide_z.
Qed.

Section select_lemmas.
Context (l : Z).
Implicit Types (st : registry).

Lemma on_listen_connected e st :
  consistent l st -> numOfSocket st < MAX_PENDING -> 3 <= e < INVALID_SOCKET -> e ∉ all_sockets st ->
  on_listen e st =
    Done (Registry (<[Z.to_nat (numOfSocket st) := Some e]> (peer st)) (numOfSocket st + 1)
            (all_sockets st ++ [e]) (Z.max (max_socket st) e)).
Proof.
  intros [Hnd Hl He Hc Hf Hr Hm] Hlt Hrange Hnew. unfold on_listen, store_peer.
  assert (0 < zlen (all_sockets st)) by (destruct (all_sockets st); [by apply elem_of_nil in Hl|];
    rewrite zlen_cons; pose proof (zlen_nonneg l0); lia).
  decide_z. simpl. try rewrite (proj2 (Z.eqb_neq e _)) by lia.
  rewrite FD_SET_new; [|done|unfold zlen, MAX_PENDING in *; lia].
  by destruct (Z.ltb_spec (max_socket st) e); repeat f_equal; lia.
Qed.

Lemma visit_consistent s e st :
  consistent l st -> s ∈ all_sockets st ->
  match visit l s e st with
  | Done st' => consistent l st' /\ max_socket st <= max_socket st' /\
      forall x, x ∈ all_sockets st -> x <> s -> x ∈ all_sockets st'
  | Crash f => f = BufferOverflow /\ s = l /\ numOfSocket st = MAX_PENDING
  | _ => False
  end.
Proof.
  intros Hst Hs. pose proof Hst as [Hnd Hl He Hc Hf Hr Hm]. unfold visit.
  assert (Hpos : 0 <= numOfSocket st).
  { destruct (all_sockets st) as [|y ys]; [by apply elem_of_nil in Hl|].
    rewrite zlen_cons in Hc. pose proof (zlen_nonneg ys). lia. }
  destruct (Z.eqb_spec s l) as [->|Hne].
  - destruct (decide (numOfSocket st = MAX_PENDING)) as [Hfull|Hfull].
    { unfold on_listen, store_peer. by rewrite Hfull. }
    destruct (accept_result_cases e st) as [Ha|(Ha & He1 & He2)].
    + rewrite Ha. unfold on_listen, store_peer. rewrite Z.eqb_refl. unfold MAX_PENDING in *.
      decide_z. simpl. split; [|by split].
      constructor; simpl; try done. by rewrite length_insert.
    + rewrite Ha, on_listen_connected by (try done; lia). split.
      * constructor; simpl.
        -- apply NoDup_app. split_and!; [done| |apply NoDup_singleton].
           by intros x Hx ->%list_elem_of_singleton.
        -- apply elem_of_app. by left.
        -- by rewrite length_insert.
        -- rewrite zlen_app. change (zlen [e]) with 1. lia.
        -- lia.
        -- apply Forall_app. split; [|constructor; [lia|done]].
           eapply Forall_impl; [exact Hr|]. simpl. intros; lia.
        -- lia.
      * split; [simpl; lia|]. intros x Hx _. apply elem_of_app. by left.
  - unfold on_peer. destruct (e <=? 0); [|by split_and!].
    pose proof (FD_CLR_Permutation _ _ Hs) as Hp. split.
    + constructor; simpl; try done.
      * rewrite Hp in Hnd. by apply NoDup_cons in Hnd as [_ ?].
      * by apply elem_FD_CLR.
      * unfold zlen in *. rewrite (Permutation_length Hp) in Hc. simpl in Hc. lia.
      * lia.
      * rewrite Hp in Hr. by apply Forall_cons in Hr as [_ ?].
    + split; [done|]. intros x Hx Hxs. by apply elem_FD_CLR.
Qed.

Lemma range_member x st : consistent l st -> x ∈ all_sockets st -> 3 <= x <= max_socket st.
Proof. intros Hst Hx. apply (proj1 (Forall_forall _ _) (c_range _ _ Hst) x Hx). Qed.

Lemma u32_next s st : consistent l st -> 3 <= s <= max_socket st -> u32 (s + 1) = s + 1.
Proof. intros Hst Hs. pose proof (c_max _ _ Hst). unfold INVALID_SOCKET in *. apply u32_small. lia. Qed.

Lemma scan_consistent fuel cs s events st :
  consistent l st -> (forall x, x ∈ cs -> s <= x -> x ∈ all_sockets st) ->
  3 <= s <= INVALID_SOCKET -> INVALID_SOCKET - s < Z.of_nat fuel ->
  wp (scan_sockets fuel l cs s events)
    (fun o st' => consistent l st' /\
       match o with
       | Done _ | Waiting => True
       | Crash f => f = BufferOverflow /\ numOfSocket st' = MAX_PENDING
       | _ => False
       end) st.
Proof.
  revert s events st. induction fuel as [|fuel IH]; intros s events st Hst Hcs Hs Hf; [lia|].
  cbn [scan_sockets]. apply wp_bind, wp_gets. cbn [wp_k]. unfold id.
  destruct (Z.ltb_spec (max_socket st) s) as [|Hle]; [by apply wp_ret|].
  pose proof (c_max _ _ Hst). rewrite (u32_next s st) by (try done; lia).
  unfold FD_ISSET. case_bool_decide as Hin; cbn [negb].
  - destruct events as [|e events]; [done|].
    apply wp_bind, wp_lift.
    pose proof (visit_consistent s e st Hst (Hcs s Hin ltac:(lia))) as Hv.
    destruct (visit l s e st) as [st'| | f | |]; cbn [wp_k]; try done.
    + destruct Hv as (Hst' & Hmax & Hkeep). apply wp_bind, wp_modify. cbn [wp_k].
      apply IH; [done| |lia|lia]. intros x Hx Hsx. apply Hkeep; [apply Hcs; [done|lia]|lia].
    + destruct Hv as (-> & _ & Hn). done.
  - apply IH; [done| |lia|lia]. intros x Hx Hsx. apply Hcs; [done|lia].
Qed.

(** A stretch of handles that are not ready is passed over. *)
Lemma scan_skip n fuel cs s events st :
  consistent l st -> 3 <= s -> (forall x, s <= x < s + Z.of_nat n -> x ∉ cs) ->
  s + Z.of_nat n <= max_socket st + 1 ->
  scan_sockets (n + fuel) l cs s events st = scan_sockets fuel l cs (s + Z.of_nat n) events st.
Proof.
  intros Hst. revert s. induction n as [|n IH]; intros s Hs Hcs Hm; [by rewrite Z.add_0_r|].
  cbn [Nat.add scan_sockets]. rewrite bind_gets. unfold id.
  rewrite (proj2 (Z.ltb_ge _ _)) by lia. unfold FD_ISSET.
  rewrite bool_decide_eq_false_2 by (apply Hcs; lia). cbn [negb].
  rewrite (u32_next s st) by (try done; lia).
  rewrite IH; [f_equal; lia|lia| |lia]. intros x Hx. apply Hcs. lia.
Qed.

Lemma scan_end fuel cs s events st :
  consistent l st -> 3 <= s <= max_socket st + 1 -> (forall x, s <= x -> x ∉ cs) ->
  max_socket st + 2 - s <= Z.of_nat fuel ->
  scan_sockets fuel l cs s events st = (Done tt, st).
Proof.
  intros Hst Hs Hcs Hf. pose proof (c_max _ _ Hst) as Hm. unfold INVALID_SOCKET in *.
  replace fuel with (Z.to_nat (max_socket st + 1 - s) + S (fuel - S (Z.to_nat (max_socket st + 1 - s))))%nat by lia.
  rewrite scan_skip by (try done; intros; try apply Hcs; lia).
  cbn [scan_sockets]. rewrite bind_gets. unfold id. rewrite (proj2 (Z.ltb_lt _ _)) by lia. done.
Qed.

(** A round in which one socket [x] is ready. *)
Lemma round_one fuel x e rounds st :
  consistent l st -> x ∈ all_sockets st -> 4294967300 <= Z.of_nat fuel ->
  select_loop fuel l ((Some [x], [e]) :: rounds) st =
    match visit l x e st with
    | Done st' => select_loop fuel l rounds st'
    | Crash f => (Crash f, st)
    | _ => (Waiting, st)
    end.
Proof.
  intros Hst Hx Hf. cbn [select_loop]. rewrite bind_gets. unfold id.
  set (cs := List.filter _ _).
  assert (Hcs : forall y, y ∈ cs <-> y = x).
  { intros y. unfold cs, FD_ISSET. rewrite list_elem_of_In, filter_In, bool_decide_eq_true.
    rewrite <- list_elem_of_In, list_elem_of_singleton. split; [by intros []|]. by intros ->. }
  clearbody cs. pose proof (range_member x st Hst Hx) as Hxr. pose proof (c_max _ _ Hst) as Hm.
  unfold INVALID_SOCKET in *.
  replace fuel with (Z.to_nat (x - 3) + S (fuel - S (Z.to_nat (x - 3))))%nat at 1 by lia.
  unfold mbind at 1, M_bind at 1. rewrite scan_skip; [|done|lia|intros y Hy; rewrite Hcs; lia|lia].
  replace (3 + Z.of_nat (Z.to_nat (x - 3))) with x by lia.
  cbn [scan_sockets]. rewrite bind_gets. unfold id. rewrite (proj2 (Z.ltb_ge _ _)) by lia.
  unfold FD_ISSET. rewrite bool_decide_eq_true_2 by (by apply Hcs). cbn [negb].
  pose proof (visit_consistent x e st Hst Hx) as Hv. unfold lift.
  unfold mbind at 1, M_bind at 1. destruct (visit l x e st) as [st'| | f | |]; try done.
  destruct Hv as (Hst' & Hmax & _). unfold mbind at 1, M_bind at 1, modify.
  rewrite (u32_small (x + 1)) by lia. rewrite scan_end; [done|done|lia|intros y Hy; rewrite Hcs; lia|].
  pose proof (c_max _ _ Hst'). unfold INVALID_SOCKET in *. lia.
Qed.

Lemma take_store n h (ps : list (option Z)) :
  (n < length ps)%nat -> take (S n) (<[n := Some h]> ps) = take n ps ++ [Some h].
Proof.
  intros Hn. rewrite take_S_r with (x := Some h).
  - by rewrite take_insert_ge by lia.
  - by apply list_lookup_insert_eq.
Qed.

(** What a connected peer that leaves does to the table of entries. *)
Lemma visit_leave st s n :
  s <> l -> n <= 0 ->
  visit l s n st = Done (Registry (peer st) (numOfSocket st - 1) (FD_CLR s (all_sockets st)) (max_socket st)).
Proof. intros Hs Hn. unfold visit, on_peer. rewrite (proj2 (Z.eqb_neq _ _)) by done. by decide_z. Qed.

Lemma visit_arrive st h :
  consistent l st -> numOfSocket st < MAX_PENDING -> 3 <= h < INVALID_SOCKET -> h ∉ all_sockets st ->
  visit l l h st =
    Done (Registry (<[Z.to_nat (numOfSocket st) := Some h]> (peer st)) (numOfSocket st + 1)
            (all_sockets st ++ [h]) (Z.max (max_socket st) h)).
Proof.
  intros Hst Hn Hh Hnew. unfold visit. rewrite Z.eqb_refl, accept_result_new by done.
  by apply on_listen_connected.
Qed.

Lemma initial_consistent : 3 <= l < INVALID_SOCKET -> consistent l (initial l).
Proof.
  intros Hl. constructor; simpl; try done; [apply NoDup_singleton|apply list_elem_of_here| |lia].
  by constructor; [lia|].
Qed.
End select_lemmas.

Section select_properties.
Context (l : Z).
Implicit Types (st : registry).

(** C14: The registry's bookkeeping is consistent whatever its peers do: from the
    start, through any sequence of connections, failed accepts, messages,
    disconnections and errors, the socket set is the listening socket plus the
    connected peers without repetition, numOfSocket is the number of connected
    peers, and every one of them lies in the range the scan covers; the scans
    terminate, and the only undefined behaviour is the store into the 5-entry
    table when a connection arrives while five peers are connected. *)
Theorem registry_consistent fuel rounds :
  3 <= l < INVALID_SOCKET -> 4294967300 <= Z.of_nat fuel ->
  let '(o, st) := run_registry fuel l rounds in
  consistent l st /\
  match o with
  | Done _ | Waiting => True
  | Crash f => f = BufferOverflow /\ numOfSocket st = MAX_PENDING
  | _ => False
  end.
Proof.
  intros Hl Hf. unfold run_registry.
  assert (Hloop : forall st, consistent l st -> wp (select_loop fuel l rounds)
    (fun o st => consistent l st /\ match o with Done _ | Waiting => True
       | Crash f => f = BufferOverflow /\ numOfSocket st = MAX_PENDING | _ => False end) st).
  { induction rounds as [|[[ready|] events] rounds IH]; intros st Hst; cbn [select_loop]; [done| |done].
    apply wp_bind, wp_gets. cbn [wp_k]. apply wp_bind. eapply wp_mono.
    - apply scan_consistent; [exact Hst| |done|unfold INVALID_SOCKET; lia].
      intros x [Hx _]%list_elem_of_In%filter_In _. by apply list_elem_of_In.
    - intros o st' [Hst' Ho]. destruct o; cbn [wp_k]; try done. by apply IH. }
  specialize (Hloop _ (initial_consistent l Hl)). unfold wp in Hloop.
  by destruct (select_loop fuel l rounds (initial l)).
Qed.

(** A sixth connection overflows the table: in any consistent state with five
    connected peers, a round in which the listening socket is ready stores past
    the end of peer[MAX_PENDING], even when the accept fails. *)
Theorem sixth_peer_overflows fuel e rounds st :
  consistent l st -> numOfSocket st = MAX_PENDING -> 4294967300 <= Z.of_nat fuel ->
  select_loop fuel l ((Some [l], [e]) :: rounds) st = (Crash BufferOverflow, st).
Proof.
  intros Hst Hn Hf. rewrite round_one by (try done; apply Hst).
  unfold visit, on_listen, store_peer. by rewrite Z.eqb_refl, Hn.
Qed.

(** A peer leaves and another one arrives: its entry stays, and the arrival goes into
    the entry of the last peer recorded. *)
Lemma leave_arrive fuel rounds st pre a post h n :
  consistent l st -> records l st (pre ++ a :: post) -> 3 <= h < INVALID_SOCKET -> h ∉ all_sockets st ->
  4294967300 <= Z.of_nat fuel -> n <= 0 ->
  exists st', select_loop fuel l ((Some [a], [n]) :: (Some [l], [h]) :: rounds) st = select_loop fuel l rounds st' /\
    consistent l st' /\ all_sockets st' ≡ₚ l :: (pre ++ post) ++ [h] /\ numOfSocket st' = zlen (pre ++ a :: post) /\
    take (length (pre ++ a :: post)) (peer st') = map Some (removelast (pre ++ a :: post) ++ [h]).
Proof.
  intros Hst [Htake Hperm] Hh Hnew Hf Hn. set (cs := pre ++ a :: post) in *.
  assert (Hlen : length cs = S (length pre + length post)) by (unfold cs; rewrite length_app; simpl; lia).
  assert (Hcount : numOfSocket st = zlen cs).
  { pose proof (c_count _ _ Hst) as Hc. unfold zlen in *. rewrite (Permutation_length Hperm) in Hc. simpl in Hc. lia. }
  assert (Hrest : l :: cs ≡ₚ a :: l :: pre ++ post) by (unfold cs; rewrite <- Permutation_middle; apply Permutation_swap).
  assert (Ha : a ∈ all_sockets st) by (rewrite Hperm, Hrest; apply list_elem_of_here).
  assert (Hal : a <> l).
  { intros ->. pose proof (c_nodup _ _ Hst) as Hnd. rewrite Hperm, Hrest in Hnd. apply NoDup_cons in Hnd as [Hnd _].
    apply Hnd, list_elem_of_here. }
  pose proof (visit_consistent l a n st Hst Ha) as Hv. rewrite round_one by done. rewrite visit_leave in * by done.
  set (st1 := Registry _ _ _ _) in *. destruct Hv as (Hst1 & _ & _).
  assert (Hp1 : all_sockets st1 ≡ₚ l :: pre ++ post).
  { apply (Permutation_cons_inv (a := a)). rewrite <- Hrest, <- Hperm. symmetry. by apply FD_CLR_Permutation. }
  assert (Hn1 : numOfSocket st1 = Z.of_nat (length pre + length post)) by (simpl; rewrite Hcount; unfold zlen; lia).
  assert (Hnew1 : h ∉ all_sockets st1).
  { intros Hin. apply Hnew. rewrite (FD_CLR_Permutation a) by done. by apply list_elem_of_further. }
  assert (Hfew : (length pre + length post < 5)%nat) by (pose proof (c_few _ _ Hst); unfold zlen, MAX_PENDING in *; lia).
  pose proof (visit_consistent l l h st1 Hst1 (c_listen _ _ Hst1)) as Hv2.
  rewrite round_one by (try done; apply Hst1). rewrite visit_arrive in * by (try done; unfold MAX_PENDING; lia).
  destruct Hv2 as (Hst2 & _ & _). eexists. split; [done|]. split; [done|]. cbn [all_sockets numOfSocket peer]. split_and!.
  - by rewrite Hp1.
  - rewrite Hn1. unfold zlen. lia.
  - rewrite Hn1, Nat2Z.id, Hlen, take_store by (rewrite (c_entries _ _ Hst1); lia).
    rewrite map_app. f_equal. change (peer st1) with (peer st).
    rewrite removelast_firstn_len, <- firstn_map, <- Htake, take_take. f_equal. lia.
Qed.

(** C15: The registry records peers as they connect and loses them when one leaves.
    While peers only connect, the table lists them in order.  When any peer leaves and a
    new one connects, the new one is stored over the last peer recorded, and the entry
    of the one that left stays.  So if the last peer was the one that left, the table
    lists the connected peers again; but if any other one left, wherever it was in the
    table, the last peer - still connected and served - is named by no live entry any
    more, and the one that left still is. *)
Theorem registry_forgets fuel rounds st cs h :
  consistent l st -> records l st cs -> 3 <= h < INVALID_SOCKET -> h ∉ all_sockets st ->
  4294967300 <= Z.of_nat fuel ->
  (zlen cs < MAX_PENDING -> exists st',
     select_loop fuel l ((Some [l], [h]) :: rounds) st = select_loop fuel l rounds st' /\
     consistent l st' /\ records l st' (cs ++ [h])) /\
  (forall pre a post n, cs = pre ++ a :: post -> n <= 0 -> exists st',
     select_loop fuel l ((Some [a], [n]) :: (Some [l], [h]) :: rounds) st =
       select_loop fuel l rounds st' /\
     consistent l st' /\ all_sockets st' ≡ₚ l :: (pre ++ post) ++ [h] /\
     let live := take (Z.to_nat (numOfSocket st')) (peer st') in
     live = map Some (removelast cs ++ [h]) /\
     (post = [] -> records l st' (pre ++ [h])) /\
     (forall mid z, post = mid ++ [z] -> z ∈ all_sockets st' /\ Some z ∉ live /\ a ∉ all_sockets st' /\ Some a ∈ live)).
Proof.
  intros Hst Hrec Hh Hnew Hf. split.
  - destruct Hrec as [Htake Hperm]. intros Hlt. pose proof (visit_consistent l l h st Hst (c_listen _ _ Hst)) as Hv.
    assert (Hcount : numOfSocket st = zlen cs).
    { pose proof (c_count _ _ Hst) as Hc. unfold zlen in *. rewrite (Permutation_length Hperm) in Hc. simpl in Hc. lia. }
    rewrite round_one by (try done; apply Hst). rewrite visit_arrive in * by (try done; lia).
    destruct Hv as [Hst' _]. eexists. split; [done|]. split; [done|]. split; simpl.
    + rewrite Hcount. unfold zlen. rewrite Nat2Z.id, length_app. simpl.
      rewrite Nat.add_1_r, take_store; [by rewrite map_app, Htake|].
      rewrite (c_entries _ _ Hst). unfold zlen, MAX_PENDING in *. lia.
    + by rewrite Hperm.
  - intros pre a post n -> Hn. destruct (leave_arrive fuel rounds st pre a post h n) as (st' & He & Hst' & Hp & Hc & Ht); try done.
    exists st'. split; [exact He|]. split; [exact Hst'|]. split; [exact Hp|]. cbn zeta.
    rewrite Hc. unfold zlen. rewrite Nat2Z.id. split; [exact Ht|]. rewrite Ht.
    assert (Hnd : NoDup (h :: l :: pre ++ a :: post)).
    { apply NoDup_cons. split; [by destruct Hrec as [_ <-]|]. destruct Hrec as [_ <-]. apply Hst. }
    split.
    + intros ->. split; [|by rewrite Hp, app_nil_r].
      rewrite removelast_last in Ht. rewrite <- Ht. f_equal. by rewrite !length_app.
    + intros mid z ->. rewrite Hp. rewrite !elem_of_cons, !elem_of_app.
      assert (Hlive : removelast (pre ++ a :: mid ++ [z]) = pre ++ a :: mid).
      { by rewrite app_comm_cons, app_assoc, removelast_last. }
      rewrite Hlive. assert (Hsome : forall (y : Z) xs, Some y ∈ map Some xs <-> y ∈ xs).
      { intros y xs. rewrite list_elem_of_In, in_map_iff. split; [intros (? & [= ->] & ?%list_elem_of_In); done|].
        intros Hy%list_elem_of_In. by exists y. }
      rewrite !Hsome. rewrite !NoDup_cons, NoDup_app, NoDup_cons, NoDup_app in Hnd. set_solver.
Qed.
End select_properties.


(** ** find_max_fd *)

Lemma find_max_skip n fuel i fs :
  Z.of_nat n <= i < 4294967296 -> (forall x, i - Z.of_nat n < x <= i -> x ∈ fs -> x = 0) ->
  find_max_from (n + fuel) i fs = find_max_from fuel (i - Z.of_nat n) fs.
Proof.
  revert i. induction n as [|n IH]; intros i Hi Hfs; [by rewrite Z.sub_0_r|].
  cbn [Nat.add find_max_from].
  replace (if FD_ISSET i fs then s32 i else 0) with 0.
  - change (0 =? 0) with true. cbv iota. rewrite (u32_small (i - 1)) by lia.
    rewrite IH; [f_equal; lia|lia|]. intros x Hx. apply Hfs. lia.
  - unfold FD_ISSET. case_bool_decide as Hin; [|done]. by rewrite (Hfs i) by (done || lia).
Qed.

Lemma find_max_hit fuel i fs :
  0 < i < 4294967296 -> i ∈ fs -> find_max_from (S fuel) i fs = Done (s32 i).
Proof.
  intros Hi Hin. cbn [find_max_from]. unfold FD_ISSET. rewrite bool_decide_eq_true_2 by done.
  unfold s32. destruct (Z.ltb_spec i 2147483648); by rewrite (proj2 (Z.eqb_neq _ _)) by lia.
Qed.

(** find_max_fd looks for the largest handle below 6 first.  If the set holds a
    handle from 1 to 5, the result is the largest of those, although larger
    handles may be in the set; otherwise the unsigned counter wraps below 0 and
    the result is the largest handle of the set, as an int; and on a set without
    a positive handle the loop never ends. *)
Theorem find_max_fd_spec fs m fuel :
  Forall (fun x => 0 <= x < 4294967296) fs -> 4294967302 <= Z.of_nat fuel ->
  (1 <= m <= 5 -> m ∈ fs -> (forall x, x ∈ fs -> x <= 5 -> x <= m) -> find_max_fd fuel fs = Done m) /\
  (5 < m -> m ∈ fs -> (forall x, x ∈ fs -> x = 0 \/ 5 < x <= m) -> find_max_fd fuel fs = Done (s32 m)) /\
  ((forall x, x ∈ fs -> x = 0) -> find_max_fd fuel fs = NoFuel).
Proof.
  intros Hfs Hf. unfold find_max_fd, MAX_PENDING. split_and!.
  - intros Hm Hin Hmax. replace fuel with (Z.to_nat (5 - m) + S (fuel - S (Z.to_nat (5 - m))))%nat by lia.
    rewrite find_max_skip; [|lia|intros x Hx Hx'%Hmax; lia].
    replace (5 - Z.of_nat _) with m by lia. rewrite find_max_hit by (done || lia).
    unfold s32. by rewrite (proj2 (Z.ltb_lt _ _)) by lia.
  - intros Hm Hin Hmax. pose proof (proj1 (Forall_forall _ _) Hfs m Hin) as Hr. simpl in Hr.
    replace fuel with (5 + S (Z.to_nat (4294967295 - m) + S (fuel - 7 - Z.to_nat (4294967295 - m))))%nat by lia.
    rewrite find_max_skip; [|lia|intros x Hx [|]%Hmax; lia].
    change (5 - Z.of_nat 5) with 0. cbn [find_max_from].
    replace (if FD_ISSET 0 fs then s32 0 else 0) with 0 by (by destruct (FD_ISSET 0 fs)).
    change (0 =? 0) with true. cbv iota. change (u32 (0 - 1)) with 4294967295.
    rewrite find_max_skip; [|lia|intros x Hx [|]%Hmax; lia].
    replace (4294967295 - Z.of_nat _) with m by lia. by apply find_max_hit; [lia|].
  - clear Hf. intros Hz. generalize 5. induction fuel as [|fuel IH]; intros i; [done|].
    cbn [find_max_from]. replace (if FD_ISSET i fs then s32 i else 0) with 0; [apply IH|].
    unfold FD_ISSET. case_bool_decide as Hin; [|done]. by rewrite (Hz i).
Qed.

(** ** Opening sockets *)

Section socket_properties.
Context `{Platform}.
Implicit Types (w : world nat).

(** A helper that returns a socket: the one socket it leaves open is the result. *)
Definition returns_socket (o : outcome (option Z)) w w' : Prop :=
  match o with
  | Done None => open_sockets w' = open_sockets w
  | Done (Some s) => s ∉ open_sockets w /\ open_sockets w' = {[s]} ∪ open_sockets w
  | _ => False
  end.

Lemma bind_first_sockets result w :
  handles_ok w ->
  wp (bind_first result)
    (fun o w' => returns_socket o w w' /\ handles_ok w' /\ memory w' = memory w) w.
Proof.
  revert w. induction result as [|rp result IH]; intros w Hok; cbn [bind_first]; [by apply wp_ret|].
  apply wp_bind, wp_socket; intros cs; cbn [wp_k].
  - by apply (IH (set_calls cs w)).
  - pose proof (handles_ok_fresh w Hok) as Hfresh. pose proof (handles_ok_socket cs w Hok) as Hok'.
    apply wp_bind, wp_syscall. intros [] cs'; cbn [wp_k]; [by apply wp_ret|].
    apply wp_bind, wp_modify. cbn [wp_k]. set (w1 := set_open_sockets _ _).
    assert (Ho : open_sockets w1 = open_sockets w) by (simpl; clear -Hfresh; set_solver).
    eapply wp_mono; [apply (IH w1)|].
    + intros s Hs. rewrite Ho in Hs. apply Hok in Hs. simpl. lia.
    + intros o w' (Hr & Hok2 & Hm). split; [|done]. unfold returns_socket in *. by rewrite Ho in Hr.
Qed.

(** bind_and_listen leaks nothing: whichever of its calls fail, either it
    returns INVALID_SOCKET and the open sockets are those from before, or it
    returns a new socket and that is the only one it has opened; and the list
    that getaddrinfo allocated has been freed exactly once. *)
Theorem bind_and_listen_no_leak addrs w :
  handles_ok w ->
  wp (bind_and_listen addrs) (fun o w' => returns_socket o w w' /\ memory w' = memory w) w.
Proof.
  intros Hok. unfold bind_and_listen, getaddrinfo. apply wp_bind. destruct addrs as [result|].
  2: { apply wp_ret. cbn [wp_k]. by apply wp_bind, wp_modify. }
  apply wp_bind, wp_modify. cbn [wp_k]. apply wp_ret. cbn [wp_k]. apply wp_bind.
  eapply wp_mono; [by apply bind_first_sockets|].
  intros o w1 (Hr & Hok1 & Hm). destruct o as [[s|]| | | |]; cbn [wp_k]; try done.
  - apply wp_bind, wp_modify. cbn [wp_k]. apply wp_bind, wp_syscall. intros [] cs; cbn [wp_k].
    + apply wp_ret. simpl. by rewrite Hm.
    + apply wp_bind, wp_modify. cbn [wp_k]. apply wp_bind, wp_modify. cbn [wp_k]. apply wp_ret.
      simpl in *. destruct Hr as [Hs ->]. rewrite Hm. split; [|done]. clear -Hs. set_solver.
  - apply wp_bind, wp_modify. cbn [wp_k]. apply wp_bind, wp_modify. cbn [wp_k]. apply wp_ret.
    simpl in *. by rewrite Hm.
Qed.

Lemma connect_first_spec failures outcome_ rest result w :
  handles_ok w -> calls w = [] -> Forall (fun d : bool * list recv_event => fst d = false) failures ->
  dials w = failures ++ outcome_ ++ rest ->
  match outcome_ with
  | [] => length result = length failures
  | [(ok, evs)] => ok = true /\ (length failures < length result)%nat
  | _ => False
  end ->
  wp (connect_first result)
    (fun o w' => returns_socket o w w' /\ memory w' = memory w /\ dials w' = rest /\
       match outcome_ with
       | [] => o = Done None /\ connects w' = connects w ++ result
       | _ => (exists s, o = Done (Some s)) /\
              connects w' = connects w ++ take (S (length failures)) result /\
              inbox w' = concat (map snd outcome_)
       end) w.
Proof.
  intros Hok Hc Hfail. revert result w Hok Hc.
  induction Hfail as [|[ok evs] failures Hf _ IH]; intros result w Hok Hc Hd Hlen.
  - destruct outcome_ as [|[ok evs] [|]]; try done.
    + destruct result; [|done]. cbn [connect_first]. apply wp_ret. by rewrite app_nil_r.
    + destruct Hlen as [-> Hlen]. destruct result as [|[a p] result]; [simpl in Hlen; lia|].
      cbn [connect_first]. apply wp_bind, wp_socket_ok; [done|]. cbn [wp_k].
      apply wp_bind. unfold wp at 1, connect. simpl. rewrite Hd. simpl. apply wp_ret. simpl.
      rewrite app_nil_r. pose proof (handles_ok_fresh w Hok). split_and!; eauto.
  - simpl in Hf. subst ok. destruct result as [|[a p] result].
    { destruct outcome_ as [|[] [|]]; simpl in Hlen; try done; lia. }
    cbn [connect_first]. apply wp_bind, wp_socket_ok; [done|]. cbn [wp_k].
    apply wp_bind. unfold wp at 1, connect. simpl. rewrite Hd. simpl.
    apply wp_bind, wp_modify. cbn [wp_k]. set (w1 := set_open_sockets _ _).
    pose proof (handles_ok_fresh w Hok) as Hfresh.
    assert (Ho : open_sockets w1 = open_sockets w) by (simpl; clear -Hfresh; set_solver).
    eapply wp_mono; [apply (IH result w1)|].
    + intros s Hs. rewrite Ho in Hs. apply Hok in Hs. simpl. lia.
    + done.
    + done.
    + destruct outcome_ as [|[] [|]]; simpl in *; [lia|split; [by apply Hlen|lia]|done].
    + intros o w' (Hr & Hm & Hd' & Hrest). split_and!; [by unfold returns_socket in *; rewrite Ho in Hr|done|done|].
      destruct outcome_ as [|d ds].
      * destruct Hrest as [-> ->]. split; [done|]. simpl. by rewrite <- app_assoc.
      * destruct Hrest as (Hs & -> & Hi). split_and!; [done| |done]. simpl. by rewrite <- app_assoc.
Qed.

(** lookup_and_connect tries the addresses in order: it connects to the
    addresses up to the first that accepts and returns the socket of that
    connection, or, when all refuse, INVALID_SOCKET; the sockets of the refused
    attempts are closed and the address list is freed on both paths. *)
Theorem lookup_and_connect_spec failures accepted rest result w :
  handles_ok w -> calls w = [] -> Forall (fun d : bool * list recv_event => fst d = false) failures ->
  dials w = failures ++ accepted ++ rest ->
  match accepted with
  | [] => length result = length failures
  | [(ok, evs)] => ok = true /\ (length failures < length result)%nat
  | _ => False
  end ->
  wp (lookup_and_connect (Some result))
    (fun o w' => returns_socket o w w' /\ memory w' = memory w /\ dials w' = rest /\
       match accepted with
       | [] => o = Done None /\ connects w' = connects w ++ result
       | _ => (exists s, o = Done (Some s)) /\
              connects w' = connects w ++ take (S (length failures)) result /\
              inbox w' = concat (map snd accepted)
       end) w.
Proof.
  intros Hok Hc Hfail Hd Hacc. unfold lookup_and_connect, getaddrinfo.
  apply wp_bind, wp_bind, wp_modify. cbn [wp_k]. apply wp_ret. cbn [wp_k]. apply wp_bind.
  eapply wp_mono; [by eapply (connect_first_spec failures accepted rest result)|].
  intros o w1 (Hr & Hm & Hd1 & Hrest). destruct o as [s| | | |]; try done. cbn [wp_k].
  apply wp_bind, wp_modify. cbn [wp_k].
  destruct s as [s|].
  - apply wp_ret. simpl in *. by rewrite Hm.
  - apply wp_bind, wp_modify. cbn [wp_k]. apply wp_ret. simpl in *. rewrite Hm.
    split_and!; [done|done|done|]. destruct accepted; [done|]. by destruct Hrest as [[s' [=]] _].
Qed.
End socket_properties.

(** ** Instances to evaluate on *)

(** Fuel for a scan over every possible handle; never evaluated. *)
Definition scan_fuel : nat := Z.to_nat 4294967310.

Lemma scan_fuel_enough : 4294967302 <= Z.of_nat scan_fuel.
Proof. unfold scan_fuel. lia. Qed.

(** Peers 12, 16 and 20 connected to the registry on handle 8. *)
Definition three_peers : registry :=
  Registry [Some 12; Some 16; Some 20; None; None] 3 [8; 12; 16; 20] 20.

Definition five_peers : registry :=
  Registry [Some 12; Some 16; Some 20; Some 24; Some 28] 5 [8; 12; 16; 20; 24; 28] 28.

Lemma three_peers_consistent : consistent 8 three_peers.
Proof.
  constructor; simpl; try done; [by apply (bool_decide_unpack _); vm_compute|set_solver|].
  repeat constructor; lia.
Qed.

Lemma five_peers_consistent : consistent 8 five_peers.
Proof.
  constructor; simpl; try done; [by apply (bool_decide_unpack _); vm_compute|set_solver|].
  repeat constructor; lia.
Qed.

(** A round on the executable definitions: two peers connect, one leaves. *)
Example run_registry_demo :
  run_registry 60 8 [(Some [8], [12]); (Some [8], [16]); (Some [12; 8], [20; 0])] =
    (Waiting, Registry [Some 12; Some 16; Some 20; None; None] 2 [8; 16; 20] 20).
Proof. reflexivity. Qed.

Lemma registry_consistent_witness :
  3 <= 8 < INVALID_SOCKET /\ 4294967300 <= Z.of_nat scan_fuel /\
  let '(o, st) := run_registry scan_fuel 8 [(Some [8], [12]); (Some [12], [-1])] in
  consistent 8 st /\
  match o with
  | Done _ | Waiting => True
  | Crash f => f = BufferOverflow /\ numOfSocket st = MAX_PENDING
  | _ => False
  end.
Proof.
  assert (Hl : 3 <= 8 < INVALID_SOCKET) by (unfold INVALID_SOCKET; lia).
  assert (Hf : 4294967300 <= Z.of_nat scan_fuel) by (pose proof scan_fuel_enough; lia).
  split; [exact Hl|]. split; [exact Hf|].
  exact (registry_consistent 8 scan_fuel [(Some [8], [12]); (Some [12], [-1])] Hl Hf).
Defined.

Lemma sixth_peer_overflows_witness :
  consistent 8 five_peers /\ numOfSocket five_peers = MAX_PENDING /\
  select_loop scan_fuel 8 [(Some [8], [32])] five_peers = (Crash BufferOverflow, five_peers).
Proof.
  assert (Hf : 4294967300 <= Z.of_nat scan_fuel) by (pose proof scan_fuel_enough; lia).
  split; [exact five_peers_consistent|]. split; [reflexivity|].
  exact (sixth_peer_overflows 8 scan_fuel 32 [] five_peers five_peers_consistent eq_refl Hf).
Defined.

(** The second of three peers leaves. *)
Lemma registry_forgets_witness :
  consistent 8 three_peers /\ records 8 three_peers [12; 16; 20] /\
  exists st',
    select_loop scan_fuel 8 [(Some [16], [-1]); (Some [8], [24])] three_peers =
      select_loop scan_fuel 8 [] st' /\
    consistent 8 st' /\ take (Z.to_nat (numOfSocket st')) (peer st') = [Some 12; Some 16; Some 24] /\
    20 ∈ all_sockets st' /\ Some 20 ∉ take (Z.to_nat (numOfSocket st')) (peer st').
Proof.
  assert (Hf : 4294967300 <= Z.of_nat scan_fuel) by (pose proof scan_fuel_enough; lia).
  assert (Hr : records 8 three_peers [12; 16; 20]) by (split; reflexivity).
  assert (Hh : 3 <= 24 < INVALID_SOCKET) by (unfold INVALID_SOCKET; lia).
  assert (Hn : 24 ∉ all_sockets three_peers) by (simpl; set_solver by lia).
  split; [exact three_peers_consistent|]. split; [exact Hr|].
  destruct (proj2 (registry_forgets 8 scan_fuel [] three_peers [12; 16; 20] 24 three_peers_consistent Hr Hh Hn Hf)
    [12] 16 [20] (-1) eq_refl ltac:(lia)) as (st' & He & Hst & _ & Hl & _ & Hz).
  exists st'. split; [exact He|]. split; [exact Hst|]. split; [exact Hl|].
  destruct (Hz [] 20 eq_refl) as (H1 & H2 & _). split; [exact H1|exact H2].
Defined.

Lemma find_max_fd_spec_witness :
  Forall (fun x => 0 <= x < 4294967296) [0; 3; 140; 8] /\
  find_max_fd scan_fuel [0; 3; 140; 8] = Done 3 /\
  find_max_fd scan_fuel [0; 8; 140] = Done (s32 140) /\
  find_max_fd scan_fuel [0] = NoFuel.
Proof.
  assert (H1 : Forall (fun x => 0 <= x < 4294967296) [0; 3; 140; 8]) by (repeat constructor; lia).
  assert (H2 : Forall (fun x => 0 <= x < 4294967296) [0; 8; 140]) by (repeat constructor; lia).
  assert (H3 : Forall (fun x => 0 <= x < 4294967296) [0]) by (repeat constructor; lia).
  split; [exact H1|]. split_and!.
  - apply (proj1 (find_max_fd_spec _ 3 scan_fuel H1 scan_fuel_enough)); [lia|set_solver|].
    intros x Hx Hle. set_solver by lia.
  - apply (proj1 (proj2 (find_max_fd_spec _ 140 scan_fuel H2 scan_fuel_enough))); [lia|set_solver|].
    intros x Hx. set_solver by lia.
  - apply (proj2 (proj2 (find_max_fd_spec _ 0 scan_fuel H3 scan_fuel_enough))). set_solver.
Defined.

(** The first bind fails, the second works, and then listen fails. *)
Definition demo_sockets : world nat :=
  World 0%nat [] [] [(false, []); (true, [RClosed])] [] [] [] 100 {[ 8; 12 ]} ∅ (fun _ => true) [] [].

Lemma demo_sockets_ok cs : handles_ok (set_calls cs demo_sockets).
Proof. intros s. simpl. set_solver by lia. Qed.

Lemma bind_and_listen_no_leak_witness :
  let w := set_calls [true; false; true; true; false] demo_sockets in
  exists P : Platform,
    handles_ok w /\ fst (bind_and_listen (Some [(bs "0.0.0.0", 80); (bs "10.0.0.1", 80)]) w) = Done None /\
    wp (bind_and_listen (Some [(bs "0.0.0.0", 80); (bs "10.0.0.1", 80)]))
      (fun o w' => returns_socket o w w' /\ memory w' = memory w) w.
Proof.
  intros w. exists demo_platform. split; [apply demo_sockets_ok|]. split; [reflexivity|].
  exact (@bind_and_listen_no_leak (Some [(bs "0.0.0.0", 80); (bs "10.0.0.1", 80)]) w (demo_sockets_ok _)).
Defined.

Lemma lookup_and_connect_spec_witness :
  let w := set_calls [] demo_sockets in
  exists P : Platform,
    handles_ok w /\
    wp (lookup_and_connect (Some [(bs "a", 1); (bs "b", 2); (bs "c", 3)]))
      (fun o w' => returns_socket o w w' /\ memory w' = memory w /\ dials w' = [] /\
         (exists s, o = Done (Some s)) /\
         connects w' = connects w ++ take 2 [(bs "a", 1); (bs "b", 2); (bs "c", 3)] /\
         inbox w' = concat (map snd [(true, [RClosed])])) w.
Proof.
  intros w. exists demo_platform. split; [apply demo_sockets_ok|].
  refine (@lookup_and_connect_spec [(false, [])] [(true, [RClosed])] []
    [(bs "a", 1); (bs "b", 2); (bs "c", 3)] w (demo_sockets_ok _) eq_refl _ eq_refl _).
  - repeat constructor.
  - simpl. split; [done|lia].
Defined.
