(* ===== verification/Ui.v ===== *)
(** * The window of the planned front end (ui.c)

    WinMain, the window procedure and what they call.  The window system is not part of
    the program: its calls are recorded in order, and what it does of its own is input -
    the handles it returns, what each GetMessage finds, and the messages it passes to
    WindowProc: when DispatchMessage is asked to, but also while a window is created or
    shown, while GetMessage waits, out of the procedure of a control (the WM_COMMAND of
    a button) and out of DefWindowProc (the WM_DESTROY of a window that is closed). *)

From S2P Require Import Prelude.

(** The four controls, by the global variable that holds their handle. *)
Inductive control := IPTextBox | PortTextBox | ConnectButton | ListBox.

#[global] Instance control_eq_dec : EqDecision control.
Proof. solve_decision. Defined.

(** In the order in which InitUI creates them and WM_SIZE moves them. *)
Definition controls : list control := [IPTextBox; PortTextBox; ConnectButton; ListBox].

Record rect := Rect { x : Z; y : Z; width : Z; height : Z }.

(** ** The calls of the window system *)

(** Handles are numbers, 0 is NULL.  CreateWindow is CreateWindowEx without extended style. *)
Inductive api_call :=
| RegisterClass (lpszClassName : string)
| CreateWindow (lpClassName : string) (lpWindowName : option string) (dwStyle : Z) (area : rect) (hMenu : Z)
| ShowWindow
| MoveWindow (hWnd : Z) (area : rect)
| GetWindowText (hWnd : Z) (nMaxCount : Z)
| SendMessage_LB_ADDSTRING (hWnd : Z) (text : string)
| PostQuitMessage (nExitCode : Z).

(** The global variables, the calls made, and the wParam of the WM_QUIT that
    PostQuitMessage has asked for. *)
Record ui := Ui { g_h : control -> Z; calls : list api_call; quit : option Z }.

Definition record_call (c : api_call) (u : ui) : ui := Ui (g_h u) (calls u ++ [c]) (quit u).

Definition post_quit (nExitCode : Z) (u : ui) : ui :=
  Ui (g_h u) (calls u ++ [PostQuitMessage nExitCode]) (Some (u32 nExitCode)).

Definition set_handle (c : control) (h : Z) (u : ui) : ui :=
  Ui (fun c' => if decide (c' = c) then h else g_h u c') (calls u) (quit u).

(** ** The window procedure *)

Definition AddLog (text : string) (u : ui) : ui := record_call (SendMessage_LB_ADDSTRING (g_h u ListBox) text) u.

(** The host and the port are read into arrays of 256 and 10 characters, and then not used. *)
Definition Connect (u : ui) : ui :=
  let u := record_call (GetWindowText (g_h u IPTextBox) 256) u in
  let u := record_call (GetWindowText (g_h u PortTextBox) 10) u in
  AddLog "Connected to server!" u.

Definition ListFiles (u : ui) : ui :=
  AddLog "file3.txt" (AddLog "file2.txt" (AddLog "file1.txt" (AddLog "List of files:" u))).

Definition WM_CREATE : Z := 1.
Definition WM_DESTROY : Z := 2.
Definition WM_SIZE : Z := 5.
Definition WM_QUIT : Z := 18.
Definition WM_COMMAND : Z := 273.

Definition LOWORD (wParam : Z) : Z := Z.land wParam 65535.

(** What GetClientRect reports. *)
Record edges := Edges { left : Z; top : Z; right : Z; bottom : Z }.

Definition layout (client : edges) (c : control) : rect :=
  let width := right client - left client in
  let height := bottom client - top client in
  match c with
  | IPTextBox => Rect 20 20 200 25
  | PortTextBox => Rect 240 20 100 25
  | ConnectButton => Rect 360 20 100 25
  | ListBox => Rect 20 70 (width - 40) (height - 90)
  end.

Definition resize (client : edges) (u : ui) : ui :=
  fold_left (fun u c => record_call (MoveWindow (g_h u c) (layout client c)) u) controls u.

(** A message that reaches WindowProc, with the client rectangle at that time and, if
    it goes on to DefWindowProc, the messages that DefWindowProc sends in its turn.  (What
    the other branches call sends to the controls; what a control then asks its parent,
    as the colours to paint with, falls to DefWindowProc and changes nothing here.) *)
Inductive delivery := Delivery (uMsg wParam : Z) (client : edges) (nested : list delivery).

Fixpoint WindowProc (d : delivery) (u : ui) : ui :=
  match d with
  | Delivery uMsg wParam client nested =>
      if uMsg =? WM_CREATE then u
      else if uMsg =? WM_COMMAND then
        if LOWORD wParam =? 1 then Connect u
        else if LOWORD wParam =? 2 then ListFiles u
        else u
      else if uMsg =? WM_SIZE then resize client u
      else if uMsg =? WM_DESTROY then post_quit 0 u
      else fold_left (fun u d => WindowProc d u) nested u
  end.

(** Messages that the window system sends to the window, in order. *)
Definition deliver (ds : list delivery) (u : ui) : ui := fold_left (fun u d => WindowProc d u) ds u.

(** ** Start *)

Definition WS_CHILD : Z := 0x40000000.
Definition WS_VISIBLE : Z := 0x10000000.
Definition WS_BORDER : Z := 0x800000.
Definition WS_VSCROLL : Z := 0x200000.
Definition ES_AUTOVSCROLL : Z := 0x40.
Definition WS_OVERLAPPEDWINDOW : Z := 0xcf0000.
Definition CW_USEDEFAULT : Z := -2147483648.

(** The arguments of CreateWindow for each control. *)
Definition creation (c : control) : api_call :=
  match c with
  | IPTextBox => CreateWindow "EDIT" None (Z.lor WS_VISIBLE (Z.lor WS_CHILD WS_BORDER)) (Rect 20 20 200 25) 0
  | PortTextBox => CreateWindow "EDIT" None (Z.lor WS_VISIBLE (Z.lor WS_CHILD WS_BORDER)) (Rect 240 20 100 25) 0
  | ConnectButton => CreateWindow "BUTTON" (Some "Connect"%string) (Z.lor WS_VISIBLE WS_CHILD) (Rect 360 20 100 25) 1
  | ListBox =>
      CreateWindow "LISTBOX" None (Z.lor WS_VISIBLE (Z.lor WS_BORDER (Z.lor WS_CHILD (Z.lor WS_VSCROLL ES_AUTOVSCROLL))))
        (Rect 20 70 740 400) 0
  end.

(** For each control the handle that CreateWindow returns, and what is sent to the
    window meanwhile. *)
Definition InitUI (children : control -> Z * list delivery) (u : ui) : ui :=
  fold_left (fun u c => set_handle c (fst (children c)) (deliver (snd (children c)) (record_call (creation c) u))) controls u.

(** ** The message loop *)

(** The window of a message: the main one, or a control's or none. *)
Inductive target := MainWindow | OtherWindow.
Record message := Message { hwnd : target; uMsg : Z; wParam : Z }.

(** What GetMessage finds: a message of the queue; an error, with what [msg] then holds;
    or no message, when it returns the WM_QUIT that PostQuitMessage has asked for and
    otherwise goes on waiting. *)
Inductive found := Retrieved (m : message) | Failed (m : message) | Nothing.

(** The messages sent while GetMessage looks; what it finds; and, if that is dispatched,
    the client rectangle and the messages sent out of DefWindowProc or the control. *)
Record round := Round { meanwhile : list delivery; finds : found; client_then : edges; sent : list delivery }.

Definition DispatchMessage (m : message) (r : round) (u : ui) : ui :=
  match hwnd m with
  | MainWindow => WindowProc (Delivery (uMsg m) (wParam m) (client_then r) (sent r)) u
  | OtherWindow => deliver (sent r) u
  end.

(** The conversion of msg.wParam to int. *)
Definition exit_code (w : Z) : Z := if w <? 2147483648 then w else w - 4294967296.

(** [while (GetMessage(...))]: 0 is returned for WM_QUIT, and -1 for an error. *)
Fixpoint message_loop (rounds : list round) (u : ui) : outcome Z * ui :=
  match rounds with
  | [] => (Waiting, u)
  | r :: rounds' =>
      let u := deliver (meanwhile r) u in
      match finds r with
      | Nothing => match quit u with Some w => (Done (exit_code w), u) | None => message_loop rounds' u end
      | Retrieved m =>
          if uMsg m =? WM_QUIT then (Done (exit_code (wParam m)), u)
          else message_loop rounds' (DispatchMessage m r u)
      | Failed m => message_loop rounds' (DispatchMessage m r u)
      end
  end.

(** What the window system does before the loop. *)
Record startup := Startup {
  created : bool;  (* CreateWindowEx returned a handle *)
  creating : list delivery;
  children : control -> Z * list delivery;
  showing : list delivery
}.

(** Up to the creation of the window, and to the message loop. *)
Definition registered (s : startup) : ui :=
  let u := record_call (RegisterClass "FileTransferApp") (Ui (fun _ => 0) [] None) in
  deliver (creating s)
    (record_call (CreateWindow "FileTransferApp" (Some "File Transfer Application"%string) WS_OVERLAPPEDWINDOW
             (Rect CW_USEDEFAULT CW_USEDEFAULT 800 600) 0) u).

Definition started (s : startup) : ui := deliver (showing s) (record_call ShowWindow (InitUI (children s) (registered s))).

Definition WinMain (s : startup) (rounds : list round) : outcome Z * ui :=
  if created s then message_loop rounds (started s) else (Done 0, registered s).

(** ** Geometry *)

Definition inside (client : edges) (r : rect) : Prop :=
  0 <= x r /\ 0 <= y r /\ x r + width r <= right client - left client /\
  y r + height r <= bottom client - top client.

Definition disjoint (r1 r2 : rect) : Prop :=
  x r1 + width r1 <= x r2 \/ x r2 + width r2 <= x r1 \/
  y r1 + height r1 <= y r2 \/ y r2 + height r2 <= y r1.

(** The layout fits: a resize moves every control once; in a client area of at least
    480 by 90 all of them then lie inside, no two overlap and none has a negative
    extent; below 90 in height the list box gets a negative height, so that the bound
    is tight. *)
Theorem resize_layout client wp nested u c1 c2 :
  calls (WindowProc (Delivery WM_SIZE wp client nested) u) =
    calls u ++ map (fun c => MoveWindow (g_h u c) (layout client c)) controls /\
  (480 <= right client - left client -> 90 <= bottom client - top client ->
   inside client (layout client c1) /\ 0 <= width (layout client c1) /\ 0 <= height (layout client c1) /\
   (c1 <> c2 -> disjoint (layout client c1) (layout client c2))) /\
  (bottom client - top client < 90 -> height (layout client ListBox) < 0).
Proof.
  split; [|split].
  - cbn. by rewrite <- !app_assoc.
  - intros Hw Hh. unfold inside, disjoint. destruct c1, c2; simpl; split_and!; try lia; intros; try done; lia.
  - simpl. lia.
Qed.

Lemma resize_layout_witness :
  let client := Edges 0 0 784 561 in
  inside client (layout client ListBox) /\ 0 <= width (layout client ListBox) /\ 0 <= height (layout client ListBox) /\
  (ListBox <> ConnectButton -> disjoint (layout client ListBox) (layout client ConnectButton)).
Proof.
  intros client.
  exact (proj1 (proj2 (resize_layout client 0 [] (Ui (fun _ => 0) [] None) ListBox ConnectButton)) ltac:(simpl; lia) ltac:(simpl; lia)).
Defined.

(** ** A session *)








(** The strings that a call adds to the list box with handle [h]. *)
Definition added (h : Z) (c : api_call) : list string :=
  match c with SendMessage_LB_ADDSTRING h' text => if h' =? h then [text] else [] | _ => [] end.








(** *** The lines *)



(** *** The start *)










(** *** The loop *)








(** The button is clicked - its procedure sends WM_COMMAND -, GetMessage fails once, and
    the window is closed, out of DefWindowProc. *)
Definition demo_client : edges := Edges 0 0 784 561.
Definition demo_startup : startup :=
  Startup true [Delivery 129 0 demo_client []; Delivery WM_CREATE 0 demo_client []]
    (fun c => match c with IPTextBox => (11, []) | PortTextBox => (12, []) | ConnectButton => (13, []) | ListBox => (14, []) end)
    [Delivery WM_SIZE 0 demo_client []].
Definition demo_rounds : list round :=
  [Round [] (Retrieved (Message OtherWindow 514 0)) demo_client [Delivery WM_COMMAND 1 demo_client []];
   Round [] (Failed (Message OtherWindow 514 0)) demo_client [];
   Round [] Nothing demo_client [];
   Round [] (Retrieved (Message MainWindow 16 0)) demo_client [Delivery WM_DESTROY 0 demo_client []];
   Round [] Nothing demo_client [];
   Round [] (Retrieved (Message MainWindow WM_COMMAND 2)) demo_client []].

Example closed_session :
  let '(o, u) := WinMain demo_startup demo_rounds in
  o = Done 0 /\ flat_map (added 14) (calls u) = ["Connected to server!"%string] /\ length (calls u) = 15%nat.
Proof. by vm_compute. Qed.

