(* ===== verification/Words.v ===== *)
(** * Bytes and 32-bit words of the cipher code

    A word is an integer below 2^32; [pack4] puts four bytes together, most
    significant first, the way the GETU32 macros do.  The lemmas take words apart
    again, also through exclusive or and masks. *)

From Stdlib Require Import Btauto.
From S2P Require Import Prelude.

Definition word (w : Z) : Prop := 0 <= w < 4294967296.

Infix "⊕" := Z.lxor (at level 51, left associativity) : Z_scope.

Definition pack4 (b0 b1 b2 b3 : Z) : Z :=
  Z.shiftl b0 24 ⊕ Z.shiftl b1 16 ⊕ Z.shiftl b2 8 ⊕ b3.

Lemma pack4_shifts b0 b1 b2 b3 :
  Z.shiftl b0 24 ⊕ Z.shiftl b1 16 ⊕ Z.shiftl b2 8 ⊕ b3 = pack4 b0 b1 b2 b3.
Proof. done. Qed.

(** The [k]-th byte of a word, counted from the most significant. *)
Definition byte_of (k : Z) (w : Z) : Z := Z.land (Z.shiftr w (24 - 8 * k)) 255.

(** Exclusive or up to associativity, commutativity and cancellation. *)
Ltac xor_solve :=
  apply Z.bits_inj; intros ?; rewrite ?Z.lxor_spec, ?Z.bits_0; btauto.

Lemma lxor_bound n a b : 0 <= n -> 0 <= a < 2 ^ n -> 0 <= b < 2 ^ n -> 0 <= a ⊕ b < 2 ^ n.
Proof.
  intros Hn Ha Hb.
  assert (Hnn : 0 <= a ⊕ b) by (apply Z.lxor_nonneg; lia). split; [done|].
  destruct (Z.eq_dec (a ⊕ b) 0) as [->|Hne]; [apply Z.pow_pos_nonneg; lia|].
  apply Z.log2_lt_pow2; [lia|].
  assert (Hlog : forall x, 0 <= x < 2 ^ n -> Z.log2 x < Z.max n 1).
  { intros x Hx. destruct (Z.eq_dec x 0) as [->|]; [simpl; lia|].
    apply Z.lt_le_trans with n; [apply Z.log2_lt_pow2; lia|lia]. }
  destruct (Z.eq_dec n 0) as [->|].
  { assert (a = 0) as -> by (simpl in Ha; lia). assert (b = 0) as -> by (simpl in Hb; lia). done. }
  pose proof (Z.log2_lxor a b ltac:(lia) ltac:(lia)). pose proof (Hlog a Ha). pose proof (Hlog b Hb). lia.
Qed.

Lemma byte_lxor a b : byte_ok a -> byte_ok b -> byte_ok (a ⊕ b).
Proof. apply (lxor_bound 8). lia. Qed.

Lemma word_lxor a b : word a -> word b -> word (a ⊕ b).
Proof. apply (lxor_bound 32). lia. Qed.

(** What all entries of a list satisfy, and the default. *)
Lemma nth_Forall (P : Z -> Prop) n l d : Forall P l -> P d -> P (nth n l d).
Proof.
  intros Hl Hd. destruct (nth_in_or_default n l d) as [Hin| ->]; [|exact Hd]. by eapply Forall_forall in Hl; [|apply list_elem_of_In, Hin].
Qed.

Lemma nth_byte p k : bytes_ok p -> byte_ok (nth k p 0).
Proof. intros Hp. by apply nth_Forall. Qed.

Lemma nth_word n w : Forall word w -> word (nth n w 0).
Proof. intros Hw. by apply nth_Forall. Qed.

Create HintDb words.
#[export] Hint Resolve byte_lxor word_lxor : words.

(** A value below the gap is added by exclusive or. *)
Lemma lxor_shiftl_low a k b : 0 <= k -> 0 <= b < 2 ^ k -> Z.shiftl a k ⊕ b = a * 2 ^ k + b.
Proof.
  intros Hk Hb. rewrite <- Z.add_nocarry_lxor; [by rewrite Z.shiftl_mul_pow2|].
  apply Z.bits_inj'. intros n Hn. rewrite Z.land_spec, Z.bits_0.
  destruct (Z.lt_ge_cases n k) as [Hlt|Hge].
  - by rewrite Z.shiftl_spec_low.
  - replace b with (b mod 2 ^ k) by (by apply Z.mod_small).
    by rewrite Z.mod_pow2_bits_high, andb_false_r.
Qed.

(** The inclusive or of disjoint bits is their sum. *)
Lemma lor_shiftl_low a k b : 0 <= k -> 0 <= b < 2 ^ k -> Z.lor (Z.shiftl a k) b = a * 2 ^ k + b.
Proof.
  intros Hk Hb. rewrite <- (lxor_shiftl_low a k b Hk Hb). symmetry. apply Z.lxor_lor.
  apply Z.bits_inj'. intros n Hn. rewrite Z.land_spec, Z.bits_0.
  destruct (Z.lt_ge_cases n k); [by rewrite Z.shiftl_spec_low|].
  replace b with (b mod 2 ^ k) by (by apply Z.mod_small). by rewrite Z.mod_pow2_bits_high, andb_false_r.
Qed.

Lemma pack4_sum b0 b1 b2 b3 :
  byte_ok b1 -> byte_ok b2 -> byte_ok b3 ->
  pack4 b0 b1 b2 b3 = b0 * 16777216 + b1 * 65536 + b2 * 256 + b3.
Proof.
  unfold byte_ok, pack4. intros H1 H2 H3. rewrite !Z.lxor_assoc.
  rewrite (lxor_shiftl_low b2 8 b3) by lia.
  rewrite (lxor_shiftl_low b1 16) by lia. rewrite lxor_shiftl_low by lia. lia.
Qed.

Lemma pack4_word b0 b1 b2 b3 :
  byte_ok b0 -> byte_ok b1 -> byte_ok b2 -> byte_ok b3 -> word (pack4 b0 b1 b2 b3).
Proof. unfold word. intros ? ? ? ?. rewrite pack4_sum by done. unfold byte_ok in *. lia. Qed.

Lemma pack4_lxor a0 a1 a2 a3 b0 b1 b2 b3 :
  pack4 a0 a1 a2 a3 ⊕ pack4 b0 b1 b2 b3 = pack4 (a0 ⊕ b0) (a1 ⊕ b1) (a2 ⊕ b2) (a3 ⊕ b3).
Proof. unfold pack4. rewrite !Z.shiftl_lxor. xor_solve. Qed.

Section unpack.
Context (b0 b1 b2 b3 : Z) (H0 : byte_ok b0) (H1 : byte_ok b1) (H2 : byte_ok b2) (H3 : byte_ok b3).

Lemma land_255 x : Z.land x 255 = x mod 256.
Proof. change 255 with (Z.ones 8). by rewrite Z.land_ones. Qed.

Lemma shiftr_div x k : 0 <= k -> Z.shiftr x k = x / 2 ^ k.
Proof. apply Z.shiftr_div_pow2. Qed.

Lemma pack4_byte0 : Z.shiftr (pack4 b0 b1 b2 b3) 24 = b0.
Proof.
  rewrite pack4_sum, Z.shiftr_div_pow2 by done. change (2 ^ 24) with 16777216.
  unfold byte_ok in *. Z.to_euclidean_division_equations; lia.
Qed.

Lemma pack4_byte1 : Z.land (Z.shiftr (pack4 b0 b1 b2 b3) 16) 255 = b1.
Proof.
  rewrite land_255, pack4_sum, Z.shiftr_div_pow2 by done. change (2 ^ 16) with 65536.
  unfold byte_ok in *. Z.to_euclidean_division_equations; lia.
Qed.

Lemma pack4_byte2 : Z.land (Z.shiftr (pack4 b0 b1 b2 b3) 8) 255 = b2.
Proof.
  rewrite land_255, pack4_sum, Z.shiftr_div_pow2 by done. change (2 ^ 8) with 256.
  unfold byte_ok in *. Z.to_euclidean_division_equations; lia.
Qed.

Lemma pack4_byte3 : Z.land (pack4 b0 b1 b2 b3) 255 = b3.
Proof.
  rewrite land_255, pack4_sum by done.
  unfold byte_ok in *. Z.to_euclidean_division_equations; lia.
Qed.
End unpack.

(** Every word is packed from its bytes. *)
Lemma word_eta w :
  word w ->
  w = pack4 (Z.shiftr w 24) (Z.land (Z.shiftr w 16) 255) (Z.land (Z.shiftr w 8) 255) (Z.land w 255).
Proof.
  unfold word. intros Hw.
  rewrite pack4_sum by (rewrite land_255; apply Z.mod_pos_bound; lia).
  rewrite !land_255, !Z.shiftr_div_pow2 by done.
  change (2 ^ 24) with 16777216. change (2 ^ 16) with 65536. change (2 ^ 8) with 256.
  Z.to_euclidean_division_equations; lia.
Qed.

Lemma word_bytes w :
  word w -> exists b0 b1 b2 b3,
    w = pack4 b0 b1 b2 b3 /\ byte_ok b0 /\ byte_ok b1 /\ byte_ok b2 /\ byte_ok b3.
Proof.
  intros Hw. eexists _, _, _, _. split; [by apply word_eta|].
  rewrite !land_255, !Z.shiftr_div_pow2 by done. unfold byte_ok, word in *.
  split_and!; try (apply Z.mod_pos_bound; lia); change (2 ^ 24) with 16777216;
    Z.to_euclidean_division_equations; lia.
Qed.

(** The masks that pick one byte of a word. *)
Section masks.
Context (b0 b1 b2 b3 : Z) (H0 : byte_ok b0) (H1 : byte_ok b1) (H2 : byte_ok b2) (H3 : byte_ok b3).

Lemma byte_testbit b n : byte_ok b -> 8 <= n -> Z.testbit b n = false.
Proof.
  intros Hb Hn. replace b with (b mod 2 ^ 8) by (by apply Z.mod_small).
  apply Z.mod_pow2_bits_high. lia.
Qed.

(** A shifted byte under a byte mask at another place vanishes. *)
Lemma mask_other b i j : byte_ok b -> i <> j -> 0 <= i -> 0 <= j ->
  Z.land (Z.shiftl b (8 * i)) (Z.shiftl 255 (8 * j)) = 0.
Proof.
  intros Hb Hij Hi Hj. apply Z.bits_inj'. intros n Hn. rewrite Z.land_spec, Z.bits_0.
  destruct (Z.lt_ge_cases n (8 * i)); [by rewrite Z.shiftl_spec_low|].
  destruct (Z.lt_ge_cases n (8 * j)); [rewrite (Z.shiftl_spec_low 255) by done; apply andb_false_r|].
  rewrite !Z.shiftl_spec by done.
  destruct (Z.lt_ge_cases (n - 8 * i) 8); [|by rewrite byte_testbit].
  rewrite (byte_testbit 255); [apply andb_false_r|done|lia].
Qed.

Lemma mask_same b i : byte_ok b -> 0 <= i ->
  Z.land (Z.shiftl b (8 * i)) (Z.shiftl 255 (8 * i)) = Z.shiftl b (8 * i).
Proof.
  intros Hb Hi. rewrite <- Z.shiftl_land. f_equal. rewrite land_255. by apply Z.mod_small.
Qed.

Lemma land_lxor_distr a b c : Z.land (a ⊕ b) c = Z.land a c ⊕ Z.land b c.
Proof. apply Z.bits_inj. intros n. rewrite ?Z.land_spec, ?Z.lxor_spec, ?Z.land_spec. btauto. Qed.

Lemma mask_byte (i : Z) b : 
  pack4 b0 b1 b2 b3 = b -> 0 <= i <= 3 ->
  Z.land b (Z.shiftl 255 (8 * i)) =
    Z.shiftl (if i =? 3 then b0 else if i =? 2 then b1 else if i =? 1 then b2 else b3) (8 * i).
Proof.
  intros <- Hi. unfold pack4. rewrite !land_lxor_distr.
  change (Z.shiftl b0 24) with (Z.shiftl b0 (8 * 3)).
  change (Z.shiftl b1 16) with (Z.shiftl b1 (8 * 2)).
  change (Z.shiftl b2 8) with (Z.shiftl b2 (8 * 1)).
  replace (Z.land b3 (Z.shiftl 255 (8 * i))) with (Z.land (Z.shiftl b3 (8 * 0)) (Z.shiftl 255 (8 * i)))
    by (by rewrite Z.shiftl_0_r).
  assert (i = 0 \/ i = 1 \/ i = 2 \/ i = 3) as [->|[->|[->| ->]]] by lia;
    rewrite mask_same by done; rewrite !mask_other by done; by rewrite ?Z.lxor_0_l, ?Z.lxor_0_r.
Qed.

Lemma pack4_mask0 : Z.land (pack4 b0 b1 b2 b3) 4278190080 = Z.shiftl b0 24.
Proof. exact (mask_byte 3 _ eq_refl ltac:(lia)). Qed.

Lemma pack4_mask1 : Z.land (pack4 b0 b1 b2 b3) 16711680 = Z.shiftl b1 16.
Proof. exact (mask_byte 2 _ eq_refl ltac:(lia)). Qed.

Lemma pack4_mask2 : Z.land (pack4 b0 b1 b2 b3) 65280 = Z.shiftl b2 8.
Proof. exact (mask_byte 1 _ eq_refl ltac:(lia)). Qed.
End masks.

(** The bytes that PUTU32 stores. *)
Definition bytes_of_word (w : Z) : bytes :=
  [u8 (Z.shiftr w 24); u8 (Z.shiftr w 16); u8 (Z.shiftr w 8); u8 w].

Lemma bytes_of_pack4 b0 b1 b2 b3 :
  byte_ok b0 -> byte_ok b1 -> byte_ok b2 -> byte_ok b3 ->
  bytes_of_word (pack4 b0 b1 b2 b3) = [b0; b1; b2; b3].
Proof.
  intros H0 H1 H2 H3. unfold bytes_of_word, u8, wrap. change (2 ^ 8) with 256.
  rewrite <- !land_255. rewrite pack4_byte0, pack4_byte1, pack4_byte2, pack4_byte3 by done.
  repeat f_equal. rewrite land_255. by apply Z.mod_small.
Qed.

(** Bytes of a concrete list, by evaluation. *)
Lemma bytes_ok_checked b : forallb (fun c => (0 <=? c) && (c <? 256)) b = true -> bytes_ok b.
Proof.
  intros H. apply Forall_forall. intros c Hc%list_elem_of_In. rewrite forallb_forall in H.
  specialize (H c Hc). unfold byte_ok. lia.
Qed.

(** ** Little-endian numbers *)

(** The lowest bytes of an integer, and the number of some bytes. *)
Fixpoint le_bytes (n : nat) (x : Z) : bytes :=
  match n with
  | O => []
  | S n' => x mod 256 :: le_bytes n' (x / 256)
  end.
Fixpoint le_num (b : bytes) : Z :=
  match b with
  | [] => 0
  | x :: b' => x + 256 * le_num b'
  end.

Lemma le_bytes_4 l : le_bytes 4 l =
  [Z.land l 0xff; Z.land (Z.shiftr l 8) 0xff; Z.land (Z.shiftr l 16) 0xff; Z.land (Z.shiftr l 24) 0xff].
Proof.
  rewrite !land_255, !Z.shiftr_div_pow2 by lia. cbn [le_bytes]. rewrite !Z.div_div by lia. done.
Qed.

Lemma le_bytes_ok n x : bytes_ok (le_bytes n x).
Proof. revert x. induction n as [|n IH]; intros x; constructor; [by apply Z.mod_pos_bound|apply IH]. Qed.

Lemma le_bytes_app m n hi lo : 0 <= lo < 2 ^ (8 * Z.of_nat n) ->
  le_bytes (n + m) (hi * 2 ^ (8 * Z.of_nat n) + lo) = le_bytes n lo ++ le_bytes m hi.
Proof.
  rewrite Z.pow_mul_r by lia. change (2 ^ 8) with 256. revert lo. induction n as [|n IH]; intros lo Hlo.
  - change (256 ^ Z.of_nat 0) with 1 in *. replace (hi * 1 + lo) with hi by lia. done.
  - rewrite Nat2Z.inj_succ, Z.pow_succ_r in * by lia. cbn [Nat.add le_bytes app].
    assert (E : hi * (256 * 256 ^ Z.of_nat n) + lo = lo mod 256 + (hi * 256 ^ Z.of_nat n + lo / 256) * 256).
    { pose proof (Z.div_mod lo 256 ltac:(lia)). lia. }
    rewrite E. rewrite Z.mod_add, Z.div_add by lia. rewrite Z.mod_mod by lia.
    rewrite (Z.div_small (lo mod 256) 256) by (apply Z.mod_pos_bound; lia). rewrite Z.add_0_l.
    f_equal. apply IH. split; [apply Z.div_pos; lia|]. apply Z.div_lt_upper_bound; lia.
Qed.

Lemma le_num_range b : bytes_ok b -> 0 <= le_num b < 2 ^ (8 * zlen b).
Proof.
  induction 1 as [|x b Hx _ IH]; [done|]. cbn [le_num]. rewrite zlen_cons.
  rewrite Z.mul_add_distr_l, Z.pow_add_r by (pose proof (zlen_nonneg b); lia).
  change (2 ^ (8 * 1)) with 256. unfold byte_ok in Hx. lia.
Qed.

Lemma le_num_app b c : le_num (b ++ c) = le_num b + 2 ^ (8 * zlen b) * le_num c.
Proof.
  induction b as [|x b IH]; [cbn [app le_num]; change (zlen ([] : bytes)) with 0; lia|]. cbn [app le_num].
  rewrite IH, zlen_cons, (Z.mul_add_distr_l 8), Z.pow_add_r by (pose proof (zlen_nonneg b); lia).
  change (2 ^ (8 * 1)) with 256. lia.
Qed.

Lemma le_num_zeros n : le_num (replicate n 0) = 0.
Proof. induction n as [|n IH]; [done|]. cbn [replicate le_num]. lia. Qed.

Lemma length_le_bytes n x : length (le_bytes n x) = n.
Proof. revert x. induction n as [|n IH]; intros x; [done|]. simpl. by rewrite IH. Qed.

(** Taking the bytes of the number of some bytes returns them. *)
Lemma le_bytes_num b : bytes_ok b -> le_bytes (length b) (le_num b) = b.
Proof.
  induction 1 as [|x b Hx _ IH]; [done|]. cbn [length le_bytes le_num]. unfold byte_ok in Hx.
  rewrite (Z.mul_comm 256), Z.mod_add, Z.mod_small by lia. f_equal.
  rewrite Z.div_add, Z.div_small by lia. by rewrite Z.add_0_l.
Qed.

(** Four bytes combined by inclusive or, the way little-endian loads do it. *)
Lemma lor4_num b0 b1 b2 b3 :
  byte_ok b0 -> byte_ok b1 -> byte_ok b2 -> byte_ok b3 ->
  Z.lor (Z.lor (Z.lor b0 (u32 (Z.shiftl b1 8))) (u32 (Z.shiftl b2 16))) (u32 (Z.shiftl b3 24)) =
  le_num [b0; b1; b2; b3].
Proof.
  unfold byte_ok. intros H0 H1 H2 H3. rewrite !u32_small by (rewrite Z.shiftl_mul_pow2 by lia; lia).
  rewrite (Z.lor_comm b0), (lor_shiftl_low b1 8) by lia.
  rewrite (Z.lor_comm (b1 * 2 ^ 8 + b0)), (lor_shiftl_low b2 16) by lia.
  rewrite Z.lor_comm, lor_shiftl_low by lia. cbn [le_num]. lia.
Qed.

(** The first [n] little-endian words of some bytes. *)
Definition le_words (n : nat) (p : bytes) : list Z := map (fun i => le_num (take 4 (drop (4 * i) p))) (seq 0 n).

Lemma le_num_word p n : bytes_ok p -> word (le_num (take 4 (drop n p))).
Proof.
  intros Hp. pose proof (le_num_range (take 4 (drop n p)) ltac:(by apply Forall_take, Forall_drop)) as Hr.
  unfold word. split; [lia|]. eapply Z.lt_le_trans; [apply Hr|]. change 4294967296 with (2 ^ 32).
  apply Z.pow_le_mono_r; [lia|]. unfold zlen. rewrite length_take. lia.
Qed.

Lemma le_words_ok n p : bytes_ok p -> Forall word (le_words n p) /\ length (le_words n p) = n.
Proof.
  intros Hp. unfold le_words. split; [|by rewrite length_map, length_seq].
  apply Forall_map, Forall_forall. intros i _. by apply le_num_word.
Qed.
