(* ===== verification/AesSpec.v ===== *)
(** * AES: FIPS-197 as the reference for the table implementation

    The byte-level standard (arithmetic in GF(2^8), SubBytes, ShiftRows,
    MixColumns, the key expansion) and the theorems that relate [Aes] to it:
    every table entry, every round and every word of the key schedule. *)

From S2P Require Import Prelude Words Aes.

(** ** The field GF(2^8), modulo x^8 + x^4 + x^3 + x + 1 *)

Definition xtime (x : Z) : Z :=
  if Z.testbit x 7 then Z.shiftl x 1 ⊕ 0x11b else Z.shiftl x 1.

Fixpoint gmul_bits (n : nat) (c x : Z) : Z :=
  match n with
  | O => 0
  | S n' => (if Z.odd c then x else 0) ⊕ gmul_bits n' (Z.div2 c) (xtime x)
  end.

Definition gmul (c x : Z) : Z := gmul_bits 8 c x.

Definition gpow (x : Z) (n : nat) : Z := Nat.iter n (fun y => gmul y x) 1.

(** The multiplicative inverse, and 0 for 0. *)
Definition ginv (x : Z) : Z := gpow x 254.

Definition rotl8 (x k : Z) : Z := Z.land (Z.shiftl x k ⊕ Z.shiftr x (8 - k)) 255.

Definition sbox (x : Z) : Z :=
  let i := ginv x in i ⊕ rotl8 i 1 ⊕ rotl8 i 2 ⊕ rotl8 i 3 ⊕ rotl8 i 4 ⊕ 0x63.

Definition inv_sbox (y : Z) : Z := ginv (rotl8 y 1 ⊕ rotl8 y 3 ⊕ rotl8 y 6 ⊕ 0x05).

Lemma xtime_lxor a b : xtime (a ⊕ b) = xtime a ⊕ xtime b.
Proof.
  unfold xtime. rewrite Z.lxor_spec, Z.shiftl_lxor.
  destruct (Z.testbit a 7), (Z.testbit b 7); simpl xorb; cbv iota; xor_solve.
Qed.

Lemma gmul_lxor c a b : gmul c (a ⊕ b) = gmul c a ⊕ gmul c b.
Proof.
  unfold gmul. generalize 8%nat. intros n. revert c a b.
  induction n as [|n IH]; intros c a b; cbn [gmul_bits]; [done|].
  rewrite xtime_lxor, IH. destruct (Z.odd c); xor_solve.
Qed.

(** ** Facts checked on all 256 bytes *)

Lemma all_bytes (P : Z -> bool) :
  forallb P (map Z.of_nat (seq 0 256)) = true -> forall x, byte_ok x -> P x = true.
Proof.
  intros H x Hx. rewrite forallb_forall in H. apply H. apply in_map_iff.
  exists (Z.to_nat x). unfold byte_ok in Hx. split; [lia|]. apply in_seq. lia.
Qed.

Definition byte_okb (x : Z) : bool := (0 <=? x) && (x <? 256).

Lemma byte_okb_ok x : byte_okb x = true -> byte_ok x.
Proof. unfold byte_okb, byte_ok. lia. Qed.

(** The entries of the tables, as the comment above them describes them. *)
Definition table_entries (x : Z) : bool :=
  let s := sbox x in let i := inv_sbox x in
  (tbl Te0 x =? pack4 (gmul 2 s) s s (gmul 3 s)) &&
  (tbl Te1 x =? pack4 (gmul 3 s) (gmul 2 s) s s) &&
  (tbl Te2 x =? pack4 s (gmul 3 s) (gmul 2 s) s) &&
  (tbl Te3 x =? pack4 s s (gmul 3 s) (gmul 2 s)) &&
  (tbl Td0 x =? pack4 (gmul 14 i) (gmul 9 i) (gmul 13 i) (gmul 11 i)) &&
  (tbl Td1 x =? pack4 (gmul 11 i) (gmul 14 i) (gmul 9 i) (gmul 13 i)) &&
  (tbl Td2 x =? pack4 (gmul 13 i) (gmul 11 i) (gmul 14 i) (gmul 9 i)) &&
  (tbl Td3 x =? pack4 (gmul 9 i) (gmul 13 i) (gmul 11 i) (gmul 14 i)) &&
  (tbl Td4 x =? i).

Definition field_facts (x : Z) : bool :=
  byte_okb (sbox x) && byte_okb (inv_sbox x) && (inv_sbox (sbox x) =? x) &&
  forallb (fun c => byte_okb (gmul c x)) [2; 3; 9; 11; 13; 14] &&
  (gmul 14 (gmul 2 x) ⊕ gmul 11 x ⊕ gmul 13 x ⊕ gmul 9 (gmul 3 x) =? x) &&
  (gmul 14 (gmul 3 x) ⊕ gmul 11 (gmul 2 x) ⊕ gmul 13 x ⊕ gmul 9 x =? 0) &&
  (gmul 14 x ⊕ gmul 11 (gmul 3 x) ⊕ gmul 13 (gmul 2 x) ⊕ gmul 9 x =? 0) &&
  (gmul 14 x ⊕ gmul 11 x ⊕ gmul 13 (gmul 3 x) ⊕ gmul 9 (gmul 2 x) =? 0).

Lemma table_entries_checked x : byte_ok x -> table_entries x = true.
Proof. apply all_bytes. vm_compute. reflexivity. Qed.

Lemma field_facts_checked x : byte_ok x -> field_facts x = true.
Proof. apply all_bytes. vm_compute. reflexivity. Qed.

(** From here on the field operations are only used through the checked facts. *)
#[global] Opaque gmul sbox inv_sbox tbl pack4.

(** The conjuncts of a boolean conjunction in a hypothesis, as propositions. *)
Ltac split_andb H :=
  rewrite ?andb_true_iff in H; cbn [forallb] in H; rewrite ?andb_true_iff in H;
  rewrite ?Z.eqb_eq in H; decompose [and] H.

Section byte_facts.
Context (x : Z) (Hx : byte_ok x).

Lemma sbox_byte : byte_ok (sbox x).
Proof. pose proof (field_facts_checked x Hx) as H. unfold field_facts in H. split_andb H. by apply byte_okb_ok. Qed.

Lemma inv_sbox_byte : byte_ok (inv_sbox x).
Proof. pose proof (field_facts_checked x Hx) as H. unfold field_facts in H. split_andb H. by apply byte_okb_ok. Qed.

Lemma inv_sbox_sbox : inv_sbox (sbox x) = x.
Proof. pose proof (field_facts_checked x Hx) as H. unfold field_facts in H. split_andb H. split_and?; assumption. Qed.

Lemma gmul_byte c : c ∈ [2; 3; 9; 11; 13; 14] -> byte_ok (gmul c x).
Proof.
  intros Hc. pose proof (field_facts_checked x Hx) as H. unfold field_facts in H. split_andb H.
  apply byte_okb_ok. set_solver.
Qed.

Lemma mix_identities :
  gmul 14 (gmul 2 x) ⊕ gmul 11 x ⊕ gmul 13 x ⊕ gmul 9 (gmul 3 x) = x /\
  gmul 14 (gmul 3 x) ⊕ gmul 11 (gmul 2 x) ⊕ gmul 13 x ⊕ gmul 9 x = 0 /\
  gmul 14 x ⊕ gmul 11 (gmul 3 x) ⊕ gmul 13 (gmul 2 x) ⊕ gmul 9 x = 0 /\
  gmul 14 x ⊕ gmul 11 x ⊕ gmul 13 (gmul 3 x) ⊕ gmul 9 (gmul 2 x) = 0.
Proof. pose proof (field_facts_checked x Hx) as H. unfold field_facts in H. split_andb H. split_and?; assumption. Qed.

Lemma tables_of_byte :
  tbl Te0 x = pack4 (gmul 2 (sbox x)) (sbox x) (sbox x) (gmul 3 (sbox x)) /\
  tbl Te1 x = pack4 (gmul 3 (sbox x)) (gmul 2 (sbox x)) (sbox x) (sbox x) /\
  tbl Te2 x = pack4 (sbox x) (gmul 3 (sbox x)) (gmul 2 (sbox x)) (sbox x) /\
  tbl Te3 x = pack4 (sbox x) (sbox x) (gmul 3 (sbox x)) (gmul 2 (sbox x)) /\
  tbl Td0 x = pack4 (gmul 14 (inv_sbox x)) (gmul 9 (inv_sbox x)) (gmul 13 (inv_sbox x)) (gmul 11 (inv_sbox x)) /\
  tbl Td1 x = pack4 (gmul 11 (inv_sbox x)) (gmul 14 (inv_sbox x)) (gmul 9 (inv_sbox x)) (gmul 13 (inv_sbox x)) /\
  tbl Td2 x = pack4 (gmul 13 (inv_sbox x)) (gmul 11 (inv_sbox x)) (gmul 14 (inv_sbox x)) (gmul 9 (inv_sbox x)) /\
  tbl Td3 x = pack4 (gmul 9 (inv_sbox x)) (gmul 13 (inv_sbox x)) (gmul 11 (inv_sbox x)) (gmul 14 (inv_sbox x)) /\
  tbl Td4 x = inv_sbox x.
Proof.
  pose proof (table_entries_checked x Hx) as H. unfold table_entries in H. cbv zeta in H.
  split_andb H. split_and!; assumption.
Qed.
End byte_facts.

(** ** The state *)

Record column := Col { b0 : Z; b1 : Z; b2 : Z; b3 : Z }.
Record block := Block { k0 : column; k1 : column; k2 : column; k3 : column }.

Definition column_ok (c : column) : Prop := byte_ok (b0 c) /\ byte_ok (b1 c) /\ byte_ok (b2 c) /\ byte_ok (b3 c).
Definition block_ok (s : block) : Prop :=
  column_ok (k0 s) /\ column_ok (k1 s) /\ column_ok (k2 s) /\ column_ok (k3 s).

Definition to_word (c : column) : Z := pack4 (b0 c) (b1 c) (b2 c) (b3 c).
Definition of_word (w : Z) : column :=
  Col (Z.shiftr w 24) (Z.land (Z.shiftr w 16) 255) (Z.land (Z.shiftr w 8) 255) (Z.land w 255).

Definition words_of (s : block) : words4 :=
  Words4 (to_word (k0 s)) (to_word (k1 s)) (to_word (k2 s)) (to_word (k3 s)).

Definition map_col (f : Z -> Z) (c : column) : column := Col (f (b0 c)) (f (b1 c)) (f (b2 c)) (f (b3 c)).
Definition map_block (f : column -> column) (s : block) : block := Block (f (k0 s)) (f (k1 s)) (f (k2 s)) (f (k3 s)).

Definition xor_col (c d : column) : column := Col (b0 c ⊕ b0 d) (b1 c ⊕ b1 d) (b2 c ⊕ b2 d) (b3 c ⊕ b3 d).
Definition add_round_key (s k : block) : block :=
  Block (xor_col (k0 s) (k0 k)) (xor_col (k1 s) (k1 k)) (xor_col (k2 s) (k2 k)) (xor_col (k3 s) (k3 k)).

Definition sub_bytes : block -> block := map_block (map_col sbox).
Definition inv_sub_bytes : block -> block := map_block (map_col inv_sbox).

(** Row [r] moves [r] columns to the left, or back. *)
Definition shift_rows (s : block) : block :=
  let '(Block a b c d) := s in
  Block (Col (b0 a) (b1 b) (b2 c) (b3 d)) (Col (b0 b) (b1 c) (b2 d) (b3 a))
        (Col (b0 c) (b1 d) (b2 a) (b3 b)) (Col (b0 d) (b1 a) (b2 b) (b3 c)).

Definition inv_shift_rows (s : block) : block :=
  let '(Block a b c d) := s in
  Block (Col (b0 a) (b1 d) (b2 c) (b3 b)) (Col (b0 b) (b1 a) (b2 d) (b3 c))
        (Col (b0 c) (b1 b) (b2 a) (b3 d)) (Col (b0 d) (b1 c) (b2 b) (b3 a)).

(** The circulant matrix with first row [p q r s]. *)
Definition mat_col (p q r s : Z) (c : column) : column :=
  Col (gmul p (b0 c) ⊕ gmul q (b1 c) ⊕ gmul r (b2 c) ⊕ gmul s (b3 c))
      (gmul s (b0 c) ⊕ gmul p (b1 c) ⊕ gmul q (b2 c) ⊕ gmul r (b3 c))
      (gmul r (b0 c) ⊕ gmul s (b1 c) ⊕ gmul p (b2 c) ⊕ gmul q (b3 c))
      (gmul q (b0 c) ⊕ gmul r (b1 c) ⊕ gmul s (b2 c) ⊕ gmul p (b3 c)).

Definition mix_col (c : column) : column :=
  Col (gmul 2 (b0 c) ⊕ gmul 3 (b1 c) ⊕ b2 c ⊕ b3 c)
      (b0 c ⊕ gmul 2 (b1 c) ⊕ gmul 3 (b2 c) ⊕ b3 c)
      (b0 c ⊕ b1 c ⊕ gmul 2 (b2 c) ⊕ gmul 3 (b3 c))
      (gmul 3 (b0 c) ⊕ b1 c ⊕ b2 c ⊕ gmul 2 (b3 c)).

Definition inv_mix_col : column -> column := mat_col 14 11 13 9.

Definition mix_columns : block -> block := map_block mix_col.
Definition inv_mix_columns : block -> block := map_block inv_mix_col.

(** The state after the first key and [n] full rounds with the keys [ks]. *)
Fixpoint enc_state (ks : nat -> block) (s : block) (n : nat) : block :=
  match n with
  | O => add_round_key s (ks 0%nat)
  | S n' => add_round_key (mix_columns (shift_rows (sub_bytes (enc_state ks s n')))) (ks n)
  end.

Definition cipher (nr : nat) (ks : nat -> block) (s : block) : block :=
  add_round_key (shift_rows (sub_bytes (enc_state ks s (nr - 1)))) (ks nr).

(** The equivalent inverse cipher of the standard. *)
Fixpoint dec_state (ks : nat -> block) (s : block) (n : nat) : block :=
  match n with
  | O => add_round_key s (ks 0%nat)
  | S n' => add_round_key (inv_mix_columns (inv_sub_bytes (inv_shift_rows (dec_state ks s n')))) (ks n)
  end.

Definition inv_cipher (nr : nat) (ks : nat -> block) (s : block) : block :=
  add_round_key (inv_sub_bytes (inv_shift_rows (dec_state ks s (nr - 1)))) (ks nr).

(** ** Well-formedness *)

Create HintDb aes.
#[export] Hint Resolve byte_lxor sbox_byte inv_sbox_byte : aes.

Ltac solve_ok :=
  repeat match goal with
  | H : block_ok ?s |- _ => destruct H as (? & ? & ? & ?)
  | H : column_ok ?c |- _ => destruct H as (? & ? & ? & ?)
  end;
  unfold block_ok, column_ok in *; simpl; split_and!; eauto 8 with aes.

Lemma gmul_ok x : byte_ok x ->
  byte_ok (gmul 2 x) /\ byte_ok (gmul 3 x) /\ byte_ok (gmul 9 x) /\ byte_ok (gmul 11 x) /\
  byte_ok (gmul 13 x) /\ byte_ok (gmul 14 x).
Proof. intros Hx. split_and!; apply gmul_byte; set_solver. Qed.

Lemma xor_col_ok c d : column_ok c -> column_ok d -> column_ok (xor_col c d).
Proof. intros. solve_ok. Qed.

Lemma add_round_key_ok s k : block_ok s -> block_ok k -> block_ok (add_round_key s k).
Proof. intros. solve_ok. Qed.

Lemma sub_bytes_ok s : block_ok s -> block_ok (sub_bytes s).
Proof. intros. solve_ok. Qed.

Lemma inv_sub_bytes_ok s : block_ok s -> block_ok (inv_sub_bytes s).
Proof. intros. solve_ok. Qed.

Lemma shift_rows_ok s : block_ok s -> block_ok (shift_rows s).
Proof. intros. destruct s. solve_ok. Qed.

Lemma inv_shift_rows_ok s : block_ok s -> block_ok (inv_shift_rows s).
Proof. intros. destruct s. solve_ok. Qed.

Lemma mix_col_ok c : column_ok c -> column_ok (mix_col c).
Proof.
  intros (H0 & H1 & H2 & H3). apply gmul_ok in H0 as ?, H1 as ?, H2 as ?, H3 as ?.
  destruct_and!. solve_ok.
Qed.

Lemma inv_mix_col_ok c : column_ok c -> column_ok (inv_mix_col c).
Proof.
  intros (H0 & H1 & H2 & H3). apply gmul_ok in H0 as ?, H1 as ?, H2 as ?, H3 as ?.
  destruct_and!. solve_ok.
Qed.

Lemma map_block_ok f s : (forall c, column_ok c -> column_ok (f c)) -> block_ok s -> block_ok (map_block f s).
Proof. intros Hf (? & ? & ? & ?). split_and!; by apply Hf. Qed.

#[export] Hint Resolve xor_col_ok add_round_key_ok sub_bytes_ok inv_sub_bytes_ok shift_rows_ok inv_shift_rows_ok
  mix_col_ok inv_mix_col_ok map_block_ok : aes.

Lemma enc_state_ok ks s n : (forall r, block_ok (ks r)) -> block_ok s -> block_ok (enc_state ks s n).
Proof.
  intros Hk Hs. induction n as [|n IH]; cbn [enc_state]; apply add_round_key_ok; try done.
  apply map_block_ok; [apply mix_col_ok|]. by apply shift_rows_ok, sub_bytes_ok.
Qed.

(** ** Decryption undoes encryption, on the standard *)

(** Sixteen terms summed by rows and by columns, one column leaving [x]. *)
Lemma xor_columns a0 a1 a2 a3 c0 c1 c2 c3 d0 d1 d2 d3 e0 e1 e2 e3 p q r s :
  a0 ⊕ a1 ⊕ a2 ⊕ a3 = p -> c0 ⊕ c1 ⊕ c2 ⊕ c3 = q -> d0 ⊕ d1 ⊕ d2 ⊕ d3 = r -> e0 ⊕ e1 ⊕ e2 ⊕ e3 = s ->
  (a0 ⊕ c0 ⊕ d0 ⊕ e0) ⊕ (a1 ⊕ c1 ⊕ d1 ⊕ e1) ⊕ (a2 ⊕ c2 ⊕ d2 ⊕ e2) ⊕ (a3 ⊕ c3 ⊕ d3 ⊕ e3) = p ⊕ q ⊕ r ⊕ s.
Proof. intros <- <- <- <-. xor_solve. Qed.

Lemma xor_rotate a b c d e : b ⊕ c ⊕ d ⊕ a = e -> a ⊕ b ⊕ c ⊕ d = e.
Proof. intros <-. xor_solve. Qed.

Lemma inv_mix_mix c : column_ok c -> inv_mix_col (mix_col c) = c.
Proof.
  destruct c as [x0 x1 x2 x3]. intros (H0 & H1 & H2 & H3). cbn [b0 b1 b2 b3] in *.
  unfold inv_mix_col, mat_col, mix_col. cbn [b0 b1 b2 b3]. rewrite !gmul_lxor.
  destruct (mix_identities x0 H0) as (A0 & B0 & C0 & D0).
  destruct (mix_identities x1 H1) as (A1 & B1 & C1 & D1).
  destruct (mix_identities x2 H2) as (A2 & B2 & C2 & D2).
  destruct (mix_identities x3 H3) as (A3 & B3 & C3 & D3).
  f_equal.
  - erewrite xor_columns; [|exact A0|exact B1|exact C2|exact D3]. by rewrite !Z.lxor_0_r.
  - erewrite xor_columns; [|apply xor_rotate; exact D0|apply xor_rotate; exact A1|
      apply xor_rotate; exact B2|apply xor_rotate; exact C3]. by rewrite !Z.lxor_0_r.
  - erewrite xor_columns; [|do 2 apply xor_rotate; exact C0|do 2 apply xor_rotate; exact D1|
      do 2 apply xor_rotate; exact A2|do 2 apply xor_rotate; exact B3]. by rewrite !Z.lxor_0_r.
  - erewrite xor_columns; [|do 3 apply xor_rotate; exact B0|do 3 apply xor_rotate; exact C1|
      do 3 apply xor_rotate; exact D2|do 3 apply xor_rotate; exact A3]. by rewrite !Z.lxor_0_r.
Qed.

Definition sub_shift (s : block) : block := shift_rows (sub_bytes s).

Lemma inv_sub_shift s : block_ok s -> inv_sub_bytes (inv_shift_rows (sub_shift s)) = s.
Proof.
  destruct s as [[] [] [] []]. intros ((?&?&?&?) & (?&?&?&?) & (?&?&?&?) & (?&?&?&?)). simpl in *.
  unfold inv_sub_bytes, map_block, map_col. simpl. by rewrite !inv_sbox_sbox by done.
Qed.

Lemma xor_col_twice c d : xor_col (xor_col c d) d = c.
Proof. destruct c, d. unfold xor_col. simpl. f_equal; xor_solve. Qed.

Lemma add_round_key_twice s k : add_round_key (add_round_key s k) k = s.
Proof. destruct s, k. unfold add_round_key. simpl. by rewrite !xor_col_twice. Qed.

Lemma inv_mix_xor c d : inv_mix_col (xor_col c d) = xor_col (inv_mix_col c) (inv_mix_col d).
Proof.
  unfold inv_mix_col, mat_col, xor_col. cbn [b0 b1 b2 b3]. rewrite !gmul_lxor. f_equal; xor_solve.
Qed.

Lemma inv_mix_add s k :
  inv_mix_columns (add_round_key s k) = add_round_key (inv_mix_columns s) (inv_mix_columns k).
Proof. unfold inv_mix_columns, add_round_key, map_block. cbn [k0 k1 k2 k3]. by rewrite !inv_mix_xor. Qed.

Lemma inv_mix_mix_columns s : block_ok s -> inv_mix_columns (mix_columns s) = s.
Proof.
  destruct s. intros (? & ? & ? & ?). unfold inv_mix_columns, mix_columns, map_block. cbn [k0 k1 k2 k3] in *.
  by rewrite !inv_mix_mix.
Qed.

(** The keys of the equivalent inverse cipher. *)
Definition dec_keys (nr : nat) (ks : nat -> block) (r : nat) : block :=
  if (r =? 0)%nat || (r =? nr)%nat then ks (nr - r)%nat else inv_mix_columns (ks (nr - r)%nat).

Lemma dec_state_enc nr ks s n :
  (0 < nr)%nat -> (n < nr)%nat -> (forall r, block_ok (ks r)) -> block_ok s ->
  dec_state (dec_keys nr ks) (cipher nr ks s) n = sub_shift (enc_state ks s (nr - 1 - n)).
Proof.
  intros Hnr Hn Hk Hs. induction n as [|n IH].
  - cbn [dec_state]. unfold dec_keys. cbn [Nat.eqb orb]. rewrite !Nat.sub_0_r.
    unfold cipher. by rewrite add_round_key_twice.
  - cbn [dec_state]. rewrite IH by lia. rewrite inv_sub_shift by (by apply enc_state_ok).
    unfold dec_keys. replace ((S n =? 0)%nat || (S n =? nr)%nat) with false by
      (symmetry; apply orb_false_iff; split; [done|apply Nat.eqb_neq; lia]).
    rewrite <- inv_mix_add. replace (nr - 1 - n)%nat with (S (nr - 1 - S n)) by lia.
    cbn [enc_state]. replace (S (nr - 1 - S n)) with (nr - S n)%nat by lia.
    rewrite add_round_key_twice. unfold sub_shift. apply inv_mix_mix_columns.
    by apply shift_rows_ok, sub_bytes_ok, enc_state_ok.
Qed.

Lemma inv_cipher_cipher nr ks s :
  (0 < nr)%nat -> (forall r, block_ok (ks r)) -> block_ok s ->
  inv_cipher nr (dec_keys nr ks) (cipher nr ks s) = s.
Proof.
  intros Hnr Hk Hs. unfold inv_cipher. rewrite dec_state_enc by (done || lia).
  rewrite inv_sub_shift by (by apply enc_state_ok).
  replace (nr - 1 - (nr - 1))%nat with 0%nat by lia. cbn [enc_state].
  unfold dec_keys. rewrite Nat.eqb_refl, orb_true_r, Nat.sub_diag. by rewrite add_round_key_twice.
Qed.

(** ** The code against the standard: words and rounds *)

Lemma to_of_word w : word w -> to_word (of_word w) = w.
Proof. intros Hw. symmetry. by apply word_eta. Qed.

Lemma of_word_ok w : word w -> column_ok (of_word w).
Proof.
  intros (x0 & x1 & x2 & x3 & -> & ? & ? & ? & ?)%word_bytes. unfold of_word.
  rewrite pack4_byte0, pack4_byte1, pack4_byte2, pack4_byte3 by done. by split_and!.
Qed.

Lemma to_word_ok c : column_ok c -> word (to_word c).
Proof. intros (? & ? & ? & ?). unfold to_word. apply pack4_word; assumption. Qed.

Lemma of_to_word c : column_ok c -> of_word (to_word c) = c.
Proof.
  destruct c. intros (? & ? & ? & ?). unfold of_word, to_word. cbn [b0 b1 b2 b3] in *.
  by rewrite pack4_byte0, pack4_byte1, pack4_byte2, pack4_byte3.
Qed.

Ltac unpack_words :=
  unfold to_word; rewrite ?pack4_byte0, ?pack4_byte1, ?pack4_byte2, ?pack4_byte3 by assumption.

(** The bytes of four columns that a word of a round looks at. *)
Section round_words.
Context (a b c d : column) (k : Z).
Context (Ha : column_ok a) (Hb : column_ok b) (Hc : column_ok c) (Hd : column_ok d) (Hk : word k).

Lemma enc_word_spec :
  enc_word (to_word a) (to_word b) (to_word c) (to_word d) k =
    to_word (xor_col (mix_col (Col (sbox (b0 a)) (sbox (b1 b)) (sbox (b2 c)) (sbox (b3 d)))) (of_word k)).
Proof.
  destruct Ha as (?&?&?&?), Hb as (?&?&?&?), Hc as (?&?&?&?), Hd as (?&?&?&?).
  unfold enc_word. unpack_words.
  destruct (tables_of_byte (b0 a)) as (-> & _); [done|].
  destruct (tables_of_byte (b1 b)) as (_ & -> & _); [done|].
  destruct (tables_of_byte (b2 c)) as (_ & _ & -> & _); [done|].
  destruct (tables_of_byte (b3 d)) as (_ & _ & _ & -> & _); [done|].
  rewrite <- (to_of_word k) at 1 by done. unfold to_word. by rewrite !pack4_lxor.
Qed.

Lemma dec_word_spec :
  dec_word (to_word a) (to_word b) (to_word c) (to_word d) k =
    to_word (xor_col (inv_mix_col (Col (inv_sbox (b0 a)) (inv_sbox (b1 b)) (inv_sbox (b2 c)) (inv_sbox (b3 d))))
               (of_word k)).
Proof.
  destruct Ha as (?&?&?&?), Hb as (?&?&?&?), Hc as (?&?&?&?), Hd as (?&?&?&?).
  unfold dec_word. unpack_words.
  destruct (tables_of_byte (b0 a)) as (_ & _ & _ & _ & -> & _); [done|].
  destruct (tables_of_byte (b1 b)) as (_ & _ & _ & _ & _ & -> & _); [done|].
  destruct (tables_of_byte (b2 c)) as (_ & _ & _ & _ & _ & _ & -> & _); [done|].
  destruct (tables_of_byte (b3 d)) as (_ & _ & _ & _ & _ & _ & _ & -> & _); [done|].
  rewrite <- (to_of_word k) at 1 by done. unfold to_word. by rewrite !pack4_lxor.
Qed.

Lemma enc_last_word_spec :
  enc_last_word (to_word a) (to_word b) (to_word c) (to_word d) k =
    to_word (xor_col (Col (sbox (b0 a)) (sbox (b1 b)) (sbox (b2 c)) (sbox (b3 d))) (of_word k)).
Proof.
  destruct Ha as (?&?&?&?), Hb as (?&?&?&?), Hc as (?&?&?&?), Hd as (?&?&?&?).
  unfold enc_last_word. unpack_words.
  destruct (tables_of_byte (b0 a)) as (_ & _ & -> & _); [done|].
  destruct (tables_of_byte (b1 b)) as (_ & _ & _ & -> & _); [done|].
  destruct (tables_of_byte (b2 c)) as (-> & _); [done|].
  destruct (tables_of_byte (b3 d)) as (_ & -> & _); [done|].
  pose proof (gmul_ok (sbox (b0 a)) ltac:(by apply sbox_byte)).
  pose proof (gmul_ok (sbox (b1 b)) ltac:(by apply sbox_byte)).
  pose proof (gmul_ok (sbox (b2 c)) ltac:(by apply sbox_byte)).
  pose proof (gmul_ok (sbox (b3 d)) ltac:(by apply sbox_byte)). destruct_and!.
  change 0xff with 255. rewrite pack4_mask0, pack4_mask1, pack4_mask2, pack4_byte3 by auto with aes.
  rewrite <- (to_of_word k) at 1 by done. rewrite pack4_shifts. unfold to_word. by rewrite pack4_lxor.
Qed.

Lemma dec_last_word_spec :
  dec_last_word (to_word a) (to_word b) (to_word c) (to_word d) k =
    to_word (xor_col (Col (inv_sbox (b0 a)) (inv_sbox (b1 b)) (inv_sbox (b2 c)) (inv_sbox (b3 d))) (of_word k)).
Proof.
  destruct Ha as (?&?&?&?), Hb as (?&?&?&?), Hc as (?&?&?&?), Hd as (?&?&?&?).
  unfold dec_last_word. unpack_words.
  destruct (tables_of_byte (b0 a)) as (_ & _ & _ & _ & _ & _ & _ & _ & ->); [done|].
  destruct (tables_of_byte (b1 b)) as (_ & _ & _ & _ & _ & _ & _ & _ & ->); [done|].
  destruct (tables_of_byte (b2 c)) as (_ & _ & _ & _ & _ & _ & _ & _ & ->); [done|].
  destruct (tables_of_byte (b3 d)) as (_ & _ & _ & _ & _ & _ & _ & _ & ->); [done|].
  rewrite <- (to_of_word k) at 1 by done. rewrite pack4_shifts. unfold to_word. by rewrite pack4_lxor.
Qed.
End round_words.

(** ** Blocks and keys as the code holds them *)

Definition block_of_bytes (p : bytes) : block :=
  Block (Col (nth 0 p 0) (nth 1 p 0) (nth 2 p 0) (nth 3 p 0))
        (Col (nth 4 p 0) (nth 5 p 0) (nth 6 p 0) (nth 7 p 0))
        (Col (nth 8 p 0) (nth 9 p 0) (nth 10 p 0) (nth 11 p 0))
        (Col (nth 12 p 0) (nth 13 p 0) (nth 14 p 0) (nth 15 p 0)).

Definition bytes_of_column (c : column) : bytes := [b0 c; b1 c; b2 c; b3 c].
Definition bytes_of_block (s : block) : bytes :=
  bytes_of_column (k0 s) ++ bytes_of_column (k1 s) ++ bytes_of_column (k2 s) ++ bytes_of_column (k3 s).

(** The key of round [r] in a schedule of words. *)
Definition round_keys (rk : list Z) (r : nat) : block :=
  Block (of_word (rk_at rk (4 * r))) (of_word (rk_at rk (4 * r + 1)))
        (of_word (rk_at rk (4 * r + 2))) (of_word (rk_at rk (4 * r + 3))).

Definition schedule_ok (rk : list Z) : Prop := Forall word rk.

Lemma rk_at_word rk k : schedule_ok rk -> word (rk_at rk k).
Proof.
  intros Hrk. unfold rk_at. destruct (decide (k < length rk)%nat) as [Hlt|Hge].
  - eapply Forall_forall; [exact Hrk|]. apply list_elem_of_In. by apply nth_In.
  - rewrite nth_overflow by lia. unfold word. lia.
Qed.

Lemma round_keys_ok rk r : schedule_ok rk -> block_ok (round_keys rk r).
Proof. intros Hrk. split_and!; by apply of_word_ok, rk_at_word. Qed.

Lemma block_of_bytes_ok p : bytes_ok p -> block_ok (block_of_bytes p).
Proof. intros Hp. unfold block_ok, column_ok. cbn. split_and!; by apply nth_byte. Qed.

Lemma bytes_of_block_of_bytes p : length p = 16%nat -> bytes_of_block (block_of_bytes p) = p.
Proof. intros Hp. do 16 (destruct p as [|? p]; [done|]). by destruct p. Qed.

Lemma bytes_of_to_word c : column_ok c -> bytes_of_word (to_word c) = bytes_of_column c.
Proof. intros (? & ? & ? & ?). by apply bytes_of_pack4. Qed.

Lemma block_of_bytes_of_block s : block_of_bytes (bytes_of_block s) = s.
Proof. by destruct s as [[] [] [] []]. Qed.

Lemma bytes_of_block_ok s : block_ok s -> bytes_ok (bytes_of_block s).
Proof.
  intros ((?&?&?&?) & (?&?&?&?) & (?&?&?&?) & (?&?&?&?)).
  unfold bytes_ok, bytes_of_block, bytes_of_column. cbn [app].
  repeat (apply Forall_cons; split; [assumption|]). constructor.
Qed.

(** ** The code against the standard: blocks *)

Section rounds.
Context (rk : list Z) (Hrk : schedule_ok rk).
Implicit Types (s : block).

Lemma first_key_spec p :
  bytes_ok p -> first_key p rk = words_of (add_round_key (block_of_bytes p) (round_keys rk 0)).
Proof.
  intros Hp. unfold first_key, words_of, GETU32. cbn [Nat.add].
  assert (Hx : forall c k, word k -> to_word (xor_col c (of_word k)) = to_word c ⊕ k).
  { intros c k Hk. rewrite <- (to_of_word k) at 2 by done. unfold to_word. by rewrite pack4_lxor. }
  unfold add_round_key, round_keys. cbn [k0 k1 k2 k3]. rewrite !Hx by (by apply rk_at_word). reflexivity.
Qed.

Lemma enc_round_spec s r :
  block_ok s ->
  enc_round (words_of s) rk (4 * r) =
    words_of (add_round_key (mix_columns (shift_rows (sub_bytes s))) (round_keys rk r)).
Proof.
  destruct s. intros (? & ? & ? & ?). cbn [k0 k1 k2 k3] in *. unfold enc_round, words_of. cbn [s0 s1 s2 s3 k0 k1 k2 k3].
  by rewrite !enc_word_spec by (try apply rk_at_word; assumption).
Qed.

Lemma dec_round_spec s r :
  block_ok s ->
  dec_round (words_of s) rk (4 * r) =
    words_of (add_round_key (inv_mix_columns (inv_sub_bytes (inv_shift_rows s))) (round_keys rk r)).
Proof.
  destruct s. intros (? & ? & ? & ?). cbn [k0 k1 k2 k3] in *. unfold dec_round, words_of. cbn [s0 s1 s2 s3 k0 k1 k2 k3].
  by rewrite !dec_word_spec by (try apply rk_at_word; assumption).
Qed.

Lemma enc_last_spec s r :
  block_ok s ->
  enc_last (words_of s) rk (4 * r) =
    bytes_of_block (add_round_key (shift_rows (sub_bytes s)) (round_keys rk r)).
Proof.
  intros Hs. pose proof (add_round_key_ok (shift_rows (sub_bytes s)) (round_keys rk r)
    (shift_rows_ok _ (sub_bytes_ok _ Hs)) (round_keys_ok rk r Hrk)) as (Hc0 & Hc1 & Hc2 & Hc3).
  destruct s. destruct Hs as (? & ? & ? & ?). cbn [k0 k1 k2 k3] in *.
  unfold enc_last, words_of. cbn [s0 s1 s2 s3 k0 k1 k2 k3].
  rewrite !enc_last_word_spec by (try apply rk_at_word; assumption).
  by rewrite !bytes_of_to_word by assumption.
Qed.

Lemma dec_last_spec s r :
  block_ok s ->
  dec_last (words_of s) rk (4 * r) =
    bytes_of_block (add_round_key (inv_sub_bytes (inv_shift_rows s)) (round_keys rk r)).
Proof.
  intros Hs. pose proof (add_round_key_ok (inv_sub_bytes (inv_shift_rows s)) (round_keys rk r)
    (inv_sub_bytes_ok _ (inv_shift_rows_ok _ Hs)) (round_keys_ok rk r Hrk)) as (Hc0 & Hc1 & Hc2 & Hc3).
  destruct s. destruct Hs as (? & ? & ? & ?). cbn [k0 k1 k2 k3] in *.
  unfold dec_last, words_of. cbn [s0 s1 s2 s3 k0 k1 k2 k3].
  rewrite !dec_last_word_spec by (try apply rk_at_word; assumption).
  by rewrite !bytes_of_to_word by assumption.
Qed.

(** The loops, from [m + 1] turns before the end. *)
Lemma enc_loop_spec s m n :
  block_ok s ->
  enc_loop (S m) (4 * n) rk (words_of (enc_state (round_keys rk) s n)) =
    Done (words_of (enc_state (round_keys rk) s (n + 2 * m + 1)), (4 * (n + 2 * m + 2))%nat).
Proof.
  intros Hs. revert n. induction m as [|m IH]; intros n.
  - cbn [enc_loop]. replace (4 * n + 4)%nat with (4 * S n)%nat by lia.
    rewrite enc_round_spec by (by apply enc_state_ok; [intros; apply round_keys_ok|]).
    change (add_round_key _ _) with (enc_state (round_keys rk) s (S n)). do 3 f_equal; [f_equal|]; lia.
  - cbn [enc_loop]. replace (4 * n + 4)%nat with (4 * S n)%nat by lia.
    rewrite enc_round_spec by (by apply enc_state_ok; [intros; apply round_keys_ok|]).
    change (add_round_key _ _) with (enc_state (round_keys rk) s (S n)).
    replace (4 * n + 8)%nat with (4 * S (S n))%nat by lia.
    rewrite enc_round_spec by (by apply enc_state_ok; [intros; apply round_keys_ok|]).
    change (add_round_key _ _) with (enc_state (round_keys rk) s (S (S n))).
    specialize (IH (S (S n))). cbn [enc_loop] in IH. rewrite IH. do 3 f_equal; [f_equal|]; lia.
Qed.

Lemma dec_state_ok s n : block_ok s -> block_ok (dec_state (round_keys rk) s n).
Proof.
  intros Hs. induction n as [|n IH]; cbn [dec_state]; apply add_round_key_ok; try done; try by apply round_keys_ok.
  apply map_block_ok; [apply inv_mix_col_ok|]. by apply inv_sub_bytes_ok, inv_shift_rows_ok.
Qed.

Lemma dec_loop_spec s m n :
  block_ok s ->
  dec_loop (S m) (4 * n) rk (words_of (dec_state (round_keys rk) s n)) =
    Done (words_of (dec_state (round_keys rk) s (n + 2 * m + 1)), (4 * (n + 2 * m + 2))%nat).
Proof.
  intros Hs. revert n. induction m as [|m IH]; intros n.
  - cbn [dec_loop]. replace (4 * n + 4)%nat with (4 * S n)%nat by lia.
    rewrite dec_round_spec by (by apply dec_state_ok).
    change (add_round_key _ _) with (dec_state (round_keys rk) s (S n)). do 3 f_equal; [f_equal|]; lia.
  - cbn [dec_loop]. replace (4 * n + 4)%nat with (4 * S n)%nat by lia.
    rewrite dec_round_spec by (by apply dec_state_ok).
    change (add_round_key _ _) with (dec_state (round_keys rk) s (S n)).
    replace (4 * n + 8)%nat with (4 * S (S n))%nat by lia.
    rewrite dec_round_spec by (by apply dec_state_ok).
    change (add_round_key _ _) with (dec_state (round_keys rk) s (S (S n))).
    specialize (IH (S (S n))). cbn [dec_loop] in IH. rewrite IH. do 3 f_equal; [f_equal|]; lia.
Qed.

Lemma AES_encrypt_cipher nr p :
  (nr = 10 \/ nr = 12 \/ nr = 14)%nat -> bytes_ok p ->
  AES_encrypt p (AesKey rk (Z.of_nat nr)) =
    Done (bytes_of_block (cipher nr (round_keys rk) (block_of_bytes p))).
Proof.
  intros Hnr Hp. pose proof (block_of_bytes_ok p Hp) as Hs. unfold AES_encrypt. cbn [rd_key rounds].
  assert (exists m, Z.to_nat (Z.shiftr (Z.of_nat nr) 1) = S m /\ nr = (2 * m + 2)%nat) as (m & -> & ->).
  { destruct Hnr as [->|[->| ->]]; [exists 4%nat|exists 5%nat|exists 6%nat]; done. }
  rewrite first_key_spec by done.
  change (words_of (add_round_key _ _)) with (words_of (enc_state (round_keys rk) (block_of_bytes p) 0)).
  change 0%nat with (4 * 0)%nat at 1. rewrite enc_loop_spec by done. unfold mbind, outcome_bind. cbv beta iota.
  rewrite enc_last_spec by (by apply enc_state_ok; [intros; apply round_keys_ok|]).
  unfold cipher. do 6 f_equal; lia.
Qed.

Lemma AES_decrypt_inv_cipher nr p :
  (nr = 10 \/ nr = 12 \/ nr = 14)%nat -> bytes_ok p ->
  AES_decrypt p (AesKey rk (Z.of_nat nr)) =
    Done (bytes_of_block (inv_cipher nr (round_keys rk) (block_of_bytes p))).
Proof.
  intros Hnr Hp. pose proof (block_of_bytes_ok p Hp) as Hs. unfold AES_decrypt. cbn [rd_key rounds].
  assert (exists m, Z.to_nat (Z.shiftr (Z.of_nat nr) 1) = S m /\ nr = (2 * m + 2)%nat) as (m & -> & ->).
  { destruct Hnr as [->|[->| ->]]; [exists 4%nat|exists 5%nat|exists 6%nat]; done. }
  rewrite first_key_spec by done.
  change (words_of (add_round_key _ _)) with (words_of (dec_state (round_keys rk) (block_of_bytes p) 0)).
  change 0%nat with (4 * 0)%nat at 1. rewrite dec_loop_spec by done. unfold mbind, outcome_bind. cbv beta iota.
  rewrite dec_last_spec by (by apply dec_state_ok).
  unfold inv_cipher. do 6 f_equal; lia.
Qed.

Lemma unrolled_spec s n r :
  block_ok s -> (0 < r)%nat ->
  unrolled n r rk (words_of (enc_state (round_keys rk) s (r - 1))) =
    words_of (enc_state (round_keys rk) s (r + n - 1)).
Proof.
  intros Hs. revert r. induction n as [|n IH]; intros r Hr; cbn [unrolled]; [do 2 f_equal; lia|].
  rewrite enc_round_spec by (by apply enc_state_ok; [intros; apply round_keys_ok|]).
  replace (add_round_key _ _) with (enc_state (round_keys rk) s (S r - 1)).
  - rewrite IH by lia. do 2 f_equal. lia.
  - destruct r as [|r]; [lia|]. cbn [Nat.sub enc_state]. by rewrite Nat.sub_0_r.
Qed.
End rounds.

(** ** The key expansion *)

Definition word_sub (w : Z) : Z := to_word (map_col sbox (of_word w)).
Definition word_rot (w : Z) : Z :=
  let c := of_word w in to_word (Col (b1 c) (b2 c) (b3 c) (b0 c)).
Definition round_constant (j : nat) : Z := pack4 (gpow 2 (j - 1)) 0 0 0.

(** The word after [ws], for a key of [nk] words. *)
Definition next_word (nk : nat) (ws : list Z) : Z :=
  let i := length ws in
  let temp := rk_at ws (i - 1) in
  rk_at ws (i - nk) ⊕
    (if (i mod nk =? 0)%nat then word_sub (word_rot temp) ⊕ round_constant (i / nk)
     else if ((6 <? nk) && (i mod nk =? 4))%nat then word_sub temp
     else temp).

Fixpoint expand_key (nk n : nat) (ws : list Z) : list Z :=
  match n with
  | O => ws
  | S n' => expand_key nk n' (ws ++ [next_word nk ws])
  end.

Lemma rcon_constants i : (i < 10)%nat -> rk_at rcon i = round_constant (S i).
Proof. intros Hi. do 10 (destruct i as [|i]; [vm_compute; reflexivity|]). lia. Qed.

Lemma round_constant_word j : (1 <= j <= 10)%nat -> word (round_constant j).
Proof.
  intros Hj. destruct j as [|j]; [lia|]. do 10 (destruct j as [|j]; [vm_compute; split; congruence|]). lia.
Qed.

Lemma sub_word_spec w : word w -> sub_word w = word_sub w.
Proof.
  intros Hw. rewrite <- (to_of_word w Hw) at 1. pose proof (of_word_ok w Hw) as Hc.
  unfold word_sub. generalize dependent (of_word w). clear w Hw. intros c Hc.
  pose proof (enc_last_word_spec c c c c 0 Hc Hc Hc Hc ltac:(unfold word; lia)) as H.
  unfold enc_last_word in H. rewrite Z.lxor_0_r in H. unfold sub_word. rewrite H.
  unfold xor_col. by rewrite !Z.lxor_0_r.
Qed.

Lemma sub_rot_spec w : word w -> sub_rot w = word_sub (word_rot w).
Proof.
  intros Hw. pose proof (of_word_ok w Hw) as Hc. unfold word_rot. destruct (of_word w) as [x0 x1 x2 x3] eqn:E.
  assert (Hr : column_ok (Col x1 x2 x3 x0)) by (destruct Hc as (?&?&?&?); by split_and!).
  rewrite <- sub_word_spec by (by apply to_word_ok). rewrite <- (to_of_word w Hw), E.
  destruct Hc as (?&?&?&?), Hr as (?&?&?&?). cbn [b0 b1 b2 b3] in *.
  unfold sub_rot, sub_word, to_word. cbn [b0 b1 b2 b3].
  by rewrite !pack4_byte0, !pack4_byte1, !pack4_byte2, !pack4_byte3 by assumption.
Qed.

Lemma word_sub_word w : word w -> word (word_sub w).
Proof.
  intros (? & ? & ? & ?)%of_word_ok. apply to_word_ok. unfold map_col. by split_and!; apply sbox_byte.
Qed.

Lemma word_rot_word w : word w -> word (word_rot w).
Proof. intros (? & ? & ? & ?)%of_word_ok. apply to_word_ok. by split_and!. Qed.

Lemma next_word_word nk ws :
  schedule_ok ws -> (0 < nk)%nat -> (nk <= length ws < 11 * nk)%nat -> word (next_word nk ws).
Proof.
  intros Hws Hnk Hlen. unfold next_word. apply word_lxor; [by apply rk_at_word|].
  pose proof (rk_at_word ws (length ws - 1) Hws) as Hw.
  destruct (_ =? 0)%nat.
  - apply word_lxor; [by apply word_sub_word, word_rot_word|]. apply round_constant_word.
    split; [apply Nat.div_le_lower_bound; lia|].
    assert (length ws / nk < 11)%nat by (apply Nat.Div0.div_lt_upper_bound; lia). lia.
  - destruct (_ && _); [by apply word_sub_word|done].
Qed.

Lemma expand_key_ok nk n ws :
  schedule_ok ws -> (0 < nk)%nat -> (nk <= length ws)%nat -> (length ws + n <= 11 * nk)%nat ->
  schedule_ok (expand_key nk n ws).
Proof.
  revert ws. induction n as [|n IH]; intros ws Hws Hnk Hlo Hhi; cbn [expand_key]; [done|].
  apply IH; rewrite ?length_app; simpl; try lia.
  apply Forall_app. split; [done|]. constructor; [|done]. apply next_word_word; [done|lia|lia].
Qed.

Lemma expand_key_length nk n ws : length (expand_key nk n ws) = (length ws + n)%nat.
Proof.
  revert ws. induction n as [|n IH]; intros ws; cbn [expand_key]; [lia|].
  rewrite IH, length_app. simpl. lia.
Qed.

(** An assignment of the code is the next word, whatever its place [r] in the turn. *)
Lemma push_next nk q r rk k last x :
  length rk = (nk * q + r)%nat -> (r < nk)%nat -> (k + nk = length rk)%nat -> S last = length rk ->
  x = (if (r =? 0)%nat then word_sub (word_rot (rk_at rk last)) ⊕ round_constant q
       else if ((6 <? nk) && (r =? 4))%nat then word_sub (rk_at rk last)
       else rk_at rk last) ->
  push rk k x = rk ++ [next_word nk rk].
Proof.
  intros Hlen Hr Hk Hlast ->. unfold push, next_word.
  assert (Hmod : (length rk mod nk = r)%nat) by (symmetry; eapply Nat.mod_unique; [done|exact Hlen]).
  assert (Hdiv : (length rk / nk = q)%nat) by (symmetry; eapply Nat.div_unique; [exact Hr|exact Hlen]).
  rewrite Hmod, Hdiv. replace (length rk - 1)%nat with last by lia.
  by replace (length rk - nk)%nat with k by lia.
Qed.

Lemma schedule_snoc nk rk :
  schedule_ok rk -> (0 < nk)%nat -> (nk <= length rk < 11 * nk)%nat -> schedule_ok (rk ++ [next_word nk rk]).
Proof. intros Hrk Hnk Hl. apply Forall_app. split; [done|]. constructor; [by apply next_word_word|done]. Qed.

Lemma expand_key_add nk n m ws : expand_key nk (n + m) ws = expand_key nk m (expand_key nk n ws).
Proof. revert ws. induction n as [|n IH]; intros ws; cbn [expand_key Nat.add]; [done|apply IH]. Qed.

(** Replaces the assignment made on [rk] by the next word and names the result [rk']. *)
Ltac grow rk rk' nk q r last :=
  rewrite (push_next nk q r rk _ last) by (done || lia);
  set (rk' := rk ++ [next_word nk rk]);
  assert (length rk' = S (length rk)) by (unfold rk'; rewrite length_app; simpl; lia);
  assert (schedule_ok rk') by (apply schedule_snoc; [assumption|lia|lia]).

(** One turn of each expansion loop. *)
Lemma expand_128_turn fuel i rk :
  (i < 10)%nat -> length rk = (4 * i + 4)%nat -> schedule_ok rk ->
  expand_128 (S fuel) i (4 * i) rk =
    if (S i =? 10)%nat then expand_key 4 4 rk else expand_128 fuel (S i) (4 * S i) (expand_key 4 4 rk).
Proof.
  intros Hi Hlen Hok. cbn [expand_128]. cbv zeta.
  rewrite sub_rot_spec by (by apply rk_at_word). rewrite rcon_constants by lia.
  grow rk rk1 4%nat (S i) 0%nat (4 * i + 3)%nat. grow rk1 rk2 4%nat (S i) 1%nat (4 * i + 4)%nat.
  grow rk2 rk3 4%nat (S i) 2%nat (4 * i + 5)%nat. grow rk3 rk4 4%nat (S i) 3%nat (4 * i + 6)%nat.
  replace (4 * i + 4)%nat with (4 * S i)%nat by lia. reflexivity.
Qed.

Lemma expand_192_turn fuel i rk :
  (i < 8)%nat -> length rk = (6 * i + 6)%nat -> schedule_ok rk ->
  expand_192 (S fuel) i (6 * i) rk =
    if (S i =? 8)%nat then expand_key 6 4 rk else expand_192 fuel (S i) (6 * S i) (expand_key 6 6 rk).
Proof.
  intros Hi Hlen Hok. cbn [expand_192]. cbv zeta.
  rewrite sub_rot_spec by (by apply rk_at_word). rewrite rcon_constants by lia.
  grow rk rk1 6%nat (S i) 0%nat (6 * i + 5)%nat. grow rk1 rk2 6%nat (S i) 1%nat (6 * i + 6)%nat.
  grow rk2 rk3 6%nat (S i) 2%nat (6 * i + 7)%nat. grow rk3 rk4 6%nat (S i) 3%nat (6 * i + 8)%nat.
  destruct (S i =? 8)%nat; [reflexivity|].
  grow rk4 rk5 6%nat (S i) 4%nat (6 * i + 9)%nat. grow rk5 rk6 6%nat (S i) 5%nat (6 * i + 10)%nat.
  replace (6 * i + 6)%nat with (6 * S i)%nat by lia. reflexivity.
Qed.

Lemma expand_256_turn fuel i rk :
  (i < 7)%nat -> length rk = (8 * i + 8)%nat -> schedule_ok rk ->
  expand_256 (S fuel) i (8 * i) rk =
    if (S i =? 7)%nat then expand_key 8 4 rk else expand_256 fuel (S i) (8 * S i) (expand_key 8 8 rk).
Proof.
  intros Hi Hlen Hok. cbn [expand_256]. cbv zeta.
  rewrite sub_rot_spec by (by apply rk_at_word). rewrite rcon_constants by lia.
  grow rk rk1 8%nat (S i) 0%nat (8 * i + 7)%nat. grow rk1 rk2 8%nat (S i) 1%nat (8 * i + 8)%nat.
  grow rk2 rk3 8%nat (S i) 2%nat (8 * i + 9)%nat. grow rk3 rk4 8%nat (S i) 3%nat (8 * i + 10)%nat.
  destruct (Nat.eqb_spec (S i) 7) as [|Hne]; [reflexivity|].
  rewrite sub_word_spec by (by apply rk_at_word).
  grow rk4 rk5 8%nat (S i) 4%nat (8 * i + 11)%nat. grow rk5 rk6 8%nat (S i) 5%nat (8 * i + 12)%nat.
  grow rk6 rk7 8%nat (S i) 6%nat (8 * i + 13)%nat. grow rk7 rk8 8%nat (S i) 7%nat (8 * i + 14)%nat.
  replace (8 * i + 8)%nat with (8 * S i)%nat by lia. reflexivity.
Qed.

Lemma expand_128_spec fuel i rk :
  (i + S fuel = 10)%nat -> length rk = (4 * i + 4)%nat -> schedule_ok rk ->
  expand_128 (S fuel) i (4 * i) rk = expand_key 4 (4 * fuel + 4) rk.
Proof.
  revert i rk. induction fuel as [|fuel IH]; intros i rk Hi Hlen Hok; rewrite expand_128_turn by (done || lia).
  - by rewrite (proj2 (Nat.eqb_eq _ _)) by lia.
  - rewrite (proj2 (Nat.eqb_neq _ _)) by lia. rewrite IH; [|lia|rewrite expand_key_length; lia|apply expand_key_ok; (done || lia)].
    rewrite <- expand_key_add. f_equal. lia.
Qed.

Lemma expand_192_spec fuel i rk :
  (i + S fuel = 8)%nat -> length rk = (6 * i + 6)%nat -> schedule_ok rk ->
  expand_192 (S fuel) i (6 * i) rk = expand_key 6 (6 * fuel + 4) rk.
Proof.
  revert i rk. induction fuel as [|fuel IH]; intros i rk Hi Hlen Hok; rewrite expand_192_turn by (done || lia).
  - by rewrite (proj2 (Nat.eqb_eq _ _)) by lia.
  - rewrite (proj2 (Nat.eqb_neq _ _)) by lia. rewrite IH; [|lia|rewrite expand_key_length; lia|apply expand_key_ok; (done || lia)].
    rewrite <- expand_key_add. f_equal. lia.
Qed.

Lemma expand_256_spec fuel i rk :
  (i + S fuel = 7)%nat -> length rk = (8 * i + 8)%nat -> schedule_ok rk ->
  expand_256 (S fuel) i (8 * i) rk = expand_key 8 (8 * fuel + 4) rk.
Proof.
  revert i rk. induction fuel as [|fuel IH]; intros i rk Hi Hlen Hok; rewrite expand_256_turn by (done || lia).
  - by rewrite (proj2 (Nat.eqb_eq _ _)) by lia.
  - rewrite (proj2 (Nat.eqb_neq _ _)) by lia. rewrite IH; [|lia|rewrite expand_key_length; lia|apply expand_key_ok; (done || lia)].
    rewrite <- expand_key_add. f_equal. lia.
Qed.

(** ** The schedules *)

(** The words of a key of [nk] words, and the standard's schedule for it. *)
Definition key_words (nk : nat) (userKey : bytes) : list Z := load_words nk 0 userKey.

Definition schedule (nk nr : nat) (userKey : bytes) : list Z :=
  expand_key nk (4 * (nr + 1) - nk) (key_words nk userKey).

(** The key lengths of the standard: bits, words and rounds. *)
Definition key_size (bits : Z) (nk nr : nat) : Prop :=
  (bits = 128 /\ nk = 4%nat /\ nr = 10%nat) \/ (bits = 192 /\ nk = 6%nat /\ nr = 12%nat) \/
  (bits = 256 /\ nk = 8%nat /\ nr = 14%nat).

Lemma load_words_ok n off userKey : bytes_ok userKey -> schedule_ok (load_words n off userKey).
Proof.
  intros Hk. revert off. induction n as [|n IH]; intros off; cbn [load_words]; constructor; [|apply IH].
  unfold GETU32. apply pack4_word; by apply nth_byte.
Qed.

Lemma load_words_length n off userKey : length (load_words n off userKey) = n.
Proof. revert off. induction n as [|n IH]; intros off; simpl; [done|]. by rewrite IH. Qed.

Lemma schedule_words bits nk nr userKey :
  key_size bits nk nr -> bytes_ok userKey ->
  schedule_ok (schedule nk nr userKey) /\ length (schedule nk nr userKey) = (4 * (nr + 1))%nat.
Proof.
  intros Hsize Hk. unfold schedule, key_words. rewrite expand_key_length, load_words_length.
  destruct Hsize as [(_ & -> & ->)|[(_ & -> & ->)|(_ & -> & ->)]];
    (split; [apply expand_key_ok; [by apply load_words_ok|..]; rewrite ?load_words_length; lia|lia]).
Qed.

Lemma set_encrypt_key_schedule bits nk nr userKey key :
  key_size bits nk nr -> bytes_ok userKey ->
  AES_set_encrypt_key (Some userKey) bits (Some key) =
    (0, Some (AesKey (schedule nk nr userKey) (Z.of_nat nr))).
Proof.
  intros Hsize Hk. unfold AES_set_encrypt_key, schedule, key_words.
  pose proof (load_words_ok nk 0 userKey Hk). pose proof (load_words_length nk 0 userKey).
  destruct Hsize as [(-> & -> & ->)|[(-> & -> & ->)|(-> & -> & ->)]]; simpl negb; cbv iota; cbn [andb].
  - by rewrite (expand_128_spec 9 0) by done.
  - by rewrite (expand_192_spec 7 0) by done.
  - by rewrite (expand_256_spec 6 0) by done.
Qed.

Lemma inv_mix_word_spec w : word w -> inv_mix_word w = to_word (inv_mix_col (of_word w)).
Proof.
  intros Hw. pose proof (of_word_ok w Hw) as Hc. rewrite <- (to_of_word w Hw) at 1.
  generalize dependent (of_word w). clear w Hw. intros [x0 x1 x2 x3] (? & ? & ? & ?).
  cbn [b0 b1 b2 b3] in *. unfold inv_mix_word, to_word. cbn [b0 b1 b2 b3].
  rewrite pack4_byte0, pack4_byte1, pack4_byte2, pack4_byte3 by assumption.
  assert (Hlow : forall x, byte_ok x -> Z.land (tbl Te1 x) 0xff = sbox x).
  { intros x Hx. destruct (tables_of_byte x Hx) as (_ & -> & _). change 0xff with 255.
    pose proof (gmul_ok (sbox x) (sbox_byte x Hx)). destruct_and!.
    apply pack4_byte3; auto using sbox_byte. }
  rewrite !Hlow by done.
  destruct (tables_of_byte (sbox x0)) as (_ & _ & _ & _ & -> & _); [auto using sbox_byte|].
  destruct (tables_of_byte (sbox x1)) as (_ & _ & _ & _ & _ & -> & _); [auto using sbox_byte|].
  destruct (tables_of_byte (sbox x2)) as (_ & _ & _ & _ & _ & _ & -> & _); [auto using sbox_byte|].
  destruct (tables_of_byte (sbox x3)) as (_ & _ & _ & _ & _ & _ & _ & -> & _); [auto using sbox_byte|].
  rewrite !inv_sbox_sbox by done. by rewrite !pack4_lxor.
Qed.

(** The [k]-th word of the decryption schedule, from those of the other. *)
Definition dec_schedule_word (nr : nat) (f : nat -> Z) (k : nat) : Z :=
  let r := (k / 4)%nat in
  let w := f (4 * (nr - r) + k mod 4)%nat in
  if ((r =? 0) || (r =? nr))%nat then w else inv_mix_word w.

Lemma decrypt_schedule nr f :
  (nr = 10 \/ nr = 12 \/ nr = 14)%nat ->
  let rk := map f (seq 0 (4 * (nr + 1))) in
  inv_mix_keys (nr - 1) 0 (invert_order nr 0 (4 * nr) rk) =
    map (dec_schedule_word nr f) (seq 0 (4 * (nr + 1))).
Proof. intros [->|[->| ->]]; lazy -[inv_mix_word]; reflexivity. Qed.

Lemma rk_at_map f n k : (k < n)%nat -> rk_at (map f (seq 0 n)) k = f k.
Proof.
  intros Hk. unfold rk_at. rewrite (nth_indep _ 0 (f 0%nat)) by (by rewrite length_map, length_seq).
  rewrite map_nth, seq_nth by done. done.
Qed.

Lemma map_rk_at rk n : length rk = n -> map (rk_at rk) (seq 0 n) = rk.
Proof.
  intros <-. apply (nth_ext _ _ 0 0); [by rewrite length_map, length_seq|].
  intros k Hk. rewrite length_map, length_seq in Hk. by apply (rk_at_map (rk_at rk)).
Qed.

Lemma dec_schedule_keys nr rk r :
  (0 < nr)%nat -> (r <= nr)%nat -> schedule_ok rk ->
  round_keys (map (dec_schedule_word nr (rk_at rk)) (seq 0 (4 * (nr + 1)))) r =
    dec_keys nr (round_keys rk) r.
Proof.
  intros Hnr Hr Hrk. unfold round_keys. rewrite !rk_at_map by lia. unfold dec_schedule_word.
  assert (Hdm : forall j, (j < 4)%nat -> ((4 * r + j) / 4 = r /\ (4 * r + j) mod 4 = j)%nat).
  { intros j Hj. split; [symmetry; eapply Nat.div_unique; [exact Hj|lia]|symmetry; apply (Nat.mod_unique _ _ r); [exact Hj|lia]]. }
  destruct (Hdm 0%nat) as [Hd0 Hm0]; [lia|]. rewrite Nat.add_0_r in Hd0, Hm0. rewrite Hd0, Hm0.
  destruct (Hdm 1%nat) as [-> ->]; [lia|]. destruct (Hdm 2%nat) as [-> ->]; [lia|].
  destruct (Hdm 3%nat) as [-> ->]; [lia|]. unfold dec_keys, round_keys. rewrite Nat.add_0_r.
  destruct ((r =? 0) || (r =? nr))%nat; [done|].
  unfold inv_mix_columns, map_block. cbn [k0 k1 k2 k3].
  rewrite !inv_mix_word_spec by (by apply rk_at_word).
  rewrite !of_to_word by (by apply inv_mix_col_ok, of_word_ok, rk_at_word). done.
Qed.

Lemma inv_cipher_ext nr ks1 ks2 s :
  (forall r, (r <= nr)%nat -> ks1 r = ks2 r) -> inv_cipher nr ks1 s = inv_cipher nr ks2 s.
Proof.
  intros Hks. unfold inv_cipher.
  assert (Hst : forall n, (n <= nr)%nat -> dec_state ks1 s n = dec_state ks2 s n).
  { intros n. induction n as [|n IH]; intros Hn; cbn [dec_state]; rewrite (Hks _ Hn); [done|]. by rewrite IH by lia. }
  rewrite Hks by lia. by rewrite Hst by lia.
Qed.

Lemma dec_schedule_ok nr rk :
  schedule_ok rk -> schedule_ok (map (dec_schedule_word nr (rk_at rk)) (seq 0 (4 * (nr + 1)))).
Proof.
  intros Hrk. apply Forall_map, Forall_forall. intros k _. unfold dec_schedule_word.
  pose proof (fun j => rk_at_word rk j Hrk) as Hw. destruct (_ || _); [apply Hw|].
  rewrite inv_mix_word_spec by apply Hw. by apply to_word_ok, inv_mix_col_ok, of_word_ok.
Qed.

(** ** The theorems *)

(** The lookup tables are what the comment above them says: for every byte x,
    Te0[x] to Te3[x] are the S-box value multiplied by the columns of the
    MixColumns matrix, Td0[x] to Td3[x] the inverse S-box value multiplied by
    those of its inverse, and Td4[x] the inverse S-box value, where the S-box is
    computed from inversion in GF(2^8) and the affine map. *)
Theorem aes_tables x :
  0 <= x < 256 ->
  let s := sbox x in let i := inv_sbox x in
  inv_sbox (sbox x) = x /\
  tbl Te0 x = pack4 (gmul 2 s) s s (gmul 3 s) /\ tbl Te1 x = pack4 (gmul 3 s) (gmul 2 s) s s /\
  tbl Te2 x = pack4 s (gmul 3 s) (gmul 2 s) s /\ tbl Te3 x = pack4 s s (gmul 3 s) (gmul 2 s) /\
  tbl Td0 x = pack4 (gmul 14 i) (gmul 9 i) (gmul 13 i) (gmul 11 i) /\
  tbl Td1 x = pack4 (gmul 11 i) (gmul 14 i) (gmul 9 i) (gmul 13 i) /\
  tbl Td2 x = pack4 (gmul 13 i) (gmul 11 i) (gmul 14 i) (gmul 9 i) /\
  tbl Td3 x = pack4 (gmul 9 i) (gmul 13 i) (gmul 11 i) (gmul 14 i) /\ tbl Td4 x = i.
Proof. intros Hx s i. split; [by apply inv_sbox_sbox|]. by apply tables_of_byte. Qed.

(** The key schedule is the standard's: for a key of 128, 192 or 256 bits the
    unrolled expansion loops write exactly the 44, 52 or 60 words of FIPS-197's
    KeyExpansion and set 10, 12 or 14 rounds; a null pointer gives -1 and
    another length -2, the key being left alone. *)
Theorem aes_key_schedule bits nk nr userKey key :
  key_size bits nk nr -> bytes_ok userKey ->
  AES_set_encrypt_key (Some userKey) bits (Some key) =
    (0, Some (AesKey (schedule nk nr userKey) (Z.of_nat nr))) /\
  length (schedule nk nr userKey) = (4 * (nr + 1))%nat /\
  (forall other, ~ (exists nk' nr', key_size other nk' nr') ->
     AES_set_encrypt_key (Some userKey) other (Some key) = (-2, Some key)) /\
  AES_set_encrypt_key None bits (Some key) = (-1, Some key) /\
  AES_set_encrypt_key (Some userKey) bits None = (-1, None).
Proof.
  intros Hsize Hk. split; [by apply set_encrypt_key_schedule|].
  split; [by eapply schedule_words|]. split; [|done].
  intros other Hother. unfold AES_set_encrypt_key.
  assert (H : other <> 128 /\ other <> 192 /\ other <> 256).
  { split_and!; intros ->; apply Hother; unfold key_size; eauto 8. }
  destruct H as (H1 & H2 & H3). by rewrite !(proj2 (Z.eqb_neq _ _)).
Qed.

(** C17: Encryption with the tables is the standard's cipher: for every key schedule
    of 32-bit words, 10, 12 or 14 rounds and every block, the loop of AES_encrypt
    and its FULL_UNROLL variant both produce the FIPS-197 cipher text. *)
Theorem aes_encrypt_standard rk nr p :
  (nr = 10 \/ nr = 12 \/ nr = 14)%nat -> schedule_ok rk -> bytes_ok p ->
  let c := bytes_of_block (cipher nr (round_keys rk) (block_of_bytes p)) in
  AES_encrypt p (AesKey rk (Z.of_nat nr)) = Done c /\
  AES_encrypt_unrolled p (AesKey rk (Z.of_nat nr)) = c.
Proof.
  intros Hnr Hrk Hp c. split; [by apply AES_encrypt_cipher|].
  pose proof (block_of_bytes_ok p Hp) as Hs.
  assert (Hks : forall r, block_ok (round_keys rk r)) by (intros; by apply round_keys_ok).
  unfold AES_encrypt_unrolled, c, cipher. cbn [rd_key rounds]. rewrite first_key_spec by done.
  change (words_of (add_round_key _ _)) with (words_of (enc_state (round_keys rk) (block_of_bytes p) (1 - 1))).
  rewrite (unrolled_spec rk Hrk _ 9 1) by (done || lia). cbn [Nat.add Nat.sub].
  pose proof (unrolled_spec rk Hrk (block_of_bytes p) 2 10 Hs ltac:(lia)) as H10.
  pose proof (unrolled_spec rk Hrk (block_of_bytes p) 2 12 Hs ltac:(lia)) as H12.
  cbn [Nat.add Nat.sub] in H10, H12.
  replace (Z.to_nat (Z.shiftl (Z.of_nat nr) 2)) with (4 * nr)%nat by (rewrite Z.shiftl_mul_pow2 by lia; lia).
  destruct Hnr as [->|[->| ->]]; decide_z; rewrite ?H10, ?H12; cbn [Nat.sub];
    (rewrite enc_last_spec; [reflexivity|exact Hrk|apply enc_state_ok; assumption]).
Qed.

Lemma aes_decrypt_encrypt bits nk nr userKey key p :
  key_size bits nk nr -> bytes_ok userKey -> bytes_ok p -> length p = 16%nat ->
  exists ek dk c,
    AES_set_encrypt_key (Some userKey) bits (Some key) = (0, Some ek) /\
    AES_set_decrypt_key (Some userKey) bits (Some key) = (0, Some dk) /\
    AES_encrypt p ek = Done c /\ bytes_ok c /\ length c = 16%nat /\ AES_decrypt c dk = Done p.
Proof.
  intros Hsize Hk Hp Hlen. destruct (schedule_words bits nk nr userKey Hsize Hk) as [Hok Hl].
  assert (Hnr : (nr = 10 \/ nr = 12 \/ nr = 14)%nat) by (unfold key_size in Hsize; lia).
  pose proof (set_encrypt_key_schedule bits nk nr userKey key Hsize Hk) as Henc.
  set (rk := schedule nk nr userKey) in *.
  set (dk := map (dec_schedule_word nr (rk_at rk)) (seq 0 (4 * (nr + 1)))).
  pose proof (block_of_bytes_ok p Hp) as Hs.
  assert (Hks : forall r, block_ok (round_keys rk r)) by (intros; by apply round_keys_ok).
  set (c := cipher nr (round_keys rk) (block_of_bytes p)).
  assert (Hc : block_ok c) by (apply add_round_key_ok; [by apply shift_rows_ok, sub_bytes_ok, enc_state_ok|done]).
  exists (AesKey rk (Z.of_nat nr)), (AesKey dk (Z.of_nat nr)), (bytes_of_block c). split; [exact Henc|].
  split.
  { unfold AES_set_decrypt_key. rewrite Henc. change (0 <? 0) with false. cbv iota. cbn [rounds rd_key].
    rewrite Nat2Z.id. do 3 f_equal. pose proof (decrypt_schedule nr (rk_at rk) Hnr) as Hd. cbv zeta in Hd.
    rewrite (map_rk_at rk _ Hl) in Hd. exact Hd. }
  split; [by apply AES_encrypt_cipher|].
  assert (Hcb : bytes_ok (bytes_of_block c)) by (by apply bytes_of_block_ok).
  split; [done|]. split; [done|].
  rewrite AES_decrypt_inv_cipher; [|by apply dec_schedule_ok|done|done].
  rewrite block_of_bytes_of_block. f_equal.
  rewrite (inv_cipher_ext nr _ (dec_keys nr (round_keys rk))).
  - unfold c. rewrite inv_cipher_cipher by (done || lia). by apply bytes_of_block_of_bytes.
  - intros r Hr. apply dec_schedule_keys; (done || lia).
Qed.

(** C18: AES decrypts what it encrypted: for every key of 128, 192 or 256 bits and
    every 16-byte block, the two schedules are set up with status 0 and
    AES_decrypt with the one returns the block that AES_encrypt with the other
    was given. *)
Theorem aes_roundtrip bits nk nr userKey key p :
  key_size bits nk nr -> bytes_ok userKey -> bytes_ok p -> length p = 16%nat ->
  exists ek dk c,
    AES_set_encrypt_key (Some userKey) bits (Some key) = (0, Some ek) /\
    AES_set_decrypt_key (Some userKey) bits (Some key) = (0, Some dk) /\
    AES_encrypt p ek = Done c /\ bytes_ok c /\ length c = 16%nat /\ AES_decrypt c dk = Done p.
Proof. apply aes_decrypt_encrypt. Qed.

Lemma aes_tables_witness :
  0 <= 83 < 256 /\ sbox 83 = 0xed /\
  tbl Te0 83 = pack4 (gmul 2 (sbox 83)) (sbox 83) (sbox 83) (gmul 3 (sbox 83)).
Proof.
  assert (H : 0 <= 83 < 256) by lia. split; [exact H|]. split; [vm_compute; reflexivity|].
  exact (proj1 (proj2 (aes_tables 83 H))).
Defined.

Lemma c1_bytes : bytes_ok c1_key /\ bytes_ok c1_plain.
Proof. by split; apply bytes_ok_checked. Qed.

Lemma aes_key_schedule_witness :
  key_size 128 4 10 /\ bytes_ok c1_key /\
  AES_set_encrypt_key (Some c1_key) 128 (Some (AesKey [] 0)) =
    (0, Some (AesKey (schedule 4 10 c1_key) 10)).
Proof.
  assert (H : key_size 128 4 10) by (left; done). split; [exact H|]. split; [apply c1_bytes|].
  exact (proj1 (aes_key_schedule 128 4 10 c1_key (AesKey [] 0) H (proj1 c1_bytes))).
Defined.

Lemma c1_schedule_ok : schedule_ok (schedule 4 10 c1_key).
Proof. apply (schedule_words 128 4 10); [by left|apply c1_bytes]. Qed.

Lemma aes_encrypt_standard_witness :
  schedule_ok (schedule 4 10 c1_key) /\ bytes_ok c1_plain /\
  AES_encrypt_unrolled c1_plain (AesKey (schedule 4 10 c1_key) 10) =
    bytes_of_block (cipher 10 (round_keys (schedule 4 10 c1_key)) (block_of_bytes c1_plain)).
Proof.
  split; [exact c1_schedule_ok|]. split; [apply c1_bytes|].
  exact (proj2 (aes_encrypt_standard (schedule 4 10 c1_key) 10 c1_plain (or_introl eq_refl)
    c1_schedule_ok (proj2 c1_bytes))).
Defined.

Lemma aes_roundtrip_witness :
  key_size 128 4 10 /\ length c1_plain = 16%nat /\
  exists ek dk c,
    AES_set_encrypt_key (Some c1_key) 128 (Some (AesKey [] 0)) = (0, Some ek) /\
    AES_set_decrypt_key (Some c1_key) 128 (Some (AesKey [] 0)) = (0, Some dk) /\
    AES_encrypt c1_plain ek = Done c /\ bytes_ok c /\ length c = 16%nat /\ AES_decrypt c dk = Done c1_plain.
Proof.
  assert (H : key_size 128 4 10) by (left; done). split; [exact H|]. split; [reflexivity|].
  exact (aes_roundtrip 128 4 10 c1_key (AesKey [] 0) c1_plain H (proj1 c1_bytes) (proj2 c1_bytes) eq_refl).
Defined.
