(* ===== verification/Modes.v ===== *)
(** * Block cipher modes (crypto/modes/cbc128.c, ctr128.c, cfb128.c, ofb128.c)

    The modes of operation over any 128-bit block function.  The code processes
    whole blocks as machine words and the rest byte by byte; word-wise exclusive
    or of memory is written here as the exclusive or of its bytes. *)

From S2P Require Import Prelude Words.

(** The block functions of a key, on blocks of 16 bytes. *)
Class BlockCipher := {
  encipher : bytes -> bytes;
  decipher : bytes -> bytes
}.

(** What the modes need from them: the second undoes the first. *)
Class BlockLaws (C : BlockCipher) := {
  encipher_length : forall b, length b = 16%nat -> length (encipher b) = 16%nat;
  decipher_length : forall b, length b = 16%nat -> length (decipher b) = 16%nat;
  encipher_bytes : forall b, length b = 16%nat -> bytes_ok b -> bytes_ok (encipher b);
  decipher_encipher : forall b, length b = 16%nat -> bytes_ok b -> decipher (encipher b) = b
}.

Fixpoint xor_bytes (a b : bytes) : bytes :=
  match a, b with
  | x :: a', y :: b' => x ⊕ y :: xor_bytes a' b'
  | _, _ => []
  end.

(** ** The byte stream modes

    CTR, OFB and CFB share their loops: a state that is refreshed by the block
    function every 16 bytes, and one byte of output per byte of input. *)

Section stream.
Context {st : Type} (refresh : st -> st) (step : nat -> Z -> st -> Z * st).

(** The loop [while (l < len)] over single bytes. *)
Fixpoint stream_bytes (n : nat) (input : bytes) (s : st) : bytes * nat * st :=
  match input with
  | [] => ([], n, s)
  | x :: input' =>
      let s := if (n =? 0)%nat then refresh s else s in
      let '(y, s) := step n x s in
      let '(out, n, s) := stream_bytes ((n + 1) mod 16) input' s in
      (y :: out, n, s)
  end.

(** [while (n && len)]: the bytes left in the current block. *)
Fixpoint stream_head (n : nat) (input : bytes) (s : st) : bytes * bytes * nat * st :=
  match input with
  | [] => ([], [], n, s)
  | x :: input' =>
      if (n =? 0)%nat then ([], input, n, s)
      else
        let '(y, s) := step n x s in
        let '(out, rest, n, s) := stream_head ((n + 1) mod 16) input' s in
        (y :: out, rest, n, s)
  end.

(** Consecutive positions of one block, from [n]. *)
Fixpoint stream_run (n : nat) (input : bytes) (s : st) : bytes * nat * st :=
  match input with
  | [] => ([], n, s)
  | x :: input' =>
      let '(y, s) := step n x s in
      let '(out, n, s) := stream_run (n + 1) input' s in
      (y :: out, n, s)
  end.

(** [while (len >= 16)]. *)
Fixpoint stream_blocks (fuel : nat) (n : nat) (input : bytes) (s : st) : bytes * bytes * nat * st :=
  match fuel with
  | O => ([], input, n, s)
  | S fuel' =>
      if (16 <=? length input)%nat then
        let '(out, _, s) := stream_run n (take 16 input) (refresh s) in
        let '(out', rest, n, s) := stream_blocks fuel' 0 (drop 16 input) s in
        (out ++ out', rest, n, s)
      else ([], input, n, s)
  end.

(** The three loops in the order of the code; the fuel of the second is never
    used up. *)
Definition stream (n : nat) (input : bytes) (s : st) : bytes * nat * st :=
  let '(out1, rest, n, s) := stream_head n input s in
  let '(out2, rest, n, s) := stream_blocks (length rest) n rest s in
  match rest with
  | [] => (out1 ++ out2, n, s)
  | _ =>
      let '(out3, n, s) := stream_run n rest (refresh s) in
      (out1 ++ out2 ++ out3, n, s)
  end.

(** *** The block-wise loops compute what the byte loop does *)

Lemma stream_bytes_app n a b s :
  stream_bytes n (a ++ b) s =
    let '(o1, n1, s1) := stream_bytes n a s in
    let '(o2, n2, s2) := stream_bytes n1 b s1 in
    (o1 ++ o2, n2, s2).
Proof.
  revert n s. induction a as [|x a IH]; intros n s; cbn [stream_bytes app].
  - by destruct (stream_bytes n b s) as [[o2 n2] s2].
  - destruct (step n x _) as [y s1]. rewrite IH.
    destruct (stream_bytes _ a s1) as [[o1 n1] s2]. by destruct (stream_bytes n1 b s2) as [[o2 n2] s3].
Qed.

Lemma stream_head_bytes n input s :
  (n < 16)%nat ->
  let '(out, rest, n1, s1) := stream_head n input s in
  stream_bytes n input s =
    (let '(o2, n2, s2) := stream_bytes n1 rest s1 in (out ++ o2, n2, s2)) /\
  (n1 < 16)%nat /\ (rest <> [] -> n1 = 0%nat).
Proof.
  revert n s. induction input as [|x input IH]; intros n s Hn; cbn [stream_head stream_bytes]; [done|].
  destruct (Nat.eqb_spec n 0) as [->|Hne].
  - cbn [Nat.eqb stream_bytes]. destruct (step 0 x _) as [y s1]. destruct (stream_bytes _ input s1) as [[o n1] s2].
    split_and!; [done|lia|done].
  - destruct (step n x s) as [y s1].
    assert (Hm : ((n + 1) mod 16 < 16)%nat) by (apply Nat.mod_upper_bound; lia).
    specialize (IH ((n + 1) mod 16)%nat s1 Hm).
    destruct (stream_head _ input s1) as [[[out rest] n1] s2]. destruct IH as (Heq & Hn1 & Hrest).
    rewrite Heq. destruct (stream_bytes n1 rest s2) as [[o2 n2] s3]. by split_and!.
Qed.

(** Inside a block the byte loop does not refresh. *)
Lemma stream_run_bytes n input s :
  (0 < n < 16)%nat -> (n + length input <= 16)%nat ->
  let '(out, n1, s1) := stream_run n input s in
  n1 = (n + length input)%nat /\ stream_bytes n input s = (out, (n1 mod 16)%nat, s1).
Proof.
  revert n s. induction input as [|x input IH]; intros n s Hn Hlen; cbn [stream_run stream_bytes length] in *.
  - rewrite Nat.add_0_r. by rewrite Nat.mod_small by lia.
  - rewrite (proj2 (Nat.eqb_neq _ _)) by lia. destruct (step n x s) as [y s1].
    destruct input as [|z input]; [by cbn [stream_run stream_bytes length]|].
    specialize (IH (n + 1)%nat s1). cbn [length] in *.
    specialize (IH ltac:(lia) ltac:(lia)). rewrite (Nat.mod_small (n + 1)) by lia.
    destruct (stream_run (n + 1) (z :: input) s1) as [[out n1] s2]. destruct IH as [-> ->].
    split; [lia|done].
Qed.

(** The first byte of a block refreshes, the others do not. *)
Lemma stream_block_bytes input s :
  (0 < length input <= 16)%nat ->
  let '(out, n1, s1) := stream_run 0 input (refresh s) in
  n1 = length input /\ stream_bytes 0 input s = (out, (n1 mod 16)%nat, s1).
Proof.
  destruct input as [|x input]; intros Hlen; [simpl in Hlen; lia|].
  cbn [stream_run stream_bytes length Nat.eqb] in *. change (0 + 1)%nat with 1%nat.
  change (1 mod 16)%nat with 1%nat. destruct (step 0 x (refresh s)) as [y s1].
  pose proof (stream_run_bytes 1 input s1 ltac:(lia) ltac:(lia)) as Hrun.
  destruct (stream_run 1 input s1) as [[out n1] s2]. destruct Hrun as [-> ->]. by split.
Qed.

Lemma stream_blocks_bytes fuel input s :
  (length input <= fuel)%nat ->
  let '(out, rest, n1, s1) := stream_blocks fuel 0 input s in
  n1 = 0%nat /\ (length rest < 16)%nat /\
  stream_bytes 0 input s = (let '(o2, n2, s2) := stream_bytes 0 rest s1 in (out ++ o2, n2, s2)).
Proof.
  revert input s. induction fuel as [|fuel IH]; intros input s Hlen; cbn [stream_blocks].
  - destruct input; [|simpl in Hlen; lia]. split_and!; [done|simpl; lia|done].
  - destruct (Nat.leb_spec 16 (length input)) as [Hle|Hlt].
    + pose proof (stream_block_bytes (take 16 input) s ltac:(rewrite length_take; lia)) as Hblk.
      destruct (stream_run 0 (take 16 input) (refresh s)) as [[out n1] s1]. destruct Hblk as [Hn1 Hblk].
      rewrite length_take, Nat.min_l in Hn1 by done. subst n1.
      specialize (IH (drop 16 input) s1 ltac:(rewrite length_drop; lia)).
      destruct (stream_blocks fuel 0 (drop 16 input) s1) as [[[out' rest] n2] s2].
      destruct IH as (-> & Hrest & Heq). split_and!; [done|done|].
      rewrite <- (take_drop 16 input) at 1. rewrite stream_bytes_app, Hblk, Nat.Div0.mod_same, Heq.
      destruct (stream_bytes 0 rest s2) as [[o2 n3] s3]. by rewrite app_assoc.
    + split_and!; [done|done|]. by destruct (stream_bytes 0 input s) as [[o2 n3] s3].
Qed.

Lemma stream_is_bytes n input s :
  (n < 16)%nat -> stream n input s = stream_bytes n input s.
Proof.
  intros Hn. unfold stream. pose proof (stream_head_bytes n input s Hn) as Hh.
  destruct (stream_head n input s) as [[[out1 rest] n1] s1]. destruct Hh as (-> & Hn1 & Hrest).
  destruct rest as [|x rest].
  { simpl. by rewrite !app_nil_r. }
  rewrite (Hrest ltac:(done)).
  pose proof (stream_blocks_bytes (length (x :: rest)) (x :: rest) s1 ltac:(lia)) as Hb.
  destruct (stream_blocks (length (x :: rest)) 0 (x :: rest) s1) as [[[out2 rest2] n2] s2].
  destruct Hb as (-> & Hlen & ->). destruct rest2 as [|z rest2]; [simpl; by rewrite app_nil_r|].
  pose proof (stream_block_bytes (z :: rest2) s2 ltac:(simpl in *; lia)) as Ht.
  destruct (stream_run 0 (z :: rest2) (refresh s2)) as [[out3 n3] s3]. destruct Ht as [-> ->].
  by rewrite Nat.mod_small by done.
Qed.

Lemma stream_bytes_position n input s :
  (n < 16)%nat -> (snd (fst (stream_bytes n input s)) < 16)%nat.
Proof.
  revert n s. induction input as [|x input IH]; intros n s Hn; cbn [stream_bytes]; [done|].
  destruct (step n x _) as [y s1].
  assert (Hm : ((n + 1) mod 16 < 16)%nat) by (apply Nat.mod_upper_bound; lia).
  specialize (IH ((n + 1) mod 16)%nat s1 Hm).
  by destruct (stream_bytes _ input s1) as [[o n1] s2].
Qed.

Lemma stream_bytes_length n input s : length (fst (fst (stream_bytes n input s))) = length input.
Proof.
  revert n s. induction input as [|x input IH]; intros n s; cbn [stream_bytes]; [done|].
  destruct (step n x _) as [y s1]. specialize (IH ((n + 1) mod 16)%nat s1).
  destruct (stream_bytes _ input s1) as [[o n1] s2]. simpl in *. by rewrite IH.
Qed.
End stream.

(** When the second step undoes the first and keeps the same state, so do the
    streams. *)
Lemma stream_bytes_inverse {st} (refresh : st -> st) (step1 step2 : nat -> Z -> st -> Z * st) n input s :
  (forall n x s, let '(y, s1) := step1 n x s in step2 n y s = (x, s1)) ->
  let '(out, n1, s1) := stream_bytes refresh step1 n input s in
  stream_bytes refresh step2 n out s = (input, n1, s1).
Proof.
  intros Hinv. revert n s. induction input as [|x input IH]; intros n s; cbn [stream_bytes]; [done|].
  set (s0 := if (n =? 0)%nat then refresh s else s).
  specialize (Hinv n x s0). destruct (step1 n x s0) as [y s1] eqn:E1.
  specialize (IH ((n + 1) mod 16)%nat s1).
  destruct (stream_bytes refresh step1 _ input s1) as [[out n1] s2]. cbn [stream_bytes]. fold s0.
  by rewrite Hinv, IH.
Qed.

(** ** The modes *)

Section modes.
Context `{BlockCipher}.

(** The counter block: the carry runs from the last byte to the first. *)
Fixpoint inc_bytes (reversed : bytes) (c : Z) : bytes :=
  match reversed with
  | [] => []
  | b :: bs' =>
      let c := c + b in
      u8 c :: inc_bytes bs' (Z.shiftr c 8)
  end.

Definition ctr128_inc (counter : bytes) : bytes := rev (inc_bytes (rev counter) 1).

(** CTR: the counter and the encrypted counter. *)
Definition ctr_refresh (s : bytes * bytes) : bytes * bytes :=
  let '(ivec, _) := s in (ctr128_inc ivec, encipher ivec).
Definition ctr_step (n : nat) (x : Z) (s : bytes * bytes) : Z * (bytes * bytes) :=
  (x ⊕ nth n (snd s) 0, s).

Definition CRYPTO_ctr128_encrypt (input ivec ecount_buf : bytes) (num : nat) : bytes * nat * (bytes * bytes) :=
  stream ctr_refresh ctr_step num input (ivec, ecount_buf).

(** OFB: the vector is the key stream. *)
Definition ofb_step (n : nat) (x : Z) (ivec : bytes) : Z * bytes := (x ⊕ nth n ivec 0, ivec).

(** A negative [num] is answered by -1, and nothing is written. *)
Definition CRYPTO_ofb128_encrypt (input ivec : bytes) (num : Z) : bytes * Z * bytes :=
  if num <? 0 then ([], -1, ivec)
  else
    let '(out, n, ivec) := stream encipher ofb_step (Z.to_nat num) input ivec in
    (out, Z.of_nat n, ivec).

(** CFB: the ciphertext replaces the vector. *)
Definition cfb_enc_step (n : nat) (x : Z) (ivec : bytes) : Z * bytes :=
  let y := nth n ivec 0 ⊕ x in (y, <[n := y]> ivec).
Definition cfb_dec_step (n : nat) (c : Z) (ivec : bytes) : Z * bytes :=
  (nth n ivec 0 ⊕ c, <[n := c]> ivec).

Definition CRYPTO_cfb128_encrypt (input ivec : bytes) (num : Z) (enc : bool) : bytes * Z * bytes :=
  if num <? 0 then ([], -1, ivec)
  else
    let '(out, n, ivec) :=
      stream encipher (if enc then cfb_enc_step else cfb_dec_step) (Z.to_nat num) input ivec in
    (out, Z.of_nat n, ivec).

(** CBC.  The block loop, the loop that ends with a partial block, and the
    vector after the call. *)
Fixpoint cbc_enc_blocks (fuel : nat) (input iv : bytes) : bytes * bytes * bytes :=
  match fuel with
  | O => ([], input, iv)
  | S fuel' =>
      if (16 <=? length input)%nat then
        let c := encipher (xor_bytes (take 16 input) iv) in
        let '(out, rest, iv) := cbc_enc_blocks fuel' (drop 16 input) c in
        (c ++ out, rest, iv)
      else ([], input, iv)
  end.

Fixpoint cbc_enc_tail (fuel : nat) (input iv : bytes) : bytes * bytes :=
  match fuel with
  | O => ([], iv)
  | S fuel' =>
      match input with
      | [] => ([], iv)
      | _ =>
          let part := take 16 input in
          let c := encipher (xor_bytes part iv ++ drop (length part) iv) in
          if (length input <=? 16)%nat then (c, c)
          else
            let '(out, iv) := cbc_enc_tail fuel' (drop 16 input) c in
            (c ++ out, iv)
      end
  end.

Definition CRYPTO_cbc128_encrypt (input ivec : bytes) : bytes * bytes :=
  let '(out1, rest, iv) := cbc_enc_blocks (length input) input ivec in
  let '(out2, iv) := cbc_enc_tail (length rest) rest iv in
  (out1 ++ out2, iv).

(** The input of decryption is whole blocks; [len] bytes of output are wanted. *)
Fixpoint cbc_dec_blocks (fuel : nat) (input : bytes) (len : nat) (iv : bytes) : bytes * bytes * nat * bytes :=
  match fuel with
  | O => ([], input, len, iv)
  | S fuel' =>
      if (16 <=? len)%nat then
        let p := xor_bytes (decipher (take 16 input)) iv in
        let '(out, rest, len, iv) := cbc_dec_blocks fuel' (drop 16 input) (len - 16) (take 16 input) in
        (p ++ out, rest, len, iv)
      else ([], input, len, iv)
  end.

Fixpoint cbc_dec_tail (fuel : nat) (input : bytes) (len : nat) (ivec : bytes) : bytes * bytes :=
  match fuel with
  | O => ([], ivec)
  | S fuel' =>
      if (len =? 0)%nat then ([], ivec)
      else
        let tmp := decipher (take 16 input) in
        let p := take len (xor_bytes tmp ivec) in
        if (len <=? 16)%nat then (p, take 16 input)
        else
          let '(out, ivec) := cbc_dec_tail fuel' (drop 16 input) (len - 16) (take 16 input) in
          (p ++ out, ivec)
  end.

(** The branch for [in != out]. *)
Definition CRYPTO_cbc128_decrypt (input : bytes) (len : nat) (ivec : bytes) : bytes * bytes :=
  let '(out1, rest, len, iv) := cbc_dec_blocks len input len ivec in
  let '(out2, iv) := cbc_dec_tail len rest len iv in
  (out1 ++ out2, iv).

(** The branch for [in == out], on the one buffer: [done_] bytes of it are processed.
    First [while (len >= 16)]; the last loop runs on the same buffer. *)
Definition put_at (off : nat) (d buf : bytes) : bytes :=
  take off buf ++ d ++ drop (off + length d) buf.

Fixpoint cbc_inplace_blocks (fuel : nat) (done_ len : nat) (buf ivec : bytes) : nat * nat * bytes * bytes :=
  match fuel with
  | O => (done_, len, buf, ivec)
  | S fuel' =>
      if (16 <=? len)%nat then
        let c := take 16 (drop done_ buf) in
        let buf := put_at done_ (xor_bytes (decipher c) ivec) buf in
        cbc_inplace_blocks fuel' (done_ + 16) (len - 16) buf c
      else (done_, len, buf, ivec)
  end.

Fixpoint cbc_inplace_rest (fuel : nat) (done_ len : nat) (buf ivec : bytes) : bytes * bytes :=
  match fuel with
  | O => (buf, ivec)
  | S fuel' =>
      if (len =? 0)%nat then (buf, ivec)
      else
        let c := take 16 (drop done_ buf) in
        let tmp := decipher c in
        let buf := put_at done_ (take len (xor_bytes tmp ivec)) buf in
        if (len <=? 16)%nat then (buf, take 16 c)
        else cbc_inplace_rest fuel' (done_ + 16) (len - 16) buf c
  end.

Definition cbc_dec_inplace (fuel : nat) (done_ len : nat) (buf ivec : bytes) : bytes * bytes :=
  let '(done_, len, buf, ivec) := cbc_inplace_blocks fuel done_ len buf ivec in
  cbc_inplace_rest fuel done_ len buf ivec.
End modes.

(** ** Lemmas on blocks *)

Lemma xor_bytes_length a b : length (xor_bytes a b) = (length a `min` length b)%nat.
Proof. revert b. induction a as [|x a IH]; intros [|y b]; simpl; [done..|]. by rewrite IH. Qed.

Lemma xor_bytes_ok a b : bytes_ok a -> bytes_ok b -> bytes_ok (xor_bytes a b).
Proof.
  intros Ha. revert b. induction Ha as [|x a Hx _ IH]; intros b Hb; simpl; [constructor|].
  destruct Hb as [|y b Hy Hb]; [constructor|]. constructor; [by apply byte_lxor|by apply IH].
Qed.

Lemma xor_zeros n e : length e = n -> xor_bytes (replicate n 0) e = e.
Proof. intros <-. induction e as [|x e IH]; [done|]. cbn [length replicate xor_bytes]. by rewrite IH, Z.lxor_0_l. Qed.

Lemma lxor_twice x y : x ⊕ y ⊕ y = x.
Proof. xor_solve. Qed.

(** The partial block of CBC, encrypted and decrypted. *)
Lemma xor_bytes_cancel a b :
  (length a <= length b)%nat ->
  take (length a) (xor_bytes (xor_bytes a b ++ drop (length a) b) b) = a.
Proof.
  revert b. induction a as [|x a IH]; intros b Hl; [done|]. destruct b as [|y b]; [simpl in Hl; lia|].
  simpl in *. f_equal; [apply lxor_twice|apply IH; lia].
Qed.

Lemma Forall_drop_take (P : Z -> Prop) n (l : bytes) : Forall P l -> Forall P (take n l) /\ Forall P (drop n l).
Proof. intros Hl. rewrite <- (take_drop n l) in Hl. by apply Forall_app in Hl. Qed.

(** The value of a big-endian counter. *)
Definition le_value (b : bytes) : Z := fold_right (fun x v => x + 256 * v) 0 b.
Definition be_value (b : bytes) : Z := le_value (rev b).

Section modes_lemmas.
Context `{BlockLaws}.

Lemma inc_bytes_value b c :
  bytes_ok b -> 0 <= c <= 1 ->
  le_value (inc_bytes b c) = (le_value b + c) mod 256 ^ Z.of_nat (length b) /\
  length (inc_bytes b c) = length b /\ bytes_ok (inc_bytes b c).
Proof.
  intros Hb. revert c. induction Hb as [|x b Hx _ IH]; intros c Hc; cbn [inc_bytes].
  - split_and!; [|done|constructor]. simpl. by rewrite Z.mod_1_r.
  - unfold byte_ok in Hx. rewrite Z.shiftr_div_pow2 by lia. change (2 ^ 8) with 256.
    assert (Hq : 0 <= (c + x) / 256 <= 1) by (Z.to_euclidean_division_equations; lia).
    destruct (IH _ Hq) as (Hv & Hl & Hok). split_and!.
    + cbn [le_value fold_right]. fold (le_value b). change (fold_right _ 0 (inc_bytes b _)) with (le_value (inc_bytes b ((c + x) / 256))).
      rewrite Hv. unfold u8, wrap. change (2 ^ 8) with 256. cbn [length].
      rewrite Nat2Z.inj_succ, Z.pow_succ_r by lia.
      set (m := 256 ^ Z.of_nat (length b)). assert (Hm : 0 < m) by (apply Z.pow_pos_nonneg; lia).
      rewrite Z.rem_mul_r by lia. replace (x + 256 * le_value b + c) with (c + x + le_value b * 256) by ring.
      rewrite Z_mod_plus_full, Z.div_add by lia. do 3 f_equal. ring.
    + cbn [length]. by rewrite Hl.
    + constructor; [|done]. unfold byte_ok, u8, wrap. apply Z.mod_pos_bound. lia.
Qed.

(** *** CBC on whole inputs *)

Lemma cbc_enc_tail_fuel f1 f2 input iv :
  (length input <= f1)%nat -> (length input <= f2)%nat -> cbc_enc_tail f1 input iv = cbc_enc_tail f2 input iv.
Proof.
  revert f2 input iv. induction f1 as [|f1 IH]; intros f2 input iv H1 H2.
  - destruct input; [|simpl in H1; lia]. by destruct f2.
  - destruct input as [|x input]; [by destruct f2|]. destruct f2 as [|f2]; [simpl in H2; lia|].
    cbn [cbc_enc_tail]. destruct (length (x :: input) <=? 16)%nat; [done|].
    rewrite (IH f2); [done|rewrite length_drop; lia..].
Qed.

Lemma cbc_encrypt_tail input iv :
  length iv = 16%nat -> CRYPTO_cbc128_encrypt input iv = cbc_enc_tail (length input) input iv.
Proof.
  intros Hiv. unfold CRYPTO_cbc128_encrypt.
  assert (Hgo : forall fuel input iv, length iv = 16%nat -> (length input <= fuel)%nat ->
    (let '(out1, rest, iv) := cbc_enc_blocks fuel input iv in
     let '(out2, iv) := cbc_enc_tail (length rest) rest iv in (out1 ++ out2, iv)) =
    cbc_enc_tail fuel input iv).
  { clear Hiv input iv. intros fuel. induction fuel as [|fuel IH]; intros input iv Hiv Hlen; cbn [cbc_enc_blocks].
    - destruct input; [done|simpl in Hlen; lia].
    - destruct (Nat.leb_spec 16 (length input)) as [Hle|Hlt].
      + set (c := encipher (xor_bytes (take 16 input) iv)).
        assert (Hpart : length (take 16 input) = 16%nat) by (rewrite length_take; lia).
        assert (Hc : length c = 16%nat) by (apply encipher_length; rewrite xor_bytes_length; lia).
        specialize (IH (drop 16 input) c Hc ltac:(rewrite length_drop; lia)).
        destruct (cbc_enc_blocks fuel (drop 16 input) c) as [[out rest] iv1].
        destruct (cbc_enc_tail (length rest) rest iv1) as [out2 iv2].
        destruct input as [|x input]; [simpl in Hle; lia|]. cbn [cbc_enc_tail].
        rewrite Hpart, drop_ge, app_nil_r by lia. fold c. rewrite <- IH, <- app_assoc.
        destruct (Nat.leb_spec (length (x :: input)) 16) as [Hsmall|]; [|done].
        rewrite (drop_ge (x :: input)) in IH by lia.
        assert (Hnil : (out ++ out2, iv2) = ([], c)) by (rewrite IH; by destruct fuel).
        injection Hnil as -> ->. by rewrite app_nil_r.
      + destruct (cbc_enc_tail (length input) input iv) as [out2 iv2] eqn:E.
        cbn [app]. rewrite <- E. apply cbc_enc_tail_fuel; lia. }
  by apply Hgo.
Qed.

Lemma cbc_dec_tail_fuel f1 f2 input len iv :
  (len <= f1)%nat -> (len <= f2)%nat -> cbc_dec_tail f1 input len iv = cbc_dec_tail f2 input len iv.
Proof.
  revert f2 input len iv. induction f1 as [|f1 IH]; intros f2 input len iv H1 H2.
  - assert (len = 0%nat) as -> by lia. by destruct f2.
  - destruct f2 as [|f2].
    + assert (len = 0%nat) as -> by lia. done.
    + cbn [cbc_dec_tail]. destruct (len =? 0)%nat; [done|]. destruct (Nat.leb_spec len 16); [done|].
      rewrite (IH f2); [done|lia..].
Qed.

Lemma cbc_decrypt_tail input len iv :
  length iv = 16%nat ->
  (len <= length input)%nat ->
  CRYPTO_cbc128_decrypt input len iv = cbc_dec_tail len input len iv.
Proof.
  intros Hiv Hin. pose proof decipher_length as Hdec. unfold CRYPTO_cbc128_decrypt.
  assert (Hgo : forall fuel input len iv, length iv = 16%nat -> (len <= fuel)%nat -> (len <= length input)%nat ->
    (let '(out1, rest, len, iv) := cbc_dec_blocks fuel input len iv in
     let '(out2, iv) := cbc_dec_tail len rest len iv in (out1 ++ out2, iv)) =
    cbc_dec_tail fuel input len iv); [|by apply Hgo].
  clear Hin Hiv input len iv. intros fuel.
  induction fuel as [|fuel IH]; intros input len iv Hiv Hlen Hin; cbn [cbc_dec_blocks].
  - assert (len = 0%nat) as -> by lia. done.
  - destruct (Nat.leb_spec 16 len) as [Hle|Hlt].
    + assert (Hc : length (take 16 input) = 16%nat) by (rewrite length_take; lia).
      specialize (IH (drop 16 input) (len - 16)%nat (take 16 input) Hc ltac:(lia) ltac:(rewrite length_drop; lia)).
      destruct (cbc_dec_blocks fuel (drop 16 input) (len - 16) (take 16 input)) as [[[out rest] len1] iv1].
      destruct (cbc_dec_tail len1 rest len1 iv1) as [out2 iv2]. cbn [cbc_dec_tail].
      rewrite (proj2 (Nat.eqb_neq _ _)) by lia.
      assert (Hfull : take len (xor_bytes (decipher (take 16 input)) iv) = xor_bytes (decipher (take 16 input)) iv).
      { apply take_ge. rewrite xor_bytes_length, Hdec by done. lia. }
      rewrite Hfull, <- IH, <- app_assoc. destruct (Nat.leb_spec len 16) as [Hsmall|]; [|done].
      assert (len = 16%nat) as -> by lia.
      assert (Hnil : (out ++ out2, iv2) = ([], take 16 input)) by (rewrite IH; by destruct fuel).
      injection Hnil as -> ->. by rewrite app_nil_r.
    + destruct (cbc_dec_tail len input len iv) as [out2 iv2] eqn:E. cbn [app]. rewrite <- E.
      apply cbc_dec_tail_fuel; lia.
Qed.

Lemma cbc_tail_roundtrip fuel input iv :
  (length input <= fuel)%nat -> bytes_ok input -> bytes_ok iv -> length iv = 16%nat ->
  let '(c, iv1) := cbc_enc_tail fuel input iv in
  cbc_dec_tail fuel c (length input) iv = (input, iv1) /\ (length input <= length c)%nat /\
  (length c mod 16 = 0)%nat.
Proof.
  revert input iv. induction fuel as [|fuel IH]; intros input iv Hlen Hok Hivok Hiv; cbn [cbc_enc_tail].
  { destruct input; [done|simpl in Hlen; lia]. }
  destruct input as [|x input]; [done|]. remember (x :: input) as inp eqn:Einp.
  assert (Hne : (0 < length inp)%nat) by (subst; simpl; lia). clear x input Einp.
  destruct (Forall_drop_take byte_ok 16 inp Hok) as [Htk Hdr].
  set (part := take 16 inp) in *.
  assert (Hpl : (length part <= 16)%nat) by (unfold part; rewrite length_take; lia).
  set (b := xor_bytes part iv ++ drop (length part) iv).
  assert (Hbl : length b = 16%nat) by (unfold b; rewrite length_app, xor_bytes_length, length_drop; lia).
  assert (Hbok : bytes_ok b).
  { apply Forall_app. split; [by apply xor_bytes_ok|]. by apply Forall_drop_take. }
  pose proof (encipher_length b Hbl) as Hcl. pose proof (decipher_encipher b Hbl Hbok) as Hdec.
  set (c := encipher b) in *.
  assert (Hp : take (length part) (xor_bytes b iv) = part) by (apply xor_bytes_cancel; lia).
  destruct (Nat.leb_spec (length inp) 16) as [Hs|Hl].
  - assert (Hall : part = inp) by (apply take_ge; lia). rewrite Hall in Hp.
    split_and!; [|lia|by rewrite Hcl]. cbn [cbc_dec_tail].
    rewrite (proj2 (Nat.eqb_neq _ _)) by lia. rewrite (proj2 (Nat.leb_le _ _)) by done.
    rewrite (take_ge c) by lia. rewrite Hdec. by rewrite Hp.
  - assert (Hfull : length part = 16%nat) by (unfold part; rewrite length_take; lia).
    specialize (IH (drop 16 inp) c ltac:(rewrite length_drop; lia) Hdr).
    specialize (IH ltac:(by apply encipher_bytes) Hcl).
    destruct (cbc_enc_tail fuel (drop 16 inp) c) as [out iv1]. destruct IH as (IH & IHl & IHm).
    rewrite length_drop in IH, IHl. split_and!.
    + cbn [cbc_dec_tail]. rewrite (proj2 (Nat.eqb_neq _ _)) by lia. rewrite (proj2 (Nat.leb_gt _ _)) by done.
      rewrite take_app_length' by done. rewrite drop_app_length' by done. rewrite Hdec, IH.
      rewrite Hfull in Hp. f_equal. rewrite take_ge by (rewrite xor_bytes_length; lia).
      rewrite take_ge in Hp by (rewrite xor_bytes_length; lia). rewrite Hp. apply take_drop.
    + rewrite length_app. lia.
    + rewrite length_app, Hcl. rewrite <- Nat.Div0.add_mod_idemp_r, IHm. done.
Qed.

Lemma cbc_inplace_rest_tail fuel done_ len buf iv :
  length iv = 16%nat ->
  (len <= fuel)%nat -> (exists k, length buf = done_ + 16 * k /\ len <= 16 * k)%nat ->
  cbc_inplace_rest fuel done_ len buf iv =
    (let '(out, iv1) := cbc_dec_tail fuel (drop done_ buf) len iv in
     (take done_ buf ++ out ++ drop (done_ + len) buf, iv1)).
Proof.
  pose proof decipher_length as Hdec. intros Hiv. revert done_ len buf iv Hiv.
  induction fuel as [|fuel IH]; intros done_ len buf iv Hiv Hlen (k & Hk & Hlk); cbn [cbc_inplace_rest cbc_dec_tail].
  { assert (len = 0%nat) as -> by lia. simpl. by rewrite Nat.add_0_r, take_drop. }
  destruct (Nat.eqb_spec len 0) as [->|Hne]; [simpl; by rewrite Nat.add_0_r, take_drop|].
  set (c := take 16 (drop done_ buf)).
  assert (Hcl : length c = 16%nat) by (unfold c; rewrite length_take, length_drop; lia).
  set (p := take len (xor_bytes (decipher c) iv)).
  assert (Hpl : length p = (len `min` 16)%nat) by (unfold p; rewrite length_take, xor_bytes_length, Hdec by done; lia).
  destruct (Nat.leb_spec len 16) as [Hs|Hl].
  - rewrite (take_ge c) by lia. unfold put_at. rewrite Hpl. by replace (len `min` 16)%nat with len by lia.
  - assert (Hput : put_at done_ p buf = take done_ buf ++ p ++ drop (done_ + 16) buf).
    { unfold put_at. rewrite Hpl. by replace (len `min` 16)%nat with 16%nat by lia. }
    assert (Htl : length (take done_ buf ++ p) = (done_ + 16)%nat) by (rewrite length_app, length_take; lia).
    rewrite IH; [|done|lia|].
    + rewrite Hput, app_assoc. rewrite drop_app_length' by done. rewrite take_app_length' by done.
      rewrite drop_drop.
      destruct (cbc_dec_tail fuel (drop (done_ + 16) buf) (len - 16) c) as [out iv1] eqn:E.
      f_equal. rewrite <- !app_assoc. do 3 f_equal.
      replace (done_ + 16 + (len - 16))%nat with ((done_ + 16) + (len - 16))%nat by lia.
      rewrite app_assoc, <- drop_drop, drop_app_length' by done. rewrite drop_drop. f_equal. lia.
    + exists (k - 1)%nat. rewrite Hput, !length_app, length_take, length_drop, Hpl. lia.
Qed.

(** A whole block in the last loop is a step of the first one. *)
Lemma cbc_inplace_loops f1 f2 done_ len buf iv :
  length iv = 16%nat ->
  (len <= f1)%nat -> (len <= f2)%nat -> (exists k, length buf = done_ + 16 * k /\ len <= 16 * k)%nat ->
  (let '(done_, len, buf, iv) := cbc_inplace_blocks f1 done_ len buf iv in cbc_inplace_rest f2 done_ len buf iv) =
  cbc_inplace_rest f2 done_ len buf iv.
Proof.
  pose proof decipher_length as Hdec. revert f2 done_ len buf iv.
  induction f1 as [|f1 IH]; intros f2 done_ len buf iv Hiv H1 H2 (k & Hk & Hlk); cbn [cbc_inplace_blocks]; [done|].
  destruct (Nat.leb_spec 16 len) as [Hl|]; [|done]. set (c := take 16 (drop done_ buf)).
  assert (Hcl : length c = 16%nat) by (unfold c; rewrite length_take, length_drop; lia).
  set (p := xor_bytes (decipher c) iv).
  assert (Hpl : length p = 16%nat) by (unfold p; rewrite xor_bytes_length, Hdec by done; lia).
  assert (Hbl : length (put_at done_ p buf) = length buf).
  { unfold put_at. rewrite !length_app, length_take, length_drop, Hpl. lia. }
  assert (Hbuf : forall f, (len - 16 <= f)%nat ->
    (let '(done_, len, buf, iv) := cbc_inplace_blocks f1 (done_ + 16) (len - 16) (put_at done_ p buf) c in
     cbc_inplace_rest f done_ len buf iv) = cbc_inplace_rest f (done_ + 16) (len - 16) (put_at done_ p buf) c).
  { intros f Hf. apply IH; [done|lia|exact Hf|]. exists (k - 1)%nat. rewrite Hbl. lia. }
  rewrite Hbuf by lia. destruct f2 as [|f2]; [lia|].
  assert (Hside : exists k', (length (put_at done_ p buf) = done_ + 16 + 16 * k' /\ len - 16 <= 16 * k')%nat).
  { exists (k - 1)%nat. rewrite Hbl. lia. }
  transitivity (cbc_inplace_rest f2 (done_ + 16) (len - 16) (put_at done_ p buf) c).
  { rewrite !cbc_inplace_rest_tail by (done || lia). by rewrite (cbc_dec_tail_fuel (S f2) f2) by lia. }
  cbn [cbc_inplace_rest]. fold c. rewrite (proj2 (Nat.eqb_neq len 0)) by lia.
  fold p. rewrite (take_ge p) by lia. destruct (Nat.leb_spec len 16) as [Hle|Hlt]; [|done].
  rewrite (take_ge c) by lia. destruct f2; cbn [cbc_inplace_rest]; [done|]. by rewrite (proj2 (Nat.eqb_eq (len - 16) 0)) by lia.
Qed.

Lemma cbc_inplace_tail fuel done_ len buf iv :
  length iv = 16%nat ->
  (len <= fuel)%nat -> (exists k, length buf = done_ + 16 * k /\ len <= 16 * k)%nat ->
  cbc_dec_inplace fuel done_ len buf iv =
    (let '(out, iv1) := cbc_dec_tail fuel (drop done_ buf) len iv in
     (take done_ buf ++ out ++ drop (done_ + len) buf, iv1)).
Proof.
  intros Hiv Hl Hk. unfold cbc_dec_inplace. rewrite cbc_inplace_loops by done. by apply cbc_inplace_rest_tail.
Qed.
End modes_lemmas.

(** ** The theorems *)

Section modes_theorems.
Context `{BlockLaws}.

(** OFB and CFB once the test of [num] is passed. *)
Lemma ofb_stream input ivec n :
  CRYPTO_ofb128_encrypt input ivec (Z.of_nat n) =
    (let '(out, n1, s) := stream encipher ofb_step n input ivec in (out, Z.of_nat n1, s)).
Proof. unfold CRYPTO_ofb128_encrypt. rewrite (proj2 (Z.ltb_ge _ _)) by lia. by rewrite Nat2Z.id. Qed.

Lemma cfb_stream input ivec n enc :
  CRYPTO_cfb128_encrypt input ivec (Z.of_nat n) enc =
    (let '(out, n1, s) := stream encipher (if enc then cfb_enc_step else cfb_dec_step) n input ivec in
     (out, Z.of_nat n1, s)).
Proof. unfold CRYPTO_cfb128_encrypt. rewrite (proj2 (Z.ltb_ge _ _)) by lia. by rewrite Nat2Z.id. Qed.

(** The block-wise loops are equal to the byte loops: the three loops of CTR,
    OFB and CFB (rest of the current block, whole blocks as words, last partial
    block) give the same output, position and state as the plain byte loop that
    the same functions end with for small-footprint builds, from every position
    inside a block. *)
Theorem modes_equal_byte_loops n input ivec ecount_buf enc :
  (n < 16)%nat ->
  CRYPTO_ctr128_encrypt input ivec ecount_buf n = stream_bytes ctr_refresh ctr_step n input (ivec, ecount_buf) /\
  CRYPTO_ofb128_encrypt input ivec (Z.of_nat n) =
    (let '(out, n1, s) := stream_bytes encipher ofb_step n input ivec in (out, Z.of_nat n1, s)) /\
  CRYPTO_cfb128_encrypt input ivec (Z.of_nat n) enc =
    (let '(out, n1, s) := stream_bytes encipher (if enc then cfb_enc_step else cfb_dec_step) n input ivec in
     (out, Z.of_nat n1, s)).
Proof.
  intros Hn. rewrite ofb_stream, cfb_stream. unfold CRYPTO_ctr128_encrypt. by rewrite !stream_is_bytes.
Qed.

(** Data may be passed in pieces: a call on [a ++ b] has the same output and
    final state as a call on [a] followed by a call on [b] with the position and
    vector it left, wherever the cut is. *)
Theorem modes_in_pieces n a b ivec ecount_buf enc :
  (n < 16)%nat ->
  CRYPTO_ctr128_encrypt (a ++ b) ivec ecount_buf n =
    (let '(o1, n1, (iv1, ec1)) := CRYPTO_ctr128_encrypt a ivec ecount_buf n in
     let '(o2, n2, s2) := CRYPTO_ctr128_encrypt b iv1 ec1 n1 in (o1 ++ o2, n2, s2)) /\
  CRYPTO_ofb128_encrypt (a ++ b) ivec (Z.of_nat n) =
    (let '(o1, n1, iv1) := CRYPTO_ofb128_encrypt a ivec (Z.of_nat n) in
     let '(o2, n2, iv2) := CRYPTO_ofb128_encrypt b iv1 n1 in (o1 ++ o2, n2, iv2)) /\
  CRYPTO_cfb128_encrypt (a ++ b) ivec (Z.of_nat n) enc =
    (let '(o1, n1, iv1) := CRYPTO_cfb128_encrypt a ivec (Z.of_nat n) enc in
     let '(o2, n2, iv2) := CRYPTO_cfb128_encrypt b iv1 n1 enc in (o1 ++ o2, n2, iv2)).
Proof.
  intros Hn. rewrite !ofb_stream, !cfb_stream. unfold CRYPTO_ctr128_encrypt.
  rewrite !(stream_is_bytes _ _ n) by done. rewrite !stream_bytes_app. split_and!.
  - pose proof (stream_bytes_position ctr_refresh ctr_step n a (ivec, ecount_buf) Hn) as Hp.
    destruct (stream_bytes _ _ n a _) as [[o1 n1] [iv1 ec1]]. by rewrite stream_is_bytes.
  - pose proof (stream_bytes_position encipher ofb_step n a ivec Hn) as Hp.
    destruct (stream_bytes _ _ n a _) as [[o1 n1] iv1]. rewrite ofb_stream, stream_is_bytes by done.
    by destruct (stream_bytes _ _ n1 b _) as [[o2 n2] iv2].
  - pose proof (stream_bytes_position encipher (if enc then cfb_enc_step else cfb_dec_step) n a ivec Hn) as Hp.
    destruct (stream_bytes _ _ n a _) as [[o1 n1] iv1]. rewrite cfb_stream, stream_is_bytes by done.
    by destruct (stream_bytes _ _ n1 b _) as [[o2 n2] iv2].
Qed.

Lemma ctr_step_twice n x s : let '(y, s1) := ctr_step n x s in ctr_step n y s = (x, s1).
Proof. unfold ctr_step. simpl. by rewrite lxor_twice. Qed.

Lemma ofb_step_twice n x s : let '(y, s1) := ofb_step n x s in ofb_step n y s = (x, s1).
Proof. unfold ofb_step. by rewrite lxor_twice. Qed.

Lemma cfb_step_inverse n x s : let '(y, s1) := cfb_enc_step n x s in cfb_dec_step n y s = (x, s1).
Proof. unfold cfb_enc_step, cfb_dec_step. f_equal. xor_solve. Qed.

(** The stream modes decrypt what they encrypted: running CTR or OFB again, or
    CFB in the other direction, from the same vector and position gives the
    input back and ends in the same position and vector. *)
Theorem modes_roundtrip n input ivec ecount_buf :
  (n < 16)%nat ->
  (let '(out, n1, s1) := CRYPTO_ctr128_encrypt input ivec ecount_buf n in
   CRYPTO_ctr128_encrypt out ivec ecount_buf n = (input, n1, s1)) /\
  (let '(out, n1, s1) := CRYPTO_ofb128_encrypt input ivec (Z.of_nat n) in
   CRYPTO_ofb128_encrypt out ivec (Z.of_nat n) = (input, n1, s1)) /\
  (let '(out, n1, s1) := CRYPTO_cfb128_encrypt input ivec (Z.of_nat n) true in
   CRYPTO_cfb128_encrypt out ivec (Z.of_nat n) false = (input, n1, s1)).
Proof.
  intros Hn. rewrite ofb_stream, cfb_stream. unfold CRYPTO_ctr128_encrypt.
  rewrite !stream_is_bytes by done. split_and!.
  - pose proof (stream_bytes_inverse ctr_refresh ctr_step ctr_step n input (ivec, ecount_buf) ctr_step_twice) as Hi.
    destruct (stream_bytes _ _ n input _) as [[out n1] s1]. by rewrite stream_is_bytes.
  - pose proof (stream_bytes_inverse encipher ofb_step ofb_step n input ivec ofb_step_twice) as Hi.
    destruct (stream_bytes _ _ n input _) as [[out n1] s1]. by rewrite ofb_stream, stream_is_bytes, Hi.
  - pose proof (stream_bytes_inverse encipher cfb_enc_step cfb_dec_step n input ivec cfb_step_inverse) as Hi.
    destruct (stream_bytes _ _ n input _) as [[out n1] s1]. by rewrite cfb_stream, stream_is_bytes, Hi.
Qed.

(** The counter counts: ctr128_inc adds one to the block read as a big-endian
    number, modulo its range, and returns bytes of the same number. *)
Theorem ctr128_inc_adds_one counter :
  bytes_ok counter -> length counter = 16%nat ->
  be_value (ctr128_inc counter) = (be_value counter + 1) mod 2 ^ 128 /\
  length (ctr128_inc counter) = 16%nat /\ bytes_ok (ctr128_inc counter).
Proof.
  intros Hok Hl. unfold ctr128_inc, be_value. rewrite rev_involutive, length_rev.
  destruct (inc_bytes_value (rev counter) 1) as (Hv & Hlen & Hb); [by apply Forall_rev|lia|].
  rewrite Hv, Hlen, length_rev, Hl. split_and!; [done|done|by apply Forall_rev].
Qed.

Lemma cbc_decrypt_encrypt input ivec :
  bytes_ok input -> bytes_ok ivec -> length ivec = 16%nat ->
  let '(c, iv1) := CRYPTO_cbc128_encrypt input ivec in
  CRYPTO_cbc128_decrypt c (length input) ivec = (input, iv1) /\
  cbc_dec_inplace (length input) 0 (length input) c ivec = (input ++ drop (length input) c, iv1) /\
  (length c mod 16 = 0)%nat.
Proof.
  intros Hok Hivok Hiv. rewrite cbc_encrypt_tail by done.
  pose proof (cbc_tail_roundtrip (length input) input ivec ltac:(lia) Hok Hivok Hiv) as Hr.
  destruct (cbc_enc_tail (length input) input ivec) as [c iv1]. destruct Hr as (Hd & Hl & Hm).
  split; [by rewrite cbc_decrypt_tail|]. split; [|done].
  rewrite cbc_inplace_tail; [|done|lia|].
  - by rewrite drop_0, Hd.
  - apply Nat.Div0.mod_divides in Hm as [k Hk]. exists k. lia.
Qed.

(** C19: CBC decrypts what it encrypted, for inputs of any length, also one that
    ends inside a block: the ciphertext is whole blocks, decryption of it returns
    the input and leaves the same vector, and so does the branch that decrypts in
    place, which keeps the bytes of the buffer after the plain text. *)
Theorem cbc_roundtrip input ivec :
  bytes_ok input -> bytes_ok ivec -> length ivec = 16%nat ->
  let '(c, iv1) := CRYPTO_cbc128_encrypt input ivec in
  CRYPTO_cbc128_decrypt c (length input) ivec = (input, iv1) /\
  cbc_dec_inplace (length input) 0 (length input) c ivec = (input ++ drop (length input) c, iv1) /\
  (length c mod 16 = 0)%nat.
Proof. apply cbc_decrypt_encrypt. Qed.
End modes_theorems.

(** ** Instances to evaluate on *)

(** A block function to evaluate the modes with: the bytes in reverse order. *)
Definition demo_cipher : BlockCipher := {| encipher := @rev Z; decipher := @rev Z |}.

Lemma demo_laws : BlockLaws demo_cipher.
Proof.
  constructor; simpl; intros b Hb; [by rewrite length_rev..| |].
  - apply Forall_rev.
  - intros _. apply rev_involutive.
Qed.

Definition demo_iv : bytes := map Z.of_nat (seq 240 16).
Definition demo_text : bytes := bs "A text that is longer than two blocks.".

Lemma demo_iv_ok : bytes_ok demo_iv.
Proof. by apply bytes_ok_checked. Qed.

Lemma demo_text_ok : bytes_ok demo_text.
Proof. by apply bytes_ok_checked. Qed.

Lemma modes_equal_byte_loops_witness :
  exists C : BlockCipher,
    CRYPTO_ctr128_encrypt demo_text demo_iv demo_iv 5 =
      stream_bytes ctr_refresh ctr_step 5 demo_text (demo_iv, demo_iv).
Proof.
  exists demo_cipher.
  exact (proj1 (@modes_equal_byte_loops demo_cipher 5 demo_text demo_iv demo_iv true ltac:(lia))).
Defined.

Lemma modes_in_pieces_witness :
  exists C : BlockCipher,
    CRYPTO_ctr128_encrypt (demo_text ++ bs "rest") demo_iv demo_iv 0 =
      (let '(o1, n1, (iv1, ec1)) := CRYPTO_ctr128_encrypt demo_text demo_iv demo_iv 0 in
       let '(o2, n2, s2) := CRYPTO_ctr128_encrypt (bs "rest") iv1 ec1 n1 in (o1 ++ o2, n2, s2)).
Proof.
  exists demo_cipher.
  exact (proj1 (@modes_in_pieces demo_cipher 0 demo_text (bs "rest") demo_iv demo_iv true ltac:(lia))).
Defined.

Lemma modes_roundtrip_witness :
  exists C : BlockCipher,
    let '(out, n1, s1) := CRYPTO_ctr128_encrypt demo_text demo_iv demo_iv 3 in
    CRYPTO_ctr128_encrypt out demo_iv demo_iv 3 = (demo_text, n1, s1).
Proof.
  exists demo_cipher.
  exact (proj1 (@modes_roundtrip demo_cipher 3 demo_text demo_iv demo_iv ltac:(lia))).
Defined.

Lemma ctr128_inc_adds_one_witness :
  bytes_ok demo_iv /\ length demo_iv = 16%nat /\
  be_value (ctr128_inc demo_iv) = (be_value demo_iv + 1) mod 2 ^ 128.
Proof.
  split; [exact demo_iv_ok|]. split; [reflexivity|].
  exact (proj1 (ctr128_inc_adds_one demo_iv demo_iv_ok eq_refl)).
Defined.

Lemma cbc_roundtrip_witness :
  exists C : BlockCipher,
    bytes_ok demo_text /\ bytes_ok demo_iv /\ length demo_iv = 16%nat /\
    let '(c, iv1) := CRYPTO_cbc128_encrypt demo_text demo_iv in
    CRYPTO_cbc128_decrypt c (length demo_text) demo_iv = (demo_text, iv1) /\
    cbc_dec_inplace (length demo_text) 0 (length demo_text) c demo_iv =
      (demo_text ++ drop (length demo_text) c, iv1) /\
    (length c mod 16 = 0)%nat.
Proof.
  exists demo_cipher. split; [exact demo_text_ok|]. split; [exact demo_iv_ok|]. split; [reflexivity|].
  exact (@cbc_roundtrip demo_cipher demo_laws demo_text demo_iv demo_text_ok demo_iv_ok eq_refl).
Defined.
