(* ===== verification/KeyWrap.v ===== *)
(** * Key wrapping (crypto/modes/wrap128.c, CRYPTO_memcmp of crypto/cpuid.c)

    The wrapping modes of RFC 3394 and RFC 5649 over any 128-bit block function,
    on output buffers of a given size, and the registers of RFC 3394 2.2 that they
    implement. *)

From S2P Require Import Prelude CLib Words Modes.

(** [n] bytes read at an offset. *)
Definition read_at (buf : bytes) (off n : Z) : outcome bytes :=
  if (0 <=? off) && (off + n <=? zlen buf) then Done (take (Z.to_nat n) (drop (Z.to_nat off) buf))
  else Crash OverRead.

(** x |= a[i] ^ b[i], for [len] bytes. *)
Fixpoint memcmp_loop (a b : bytes) (x : Z) : Z :=
  match a, b with
  | c :: a', d :: b' => memcmp_loop a' b' (Z.lor x (c ⊕ d))
  | _, _ => x
  end.
Definition CRYPTO_memcmp (a b : bytes) (len : Z) : outcome Z :=
  a ← read_at a 0 len; b ← read_at b 0 len; Done (memcmp_loop a b 0).

(** memset with zeros through a pointer the compiler cannot see through. *)
Definition OPENSSL_cleanse (buf : bytes) (off len : Z) : outcome bytes :=
  write_at buf off (memset0 (Z.to_nat len)).

Definition default_iv : bytes := replicate 8 0xA6.
Definition default_aiv : bytes := [0xA6; 0x59; 0x59; 0xA6].
Definition CRYPTO128_WRAP_MAX : Z := Z.shiftl 1 31.

Section wrap128.
Variable block : bytes -> bytes.

(** A[7] ^= t, and the higher bytes of [t] when there are any. *)
Definition xor_counter (A : bytes) (t : Z) : bytes :=
  let A := alter (fun x => x ⊕ u8 (Z.land t 0xff)) 7%nat A in
  if 0xff <? t then
    let A := alter (fun x => x ⊕ u8 (Z.land (Z.shiftr t 8) 0xff)) 6%nat A in
    let A := alter (fun x => x ⊕ u8 (Z.land (Z.shiftr t 16) 0xff)) 5%nat A in
    alter (fun x => x ⊕ u8 (Z.land (Z.shiftr t 24) 0xff)) 4%nat A
  else A.

(** The inner loop of wrapping: [n] blocks from offset [R]. *)
Fixpoint wrap_pass (n : nat) (R t : Z) (A out : bytes) : outcome (Z * bytes * bytes) :=
  match n with
  | O => Done (t, A, out)
  | S n' =>
      r ← read_at out R 8;
      let B := block (A ++ r) in
      let A := xor_counter (take 8 B) t in
      out ← write_at out R (drop 8 B);
      wrap_pass n' (R + 8) (u32 (t + 1)) A out
  end.

(** for (j = 0; j < 6; j++) *)
Fixpoint wrap_passes (j n : nat) (t : Z) (A out : bytes) : outcome (bytes * bytes) :=
  match j with
  | O => Done (A, out)
  | S j' => '(t, A, out) ← wrap_pass n 8 t A out; wrap_passes j' n t A out
  end.

(** [input] is the [inlen] bytes at [in], which are moved before anything else. *)
Definition CRYPTO_128_wrap (iv : option bytes) (out input : bytes) : outcome (Z * bytes) :=
  let inlen := zlen input in
  if negb (Z.land inlen 0x7 =? 0) || (inlen <? 16) || (CRYPTO128_WRAP_MAX <? inlen) then Done (0, out)
  else
    out ← write_at out 8 input;
    let iv := default default_iv iv in
    A ← read_at iv 0 8;
    '(A, out) ← wrap_passes 6 (Z.to_nat (inlen / 8)) 1 A out;
    out ← write_at out 0 A;
    Done (u32 (inlen + 8), out).

(** The inner loop of unwrapping: [n] blocks back from offset [R]. *)
Fixpoint unwrap_pass (n : nat) (R t : Z) (A out : bytes) : outcome (Z * bytes * bytes) :=
  match n with
  | O => Done (t, A, out)
  | S n' =>
      let A := xor_counter A t in
      r ← read_at out R 8;
      let B := block (A ++ r) in
      out ← write_at out R (drop 8 B);
      unwrap_pass n' (R - 8) (u32 (t - 1)) (take 8 B) out
  end.

Fixpoint unwrap_passes (j n : nat) (inlen t : Z) (A out : bytes) : outcome (bytes * bytes) :=
  match j with
  | O => Done (A, out)
  | S j' => '(t, A, out) ← unwrap_pass n (inlen - 8) t A out; unwrap_passes j' n inlen t A out
  end.

(** The length, the unchecked vector ([[]] when there is none) and the buffer. *)
Definition crypto_128_unwrap_raw (out input : bytes) : outcome (Z * bytes * bytes) :=
  let inlen := u32 (zlen input - 8) in
  if negb (Z.land inlen 0x7 =? 0) || (inlen <? 16) || (CRYPTO128_WRAP_MAX <? inlen) then Done (0, [], out)
  else
    let t := u32 (6 * Z.shiftr inlen 3) in
    A ← read_at input 0 8;
    d ← read_at input 8 inlen;
    out ← write_at out 0 d;
    '(A, out) ← unwrap_passes 6 (Z.to_nat (inlen / 8)) inlen t A out;
    Done (inlen, A, out).

Definition CRYPTO_128_unwrap (iv : option bytes) (out input : bytes) : outcome (Z * bytes) :=
  '(ret, got_iv, out) ← crypto_128_unwrap_raw out input;
  if ret =? 0 then Done (0, out)
  else
    let iv := default default_iv iv in
    x ← CRYPTO_memcmp got_iv iv 8;
    if negb (x =? 0) then
      out ← OPENSSL_cleanse out 0 ret;
      Done (0, out)
    else Done (ret, out).

(** The alternative initial value of RFC 5649. *)
Definition make_aiv (icv : option bytes) (inlen : Z) : outcome bytes :=
  a ← read_at (default default_aiv icv) 0 4;
  Done (a ++ [Z.land (Z.shiftr inlen 24) 0xFF; Z.land (Z.shiftr inlen 16) 0xFF;
              Z.land (Z.shiftr inlen 8) 0xFF; Z.land inlen 0xFF]).

Definition CRYPTO_128_wrap_pad (icv : option bytes) (out input : bytes) : outcome (Z * bytes) :=
  let inlen := zlen input in
  let blocks_padded := u32 (inlen + 7) / 8 in
  let padded_len := u32 (blocks_padded * 8) in
  let padding_len := u32 (padded_len - inlen) in
  if (inlen =? 0) || (CRYPTO128_WRAP_MAX <=? inlen) then Done (0, out)
  else
    aiv ← make_aiv icv inlen;
    if padded_len =? 8 then
      out ← write_at out 8 input;
      out ← write_at out 0 aiv;
      out ← write_at out (8 + inlen) (memset0 (Z.to_nat padding_len));
      x ← read_at out 0 16;
      out ← write_at out 0 (block x);
      Done (16, out)
    else
      out ← write_at out 0 input;
      out ← write_at out inlen (memset0 (Z.to_nat padding_len));
      input ← read_at out 0 padded_len;
      CRYPTO_128_wrap (Some aiv) out input.

(** What unwrapping does with the vector and the plain text it has got. *)
Definition check_aiv (icv : option bytes) (inlen n padded_len : Z) (aiv out : bytes) : outcome (Z * bytes) :=
  let refuse := out ← OPENSSL_cleanse out 0 inlen; Done (0, out) in
  x ← CRYPTO_memcmp aiv (default default_aiv icv) 4;
  if negb (x =? 0) then refuse
  else
    let ptext_len := Z.lor (Z.lor (Z.lor (u32 (Z.shiftl (nth 4 aiv 0) 24)) (Z.shiftl (nth 5 aiv 0) 16))
                             (Z.shiftl (nth 6 aiv 0) 8)) (nth 7 aiv 0) in
    if (ptext_len <=? u32 (8 * u32 (n - 1))) || (u32 (8 * n) <? ptext_len) then refuse
    else
      let padding_len := u32 (padded_len - ptext_len) in
      d ← read_at out ptext_len padding_len;
      x ← CRYPTO_memcmp d (memset0 8) padding_len;
      if negb (x =? 0) then refuse
      else Done (ptext_len, out).

Definition CRYPTO_128_unwrap_pad (icv : option bytes) (out input : bytes) : outcome (Z * bytes) :=
  let inlen := zlen input in
  let n := u32 (inlen / 8 - 1) in
  if negb (Z.land inlen 0x7 =? 0) || (inlen <? 16) || (CRYPTO128_WRAP_MAX <=? inlen) then Done (0, out)
  else if inlen =? 16 then
    let buff := block input in
    out ← write_at out 0 (drop 8 buff);
    check_aiv icv inlen n 8 (take 8 buff) out
  else
    let padded_len := inlen - 8 in
    '(ret, aiv, out) ← crypto_128_unwrap_raw out input;
    if negb (padded_len =? ret) then
      out ← OPENSSL_cleanse out 0 inlen;
      Done (0, out)
    else check_aiv icv inlen n padded_len aiv out.
End wrap128.

(** ** RFC 3394

    The registers of 2.2.1 and 2.2.2: [A] and the blocks [R] are 64 bits long. *)

Definition be64 (t : Z) : bytes := [0; 0; 0; 0; Z.land (Z.shiftr t 24) 255; Z.land (Z.shiftr t 16) 255;
                                    Z.land (Z.shiftr t 8) 255; Z.land t 255].

Section rfc3394.
Context `{BlockCipher}.

(** For i = 1 to n: B = AES(K, A | R[i]), A = MSB(64, B) ^ t, R[i] = LSB(64, B). *)
Fixpoint rfc_pass (t : Z) (A : bytes) (R : list bytes) : bytes * list bytes :=
  match R with
  | [] => (A, [])
  | r :: R' =>
      let B := encipher (A ++ r) in
      let '(A', R'') := rfc_pass (t + 1) (xor_bytes (take 8 B) (be64 t)) R' in
      (A', drop 8 B :: R'')
  end.

Fixpoint rfc_passes (j : nat) (t : Z) (A : bytes) (R : list bytes) : bytes * list bytes :=
  match j with
  | O => (A, R)
  | S j' => let '(A, R) := rfc_pass t A R in rfc_passes j' (t + Z.of_nat (length R)) A R
  end.

(** C[0] | C[1] | ... | C[n]. *)
Definition rfc_wrap (iv : bytes) (P : list bytes) : bytes :=
  let '(A, R) := rfc_passes 6 1 iv P in
  A ++ concat R.

(** The inverse: the blocks from the last to the first. *)
Fixpoint rfc_unpass (t : Z) (A : bytes) (RR : list bytes) : bytes * list bytes :=
  match RR with
  | [] => (A, [])
  | r :: RR' =>
      let B := decipher (xor_bytes A (be64 t) ++ r) in
      let '(A', RR'') := rfc_unpass (t - 1) (take 8 B) RR' in
      (A', drop 8 B :: RR'')
  end.

Fixpoint rfc_unpasses (j : nat) (t : Z) (A : bytes) (R : list bytes) : bytes * list bytes :=
  match j with
  | O => (A, R)
  | S j' =>
      let '(A, RR) := rfc_unpass t A (rev R) in
      rfc_unpasses j' (t - Z.of_nat (length R)) A (rev RR)
  end.
End rfc3394.

(** ** Buffers *)

Lemma read_at_mid pre mid post off n :
  off = zlen pre -> n = zlen mid -> read_at (pre ++ mid ++ post) off n = Done mid.
Proof.
  intros -> ->. unfold read_at. rewrite !zlen_app. pose proof (zlen_nonneg pre). pose proof (zlen_nonneg post).
  decide_z. unfold zlen. by rewrite !Nat2Z.id, drop_app_length, take_app_length.
Qed.

Lemma read_at_start mid post n : n = zlen mid -> read_at (mid ++ post) 0 n = Done mid.
Proof. intros ->. by apply (read_at_mid [] mid post). Qed.

Lemma read_at_all mid n : n = zlen mid -> read_at mid 0 n = Done mid.
Proof. intros ->. rewrite <- (app_nil_r mid) at 1. by apply read_at_start. Qed.

Lemma write_at_mid pre mid post off d :
  off = zlen pre -> zlen d = zlen mid -> write_at (pre ++ mid ++ post) off d = Done (pre ++ d ++ post).
Proof.
  intros -> Hd. pose proof (zlen_nonneg pre). pose proof (zlen_nonneg post).
  rewrite write_at_done by (rewrite ?zlen_app; lia). rewrite Hd. unfold zlen.
  rewrite Nat2Z.id, take_app_length, <- Nat2Z.inj_add, Nat2Z.id, (app_assoc pre mid post).
  rewrite drop_app_length' by (by rewrite length_app).
  done.
Qed.

Lemma write_at_start mid post d : zlen d = zlen mid -> write_at (mid ++ post) 0 d = Done (d ++ post).
Proof. intros Hd. by apply (write_at_mid [] mid post). Qed.

Lemma memcmp_loop_zero a b x :
  bytes_ok a -> bytes_ok b -> length a = length b -> 0 <= x -> memcmp_loop a b x = 0 <-> x = 0 /\ a = b.
Proof.
  intros Ha. revert b x. induction Ha as [|c a Hc _ IH]; intros b x Hb Hl Hx.
  - destruct b; [|done]. simpl. naive_solver.
  - destruct Hb as [|d b Hd Hb]; [done|]. cbn [memcmp_loop]. injection Hl as Hl.
    pose proof (byte_lxor c d Hc Hd) as Hcd. unfold byte_ok in Hcd.
    rewrite IH; [|done|done|apply Z.lor_nonneg; lia]. rewrite Z.lor_eq_0_iff, Z.lxor_eq_0_iff. naive_solver.
Qed.

(** CRYPTO_memcmp compares the first [n] bytes. *)
Lemma memcmp_spec a a' b b' n :
  bytes_ok a -> bytes_ok b -> zlen a = n -> zlen b = n ->
  exists x, CRYPTO_memcmp (a ++ a') (b ++ b') n = Done x /\ (x = 0 <-> a = b).
Proof.
  intros Ha Hb Hla Hlb. unfold CRYPTO_memcmp. rewrite !read_at_start by done. cbn [mbind outcome_bind].
  eexists. split; [done|]. rewrite memcmp_loop_zero; [naive_solver|done|done|unfold zlen in *; lia|lia].
Qed.

Lemma memcmp_whole a b n :
  bytes_ok a -> bytes_ok b -> zlen a = n -> zlen b = n ->
  exists x, CRYPTO_memcmp a b n = Done x /\ (x = 0 <-> a = b).
Proof.
  intros Ha Hb Hla Hlb. destruct (memcmp_spec a [] b [] n Ha Hb Hla Hlb) as (x & Hx & Heq).
  rewrite !app_nil_r in Hx. by exists x.
Qed.

Lemma zlen_memset0 n : 0 <= n -> zlen (memset0 (Z.to_nat n)) = n.
Proof. intros Hn. unfold zlen, memset0. rewrite length_replicate. lia. Qed.

Lemma memset0_ok n : bytes_ok (memset0 n).
Proof. apply Forall_replicate. unfold byte_ok. lia. Qed.

(** What OPENSSL_cleanse writes, and beyond which size it does not fit. *)
Lemma cleanse_spec out n :
  0 <= n ->
  OPENSSL_cleanse out 0 n =
    if zlen out <? n then Crash BufferOverflow else Done (memset0 (Z.to_nat n) ++ drop (Z.to_nat n) out).
Proof.
  intros Hn. unfold OPENSSL_cleanse. destruct (Z.ltb_spec (zlen out) n).
  - apply write_at_overflow. by rewrite zlen_memset0.
  - rewrite write_at_done by (rewrite ?zlen_memset0; lia). rewrite zlen_memset0 by done. done.
Qed.

(** ** The counter *)

Lemma be64_length t : length (be64 t) = 8%nat.
Proof. done. Qed.

Lemma be64_ok t : bytes_ok (be64 t).
Proof.
  assert (Hl : forall x, byte_ok (Z.land x 255)) by (intros x; rewrite land_255; apply Z.mod_pos_bound; lia).
  unfold be64, bytes_ok. rewrite !Forall_cons. unfold byte_ok at 1 2 3 4. split_and!; auto; lia.
Qed.

Lemma u8_byte x : u8 (Z.land x 0xff) = Z.land x 255.
Proof. change 0xff with 255. rewrite land_255. unfold u8, wrap. change (2 ^ 8) with 256. by apply Z.mod_mod. Qed.

(** XORing the low byte alone is enough when the others are zero. *)
Lemma xor_counter_be64 A t : length A = 8%nat -> 0 <= t < 4294967296 -> xor_counter A t = xor_bytes A (be64 t).
Proof.
  intros HA Ht. do 8 (destruct A as [|? A]; [done|]). destruct A; [|done].
  unfold xor_counter, be64. rewrite !u8_byte. destruct (Z.ltb_spec 0xff t) as [Hlt|Hle].
  - cbn [alter list_alter xor_bytes]. by rewrite !Z.lxor_0_r.
  - assert (Hz : forall k, 8 <= k -> Z.shiftr t k = 0).
    { intros k Hk. rewrite Z.shiftr_div_pow2 by lia. apply Z.div_small. split; [lia|].
      apply Z.lt_le_trans with (2 ^ 8); [lia|]. apply Z.pow_le_mono_r; lia. }
    rewrite !Hz by lia. cbn [alter list_alter xor_bytes]. by rewrite !Z.lxor_0_r.
Qed.

Lemma xor_bytes_twice a c : length a = length c -> xor_bytes (xor_bytes a c) c = a.
Proof.
  revert c. induction a as [|x a IH]; intros [|y c] Hl; try done. simpl in *. by rewrite lxor_twice, IH by lia.
Qed.

(** ** The loops are the passes of the RFC *)

Definition blocks64 (rs : list bytes) : Prop := Forall (fun r => length r = 8%nat) rs.
Definition blocks_ok (rs : list bytes) : Prop := Forall bytes_ok rs.

Lemma blocks64_length rs : blocks64 rs -> zlen (concat rs) = 8 * zlen rs.
Proof.
  intros Hrs. induction Hrs as [|r rs Hr _ IH]; [done|]. cbn [concat]. rewrite zlen_app, zlen_cons, IH.
  unfold zlen at 1. lia.
Qed.

Section passes.
Context `{BlockLaws}.

Lemma halves (B : bytes) : length B = 16%nat -> length (take 8 B) = 8%nat /\ length (drop 8 B) = 8%nat.
Proof. rewrite length_take, length_drop. lia. Qed.

Lemma rfc_pass_shape t A rs :
  length A = 8%nat -> blocks64 rs ->
  let '(A', rs') := rfc_pass t A rs in
  length A' = 8%nat /\ blocks64 rs' /\ length rs' = length rs /\
  (bytes_ok A -> blocks_ok rs -> bytes_ok A' /\ blocks_ok rs').
Proof.
  intros HA Hrs. revert t A HA. induction Hrs as [|r rs Hr _ IH]; intros t A HA; cbn [rfc_pass].
  { split_and!; auto. constructor. }
  assert (HB : length (A ++ r) = 16%nat) by (rewrite length_app; lia).
  pose proof (encipher_length _ HB) as HE. destruct (halves _ HE) as [Ht Hd].
  specialize (IH (t + 1) (xor_bytes (take 8 (encipher (A ++ r))) (be64 t))).
  rewrite xor_bytes_length, Ht in IH. specialize (IH eq_refl).
  destruct (rfc_pass (t + 1) _ rs) as [A' rs']. destruct IH as (HA' & Hrs' & Hlen & Hok).
  split_and!; [done|by constructor|simpl; by rewrite Hlen|]. intros HAok Hrsok.
  apply Forall_cons in Hrsok as [Hrok Hrsok].
  pose proof (encipher_bytes _ HB ltac:(by apply Forall_app)) as HEok.
  destruct (Forall_drop_take byte_ok 8 _ HEok) as [H1 H2].
  destruct Hok as [HA2 Hrs2]; [apply xor_bytes_ok; [done|apply be64_ok]|done|]. split; [done|by constructor].
Qed.

Lemma wrap_pass_rfc rs pre post t A :
  length A = 8%nat -> blocks64 rs -> 0 <= t -> t + zlen rs < 4294967296 ->
  wrap_pass encipher (length rs) (zlen pre) t A (pre ++ concat rs ++ post) =
    (let '(A', rs') := rfc_pass t A rs in Done (t + zlen rs, A', pre ++ concat rs' ++ post)).
Proof.
  intros HA Hrs. revert pre t A HA. induction Hrs as [|r rs Hr _ IH]; intros pre t A HA Ht Hn; cbn [wrap_pass rfc_pass length concat].
  { change (zlen (@nil bytes)) with 0. by rewrite Z.add_0_r. }
  rewrite zlen_cons in Hn. pose proof (zlen_nonneg rs).
  assert (Hrl : 8 = zlen r) by (unfold zlen; lia).
  rewrite <- app_assoc, (read_at_mid pre r) by done. cbn [mbind outcome_bind].
  assert (HB : length (A ++ r) = 16%nat) by (rewrite length_app; lia).
  destruct (halves _ (encipher_length _ HB)) as [Htk Hdr].
  rewrite write_at_mid by (done || unfold zlen; lia). cbn [mbind outcome_bind].
  rewrite xor_counter_be64, u32_small by (done || lia).
  specialize (IH (pre ++ drop 8 (encipher (A ++ r))) (t + 1) (xor_bytes (take 8 (encipher (A ++ r))) (be64 t))).
  rewrite xor_bytes_length, Htk in IH. specialize (IH eq_refl ltac:(lia) ltac:(lia)).
  rewrite zlen_app in IH. rewrite <- !app_assoc in IH.
  replace (zlen (drop 8 (encipher (A ++ r)))) with 8 in IH by (unfold zlen; lia). rewrite IH.
  destruct (rfc_pass (t + 1) _ rs) as [A' rs']. cbn [concat]. rewrite zlen_cons, <- !app_assoc. do 3 f_equal. lia.
Qed.

Lemma wrap_passes_rfc j rs pre post t A :
  length A = 8%nat -> blocks64 rs -> zlen pre = 8 -> 0 <= t -> t + Z.of_nat j * zlen rs < 4294967296 ->
  wrap_passes encipher j (length rs) t A (pre ++ concat rs ++ post) =
    (let '(A', rs') := rfc_passes j t A rs in Done (A', pre ++ concat rs' ++ post)).
Proof.
  intros HA Hrs Hpre. revert t A rs HA Hrs. induction j as [|j IH]; intros t A rs HA Hrs Ht Hn; cbn [wrap_passes rfc_passes]; [done|].
  pose proof (zlen_nonneg rs). rewrite <- Hpre at 1. rewrite wrap_pass_rfc by (done || lia).
  pose proof (rfc_pass_shape t A rs HA Hrs) as Hs. destruct (rfc_pass t A rs) as [A1 rs1].
  destruct Hs as (HA1 & Hrs1 & Hlen & _). cbn [mbind outcome_bind].
  assert (Hz : zlen rs1 = zlen rs) by (unfold zlen; lia). rewrite <- Hlen at 1.
  rewrite IH by (done || lia). fold (zlen rs1). by rewrite Hz.
Qed.

(** Unwrapping walks back from the last block. *)
Lemma rfc_unpass_shape t A rr :
  length A = 8%nat -> blocks64 rr ->
  let '(A', rr') := rfc_unpass t A rr in length A' = 8%nat /\ blocks64 rr' /\ length rr' = length rr.
Proof.
  intros HA Hrs. revert t A HA. induction Hrs as [|r rs Hr _ IH]; intros t A HA; cbn [rfc_unpass].
  { split_and!; auto. constructor. }
  assert (HB : length (xor_bytes A (be64 t) ++ r) = 16%nat) by (rewrite length_app, xor_bytes_length, HA, Hr; done).
  destruct (halves _ (decipher_length _ HB)) as [Ht Hd].
  specialize (IH (t - 1) _ Ht). destruct (rfc_unpass (t - 1) _ rs) as [A' rs'].
  destruct IH as (HA' & Hrs' & Hlen). split_and!; [done|by constructor|simpl; by rewrite Hlen].
Qed.

Lemma unwrap_pass_rfc rr post t A :
  length A = 8%nat -> blocks64 rr -> zlen rr <= t < 4294967296 ->
  unwrap_pass decipher (length rr) (8 * zlen rr - 8) t A (concat (rev rr) ++ post) =
    (let '(A', rr') := rfc_unpass t A rr in Done (t - zlen rr, A', concat (rev rr') ++ post)).
Proof.
  intros HA Hrs. revert post t A HA. induction Hrs as [|r rs Hr Hrs IH]; intros post t A HA Ht; cbn [unwrap_pass rfc_unpass length].
  { change (zlen (@nil bytes)) with 0. by rewrite Z.sub_0_r. }
  rewrite zlen_cons in *. pose proof (zlen_nonneg rs). cbn [rev]. rewrite concat_app. cbn [concat]. rewrite app_nil_r.
  rewrite xor_counter_be64 by (done || lia).
  assert (HB : length (xor_bytes A (be64 t) ++ r) = 16%nat) by (rewrite length_app, xor_bytes_length, HA, Hr; done).
  destruct (halves _ (decipher_length _ HB)) as [Htk Hdr].
  assert (Hoff : 8 * (1 + zlen rs) - 8 = zlen (concat (rev rs))).
  { rewrite blocks64_length by (by apply Forall_rev). unfold zlen. rewrite length_rev. lia. }
  rewrite <- app_assoc, (read_at_mid _ r) by (done || unfold zlen; lia). cbn [mbind outcome_bind].
  rewrite write_at_mid by (done || unfold zlen; lia). cbn [mbind outcome_bind].
  rewrite u32_small by lia. replace (8 * (1 + zlen rs) - 8 - 8) with (8 * zlen rs - 8) by lia.
  rewrite IH by (done || lia). destruct (rfc_unpass (t - 1) _ rs) as [A' rs']. cbn [rev].
  rewrite concat_app. cbn [concat]. rewrite app_nil_r, <- !app_assoc. do 3 f_equal. lia.
Qed.

Lemma unwrap_passes_rfc j rs post t A :
  length A = 8%nat -> blocks64 rs -> Z.of_nat j * zlen rs <= t < 4294967296 ->
  unwrap_passes decipher j (length rs) (8 * zlen rs) t A (concat rs ++ post) =
    (let '(A', rs') := rfc_unpasses j t A rs in Done (A', concat rs' ++ post)).
Proof.
  revert t A rs. induction j as [|j IH]; intros t A rs HA Hrs Ht; cbn [unwrap_passes rfc_unpasses]; [done|].
  pose proof (zlen_nonneg rs). pose proof (unwrap_pass_rfc (rev rs) post t A HA ltac:(by apply Forall_rev)) as Hp.
  assert (Hz : zlen (rev rs) = zlen rs) by (unfold zlen; by rewrite length_rev).
  rewrite rev_involutive, length_rev, Hz in Hp. rewrite Hp by lia.
  pose proof (rfc_unpass_shape t A (rev rs) HA ltac:(by apply Forall_rev)) as Hs.
  destruct (rfc_unpass t A (rev rs)) as [A1 rr1]. destruct Hs as (HA1 & Hrs1 & Hlen). cbn [mbind outcome_bind].
  rewrite length_rev in Hlen. assert (Hz1 : zlen (rev rr1) = zlen rs) by (unfold zlen; by rewrite length_rev, Hlen).
  specialize (IH (t - zlen rs) A1 (rev rr1) HA1 ltac:(by apply Forall_rev)).
  rewrite Hz1, length_rev, Hlen in IH. by rewrite IH by lia.
Qed.

(** *** Unwrapping undoes wrapping *)

Lemma rfc_pass_snoc t A rs r :
  rfc_pass t A (rs ++ [r]) =
    (let '(A1, rs1) := rfc_pass t A rs in
     let B := encipher (A1 ++ r) in (xor_bytes (take 8 B) (be64 (t + zlen rs)), rs1 ++ [drop 8 B])).
Proof.
  revert t A. induction rs as [|r0 rs IH]; intros t A; cbn [app rfc_pass].
  - change (zlen (@nil bytes)) with 0. by rewrite Z.add_0_r.
  - rewrite IH. destruct (rfc_pass (t + 1) _ rs) as [A1 rs1]. rewrite zlen_cons. cbn [app].
    by replace (t + 1 + zlen rs) with (t + (1 + zlen rs)) by lia.
Qed.

Lemma rfc_unpass_pass t A rs :
  length A = 8%nat -> bytes_ok A -> blocks64 rs -> blocks_ok rs ->
  let '(A', rs') := rfc_pass t A rs in rfc_unpass (t + zlen rs - 1) A' (rev rs') = (A, rev rs).
Proof.
  intros HA HAok. induction rs as [|r rs IH] using rev_ind; intros Hrs Hok; [done|].
  apply Forall_app in Hrs as [Hrs Hr]. apply Forall_app in Hok as [Hok Hrok].
  apply Forall_cons in Hr as [Hr _]. apply Forall_cons in Hrok as [Hrok _]. specialize (IH Hrs Hok). rewrite rfc_pass_snoc.
  pose proof (rfc_pass_shape t A rs HA Hrs) as Hs. destruct (rfc_pass t A rs) as [A1 rs1].
  destruct Hs as (HA1 & _ & _ & Hs). destruct (Hs HAok Hok) as [HA1ok _]. cbn zeta.
  assert (HB : length (A1 ++ r) = 16%nat) by (rewrite length_app; lia).
  destruct (halves _ (encipher_length _ HB)) as [Htk Hdr].
  rewrite !rev_app_distr. cbn [rev app rfc_unpass]. rewrite zlen_app.
  replace (t + (zlen rs + zlen [r]) - 1) with (t + zlen rs) by (unfold zlen; simpl; lia).
  rewrite xor_bytes_twice by (by rewrite Htk). rewrite take_drop, decipher_encipher by (done || by apply Forall_app).
  rewrite take_app_length', drop_app_length' by done. by rewrite IH.
Qed.

Lemma rfc_passes_shape j t A rs :
  length A = 8%nat -> blocks64 rs -> bytes_ok A -> blocks_ok rs ->
  let '(A', rs') := rfc_passes j t A rs in
  length A' = 8%nat /\ blocks64 rs' /\ length rs' = length rs /\ bytes_ok A' /\ blocks_ok rs'.
Proof.
  revert t A rs. induction j as [|j IH]; intros t A rs HA Hrs HAok Hok; cbn [rfc_passes]; [done|].
  pose proof (rfc_pass_shape t A rs HA Hrs) as Hs. destruct (rfc_pass t A rs) as [A1 rs1].
  destruct Hs as (HA1 & Hrs1 & Hlen & Hs). destruct (Hs HAok Hok) as [HA1ok Hok1].
  specialize (IH (t + Z.of_nat (length rs1)) A1 rs1 HA1 Hrs1 HA1ok Hok1).
  destruct (rfc_passes j _ A1 rs1) as [A2 rs2]. naive_solver congruence.
Qed.

Lemma rfc_passes_length j t A rs :
  length A = 8%nat -> blocks64 rs -> length (fst (rfc_passes j t A rs)) = 8%nat.
Proof.
  revert t A rs. induction j as [|j IH]; intros t A rs HA Hrs; cbn [rfc_passes]; [done|].
  pose proof (rfc_pass_shape t A rs HA Hrs) as Hs. destruct (rfc_pass t A rs) as [A1 rs1].
  apply IH; apply Hs.
Qed.

(** One pass more at the end. *)
Lemma rfc_unpasses_snoc j t A rs :
  blocks64 rs -> length A = 8%nat ->
  rfc_unpasses (S j) t A rs =
    (let '(A1, rs1) := rfc_unpasses j t A rs in
     let '(A2, rr2) := rfc_unpass (t - Z.of_nat j * zlen rs) A1 (rev rs1) in (A2, rev rr2)).
Proof.
  revert t A rs. induction j as [|j IH]; intros t A rs Hrs HA.
  { cbn [rfc_unpasses]. rewrite Z.sub_0_r. by destruct (rfc_unpass t A (rev rs)). }
  remember (S j) as j1. cbn [rfc_unpasses]. 
  pose proof (rfc_unpass_shape t A (rev rs) HA ltac:(by apply Forall_rev)) as Hs.
  subst j1. cbn [rfc_unpasses] in IH |- *.
  destruct (rfc_unpass t A (rev rs)) as [A1 rr1]. destruct Hs as (HA1 & Hrr1 & Hlen). rewrite length_rev in Hlen.
  rewrite IH by (by apply Forall_rev || done).
  destruct (rfc_unpasses j _ A1 (rev rr1)) as [A2 rs2].
  assert (Hz : zlen (rev rr1) = zlen rs) by (unfold zlen; by rewrite length_rev, Hlen). rewrite Hz.
  by replace (t - Z.of_nat (length rs) - Z.of_nat j * zlen rs) with (t - Z.of_nat (S j) * zlen rs) by (unfold zlen; lia).
Qed.

Lemma rfc_unpasses_passes j t A rs :
  length A = 8%nat -> bytes_ok A -> blocks64 rs -> blocks_ok rs ->
  let '(A', rs') := rfc_passes j t A rs in rfc_unpasses j (t + Z.of_nat j * zlen rs - 1) A' rs' = (A, rs).
Proof.
  revert t A rs. induction j as [|j IH]; intros t A rs HA HAok Hrs Hok; [done|]. cbn [rfc_passes].
  pose proof (rfc_pass_shape t A rs HA Hrs) as Hs. pose proof (rfc_unpass_pass t A rs HA HAok Hrs Hok) as Hun.
  destruct (rfc_pass t A rs) as [A1 rs1]. destruct Hs as (HA1 & Hrs1 & Hlen & Hs). destruct (Hs HAok Hok) as [HA1ok Hok1].
  specialize (IH (t + Z.of_nat (length rs1)) A1 rs1 HA1 HA1ok Hrs1 Hok1).
  pose proof (rfc_passes_shape j (t + Z.of_nat (length rs1)) A1 rs1 HA1 Hrs1 HA1ok Hok1) as Hs2.
  destruct (rfc_passes j _ A1 rs1) as [A2 rs2]. destruct Hs2 as (HA2 & Hrs2 & Hlen2 & _).
  rewrite rfc_unpasses_snoc by done.
  assert (Hz1 : zlen rs1 = zlen rs) by (unfold zlen; lia). assert (Hz2 : zlen rs2 = zlen rs) by (unfold zlen; lia).
  fold (zlen rs1) in IH. rewrite Hz1 in IH. rewrite Hz2.
  replace (t + Z.of_nat (S j) * zlen rs - 1) with (t + zlen rs + Z.of_nat j * zlen rs - 1) by lia.
  rewrite IH. replace (t + zlen rs + Z.of_nat j * zlen rs - 1 - Z.of_nat j * zlen rs) with (t + zlen rs - 1) by lia.
  rewrite Hun. by rewrite rev_involutive.
Qed.
End passes.

(** ** Blocks of a buffer *)

Definition blocks (input : bytes) : list bytes := pieces (length input) 8 input.

Lemma land_7 x : Z.land x 0x7 = x mod 8.
Proof. change 0x7 with (Z.ones 3). by rewrite Z.land_ones. Qed.

Lemma pieces64 fuel (input : bytes) :
  (length input <= fuel)%nat -> (length input mod 8 = 0)%nat ->
  blocks64 (pieces fuel 8 input) /\ (bytes_ok input -> blocks_ok (pieces fuel 8 input)).
Proof.
  revert input. induction fuel as [|fuel IH]; intros input Hl Hm; cbn [pieces]; [by split; [constructor|constructor]|].
  destruct input as [|x input]; [by split; [constructor|constructor]|]. remember (x :: input) as inp eqn:Einp.
  assert (H8 : (8 <= length inp)%nat).
  { destruct (Nat.le_gt_cases 8 (length inp)) as [|Hlt]; [done|]. rewrite Nat.mod_small in Hm by done. by subst. }
  destruct (IH (drop 8 inp)) as [IH1 IH2]; [rewrite length_drop; lia| |].
  { rewrite length_drop. replace (length inp) with (length inp - 8 + 1 * 8)%nat in Hm by lia.
    by rewrite Nat.Div0.mod_add in Hm. }
  split; [constructor; [rewrite length_take; lia|done]|].
  intros Hok. destruct (Forall_drop_take byte_ok 8 inp Hok) as [Ht Hd]. constructor; [done|by apply IH2].
Qed.

Lemma blocks_spec input :
  zlen input mod 8 = 0 ->
  blocks64 (blocks input) /\ concat (blocks input) = input /\ zlen input = 8 * zlen (blocks input) /\
  (bytes_ok input -> blocks_ok (blocks input)).
Proof.
  intros Hm. assert (Hn : (length input mod 8 = 0)%nat) by (apply Nat2Z.inj; rewrite Nat2Z.inj_mod; exact Hm).
  destruct (pieces64 (length input) input ltac:(lia) Hn) as [H1 H2]. fold (blocks input) in H1, H2.
  assert (Hc : concat (blocks input) = input) by (apply concat_pieces; lia).
  split_and!; [done|done| |done]. rewrite <- Hc at 1. by apply blocks64_length.
Qed.

(** The parts of a buffer. *)
Lemma split_buffer (out : bytes) a n :
  0 <= a -> 0 <= n -> a + n <= zlen out ->
  exists pre mid, zlen pre = a /\ zlen mid = n /\ out = pre ++ mid ++ drop (Z.to_nat (a + n)) out.
Proof.
  intros Ha Hn Hl. exists (take (Z.to_nat a) out), (take (Z.to_nat n) (drop (Z.to_nat a) out)). unfold zlen in *.
  rewrite !length_take, length_drop. split_and!; [lia..|].
  rewrite Z2Nat.inj_add, <- drop_drop, !take_drop by done. done.
Qed.

Lemma split_two (l : bytes) a c :
  0 <= a -> 0 <= c -> zlen l = a + c -> exists l1 l2, zlen l1 = a /\ zlen l2 = c /\ l = l1 ++ l2.
Proof.
  intros Ha Hc Hl. exists (take (Z.to_nat a) l), (drop (Z.to_nat a) l). unfold zlen in *.
  rewrite length_take, length_drop, take_drop. split_and!; [lia..|done].
Qed.

Lemma split_front (out : bytes) n :
  0 <= n <= zlen out -> exists l, zlen l = n /\ out = l ++ drop (Z.to_nat n) out.
Proof.
  intros Hn. exists (take (Z.to_nat n) out). unfold zlen in *. rewrite length_take, take_drop. split; [lia|done].
Qed.

(** ** The functions *)

Section wrap_specs.
Context `{BlockLaws}.
Implicit Types (iv icv : option bytes) (out input : bytes).

Definition wrap_length (n : Z) : Prop := n mod 8 = 0 /\ 16 <= n <= 2147483648.

(** Lengths that are refused: nothing is written. *)
Lemma wrap_refused block iv out input :
  ~ wrap_length (zlen input) -> CRYPTO_128_wrap block iv out input = Done (0, out).
Proof.
  intros Hl. unfold CRYPTO_128_wrap. rewrite land_7. change CRYPTO128_WRAP_MAX with 2147483648.
  destruct (_ || _) eqn:Hc; [done|]. exfalso. apply Hl.
  apply orb_false_elim in Hc as [[H1%negb_false_iff%Z.eqb_eq H2%Z.ltb_ge]%orb_false_elim H3%Z.ltb_ge].
  by repeat split.
Qed.

Lemma wrap_ready n : wrap_length n ->
  negb (Z.land n 0x7 =? 0) || (n <? 16) || (CRYPTO128_WRAP_MAX <? n) = false.
Proof.
  intros [Hm Hn]. rewrite land_7, Hm. change CRYPTO128_WRAP_MAX with 2147483648. by decide_z.
Qed.

Lemma wrap_rfc iv out input :
  wrap_length (zlen input) -> length (default default_iv iv) = 8%nat -> zlen input + 8 <= zlen out ->
  CRYPTO_128_wrap encipher iv out input =
    Done (zlen input + 8, rfc_wrap (default default_iv iv) (blocks input) ++ drop (Z.to_nat (8 + zlen input)) out).
Proof.
  intros Hl Hiv Hout. unfold CRYPTO_128_wrap. rewrite wrap_ready by done. destruct Hl as [Hm Hn].
  destruct (blocks_spec input Hm) as (H64 & Hcat & Hz & _).
  destruct (split_buffer out 8 (zlen input)) as (pre & mid & Hpre & Hmid & Hsplit); [lia..|].
  rewrite Hsplit at 1. rewrite write_at_mid by done. cbn [mbind outcome_bind].
  rewrite read_at_all by (unfold zlen; by rewrite Hiv). cbn [mbind outcome_bind].
  rewrite <- Hcat at 2. replace (Z.to_nat (zlen input / 8)) with (length (blocks input)).
  2:{ rewrite Hz, Z.mul_comm, Z.div_mul by lia. unfold zlen. by rewrite Nat2Z.id. }
  rewrite wrap_passes_rfc by (done || lia). unfold rfc_wrap.
  pose proof (rfc_passes_length 6 1 (default default_iv iv) (blocks input) Hiv H64) as Hs.
  destruct (rfc_passes 6 1 _ (blocks input)) as [A' R']. simpl in Hs. cbn [mbind outcome_bind].
  rewrite write_at_start by (unfold zlen in *; lia). cbn [mbind outcome_bind].
  rewrite u32_small by lia. by rewrite <- app_assoc.
Qed.

Lemma unwrap_raw_rfc out A rs :
  length A = 8%nat -> blocks64 rs -> wrap_length (8 * zlen rs) -> 8 * zlen rs <= zlen out ->
  crypto_128_unwrap_raw decipher out (A ++ concat rs) =
    (let '(A', rs') := rfc_unpasses 6 (6 * zlen rs) A rs in
     Done (8 * zlen rs, A', concat rs' ++ drop (Z.to_nat (8 * zlen rs)) out)).
Proof.
  intros HA Hrs Hl Hout. unfold crypto_128_unwrap_raw. rewrite zlen_app, blocks64_length by done.
  assert (HAz : zlen A = 8) by (unfold zlen; lia). rewrite HAz. pose proof Hl as [Hm Hn].
  replace (8 + 8 * zlen rs - 8) with (8 * zlen rs) by lia. rewrite u32_small by lia.
  rewrite wrap_ready by done. rewrite Z.shiftr_div_pow2 by lia. change (2 ^ 3) with 8.
  replace (8 * zlen rs / 8) with (zlen rs) by (rewrite Z.mul_comm, Z.div_mul; lia). rewrite u32_small by lia.
  rewrite read_at_start by done. cbn [mbind outcome_bind].
  assert (Hd : read_at (A ++ concat rs) 8 (8 * zlen rs) = Done (concat rs)).
  { rewrite <- (app_nil_r (concat rs)) at 1. apply read_at_mid; [done|by rewrite blocks64_length]. }
  rewrite Hd. cbn [mbind outcome_bind].
  destruct (split_front out (8 * zlen rs)) as (mid & Hmid & Hsplit); [lia|].
  rewrite Hsplit at 1. rewrite write_at_start by (by rewrite blocks64_length). cbn [mbind outcome_bind].
  replace (Z.to_nat (zlen rs)) with (length rs) by (unfold zlen; by rewrite Nat2Z.id).
  rewrite unwrap_passes_rfc by (done || lia). by destruct (rfc_unpasses 6 _ A rs).
Qed.

(** Both together. *)
Lemma unwrap_raw_wrapped (iv : bytes) input out :
  wrap_length (zlen input) -> bytes_ok input -> length iv = 8%nat -> bytes_ok iv -> zlen input <= zlen out ->
  zlen (rfc_wrap iv (blocks input)) = zlen input + 8 /\
  crypto_128_unwrap_raw decipher out (rfc_wrap iv (blocks input)) =
    Done (zlen input, iv, input ++ drop (Z.to_nat (zlen input)) out).
Proof.
  intros Hl Hok Hiv Hivok Hout. destruct (blocks_spec input (proj1 Hl)) as (H64 & Hcat & Hz & Hbok).
  pose proof (rfc_passes_shape 6 1 iv (blocks input) Hiv H64 Hivok (Hbok Hok)) as Hs.
  pose proof (rfc_unpasses_passes 6 1 iv (blocks input) Hiv Hivok H64 (Hbok Hok)) as Hun. unfold rfc_wrap.
  destruct (rfc_passes 6 1 iv (blocks input)) as [A' rs']. destruct Hs as (HA' & H64' & Hlen & _ & _).
  assert (Hz' : zlen rs' = zlen (blocks input)) by (unfold zlen; lia).
  split; [rewrite zlen_app, blocks64_length by done; rewrite Hz', <- Hz; unfold zlen; lia|].
  rewrite unwrap_raw_rfc; [|done|done|by rewrite Hz', <- Hz|by rewrite Hz', <- Hz].
  replace (1 + Z.of_nat 6 * zlen (blocks input) - 1) with (6 * zlen rs') in Hun by lia.
  by rewrite Hun, Hz', <- Hz, Hcat.
Qed.
End wrap_specs.

(** ** Padding *)

(** The length field of the alternative initial value. *)
Lemma length_field n :
  0 <= n < 4294967296 ->
  Z.lor (Z.lor (Z.lor (u32 (Z.shiftl (Z.land (Z.shiftr n 24) 255) 24)) (Z.shiftl (Z.land (Z.shiftr n 16) 255) 16))
          (Z.shiftl (Z.land (Z.shiftr n 8) 255) 8)) (Z.land n 255) = n.
Proof.
  intros Hn. rewrite !land_255, !Z.shiftr_div_pow2 by lia. change (2 ^ 24) with 16777216. change (2 ^ 16) with 65536. change (2 ^ 8) with 256.
  set (b3 := n / 16777216 mod 256). set (b2 := n / 65536 mod 256). set (b1 := n / 256 mod 256). set (b0 := n mod 256).
  assert (Hb : 0 <= b3 < 256 /\ 0 <= b2 < 256 /\ 0 <= b1 < 256 /\ 0 <= b0 < 256) by (repeat split; try apply Z.mod_pos_bound; lia).
  rewrite u32_small by (rewrite Z.shiftl_mul_pow2 by lia; change (2 ^ 24) with 16777216; lia).
  rewrite <- !Z.lor_assoc. rewrite (lor_shiftl_low b1 8) by lia. rewrite (lor_shiftl_low b2 16) by lia.
  rewrite lor_shiftl_low by lia. unfold b3, b2, b1, b0. Z.to_euclidean_division_equations. lia.
Qed.

Definition len_bytes (n : Z) : bytes :=
  [Z.land (Z.shiftr n 24) 0xFF; Z.land (Z.shiftr n 16) 0xFF; Z.land (Z.shiftr n 8) 0xFF; Z.land n 0xFF].

Definition padded (n : Z) : Z := (n + 7) / 8 * 8.

Lemma padded_bounds n : 1 <= n < 2147483648 ->
  n <= padded n < n + 8 /\ padded n mod 8 = 0 /\ 8 <= padded n <= 2147483648.
Proof.
  intros Hn. unfold padded. rewrite Z.mod_mul by lia. pose proof (Z.div_mod (n + 7) 8 ltac:(lia)).
  pose proof (Z.mod_pos_bound (n + 7) 8 ltac:(lia)). lia.
Qed.

Section pad_specs.
Context `{BlockLaws}.
Implicit Types (icv : option bytes) (out input : bytes).

(** The value of the caller, or that of the standard, is four bytes. *)
Definition icv_ok icv : Prop := zlen (default default_aiv icv) = 4 /\ bytes_ok (default default_aiv icv).

Definition aiv_of icv (n : Z) : bytes := default default_aiv icv ++ len_bytes n.

Lemma make_aiv_done icv n : icv_ok icv -> make_aiv icv n = Done (aiv_of icv n).
Proof. intros [Hl _]. unfold make_aiv. by rewrite read_at_all. Qed.

Lemma aiv_length icv n : icv_ok icv -> length (aiv_of icv n) = 8%nat.
Proof. intros [Hl _]. unfold aiv_of, zlen in *. rewrite length_app. simpl. lia. Qed.

Lemma aiv_ok icv n : icv_ok icv -> bytes_ok (aiv_of icv n).
Proof.
  intros [_ Hok]. apply Forall_app. split; [done|].
  assert (Hl : forall x, byte_ok (Z.land x 0xFF)) by (intros x; change 0xFF with 255; rewrite land_255; apply Z.mod_pos_bound; lia).
  repeat constructor; apply Hl.
Qed.

(** Another value than the one it was wrapped with. *)
Lemma check_aiv_refused icv icv' inlen k P n out :
  icv_ok icv -> icv_ok icv' -> default default_aiv icv <> default default_aiv icv' -> 0 <= inlen ->
  check_aiv icv' inlen k P (aiv_of icv n) out =
    if zlen out <? inlen then Crash BufferOverflow
    else Done (0, memset0 (Z.to_nat inlen) ++ drop (Z.to_nat inlen) out).
Proof.
  intros [Hl Hok] [Hl' Hok'] Hne Hin. unfold check_aiv, aiv_of.
  destruct (memcmp_spec (default default_aiv icv) (len_bytes n) (default default_aiv icv') [] 4) as (x & Hx & Heq); [done..|].
  rewrite app_nil_r in Hx. rewrite Hx. cbn [mbind outcome_bind].
  destruct (Z.eqb_spec x 0) as [Hz|_]; [by apply Heq in Hz|]. cbn [negb].
  rewrite cleanse_spec by done. by destruct (zlen out <? inlen).
Qed.

(** The padded plain text under the right value. *)
Lemma check_aiv_accepted icv inlen input rest :
  icv_ok icv -> 1 <= zlen input < 2147483648 -> let n := zlen input in
  let out := input ++ memset0 (Z.to_nat (padded n - n)) ++ rest in
  check_aiv icv inlen (padded n / 8) (padded n) (aiv_of icv n) out = Done (n, out).
Proof.
  intros [Hl Hok] Hn n out. destruct (padded_bounds n Hn) as (Hp & Hm & Hp8). fold n in Hn.
  unfold check_aiv, aiv_of.
  destruct (memcmp_spec (default default_aiv icv) (len_bytes n) (default default_aiv icv) [] 4) as (x & Hx & Heq); [done..|].
  rewrite app_nil_r in Hx. rewrite Hx, (proj2 Heq eq_refl). cbn [mbind outcome_bind Z.eqb negb].
  remember (default default_aiv icv) as a eqn:Ea. clear Ea Hx Heq.
  do 4 (destruct a as [|? a]; [by cbv in Hl|]). destruct a; [|unfold zlen in Hl; simpl in Hl; lia].
  cbn [app nth len_bytes]. change 0xFF with 255. rewrite length_field by lia.
  assert (Hd : padded n / 8 * 8 = padded n) by (rewrite Z.mul_comm; symmetry; apply Z.div_exact; lia).
  rewrite (u32_small (padded n / 8 - 1)), (u32_small (8 * (padded n / 8))), (u32_small (8 * (padded n / 8 - 1))) by lia.
  rewrite (proj2 (Z.leb_gt _ _)), (proj2 (Z.ltb_ge _ _)) by lia. cbn [orb].
  rewrite (u32_small (padded n - n)) by lia.
  assert (Hread : read_at out n (padded n - n) = Done (memset0 (Z.to_nat (padded n - n)))).
  { apply read_at_mid; [done|by rewrite zlen_memset0 by lia]. }
  rewrite Hread. cbn [mbind outcome_bind].
  destruct (memcmp_spec (memset0 (Z.to_nat (padded n - n))) [] (memset0 (Z.to_nat (padded n - n)))
    (memset0 (8 - Z.to_nat (padded n - n))) (padded n - n)) as (y & Hy & Heqy);
    [apply memset0_ok..|by rewrite zlen_memset0 by lia|by rewrite zlen_memset0 by lia|].
  rewrite app_nil_r in Hy. unfold memset0 in Hy. rewrite <- replicate_add in Hy.
  replace (Z.to_nat (padded n - n) + (8 - Z.to_nat (padded n - n)))%nat with 8%nat in Hy by lia.
  unfold memset0. rewrite Hy. cbn [mbind outcome_bind]. by rewrite (proj2 Heqy eq_refl).
Qed.

(** The cipher text of CRYPTO_128_wrap_pad. *)
Definition wrapped icv input : bytes :=
  let n := zlen input in
  let text := input ++ memset0 (Z.to_nat (padded n - n)) in
  if padded n =? 8 then encipher (aiv_of icv n ++ text) else rfc_wrap (aiv_of icv n) (blocks text).

Lemma padded_text input :
  1 <= zlen input < 2147483648 -> bytes_ok input -> let n := zlen input in
  let text := input ++ memset0 (Z.to_nat (padded n - n)) in
  zlen text = padded n /\ bytes_ok text /\ (padded n <> 8 -> wrap_length (zlen text)).
Proof.
  intros Hn Hok n text. destruct (padded_bounds n Hn) as (Hp & Hm & Hp8).
  assert (Hz : zlen text = padded n) by (unfold text; rewrite zlen_app, zlen_memset0 by lia; lia).
  split_and!; [done|apply Forall_app; split; [done|apply memset0_ok]|]. rewrite Hz. intros Hne.
  pose proof (Z.div_mod (padded n) 8 ltac:(lia)). split; lia.
Qed.

Lemma wrapped_length icv input :
  icv_ok icv -> 1 <= zlen input < 2147483648 -> bytes_ok input -> zlen (wrapped icv input) = padded (zlen input) + 8.
Proof.
  intros Hicv Hn Hok. destruct (padded_text input Hn Hok) as (Hz & Htok & Hw). pose proof (aiv_length icv (zlen input) Hicv) as Ha.
  unfold wrapped. set (text := input ++ _) in *. destruct (Z.eqb_spec (padded (zlen input)) 8) as [He|Hne].
  - unfold zlen at 1. rewrite encipher_length; [lia|]. rewrite length_app, Ha. unfold zlen in *. lia.
  - pose proof (unwrap_raw_wrapped (aiv_of icv (zlen input)) text text (Hw Hne) Htok Ha (aiv_ok icv _ Hicv) ltac:(lia)) as [Hl _].
    by rewrite Hl, Hz.
Qed.

Lemma wrap_pad_done icv out input :
  icv_ok icv -> 1 <= zlen input < 2147483648 -> bytes_ok input -> padded (zlen input) + 8 <= zlen out ->
  CRYPTO_128_wrap_pad encipher icv out input =
    Done (padded (zlen input) + 8, wrapped icv input ++ drop (Z.to_nat (padded (zlen input) + 8)) out).
Proof.
  intros Hicv Hn Hok Hout. destruct (padded_bounds _ Hn) as (Hp & Hm & Hp8).
  destruct (padded_text input Hn Hok) as (Hz & Htok & Hw). pose proof (aiv_length icv (zlen input) Hicv) as Ha.
  unfold CRYPTO_128_wrap_pad, wrapped. change CRYPTO128_WRAP_MAX with 2147483648.
  rewrite (u32_small (zlen input + 7)) by lia. fold (padded (zlen input)).
  rewrite (u32_small (padded (zlen input))), (u32_small (padded (zlen input) - zlen input)) by lia.
  rewrite (proj2 (Z.eqb_neq (zlen input) 0)), (proj2 (Z.leb_gt _ _)) by lia. cbn [orb].
  rewrite make_aiv_done by done. cbn [mbind outcome_bind].
  set (zeros := memset0 _) in *. assert (Hzeros : zlen zeros = padded (zlen input) - zlen input) by (unfold zeros; by rewrite zlen_memset0 by lia).
  set (n := zlen input) in *. set (P := padded n) in *.
  assert (Haz : zlen (aiv_of icv n) = 8) by (unfold zlen; lia).
  destruct (Z.eqb_spec P 8) as [He|Hne].
  - destruct (split_buffer out 8 8) as (pre & mid & Hpre & Hmid & Hsplit); [lia..|]. rewrite Hsplit at 1.
    destruct (split_two mid n (8 - n)) as (m1 & m2 & Hm1 & Hm2 & ->); [lia..|]. rewrite <- app_assoc.
    rewrite write_at_mid by done. cbn [mbind outcome_bind].
    rewrite write_at_start by lia. cbn [mbind outcome_bind]. rewrite (app_assoc (aiv_of icv n)).
    rewrite write_at_mid by (rewrite ?zlen_app; lia). cbn [mbind outcome_bind]. rewrite (app_assoc _ zeros).
    rewrite read_at_start by (rewrite !zlen_app; lia). cbn [mbind outcome_bind]. rewrite <- (app_assoc (aiv_of icv n)).
    rewrite write_at_start.
    2:{ unfold zlen at 1. rewrite encipher_length; [rewrite !zlen_app; lia|]. rewrite !length_app, Ha. unfold zlen in *. lia. }
    cbn [mbind outcome_bind]. rewrite He. done.
  - destruct (split_front out P) as (mid & Hmid & Hsplit); [lia|]. rewrite Hsplit at 1.
    destruct (split_two mid n (P - n)) as (m1 & m2 & Hm1 & Hm2 & ->); [lia..|]. rewrite <- app_assoc.
    rewrite write_at_start by done. cbn [mbind outcome_bind].
    rewrite write_at_mid by (done || lia). cbn [mbind outcome_bind]. rewrite app_assoc.
    rewrite read_at_start by done. cbn [mbind outcome_bind].
    rewrite wrap_rfc; [|by apply Hw|done|].
    + cbn [default]. rewrite Hz. do 3 f_equal. rewrite drop_app_ge by (unfold zlen in *; lia). rewrite drop_drop. f_equal.
      unfold zlen in *. lia.
    + rewrite Hz, zlen_app, Hz. unfold zlen. rewrite length_drop. unfold zlen in *. lia.
Qed.

(** Up to the check of the vector, CRYPTO_128_unwrap_pad undoes it. *)
Lemma unwrap_pad_wrapped icv icv' input out :
  icv_ok icv -> 1 <= zlen input <= 2147483632 -> bytes_ok input -> let n := zlen input in
  padded n <= zlen out ->
  CRYPTO_128_unwrap_pad decipher icv' out (wrapped icv input) =
    check_aiv icv' (padded n + 8) (padded n / 8) (padded n) (aiv_of icv n)
      (input ++ memset0 (Z.to_nat (padded n - n)) ++ drop (Z.to_nat (padded n)) out).
Proof.
  intros Hicv Hn1 Hok n Hout. assert (Hn : 1 <= zlen input < 2147483648) by lia.
  destruct (padded_bounds _ Hn) as (Hp & Hm & Hp8). fold n in Hp, Hm, Hp8, Hn1.
  destruct (padded_text input Hn Hok) as (Hz & Htok & Hw). pose proof (aiv_length icv n Hicv) as Ha.
  pose proof (wrapped_length icv input Hicv Hn Hok) as Hwl. fold n in Hwl, Hz, Hw.
  assert (H8 : padded n = padded n / 8 * 8) by (rewrite Z.mul_comm; apply Z.div_exact; lia).
  assert (Hd : (padded n + 8) / 8 = padded n / 8 + 1) by (rewrite <- (Z.div_add (padded n) 1 8) by lia; f_equal; lia).
  assert (Hdm : (padded n + 8) mod 8 = 0) by (rewrite <- (Z_mod_plus_full (padded n) 1 8) in Hm; rewrite <- Hm; f_equal; lia).
  unfold CRYPTO_128_unwrap_pad. rewrite Hwl, land_7, Hdm, Hd. change CRYPTO128_WRAP_MAX with 2147483648.
  rewrite (proj2 (Z.ltb_ge _ 16)), (proj2 (Z.leb_gt 2147483648 _)) by lia. cbn [Z.eqb negb orb].
  replace (padded n / 8 + 1 - 1) with (padded n / 8) by lia. rewrite (u32_small (padded n / 8)) by lia.
  unfold wrapped. fold n. set (text := input ++ memset0 _) in *.
  rewrite (app_assoc input). fold text. destruct (Z.eqb_spec (padded n) 8) as [He|Hne].
  - rewrite He. change (8 + 8 =? 16) with true. cbn [Z.eqb].
    rewrite decipher_encipher; [|rewrite length_app, Ha; unfold zlen in *; lia|apply Forall_app; split; [by apply aiv_ok|done]].
    rewrite take_app_length', drop_app_length' by done.
    destruct (split_front out 8) as (mid & Hmid & Hsplit); [lia|]. rewrite Hsplit at 1.
    rewrite write_at_start by lia. done.
  - rewrite (proj2 (Z.eqb_neq (padded n + 8) 16)) by lia.
    destruct (unwrap_raw_wrapped (aiv_of icv n) text out (Hw Hne) Htok Ha (aiv_ok icv _ Hicv) ltac:(lia)) as [_ Hraw].
    rewrite Hraw. cbn [mbind outcome_bind]. rewrite Hz.
    replace (padded n + 8 - 8) with (padded n) by lia. by rewrite Z.eqb_refl.
Qed.
End pad_specs.

(** ** The theorems *)

Section wrap_theorems.
Context `{BlockLaws}.
Implicit Types (iv icv : option bytes) (out input : bytes).

Definition iv_ok iv : Prop := length (default default_iv iv) = 8%nat /\ bytes_ok (default default_iv iv).

(** C26: Wrapping is that of RFC 3394, on every branch: a length that is not a multiple
    of 8 between 16 and 2^31 is refused and nothing is written; a buffer of less
    than the length and 8 bytes overflows; otherwise the loops over the bytes of
    the buffer leave there the registers A, R[1], ..., R[n] of section 2.2.1, where
    A is exclusive-ored with the whole 64-bit counter, and the bytes behind them
    are kept. *)
Theorem key_wrap_standard iv out input :
  length (default default_iv iv) = 8%nat ->
  CRYPTO_128_wrap encipher iv out input =
    if negb ((zlen input mod 8 =? 0) && (16 <=? zlen input) && (zlen input <=? 2147483648)) then Done (0, out)
    else if zlen out <? zlen input + 8 then Crash BufferOverflow
    else
      Done (zlen input + 8, rfc_wrap (default default_iv iv) (blocks input) ++ drop (Z.to_nat (zlen input + 8)) out).
Proof.
  intros Hiv. destruct (negb _) eqn:Hv.
  - apply wrap_refused. intros [Hm Hn]. rewrite Hm in Hv. revert Hv. decide_z. done.
  - apply negb_false_iff, andb_prop in Hv as [[Hm%Z.eqb_eq Hn1%Z.leb_le]%andb_prop Hn2%Z.leb_le].
    assert (Hl : wrap_length (zlen input)) by done.
    destruct (Z.ltb_spec (zlen out) (zlen input + 8)) as [Hlt|Hge].
    + unfold CRYPTO_128_wrap. rewrite wrap_ready by done. rewrite write_at_overflow by lia. done.
    + rewrite wrap_rfc by done. by rewrite (Z.add_comm 8).
Qed.

Lemma wrap_unwrap iv out out2 input :
  wrap_length (zlen input) -> bytes_ok input -> iv_ok iv ->
  zlen input + 8 <= zlen out -> zlen input <= zlen out2 ->
  exists c, CRYPTO_128_wrap encipher iv out input = Done (zlen input + 8, c ++ drop (Z.to_nat (zlen input + 8)) out) /\
    zlen c = zlen input + 8 /\
    CRYPTO_128_unwrap decipher iv out2 c = Done (zlen input, input ++ drop (Z.to_nat (zlen input)) out2) /\
    forall iv', iv_ok iv' -> default default_iv iv' <> default default_iv iv ->
      CRYPTO_128_unwrap decipher iv' out2 c =
        Done (0, memset0 (Z.to_nat (zlen input)) ++ drop (Z.to_nat (zlen input)) out2).
Proof.
  intros Hl Hok [Hiv Hivok] Hout Hout2.
  destruct (unwrap_raw_wrapped (default default_iv iv) input out2 Hl Hok Hiv Hivok Hout2) as [Hc Hraw].
  exists (rfc_wrap (default default_iv iv) (blocks input)).
  split; [rewrite wrap_rfc by (done || lia); by rewrite (Z.add_comm 8)|]. split; [done|].
  assert (Hun : forall iv', iv_ok iv' -> exists x, (x = 0 <-> default default_iv iv = default default_iv iv') /\
    CRYPTO_128_unwrap decipher iv' out2 (rfc_wrap (default default_iv iv) (blocks input)) =
      if negb (x =? 0) then Done (0, memset0 (Z.to_nat (zlen input)) ++ drop (Z.to_nat (zlen input)) out2)
      else Done (zlen input, input ++ drop (Z.to_nat (zlen input)) out2)).
  { intros iv' [Hiv' Hivok']. destruct Hl as [_ Hn].
    destruct (memcmp_whole (default default_iv iv) (default default_iv iv') 8) as (x & Hx & Heq);
      [done..|unfold zlen; lia|unfold zlen; lia|].
    exists x. split; [done|]. unfold CRYPTO_128_unwrap. rewrite Hraw. cbn [mbind outcome_bind].
    rewrite (proj2 (Z.eqb_neq (zlen input) 0)) by lia. rewrite Hx. cbn [mbind outcome_bind].
    destruct (negb (x =? 0)); [|done]. rewrite cleanse_spec, zlen_app by lia.
    rewrite (proj2 (Z.ltb_ge _ _)) by (pose proof (zlen_nonneg (drop (Z.to_nat (zlen input)) out2)); lia).
    cbn [mbind outcome_bind]. rewrite drop_app_length' by (unfold zlen; lia). done. }
  split.
  - destruct (Hun iv) as (x & Heq & ->); [by split|]. by rewrite (proj2 Heq eq_refl).
  - intros iv' Hiv' Hne. destruct (Hun iv' Hiv') as (x & Heq & ->).
    destruct (Z.eqb_spec x 0) as [Hz|]; [by apply Heq in Hz|done].
Qed.

(** Unwrapping returns what was wrapped, for every accepted length: the cipher text
    is 8 bytes longer than the text, unwrapping it with the same initial value
    returns the text and keeps the rest of the buffer, and with any other initial
    value it returns 0 and the text it had written is erased. *)
Theorem key_wrap_roundtrip iv out out2 input :
  wrap_length (zlen input) -> bytes_ok input -> iv_ok iv ->
  zlen input + 8 <= zlen out -> zlen input <= zlen out2 ->
  exists c, CRYPTO_128_wrap encipher iv out input = Done (zlen input + 8, c ++ drop (Z.to_nat (zlen input + 8)) out) /\
    zlen c = zlen input + 8 /\
    CRYPTO_128_unwrap decipher iv out2 c = Done (zlen input, input ++ drop (Z.to_nat (zlen input)) out2) /\
    forall iv', iv_ok iv' -> default default_iv iv' <> default default_iv iv ->
      CRYPTO_128_unwrap decipher iv' out2 c =
        Done (0, memset0 (Z.to_nat (zlen input)) ++ drop (Z.to_nat (zlen input)) out2).
Proof. apply wrap_unwrap. Qed.

(** C27: Padded wrapping: a text of any length from 1 to 2^31 - 16 is returned by
    unwrapping, followed in the buffer by the padding; with another initial value
    nothing is returned, but the erasure then writes as many bytes as the cipher
    text has, 8 more than the text needs and than the comment on the parameter out
    asks for, so that a buffer of the documented size overflows. *)
Theorem key_wrap_pad_roundtrip icv out out2 input :
  1 <= zlen input <= 2147483632 -> bytes_ok input -> icv_ok icv ->
  let n := zlen input in
  padded n + 8 <= zlen out -> padded n <= zlen out2 ->
  exists c, CRYPTO_128_wrap_pad encipher icv out input =
      Done (padded n + 8, c ++ drop (Z.to_nat (padded n + 8)) out) /\
    zlen c = padded n + 8 /\ n <= padded n < n + 8 /\
    CRYPTO_128_unwrap_pad decipher icv out2 c =
      Done (n, input ++ memset0 (Z.to_nat (padded n - n)) ++ drop (Z.to_nat (padded n)) out2) /\
    forall icv', icv_ok icv' -> default default_aiv icv <> default default_aiv icv' ->
      CRYPTO_128_unwrap_pad decipher icv' out2 c =
        if zlen out2 <? padded n + 8 then Crash BufferOverflow
        else Done (0, memset0 (Z.to_nat (padded n + 8)) ++ drop (Z.to_nat (padded n + 8)) out2).
Proof.
  intros Hn1 Hok Hicv n Hout Hout2. assert (Hn : 1 <= zlen input < 2147483648) by lia.
  destruct (padded_bounds _ Hn) as (Hp & Hm & Hp8). fold n in Hp, Hm, Hp8.
  exists (wrapped icv input). split; [by apply wrap_pad_done|]. split; [by apply wrapped_length|]. split; [done|].
  split.
  - rewrite unwrap_pad_wrapped by done. by apply check_aiv_accepted.
  - intros icv' Hicv' Hne. rewrite unwrap_pad_wrapped by done. fold n. rewrite check_aiv_refused by (done || lia).
    set (text := input ++ memset0 (Z.to_nat (padded n - n))).
    assert (Ht : zlen text = padded n) by (unfold text; rewrite zlen_app, zlen_memset0 by lia; subst n; lia).
    rewrite (app_assoc input). fold text.
    assert (Hz : zlen (text ++ drop (Z.to_nat (padded n)) out2) = zlen out2).
    { rewrite zlen_app, Ht. unfold zlen in *. rewrite length_drop. lia. }
    rewrite Hz. destruct (zlen out2 <? padded n + 8); [done|]. do 3 f_equal.
    rewrite drop_app_ge by (unfold zlen in *; lia). rewrite drop_drop. f_equal. unfold zlen in *. lia.
Qed.

(** A text longer than that can be wrapped, but its cipher text is refused. *)
Lemma key_wrap_pad_too_long icv icv' out out2 input :
  2147483632 < zlen input < 2147483648 -> bytes_ok input -> icv_ok icv -> padded (zlen input) + 8 <= zlen out ->
  exists c, CRYPTO_128_wrap_pad encipher icv out input =
      Done (padded (zlen input) + 8, c ++ drop (Z.to_nat (padded (zlen input) + 8)) out) /\
    CRYPTO_128_unwrap_pad decipher icv' out2 c = Done (0, out2).
Proof.
  intros Hn Hok Hicv Hout. destruct (padded_bounds (zlen input) ltac:(lia)) as (Hp & Hm & Hp8).
  exists (wrapped icv input). split; [by apply wrap_pad_done; [done|lia|done|done]|].
  unfold CRYPTO_128_unwrap_pad. rewrite wrapped_length by (done || lia). change CRYPTO128_WRAP_MAX with 2147483648.
  pose proof (Z.div_mod (padded (zlen input)) 8 ltac:(lia)).
  rewrite (proj2 (Z.leb_le 2147483648 _)) by lia. by rewrite orb_true_r.
Qed.
End wrap_theorems.

(** ** Instances to evaluate on *)

Definition demo_key : bytes := map Z.of_nat (seq 1 24).
Definition demo_out : bytes := replicate 40 7.

Lemma demo_key_ok : bytes_ok demo_key.
Proof. by apply bytes_ok_checked. Qed.

Lemma default_iv_ok : iv_ok None.
Proof. split; [done|]. by apply bytes_ok_checked. Qed.

Lemma zero_iv_ok : iv_ok (Some (replicate 8 0)).
Proof. split; [done|]. by apply bytes_ok_checked. Qed.

Lemma default_icv_ok : icv_ok None.
Proof. split; [done|]. by apply bytes_ok_checked. Qed.

Lemma demo_wrap_length : wrap_length (zlen demo_key).
Proof. split; [done|]. change (zlen demo_key) with 24. lia. Qed.

Lemma key_wrap_standard_witness :
  exists C : BlockCipher,
    CRYPTO_128_wrap encipher None demo_out demo_key =
      Done (32, rfc_wrap default_iv (blocks demo_key) ++ replicate 8 7).
Proof.
  exists demo_cipher. refine (eq_trans (@key_wrap_standard demo_cipher demo_laws None demo_out demo_key eq_refl) _).
  vm_compute. reflexivity.
Defined.

Lemma key_wrap_roundtrip_witness :
  exists C : BlockCipher, wrap_length (zlen demo_key) /\ bytes_ok demo_key /\ iv_ok None /\
  exists c, CRYPTO_128_unwrap decipher None demo_out c = Done (24, demo_key ++ replicate 16 7).
Proof.
  exists demo_cipher. split; [exact demo_wrap_length|]. split; [exact demo_key_ok|]. split; [exact default_iv_ok|].
  destruct (@key_wrap_roundtrip demo_cipher demo_laws None demo_out demo_out demo_key demo_wrap_length demo_key_ok
    default_iv_ok ltac:(vm_compute; discriminate) ltac:(vm_compute; discriminate)) as (c & _ & _ & Hu & _).
  exists c. exact Hu.
Defined.

Lemma key_wrap_pad_roundtrip_witness :
  exists C : BlockCipher, icv_ok None /\ bytes_ok (take 5 demo_key) /\
  exists c, CRYPTO_128_unwrap_pad decipher None (replicate 8 7) c = Done (5, [1; 2; 3; 4; 5; 0; 0; 0]) /\
    CRYPTO_128_unwrap_pad decipher (Some [1; 2; 3; 4]) (replicate 8 7) c = Crash BufferOverflow.
Proof.
  exists demo_cipher. split; [exact default_icv_ok|].
  assert (Hok : bytes_ok (take 5 demo_key)) by (by apply bytes_ok_checked). split; [exact Hok|].
  assert (Hlen : 1 <= zlen (take 5 demo_key) <= 2147483632) by (vm_compute; split; discriminate).
  destruct (@key_wrap_pad_roundtrip demo_cipher demo_laws None demo_out (replicate 8 7) (take 5 demo_key) Hlen Hok
    default_icv_ok ltac:(vm_compute; discriminate) ltac:(vm_compute; discriminate)) as (c & _ & _ & _ & Hu & Hr).
  exists c. split; [exact Hu|]. apply (Hr (Some [1; 2; 3; 4])).
  - split; [done|]. by apply bytes_ok_checked.
  - discriminate.
Defined.
