(* ===== verification/Cfb.v ===== *)
(** * CFB with a feedback of less than a block (crypto/modes/cfb128.c)

    The 1-bit and 8-bit modes, and the block step they share for any number of
    bits: the vector is a shift register of 128 bits. *)

From S2P Require Import Prelude Words Modes.

(** ** Big-endian numbers of any length *)

Lemma le_value_app a b : le_value (a ++ b) = le_value a + 256 ^ zlen a * le_value b.
Proof.
  induction a as [|x a IH]; [change (256 ^ zlen (@nil Z)) with 1; cbn [app]; unfold le_value at 2; simpl; ring|].
  cbn [app le_value fold_right]. fold (le_value (a ++ b)). fold (le_value a).
  rewrite IH, zlen_cons, Z.pow_add_r by (pose proof (zlen_nonneg a); lia). ring.
Qed.

Lemma be_value_app a b : be_value (a ++ b) = be_value a * 256 ^ zlen b + be_value b.
Proof.
  unfold be_value. rewrite rev_app_distr, le_value_app. unfold zlen. rewrite length_rev. ring.
Qed.

Lemma be_value_cons x b : be_value (x :: b) = x * 256 ^ zlen b + be_value b.
Proof. change (x :: b) with ([x] ++ b). rewrite be_value_app. unfold be_value at 1. simpl. ring. Qed.

Lemma be_value_nil : be_value [] = 0.
Proof. done. Qed.

Lemma be_value_range b : bytes_ok b -> 0 <= be_value b < 256 ^ zlen b.
Proof.
  intros Hb. induction Hb as [|x b Hx _ IH]; [rewrite be_value_nil; done|].
  rewrite be_value_cons, zlen_cons, Z.pow_add_r by (pose proof (zlen_nonneg b); lia). unfold byte_ok in Hx. nia.
Qed.

(** Numbers of the same length determine the bytes. *)
Lemma be_value_inj a b :
  bytes_ok a -> bytes_ok b -> length a = length b -> be_value a = be_value b -> a = b.
Proof.
  intros Ha. revert b. induction Ha as [|x a Hx Ha IH]; intros b Hb Hl He; [by destruct b|].
  destruct Hb as [|y b Hy Hb]; [done|]. injection Hl as Hl. rewrite !be_value_cons in He.
  assert (Hz : zlen a = zlen b) by (unfold zlen; lia). rewrite Hz in He.
  pose proof (be_value_range a Ha) as Hra. pose proof (be_value_range b Hb) as Hrb. rewrite Hz in Hra.
  set (w := 256 ^ zlen b) in *. assert (Hxy : x = y) by nia. subst y. f_equal. apply IH; [done|done|lia].
Qed.

Section cfb.
Context `{BlockCipher}.

(** One step of [nbits] bits: the output and the vector.  [indet] is what ovec
    holds behind the bytes that are set. *)
Definition cfbr_encrypt_block (indet : bytes) (input : bytes) (nbits : Z) (ivec : bytes) (enc : bool) : bytes * bytes :=
  if (nbits <=? 0) || (128 <? nbits) then ([], ivec)
  else
    let old := ivec in
    let ivec := encipher ivec in
    let num := Z.to_nat ((nbits + 7) / 8) in
    let out := xor_bytes (take num input) ivec in
    let ovec := old ++ (if enc then out else take num input) ++ indet in
    let rem := nbits mod 8 in
    let num := Z.to_nat (nbits / 8) in
    let ivec :=
      if rem =? 0 then take 16 (drop num ovec)
      else map (fun n => u8 (Z.lor (Z.shiftl (nth (n + num) ovec 0) rem) (Z.shiftr (nth (n + num + 1) ovec 0) (8 - rem))))
             (seq 0 16) in
    (out, ivec).

(** Bit [n] of a buffer, most significant first. *)
Definition get_bit (buf : bytes) (n : nat) : bool :=
  negb (Z.land (nth (n / 8) buf 0) (Z.shiftl 1 (7 - Z.of_nat (n mod 8))) =? 0).
Definition put_bit (buf : bytes) (n : nat) (d : Z) : bytes :=
  <[(n / 8)%nat :=
     u8 (Z.lor (Z.land (nth (n / 8) buf 0) (Z.lnot (Z.shiftl 1 (7 - Z.of_nat (n mod 8)))))
               (Z.shiftr (Z.land d 0x80) (Z.of_nat (n mod 8))))]> buf.

(** The loop from bit [n], for [k] bits. *)
Fixpoint cfb1_loop (indet : bytes) (k n : nat) (input out ivec : bytes) (enc : bool) : bytes * bytes :=
  match k with
  | O => (out, ivec)
  | S k' =>
      let c := if get_bit input n then 0x80 else 0 in
      let '(d, ivec) := cfbr_encrypt_block indet [c] 1 ivec enc in
      cfb1_loop indet k' (S n) input (put_bit out n (nth 0 d 0)) ivec enc
  end.

(** [num] is not used. *)
Definition CRYPTO_cfb128_1_encrypt (indet : bytes) (input out : bytes) (bits : nat) (ivec : bytes) (enc : bool)
  : bytes * bytes :=
  cfb1_loop indet bits 0 input out ivec enc.

Fixpoint CRYPTO_cfb128_8_encrypt (indet : bytes) (input ivec : bytes) (enc : bool) : bytes * bytes :=
  match input with
  | [] => ([], ivec)
  | x :: input' =>
      let '(d, ivec) := cfbr_encrypt_block indet [x] 8 ivec enc in
      let '(out, ivec) := CRYPTO_cfb128_8_encrypt indet input' ivec enc in
      (d ++ out, ivec)
  end.
End cfb.

(** ** The shift register *)

Section shift.
Variable r : Z.
Hypothesis Hr : 0 < r < 8.

(** Every byte moved up by [r] bits, with the top bits of the next one. *)
Fixpoint shift_bytes (l : bytes) : bytes :=
  match l with
  | x :: ((y :: _) as l') => u8 (Z.lor (Z.shiftl x r) (Z.shiftr y (8 - r))) :: shift_bytes l'
  | _ => []
  end.

Lemma shift_byte x y : byte_ok y -> u8 (Z.lor (Z.shiftl x r) (Z.shiftr y (8 - r))) = (x * 2 ^ r + y / 2 ^ (8 - r)) mod 256.
Proof.
  intros Hy. unfold byte_ok in Hy. rewrite (Z.shiftr_div_pow2 y) by lia.
  assert (Hp : 0 < 2 ^ (8 - r)) by (apply Z.pow_pos_nonneg; lia).
  assert (H256 : 2 ^ (8 - r) * 2 ^ r = 256) by (rewrite <- Z.pow_add_r by lia; by replace (8 - r + r) with 8 by lia).
  rewrite lor_shiftl_low; [done|lia|]. split; [apply Z.div_pos; lia|]. apply Z.div_lt_upper_bound; lia.
Qed.

Lemma shift_bytes_value l :
  bytes_ok l -> l <> [] ->
  be_value (shift_bytes l) = (be_value l / 2 ^ (8 - r)) mod 256 ^ (zlen l - 1) /\
  zlen (shift_bytes l) = zlen l - 1 /\ bytes_ok (shift_bytes l).
Proof.
  assert (Hp : 0 < 2 ^ (8 - r)) by (apply Z.pow_pos_nonneg; lia).
  assert (H256 : 2 ^ (8 - r) * 2 ^ r = 256) by (rewrite <- Z.pow_add_r by lia; by replace (8 - r + r) with 8 by lia).
  intros Hl. induction Hl as [|x l Hx Hl IH]; [done|]. intros _. destruct Hl as [|y l Hy Hl].
  { change (zlen [x] - 1) with 0. split_and!; [by rewrite Z.mod_1_r|done|constructor]. }
  destruct IH as (IHv & IHz & IHok); [done|].
  change (shift_bytes (x :: y :: l)) with (u8 (Z.lor (Z.shiftl x r) (Z.shiftr y (8 - r))) :: shift_bytes (y :: l)).
  split_and!; [|rewrite !zlen_cons, IHz, zlen_cons; lia|].
  2:{ constructor; [|done]. unfold byte_ok, u8, wrap. apply Z.mod_pos_bound. lia. }
  rewrite be_value_cons, IHv, IHz, shift_byte by done. rewrite (be_value_cons x), !zlen_cons.
  pose proof (zlen_nonneg l). replace (1 + (1 + zlen l) - 1) with (zlen l + 1) by lia.
  replace (1 + zlen l - 1) with (zlen l) by lia.
  rewrite (Z.add_comm 1 (zlen l)), Z.pow_add_r, Z.pow_1_r by lia.
  set (w := 256 ^ zlen l). assert (Hw : 0 < w) by (apply Z.pow_pos_nonneg; lia).
  pose proof (be_value_range l Hl) as HL. fold w in HL. rewrite (be_value_cons y). fold w.
  rewrite (Z.mul_comm w 256), (Z.mul_comm 256 w), Z.rem_mul_r by lia.
  replace (x * (w * 256) + (y * w + be_value l)) with (x * w * 2 ^ r * 2 ^ (8 - r) + (y * w + be_value l)) by (rewrite <- H256; ring).
  rewrite Z.div_add_l by lia. rewrite (Z.add_comm (x * w * 2 ^ r)).
  replace (x * w * 2 ^ r) with (x * 2 ^ r * w) by ring. rewrite Z_mod_plus_full, Z.div_add by lia.
  rewrite (Z.add_comm (_ * w)). f_equal. rewrite (Z.mul_comm w). do 2 f_equal.
  rewrite (Z.add_comm (x * 2 ^ r)). f_equal. rewrite Z.div_div by lia. rewrite (Z.mul_comm (2 ^ (8 - r))), <- Z.div_div by lia.
  f_equal. rewrite Z.div_add_l by lia. rewrite (Z.div_small (be_value l)) by lia. lia.
Qed.
End shift.

Lemma shift_bytes_nth r (w : bytes) :
  map (fun n => u8 (Z.lor (Z.shiftl (nth n w 0) r) (Z.shiftr (nth (n + 1) w 0) (8 - r)))) (seq 0 (length w - 1)) =
    shift_bytes r w.
Proof.
  induction w as [|x w IH]; [done|]. destruct w as [|y w]; [done|].
  cbn [length]. replace (S (S (length w)) - 1)%nat with (S (length w)) by lia. cbn [seq map nth].
  change (shift_bytes r (x :: y :: w)) with (u8 (Z.lor (Z.shiftl x r) (Z.shiftr y (8 - r))) :: shift_bytes r (y :: w)).
  f_equal. rewrite <- IH. cbn [length]. rewrite Nat.sub_succ, Nat.sub_0_r, <- seq_shift, map_map. done.
Qed.

(** The register without its first [k] bytes, followed by [ct]. *)
Lemma window_value (old ct : bytes) (k : nat) :
  length old = 16%nat -> (k <= 16)%nat ->
  exists top, be_value old = top * 256 ^ (16 - Z.of_nat k) + be_value (drop k old) /\
    be_value (drop k old ++ ct) = be_value (drop k old) * 256 ^ zlen ct + be_value ct.
Proof.
  intros Hl Hk. exists (be_value (take k old)). split; [|apply be_value_app].
  rewrite <- (take_drop k old) at 1. rewrite be_value_app. do 3 f_equal.
  unfold zlen. rewrite length_drop. lia.
Qed.

Lemma pow256 n : 0 <= n -> 256 ^ n = 2 ^ (8 * n).
Proof. intros Hn. change 256 with (2 ^ 8). by rewrite <- Z.pow_mul_r by lia. Qed.

(** A whole number of bytes. *)
Lemma window_aligned (old ct indet : bytes) (k : nat) :
  length old = 16%nat -> bytes_ok old -> bytes_ok ct -> length ct = k -> (k <= 16)%nat ->
  let w := take 16 (drop k (old ++ ct ++ indet)) in
  be_value w = (be_value old * 2 ^ (8 * Z.of_nat k) + be_value ct) mod 2 ^ 128 /\ length w = 16%nat /\ bytes_ok w.
Proof.
  intros Hl Hok Hcok Hc Hk w.
  assert (Hw : w = drop k old ++ ct).
  { subst w. rewrite drop_app_le by lia. rewrite app_assoc, take_app_length'; [done|].
    rewrite length_app, length_drop. lia. }
  destruct (Forall_drop_take byte_ok k old Hok) as [_ Hdok].
  assert (Hwl : length w = 16%nat) by (rewrite Hw, length_app, length_drop; lia).
  assert (Hwok : bytes_ok w) by (rewrite Hw; by apply Forall_app). split; [|done].
  destruct (window_value old ct k Hl Hk) as (top & Htop & Hval).
  pose proof (be_value_range w Hwok) as Hr. unfold zlen at 1 in Hr. rewrite Hwl in Hr. rewrite <- Hw in Hval.
  assert (Hz : zlen ct = Z.of_nat k) by (unfold zlen; lia). rewrite Hz, pow256 in Hval by lia.
  rewrite Htop, pow256 by lia.
  replace ((top * 2 ^ (8 * (16 - Z.of_nat k)) + be_value (drop k old)) * 2 ^ (8 * Z.of_nat k) + be_value ct)
    with (be_value w + top * (2 ^ (8 * (16 - Z.of_nat k)) * 2 ^ (8 * Z.of_nat k))) by (rewrite Hval; ring).
  rewrite <- Z.pow_add_r by lia. replace (8 * (16 - Z.of_nat k) + 8 * Z.of_nat k) with 128 by lia.
  rewrite Z_mod_plus_full. symmetry. apply Z.mod_small. exact Hr.
Qed.

(** [k] bytes and [r] bits. *)
Lemma window_shifted (old ct indet : bytes) (k : nat) r :
  length old = 16%nat -> bytes_ok old -> bytes_ok ct -> length ct = S k -> (k < 16)%nat -> 0 < r < 8 ->
  let ovec := old ++ ct ++ indet in
  let w := map (fun n => u8 (Z.lor (Z.shiftl (nth (n + k) ovec 0) r) (Z.shiftr (nth (n + k + 1) ovec 0) (8 - r)))) (seq 0 16) in
  be_value w = (be_value old * 2 ^ (8 * Z.of_nat k + r) + be_value ct / 2 ^ (8 - r)) mod 2 ^ 128 /\
  length w = 16%nat /\ bytes_ok w.
Proof.
  intros Hl Hok Hcok Hc Hk Hr ovec w. set (win := drop k old ++ ct).
  assert (Hwinl : length win = 17%nat) by (unfold win; rewrite length_app, length_drop; lia).
  assert (Hov : drop k ovec = win ++ indet) by (unfold ovec, win; rewrite drop_app_le by lia; by rewrite app_assoc).
  assert (Hnth : forall n, (n < 17)%nat -> nth (n + k) ovec 0 = nth n win 0).
  { intros n Hn. rewrite <- (app_nth1 win indet) by lia. rewrite <- Hov.
    by rewrite !nth_lookup, lookup_drop, (Nat.add_comm k). }
  assert (Hw : w = shift_bytes r win).
  { rewrite <- shift_bytes_nth, Hwinl. unfold w. apply map_ext_in. intros n Hn%in_seq.
    replace (n + k + 1)%nat with (n + 1 + k)%nat by lia. by rewrite !Hnth by lia. }
  destruct (Forall_drop_take byte_ok k old Hok) as [_ Hdok].
  assert (Hwinok : bytes_ok win) by (by apply Forall_app).
  destruct (shift_bytes_value r Hr win Hwinok ltac:(by intros ->)) as (Hval & Hz & Hwok). rewrite <- Hw in *.
  assert (Hzwin : zlen win = 17) by (unfold zlen; lia). rewrite Hzwin in *.
  split; [|split; [unfold zlen in Hz; lia|done]]. rewrite Hval.
  destruct (window_value old ct k Hl ltac:(lia)) as (top & Htop & Hwv). fold win in Hwv.
  assert (Hzc : zlen ct = Z.of_nat k + 1) by (unfold zlen; lia). rewrite Hzc, pow256 in Hwv by lia.
  rewrite Hwv, Htop, (pow256 (16 - Z.of_nat k)) by lia. change (256 ^ (17 - 1)) with (2 ^ 128).
  assert (Hp : 0 < 2 ^ (8 - r)) by (apply Z.pow_pos_nonneg; lia).
  replace (2 ^ (8 * (Z.of_nat k + 1))) with (2 ^ (8 * Z.of_nat k + r) * 2 ^ (8 - r)) by (rewrite <- Z.pow_add_r by lia; f_equal; lia).
  rewrite Z.mul_assoc, Z.div_add_l by lia. set (c := be_value ct / 2 ^ (8 - r)). set (d := be_value (drop k old)).
  replace ((top * 2 ^ (8 * (16 - Z.of_nat k)) + d) * 2 ^ (8 * Z.of_nat k + r) + c)
    with (d * 2 ^ (8 * Z.of_nat k + r) + c + top * 2 ^ r * (2 ^ (8 * (16 - Z.of_nat k)) * 2 ^ (8 * Z.of_nat k)))
    by (rewrite (Z.pow_add_r 2 (8 * Z.of_nat k) r) by lia; ring).
  rewrite <- Z.pow_add_r by lia. replace (8 * (16 - Z.of_nat k) + 8 * Z.of_nat k) with 128 by lia.
  by rewrite Z_mod_plus_full.
Qed.

(** How many bytes are read and where the register starts. *)
Lemma bits_bytes nbits :
  0 < nbits <= 128 -> let num := Z.to_nat ((nbits + 7) / 8) in let k := Z.to_nat (nbits / 8) in
  (num <= 16)%nat /\ (k <= 16)%nat /\ nbits = 8 * Z.of_nat k + nbits mod 8 /\
  (nbits mod 8 = 0 -> num = k) /\ (nbits mod 8 <> 0 -> num = S k /\ (k < 16)%nat).
Proof.
  intros Hn num k. pose proof (Z.div_mod nbits 8 ltac:(lia)) as Hd. pose proof (Z.mod_pos_bound nbits 8 ltac:(lia)) as Hm.
  pose proof (Z.div_mod (nbits + 7) 8 ltac:(lia)) as Hd7. pose proof (Z.mod_pos_bound (nbits + 7) 8 ltac:(lia)) as Hm7.
  assert (Hk : Z.of_nat k = nbits / 8) by (unfold k; rewrite Z2Nat.id; [done|apply Z.div_pos; lia]).
  assert (Hnum : Z.of_nat num = (nbits + 7) / 8) by (unfold num; rewrite Z2Nat.id; [done|apply Z.div_pos; lia]).
  split_and!; lia.
Qed.

(** *** Bits of a buffer *)

Lemma get_bit_testbit buf n : get_bit buf n = Z.testbit (nth (n / 8) buf 0) (7 - Z.of_nat (n mod 8)).
Proof.
  unfold get_bit. pose proof (Nat.mod_upper_bound n 8 ltac:(lia)) as Hm. set (j := 7 - Z.of_nat (n mod 8)).
  assert (Hj : 0 <= j) by (subst j; lia). set (x := nth (n / 8) buf 0).
  destruct (Z.eqb_spec (Z.land x (Z.shiftl 1 j)) 0) as [He|Hne]; cbn [negb].
  - apply (f_equal (fun z => Z.testbit z j)) in He. rewrite Z.land_spec, Z.shiftl_spec, Z.sub_diag, Z.bits_0 in He by done.
    by rewrite andb_true_r in He.
  - destruct (Z.testbit x j) eqn:Hx; [done|]. exfalso. apply Hne. apply Z.bits_inj'. intros i Hi.
    rewrite Z.land_spec, Z.bits_0. destruct (Z.eq_dec i j) as [->|Hij]; [by rewrite Hx|].
    rewrite Z.shiftl_1_l, Z.pow2_bits_false by lia. by rewrite andb_false_r.
Qed.

Lemma mask_80 d i : Z.testbit (Z.land d 0x80) i = Z.testbit d i && (i =? 7).
Proof. rewrite Z.land_spec. f_equal. change 0x80 with (2 ^ 7). rewrite Z.pow2_bits_eqb by lia. apply Z.eqb_sym. Qed.

Lemma put_bit_length buf n d : length (put_bit buf n d) = length buf.
Proof. apply length_insert. Qed.

Lemma put_bit_same buf n d : (n / 8 < length buf)%nat -> get_bit (put_bit buf n d) n = Z.testbit d 7.
Proof.
  intros Hn. rewrite get_bit_testbit. unfold put_bit. pose proof (Nat.mod_upper_bound n 8 ltac:(lia)) as Hm.
  rewrite nth_lookup, list_lookup_insert_eq by done. cbn [default id]. unfold id, u8, wrap.
  rewrite Z.mod_pow2_bits_low, Z.lor_spec, Z.land_spec, Z.lnot_spec, Z.shiftr_spec, mask_80 by lia.
  rewrite Z.shiftl_1_l, Z.pow2_bits_true by lia. cbn [negb]. rewrite andb_false_r. cbn [orb].
  replace (7 - Z.of_nat (n mod 8) + Z.of_nat (n mod 8)) with 7 by lia. by rewrite andb_true_r.
Qed.

Lemma put_bit_other buf n m d : n <> m -> get_bit (put_bit buf n d) m = get_bit buf m.
Proof.
  intros Hnm. rewrite !get_bit_testbit. unfold put_bit.
  pose proof (Nat.mod_upper_bound n 8 ltac:(lia)) as Hn8. pose proof (Nat.mod_upper_bound m 8 ltac:(lia)) as Hm8.
  destruct (Nat.eq_dec (n / 8)%nat (m / 8)%nat) as [He|Hne].
  2:{ by rewrite !nth_lookup, list_lookup_insert_ne by done. }
  rewrite He. destruct (Nat.lt_ge_cases (m / 8)%nat (length buf)) as [Hlt|Hge].
  2:{ by rewrite list_insert_ge by done. }
  rewrite (nth_lookup (<[_ := _]> buf)), list_lookup_insert_eq by done. cbn [default id]. unfold id, u8, wrap.
  rewrite Z.mod_pow2_bits_low, Z.lor_spec, Z.land_spec, Z.lnot_spec, Z.shiftr_spec, mask_80 by lia.
  rewrite Z.shiftl_1_l. assert (Hmod : (n mod 8 <> m mod 8)%nat).
  { intros Hmm. apply Hnm. rewrite (Nat.div_mod_eq n 8), (Nat.div_mod_eq m 8). by rewrite He, Hmm. }
  rewrite Z.pow2_bits_false by lia. rewrite (proj2 (Z.eqb_neq _ 7)) by lia.
  cbn [negb]. by rewrite andb_true_r, andb_false_r, orb_false_r.
Qed.

Section register.
Context `{BlockLaws}.

Lemma cfbr_register indet input nbits ivec enc :
  0 < nbits <= 128 -> length ivec = 16%nat -> bytes_ok ivec -> bytes_ok input ->
  let num := Z.to_nat ((nbits + 7) / 8) in (num <= length input)%nat ->
  let '(out, ivec') := cfbr_encrypt_block indet input nbits ivec enc in
  let ct := if enc then out else take num input in
  out = xor_bytes (take num input) (encipher ivec) /\
  be_value ivec' = (be_value ivec * 2 ^ nbits + be_value ct / 2 ^ (8 * Z.of_nat num - nbits)) mod 2 ^ 128 /\
  length ivec' = 16%nat /\ bytes_ok ivec'.
Proof.
  intros Hn Hiv Hivok Hin num Hnum. unfold cfbr_encrypt_block.
  rewrite (proj2 (Z.leb_gt _ _)), (proj2 (Z.ltb_ge _ _)) by lia. cbn [orb]. fold num.
  set (out := xor_bytes (take num input) (encipher ivec)). set (ct := if enc then out else take num input).
  pose proof (encipher_length ivec Hiv) as HE. pose proof (encipher_bytes ivec Hiv Hivok) as HEok.
  destruct (Forall_drop_take byte_ok num input Hin) as [Htk _].
  destruct (bits_bytes nbits Hn) as (Hn16 & Hk16 & Hsum & Hcase0 & Hcase1). fold num in Hn16, Hcase0, Hcase1.
  set (k := Z.to_nat (nbits / 8)) in *.
  assert (Hctok : bytes_ok ct) by (subst ct out; destruct enc; [by apply xor_bytes_ok|done]).
  assert (Hctl : length ct = num) by (subst ct out; destruct enc; rewrite ?xor_bytes_length, ?length_take; lia).
  split; [done|]. destruct (Z.eqb_spec (nbits mod 8) 0) as [Hm|Hm].
  - specialize (Hcase0 Hm). replace (8 * Z.of_nat num - nbits) with 0 by lia. rewrite Z.div_1_r.
    replace (2 ^ nbits) with (2 ^ (8 * Z.of_nat k)) by (f_equal; lia). apply window_aligned; [done..|lia|done].
  - destruct (Hcase1 Hm) as [Hnk Hk]. pose proof (Z.mod_pos_bound nbits 8 ltac:(lia)).
    replace (8 * Z.of_nat num - nbits) with (8 - nbits mod 8) by lia.
    replace (2 ^ nbits) with (2 ^ (8 * Z.of_nat k + nbits mod 8)) by (f_equal; lia).
    apply window_shifted; [done..|lia|done|lia].
Qed.

Lemma xor_bytes_pad_twice a e : (length a <= length e)%nat -> xor_bytes (xor_bytes a e) e = a.
Proof.
  revert e. induction a as [|x a IH]; intros [|y e] Hl; simpl in *; try done; [lia|]. by rewrite lxor_twice, IH by lia.
Qed.

(** Equal cipher bits, equal vectors: what is behind the bits that are used does
    not matter. *)
Lemma cfbr_same_vector indet1 indet2 in1 in2 nbits ivec enc1 enc2 :
  0 < nbits <= 128 -> length ivec = 16%nat -> bytes_ok ivec -> bytes_ok in1 -> bytes_ok in2 ->
  let num := Z.to_nat ((nbits + 7) / 8) in (num <= length in1)%nat -> (num <= length in2)%nat ->
  let '(out1, iv1) := cfbr_encrypt_block indet1 in1 nbits ivec enc1 in
  let '(out2, iv2) := cfbr_encrypt_block indet2 in2 nbits ivec enc2 in
  be_value (if enc1 then out1 else take num in1) / 2 ^ (8 * Z.of_nat num - nbits) =
  be_value (if enc2 then out2 else take num in2) / 2 ^ (8 * Z.of_nat num - nbits) -> iv1 = iv2.
Proof.
  intros Hn Hiv Hivok H1 H2 num Hl1 Hl2.
  pose proof (cfbr_register indet1 in1 nbits ivec enc1 Hn Hiv Hivok H1 Hl1) as Hr1.
  pose proof (cfbr_register indet2 in2 nbits ivec enc2 Hn Hiv Hivok H2 Hl2) as Hr2.
  destruct (cfbr_encrypt_block indet1 in1 nbits ivec enc1) as [out1 iv1].
  destruct (cfbr_encrypt_block indet2 in2 nbits ivec enc2) as [out2 iv2].
  destruct Hr1 as (_ & Hv1 & Hlen1 & Hok1). destruct Hr2 as (_ & Hv2 & Hlen2 & Hok2). fold num in Hv1, Hv2.
  intros He. apply be_value_inj; [done..|congruence|]. rewrite Hv1, Hv2. by rewrite He.
Qed.

(** *** Bytes *)

Lemma cfb8_step indet x ivec enc :
  length ivec = 16%nat -> bytes_ok ivec -> byte_ok x ->
  exists e iv, nth 0 (encipher ivec) 0 = e /\ byte_ok e /\ length iv = 16%nat /\ bytes_ok iv /\
    cfbr_encrypt_block indet [x] 8 ivec enc = ([x ⊕ e], iv).
Proof.
  intros Hiv Hivok Hx. assert (Hxok : bytes_ok [x]) by (by constructor).
  pose proof (cfbr_register indet [x] 8 ivec enc ltac:(lia) Hiv Hivok Hxok ltac:(done)) as Hr.
  destruct (cfbr_encrypt_block indet [x] 8 ivec enc) as [out iv]. destruct Hr as (Hout & _ & Hl & Hok).
  pose proof (encipher_length ivec Hiv) as HE. pose proof (encipher_bytes ivec Hiv Hivok) as HEok.
  destruct (encipher ivec) as [|e E]; [done|]. exists e, iv. apply Forall_cons in HEok as [He _].
  split_and!; [done..|]. by rewrite Hout.
Qed.

Lemma cfb8_inverse indet1 indet2 input ivec :
  length ivec = 16%nat -> bytes_ok ivec -> bytes_ok input ->
  let '(c, iv1) := CRYPTO_cfb128_8_encrypt indet1 input ivec true in
  CRYPTO_cfb128_8_encrypt indet2 c ivec false = (input, iv1) /\ length c = length input /\ bytes_ok c.
Proof.
  intros Hiv Hivok Hin. revert ivec Hiv Hivok. induction Hin as [|x input Hx _ IH]; intros ivec Hiv Hivok; [by split_and!; [|..|constructor]|].
  cbn [CRYPTO_cfb128_8_encrypt]. destruct (cfb8_step indet1 x ivec true Hiv Hivok Hx) as (e & iv & He & Hek & Hl & Hok & Hstep).
  pose proof (byte_lxor x e Hx Hek) as Hy.
  destruct (cfb8_step indet2 (x ⊕ e) ivec false Hiv Hivok Hy) as (e' & iv' & He' & _ & Hl' & Hok' & Hstep').
  assert (Hsame : iv = iv').
  { pose proof (cfbr_same_vector indet1 indet2 [x] [x ⊕ e] 8 ivec true false ltac:(lia) Hiv Hivok
      ltac:(by constructor) ltac:(by constructor) ltac:(done) ltac:(done)) as Hs.
    rewrite Hstep, Hstep' in Hs. by apply Hs. }
  subst e' iv'. rewrite Hstep. specialize (IH iv Hl Hok).
  destruct (CRYPTO_cfb128_8_encrypt indet1 input iv true) as [c iv1]. destruct IH as (IH & Hlen & Hcok).
  cbn [app CRYPTO_cfb128_8_encrypt]. rewrite He in Hstep'. rewrite Hstep', IH, lxor_twice.
  split_and!; [done|simpl; by rewrite Hlen|by constructor].
Qed.

(** *** Bits *)

(** A bit as the code passes it. *)
Definition bit_byte (c : bool) : Z := if c then 0x80 else 0.

Lemma bit_byte_ok c : bytes_ok [bit_byte c].
Proof. constructor; [|constructor]. unfold byte_ok. by destruct c. Qed.

(** The top bit of a byte. *)
Lemma top_bit y : byte_ok y -> be_value [y] / 2 ^ 7 = Z.b2z (Z.testbit y 7).
Proof.
  intros Hy. rewrite be_value_cons, be_value_nil. change (256 ^ zlen (@nil Z)) with 1. rewrite Z.mul_1_r, Z.add_0_r.
  rewrite Z.testbit_spec' by lia. symmetry. apply Z.mod_small. unfold byte_ok in Hy. change (2 ^ 7) with 128.
  split; [apply Z.div_pos; lia|]. apply Z.div_lt_upper_bound; lia.
Qed.

Lemma cfb1_step indet c ivec enc :
  length ivec = 16%nat -> bytes_ok ivec ->
  exists y iv, byte_ok y /\ length iv = 16%nat /\ bytes_ok iv /\
    cfbr_encrypt_block indet [bit_byte c] 1 ivec enc = ([y], iv) /\
    Z.testbit y 7 = xorb c (Z.testbit (nth 0 (encipher ivec) 0) 7) /\
    be_value iv = (be_value ivec * 2 + Z.b2z (if enc then Z.testbit y 7 else c)) mod 2 ^ 128.
Proof.
  intros Hiv Hivok.
  pose proof (cfbr_register indet [bit_byte c] 1 ivec enc ltac:(lia) Hiv Hivok (bit_byte_ok c) ltac:(done)) as Hr.
  destruct (cfbr_encrypt_block indet [bit_byte c] 1 ivec enc) as [out iv]. destruct Hr as (Hout & Hv & Hl & Hok).
  pose proof (encipher_length ivec Hiv) as HE. pose proof (encipher_bytes ivec Hiv Hivok) as HEok.
  destruct (encipher ivec) as [|e E]; [done|]. apply Forall_cons in HEok as [He _].
  change (Z.to_nat ((1 + 7) / 8)) with 1%nat in *. cbn [take xor_bytes] in Hout.
  assert (Hc : byte_ok (bit_byte c)) by (unfold byte_ok; by destruct c).
  assert (Hc7 : Z.testbit (bit_byte c) 7 = c) by (by destruct c).
  pose proof (byte_lxor _ e Hc He) as Hy. exists (bit_byte c ⊕ e), iv. split_and!; [done..|by rewrite Hout| |].
  - rewrite Z.lxor_spec, Hc7. done.
  - rewrite Hv. change (8 * Z.of_nat 1 - 1) with 7. change (2 ^ 1) with 2. f_equal. f_equal.
    rewrite Hout. destruct enc; [by apply top_bit|]. cbn [take]. by rewrite top_bit, Hc7 by done.
Qed.

(** What the loop leaves of the buffer, and the bits it writes, for two runs: the
    first on [input], the second back on a buffer that has the bits of the first. *)
Lemma cfb1_loop_length indet k n input out ivec enc :
  length (fst (cfb1_loop indet k n input out ivec enc)) = length out.
Proof.
  revert n out ivec. induction k as [|k IH]; intros n out ivec; cbn [cfb1_loop]; [done|].
  destruct (cfbr_encrypt_block indet [_] 1 ivec enc) as [d iv]. by rewrite IH, put_bit_length.
Qed.

Lemma cfb1_loop_frame indet k n input out ivec enc m :
  (m < n \/ n + k <= m)%nat -> get_bit (fst (cfb1_loop indet k n input out ivec enc)) m = get_bit out m.
Proof.
  revert n out ivec. induction k as [|k IH]; intros n out ivec Hm; cbn [cfb1_loop]; [done|].
  destruct (cfbr_encrypt_block indet [_] 1 ivec enc) as [d iv]. rewrite IH by lia. apply put_bit_other. lia.
Qed.

Lemma cfb1_inverse indet1 indet2 k n input out1 c out2 ivec :
  length ivec = 16%nat -> bytes_ok ivec -> (n + k <= 8 * length out1)%nat -> (n + k <= 8 * length out2)%nat ->
  let '(c1, iv1) := cfb1_loop indet1 k n input out1 ivec true in
  (forall m, (n <= m < n + k)%nat -> get_bit c m = get_bit c1 m) ->
  let '(p, iv2) := cfb1_loop indet2 k n c out2 ivec false in
  iv2 = iv1 /\ forall m, (n <= m < n + k)%nat -> get_bit p m = get_bit input m.
Proof.
  intros Hiv Hivok. revert n out1 out2 ivec Hiv Hivok.
  induction k as [|k IH]; intros n out1 out2 ivec Hiv Hivok Hl1 Hl2; cbn [cfb1_loop]; [intros _; split; [done|lia]|].
  destruct (cfb1_step indet1 (get_bit input n) ivec true Hiv Hivok) as (y1 & iv1 & Hy1 & Hiv1 & Hiv1ok & Hs1 & Hb1 & Hv1).
  fold (bit_byte (get_bit input n)). rewrite Hs1. cbn [nth].
  pose proof (cfb1_loop_frame indet1 k (S n) input (put_bit out1 n y1) iv1 true n ltac:(lia)) as Hframe.
  rewrite put_bit_same in Hframe by (apply Nat.Div0.div_lt_upper_bound; lia).
  destruct (cfb1_loop indet1 k (S n) input (put_bit out1 n y1) iv1 true) as [c1 ivf1] eqn:E1. cbn [fst] in Hframe.
  intros Hc. fold (bit_byte (get_bit c n)). rewrite (Hc n) by lia. rewrite Hframe.
  destruct (cfb1_step indet2 (Z.testbit y1 7) ivec false Hiv Hivok) as (y2 & iv2 & Hy2 & Hiv2 & Hiv2ok & Hs2 & Hb2 & Hv2).
  rewrite Hs2. cbn [nth]. assert (iv2 = iv1) as -> by (apply be_value_inj; [done..|congruence|by rewrite Hv1, Hv2]).
  specialize (IH (S n) (put_bit out1 n y1) (put_bit out2 n y2) iv1 Hiv1 Hiv1ok).
  rewrite !put_bit_length, E1 in IH. specialize (IH ltac:(lia) ltac:(lia) ltac:(intros m Hm; apply Hc; lia)).
  pose proof (cfb1_loop_frame indet2 k (S n) c (put_bit out2 n y2) iv1 false n ltac:(lia)) as Hframe2.
  destruct (cfb1_loop indet2 k (S n) c (put_bit out2 n y2) iv1 false) as [p ivf2]. destruct IH as [-> IH].
  split; [done|]. intros m Hm. destruct (Nat.eq_dec m n) as [->|Hne]; [|apply IH; lia].
  cbn [fst] in Hframe2. rewrite Hframe2, put_bit_same by (apply Nat.Div0.div_lt_upper_bound; lia).
  rewrite Hb2, Hb1. by rewrite xorb_assoc, xorb_nilpotent, xorb_false_r.
Qed.
End register.

(** ** The theorems *)

Section cfb_theorems.
Context `{BlockLaws}.

(** C28: The vector is a shift register: a step of 1 to 128 bits exclusive-ors the input
    with the first bytes of the enciphered vector, and the new vector is the old
    one shifted left by that number of bits with the first cipher text bits moved
    in, as numbers of 128 bits; what the array ovec holds behind the bytes that are
    set plays no part, and any other number of bits leaves the vector alone. *)
Theorem cfb_shift_register indet input nbits ivec enc :
  length ivec = 16%nat -> bytes_ok ivec -> bytes_ok input -> (nbits + 7) / 8 <= zlen input ->
  if (0 <? nbits) && (nbits <=? 128) then
    let num := Z.to_nat ((nbits + 7) / 8) in
    let '(out, ivec') := cfbr_encrypt_block indet input nbits ivec enc in
    let ct := if enc then out else take num input in
    out = xor_bytes (take num input) (encipher ivec) /\
    be_value ivec' = (be_value ivec * 2 ^ nbits + be_value ct / 2 ^ (8 * Z.of_nat num - nbits)) mod 2 ^ 128 /\
    length ivec' = 16%nat /\ bytes_ok ivec'
  else cfbr_encrypt_block indet input nbits ivec enc = ([], ivec).
Proof.
  intros Hiv Hivok Hin Hl. destruct (_ && _) eqn:Hn.
  - apply andb_prop in Hn as [H1%Z.ltb_lt H2%Z.leb_le]. cbn zeta. apply cfbr_register; [done..|].
    unfold zlen in Hl. assert (0 <= (nbits + 7) / 8) by (apply Z.div_pos; lia). lia.
  - unfold cfbr_encrypt_block. assert (Hout : (nbits <=? 0) || (128 <? nbits) = true); [|by rewrite Hout].
    apply andb_false_iff in Hn as [Hn%Z.ltb_ge|Hn%Z.leb_gt]; apply orb_true_iff;
      [left; by apply Z.leb_le|right; by apply Z.ltb_lt].
Qed.

(** Both narrow modes decrypt what they encrypted: the 8-bit mode returns the input
    and leaves the same vector; the 1-bit mode returns each of the bits, keeps the
    bits of the output buffer behind them, and leaves the same vector, whatever the
    buffers held before. *)
Theorem cfb_narrow_roundtrip indet1 indet2 input out1 out2 bits ivec :
  length ivec = 16%nat -> bytes_ok ivec -> bytes_ok input ->
  (bits <= 8 * length out1)%nat -> (bits <= 8 * length out2)%nat ->
  (let '(c, iv1) := CRYPTO_cfb128_8_encrypt indet1 input ivec true in
   CRYPTO_cfb128_8_encrypt indet2 c ivec false = (input, iv1) /\ length c = length input) /\
  let '(c, iv1) := CRYPTO_cfb128_1_encrypt indet1 input out1 bits ivec true in
  let '(p, iv2) := CRYPTO_cfb128_1_encrypt indet2 c out2 bits ivec false in
  iv2 = iv1 /\ length p = length out2 /\
  (forall n, (n < bits)%nat -> get_bit p n = get_bit input n) /\
  (forall n, (bits <= n)%nat -> get_bit p n = get_bit out2 n).
Proof.
  intros Hiv Hivok Hin H1 H2. split.
  - pose proof (cfb8_inverse indet1 indet2 input ivec Hiv Hivok Hin) as Hi.
    destruct (CRYPTO_cfb128_8_encrypt indet1 input ivec true) as [c iv1]. by destruct Hi as (? & ? & _).
  - unfold CRYPTO_cfb128_1_encrypt.
    pose proof (cfb1_inverse indet1 indet2 bits 0 input out1) as Hinv.
    destruct (cfb1_loop indet1 bits 0 input out1 ivec true) as [c iv1] eqn:E1.
    specialize (Hinv c out2 ivec Hiv Hivok ltac:(lia) ltac:(lia)). rewrite E1 in Hinv. specialize (Hinv ltac:(done)).
    pose proof (cfb1_loop_length indet2 bits 0 c out2 ivec false) as Hlen.
    pose proof (fun m Hm => cfb1_loop_frame indet2 bits 0 c out2 ivec false m (or_intror Hm)) as Hframe.
    destruct (cfb1_loop indet2 bits 0 c out2 ivec false) as [p iv2]. destruct Hinv as [-> Hbits].
    split_and!; [done|exact Hlen|intros n Hn; apply Hbits; lia|exact Hframe].
Qed.
End cfb_theorems.

Lemma cfb_shift_register_witness :
  exists C : BlockCipher,
    let '(out, iv) := cfbr_encrypt_block [] demo_text 11 demo_iv true in
    be_value iv = (be_value demo_iv * 2 ^ 11 + be_value out / 2 ^ 5) mod 2 ^ 128.
Proof.
  exists demo_cipher.
  pose proof (@cfb_shift_register demo_cipher demo_laws [] demo_text 11 demo_iv true eq_refl demo_iv_ok demo_text_ok
    ltac:(vm_compute; discriminate)) as Hs.
  change ((0 <? 11) && (11 <=? 128)) with true in Hs. cbn iota in Hs.
  change (8 * Z.of_nat (Z.to_nat ((11 + 7) / 8)) - 11) with 5 in Hs.
  destruct (cfbr_encrypt_block [] demo_text 11 demo_iv true) as [out iv]. exact (proj1 (proj2 Hs)).
Defined.

Lemma cfb_narrow_roundtrip_witness :
  exists C : BlockCipher,
    let '(c, iv1) := CRYPTO_cfb128_8_encrypt [] demo_text demo_iv true in
    CRYPTO_cfb128_8_encrypt [] c demo_iv false = (demo_text, iv1) /\ length c = length demo_text.
Proof.
  exists demo_cipher.
  assert (H1 : (13 <= 8 * length [0; 0])%nat) by (simpl; lia).
  destruct (@cfb_narrow_roundtrip demo_cipher demo_laws [] [] demo_text [0; 0] [0; 0] 13 demo_iv eq_refl demo_iv_ok
    demo_text_ok H1 H1) as [Hs _]. exact Hs.
Defined.
