(* ===== verification/Ctr32.v ===== *)
(** * CTR with a 32-bit counter function (crypto/modes/ctr128.c)

    CRYPTO_ctr128_encrypt_ctr32 hands runs of blocks to a function that counts in
    the last 32 bits only, cuts the runs where those overflow and carries into the
    upper 96 bits itself. *)

From S2P Require Import Prelude Words Modes Cfb.

Definition get_ctr32 (ivec : bytes) : Z :=
  pack4 (nth 12 ivec 0) (nth 13 ivec 0) (nth 14 ivec 0) (nth 15 ivec 0).
Definition put_ctr32 (ivec : bytes) (w : Z) : bytes := take 12 ivec ++ bytes_of_word w.

(** The upper 96 bits of the counter: the carry runs from byte 11 to byte 0. *)
Definition ctr96_inc (counter : bytes) : bytes := rev (inc_bytes (rev (take 12 counter)) 1) ++ drop 12 counter.

(** A function of type ctr128_f for a key: the blocks of the input and the vector,
    which it does not update. *)
Class CtrFunction := ctr_function : bytes -> bytes -> bytes.

(** What such a function is called for: block [i] is exclusive-ored with the
    enciphered vector whose last 32 bits are [i] higher, modulo 2^32. *)
Section blocks32.
Context `{BlockCipher}.

Fixpoint blocks32 (n : nat) (input ivec : bytes) : bytes :=
  match n with
  | O => []
  | S n' =>
      xor_bytes (take 16 input) (encipher ivec) ++
      blocks32 n' (drop 16 input) (put_ctr32 ivec (u32 (get_ctr32 ivec + 1)))
  end.
End blocks32.

Class CtrLaws (C : BlockCipher) (F : CtrFunction) :=
  ctr_function_blocks : forall n input ivec,
    length input = (16 * n)%nat -> length ivec = 16%nat -> ctr_function input ivec = blocks32 n input ivec.

Section ctr32.
Context {F : CtrFunction}.

(** The vector after a run: the counter stored, and the carry. *)
Definition store_ctr32 (ivec : bytes) (ctr32 : Z) : bytes :=
  let ivec := put_ctr32 ivec ctr32 in
  if ctr32 =? 0 then ctr96_inc ivec else ivec.

(** [while (len >= 16)]; with a size_t of 32 bits the number of blocks is below
    2^28, so that the test for more has no effect. *)
Fixpoint ctr32_blocks (fuel : nat) (input ivec : bytes) (ctr32 : Z) : bytes * bytes * bytes * Z :=
  match fuel with
  | O => ([], input, ivec, ctr32)
  | S fuel' =>
      if (16 <=? length input)%nat then
        let blocks := zlen input / 16 in
        let ctr32 := u32 (ctr32 + blocks) in
        let '(blocks, ctr32) := if ctr32 <? blocks then (blocks - ctr32, 0) else (blocks, ctr32) in
        let m := (16 * Z.to_nat blocks)%nat in
        let out := ctr_function (take m input) ivec in
        let ivec := store_ctr32 ivec ctr32 in
        let '(out', rest, ivec, ctr32) := ctr32_blocks fuel' (drop m input) ivec ctr32 in
        (out ++ out', rest, ivec, ctr32)
      else ([], input, ivec, ctr32)
  end.

Definition CRYPTO_ctr128_encrypt_ctr32 (input ivec ecount_buf : bytes) (num : nat) : bytes * nat * (bytes * bytes) :=
  let '(out1, rest, n, _) := stream_head ctr_step num input (ivec, ecount_buf) in
  let '(out2, rest, ivec, ctr32) := ctr32_blocks (length rest) rest ivec (get_ctr32 ivec) in
  match rest with
  | [] => (out1 ++ out2, n, (ivec, ecount_buf))
  | _ =>
      let ecount_buf := ctr_function (replicate 16 0) ivec in
      let ctr32 := u32 (ctr32 + 1) in
      let ivec := store_ctr32 ivec ctr32 in
      let '(out3, n, _) := stream_run ctr_step n rest (ivec, ecount_buf) in
      (out1 ++ out2 ++ out3, n, (ivec, ecount_buf))
  end.
End ctr32.

(** ** The counter as a number *)

Definition counter_ok (iv : bytes) : Prop := length iv = 16%nat /\ bytes_ok iv.

Lemma get_ctr32_value iv : counter_ok iv -> get_ctr32 iv = be_value (drop 12 iv) /\ 0 <= get_ctr32 iv < 4294967296.
Proof.
  intros [Hl Hok]. do 16 (destruct iv as [|? iv]; [done|]). destruct iv; [|done].
  unfold bytes_ok in Hok. rewrite !Forall_cons in Hok.
  destruct Hok as (_ & _ & _ & _ & _ & _ & _ & _ & _ & _ & _ & _ & H0 & H1 & H2 & H3 & _).
  unfold get_ctr32. cbn [nth drop]. split.
  - rewrite pack4_sum by done. rewrite !be_value_cons, be_value_nil. unfold zlen. simpl length.
    change (256 ^ Z.of_nat 3) with 16777216. change (256 ^ Z.of_nat 2) with 65536. change (256 ^ Z.of_nat 1) with 256.
    change (256 ^ Z.of_nat 0) with 1. lia.
  - by apply (pack4_word _ _ _ _ H0 H1 H2 H3).
Qed.

Lemma bytes_of_word_value w : 0 <= w < 4294967296 -> be_value (bytes_of_word w) = w /\ bytes_ok (bytes_of_word w).
Proof.
  intros Hw. destruct (word_bytes w Hw) as (b0 & b1 & b2 & b3 & -> & H0 & H1 & H2 & H3).
  rewrite bytes_of_pack4 by done. split; [|repeat (apply Forall_cons_2; [done|]); apply Forall_nil_2].
  rewrite pack4_sum by done. rewrite !be_value_cons, be_value_nil. unfold zlen. simpl length.
  change (256 ^ Z.of_nat 3) with 16777216. change (256 ^ Z.of_nat 2) with 65536. change (256 ^ Z.of_nat 1) with 256.
  change (256 ^ Z.of_nat 0) with 1. lia.
Qed.

Lemma put_ctr32_spec iv w :
  counter_ok iv -> 0 <= w < 4294967296 ->
  counter_ok (put_ctr32 iv w) /\ take 12 (put_ctr32 iv w) = take 12 iv /\ drop 12 (put_ctr32 iv w) = bytes_of_word w /\
  get_ctr32 (put_ctr32 iv w) = w.
Proof.
  intros [Hl Hok] Hw. destruct (bytes_of_word_value w Hw) as [Hv Hwok]. unfold put_ctr32.
  assert (Ht : length (take 12 iv) = 12%nat) by (rewrite length_take; lia).
  assert (Hc : counter_ok (take 12 iv ++ bytes_of_word w)).
  { split; [rewrite length_app, Ht; done|]. apply Forall_app. split; [by apply Forall_drop_take|done]. }
  assert (Hd : drop 12 (take 12 iv ++ bytes_of_word w) = bytes_of_word w) by (by apply drop_app_length').
  split_and!; [done|by apply take_app_length'|done|]. by rewrite (proj1 (get_ctr32_value _ Hc)), Hd.
Qed.

(** The number in two parts. *)
Lemma counter_value iv : counter_ok iv -> be_value iv = be_value (take 12 iv) * 4294967296 + get_ctr32 iv.
Proof.
  intros Hc. rewrite (proj1 (get_ctr32_value iv Hc)). rewrite <- (take_drop 12 iv) at 1. rewrite be_value_app.
  do 2 f_equal. destruct Hc as [Hl _]. unfold zlen. rewrite length_drop, Hl. done.
Qed.

Lemma ctr128_inc_value iv : counter_ok iv -> counter_ok (ctr128_inc iv) /\ be_value (ctr128_inc iv) = (be_value iv + 1) mod 2 ^ 128.
Proof. intros [Hl Hok]. destruct (ctr128_inc_adds_one iv Hok Hl) as (Hv & Hl' & Hok'). done. Qed.

Lemma ctr96_inc_spec iv :
  counter_ok iv -> counter_ok (ctr96_inc iv) /\ get_ctr32 (ctr96_inc iv) = get_ctr32 iv /\
  be_value (take 12 (ctr96_inc iv)) = (be_value (take 12 iv) + 1) mod 2 ^ 96.
Proof.
  intros Hc. pose proof Hc as [Hl Hok]. destruct (Forall_drop_take byte_ok 12 iv Hok) as [Htk Hdr].
  assert (Ht : length (take 12 iv) = 12%nat) by (rewrite length_take; lia).
  destruct (inc_bytes_value (rev (take 12 iv)) 1) as (Hv & Hlen & Hb); [by apply Forall_rev|lia|].
  unfold ctr96_inc. set (hi := rev (inc_bytes (rev (take 12 iv)) 1)).
  assert (Hhl : length hi = 12%nat) by (unfold hi; rewrite length_rev, Hlen, length_rev; done).
  assert (Hhc : counter_ok (hi ++ drop 12 iv)).
  { split; [rewrite length_app, length_drop; lia|]. apply Forall_app. split; [by apply Forall_rev|done]. }
  split; [done|]. split.
  - rewrite (proj1 (get_ctr32_value _ Hhc)), (proj1 (get_ctr32_value _ Hc)). f_equal. by apply drop_app_length'.
  - rewrite take_app_length' by done. unfold be_value, hi. rewrite rev_involutive, Hv, length_rev, Ht. done.
Qed.

(** Storing a counter and carrying adds to the number. *)
Lemma store_ctr32_value iv k :
  counter_ok iv -> 0 < k -> get_ctr32 iv + k <= 4294967296 ->
  let w := u32 (get_ctr32 iv + k) in
  counter_ok (store_ctr32 iv w) /\ get_ctr32 (store_ctr32 iv w) = w /\
  be_value (store_ctr32 iv w) = (be_value iv + k) mod 2 ^ 128.
Proof.
  intros Hc Hk Hb w. pose proof (u32_range (get_ctr32 iv + k)) as Hw. fold w in Hw.
  destruct (get_ctr32_value iv Hc) as [_ Hr]. destruct (put_ctr32_spec iv w Hc Hw) as (Hpc & Hpt & _ & Hpg).
  assert (Hhi : 0 <= be_value (take 12 iv) < 2 ^ 96).
  { destruct Hc as [Hl Hok]. pose proof (be_value_range (take 12 iv) ltac:(by apply Forall_drop_take)) as Hh.
    unfold zlen in Hh. rewrite length_take, Nat.min_l in Hh by lia. exact Hh. }
  unfold store_ctr32. destruct (Z.eqb_spec w 0) as [Hz|Hnz].
  - destruct (ctr96_inc_spec _ Hpc) as (Hic & Hig & Hiv). split; [done|]. split; [by rewrite Hig|].
    rewrite (counter_value _ Hic), Hig, Hpg, Hiv, Hpt, (counter_value iv Hc), Hz, Z.add_0_r.
    assert (Hfull : get_ctr32 iv + k = 4294967296).
    { unfold w in Hz. destruct (Z.lt_ge_cases (get_ctr32 iv + k) 4294967296); [rewrite u32_small in Hz; lia|lia]. }
    set (h := be_value (take 12 iv)) in *. replace (h * 4294967296 + get_ctr32 iv + k) with (4294967296 * (h + 1)) by lia.
    change (2 ^ 128) with (4294967296 * 2 ^ 96). rewrite Z.mul_mod_distr_l by lia. ring.
  - split; [done|]. split; [done|]. rewrite (counter_value _ Hpc), Hpg, Hpt, (counter_value iv Hc).
    assert (Hlt : get_ctr32 iv + k < 4294967296).
    { unfold w in Hnz. destruct (Z.eq_dec (get_ctr32 iv + k) 4294967296) as [He|]; [rewrite He in Hnz; by destruct Hnz|lia]. }
    unfold w. rewrite u32_small by lia. set (h := be_value (take 12 iv)) in *.
    rewrite Z.mod_small; [ring|]. change (2 ^ 128) with (2 ^ 96 * 4294967296). nia.
Qed.

(** One block more is one step of the 128-bit counter. *)
Lemma ctr128_inc_store iv : counter_ok iv -> ctr128_inc iv = store_ctr32 iv (u32 (get_ctr32 iv + 1)).
Proof.
  intros Hc. destruct (get_ctr32_value iv Hc) as [_ Hr]. destruct (ctr128_inc_value iv Hc) as [[Hl Hok] Hv].
  destruct (store_ctr32_value iv 1 Hc) as ([Hl' Hok'] & _ & Hv'); [lia..|].
  apply be_value_inj; [done|done|congruence|by rewrite Hv, Hv'].
Qed.

(** ** Runs of blocks *)

Section runs.
Context `{BlockLaws}.

(** What the 128-bit counter does in [n] blocks. *)
Fixpoint run128 (n : nat) (input iv : bytes) : bytes * bytes :=
  match n with
  | O => ([], iv)
  | S n' =>
      let '(out, iv') := run128 n' (drop 16 input) (ctr128_inc iv) in
      (xor_bytes (take 16 input) (encipher iv) ++ out, iv')
  end.

Lemma run128_app a n input iv :
  run128 (a + n) input iv =
    (let '(o1, iv1) := run128 a input iv in
     let '(o2, iv2) := run128 n (drop (16 * a) input) iv1 in (o1 ++ o2, iv2)).
Proof.
  revert input iv. induction a as [|a IH]; intros input iv.
  { cbn [run128 Nat.add]. rewrite Nat.mul_0_r, drop_0. by destruct (run128 n input iv). }
  cbn [run128 Nat.add]. rewrite IH. destruct (run128 a (drop 16 input) (ctr128_inc iv)) as [o1 iv1].
  rewrite drop_drop. replace (16 + 16 * a)%nat with (16 * S a)%nat by lia.
  destruct (run128 n (drop (16 * S a) input) iv1) as [o2 iv2]. by rewrite app_assoc.
Qed.

(** Without overflow the two counters do the same. *)
Lemma run128_blocks32 n input iv :
  counter_ok iv -> (0 < n)%nat -> get_ctr32 iv + Z.of_nat n <= 4294967296 ->
  run128 n input iv = (blocks32 n input iv, store_ctr32 iv (u32 (get_ctr32 iv + Z.of_nat n))).
Proof.
  revert input iv. induction n as [|n IH]; intros input iv Hc Hn Hb; [lia|]. cbn [run128 blocks32].
  rewrite ctr128_inc_store by done. destruct (get_ctr32_value iv Hc) as [_ Hr].
  destruct n as [|n]; [done|]. set (w := u32 (get_ctr32 iv + 1)).
  assert (Hw : w = get_ctr32 iv + 1) by (unfold w; rewrite u32_small; lia).
  destruct (put_ctr32_spec iv w Hc) as (Hpc & Hpt & _ & Hpg); [lia|].
  assert (Hs : store_ctr32 iv w = put_ctr32 iv w).
  { unfold store_ctr32. by rewrite (proj2 (Z.eqb_neq _ _)) by lia. }
  rewrite Hs, IH by (done || lia). rewrite Hpg. f_equal.
  replace (w + Z.of_nat (S n)) with (get_ctr32 iv + Z.of_nat (S (S n))) by lia.
  unfold store_ctr32.
  assert (Hpp : forall v, put_ctr32 (put_ctr32 iv w) v = put_ctr32 iv v) by (intros v; unfold put_ctr32 at 1 3; by rewrite Hpt).
  by rewrite !Hpp.
Qed.

Lemma run128_ok n input iv : counter_ok iv -> counter_ok (snd (run128 n input iv)).
Proof.
  revert input iv. induction n as [|n IH]; intros input iv Hc; cbn [run128]; [done|].
  specialize (IH (drop 16 input) (ctr128_inc iv) (proj1 (ctr128_inc_value iv Hc))).
  by destruct (run128 n (drop 16 input) (ctr128_inc iv)).
Qed.

(** The bytes of a block do not change the state. *)
Lemma ctr_run n input iv ec :
  (n + length input <= length ec)%nat ->
  stream_run ctr_step n input (iv, ec) = (xor_bytes input (drop n ec), (n + length input)%nat, (iv, ec)).
Proof.
  revert n. induction input as [|x input IH]; intros n Hl; cbn [stream_run length]; [by rewrite Nat.add_0_r|].
  cbn [length] in Hl. cbn [ctr_step snd]. rewrite IH by lia.
  destruct (lookup_lt_is_Some_2 ec n) as [y Hy]; [lia|]. rewrite (drop_S ec y n Hy). cbn [xor_bytes].
  rewrite nth_lookup, Hy. cbn [default]. rewrite Nat.add_1_r. do 2 f_equal. lia.
Qed.

(** The block loop of the 128-bit counter. *)
Lemma stream_blocks_run fuel input iv ec :
  (length input <= fuel)%nat -> counter_ok iv -> let m := (length input / 16)%nat in
  exists ec', stream_blocks ctr_refresh ctr_step fuel 0 input (iv, ec) =
    (fst (run128 m input iv), drop (16 * m) input, 0%nat, (snd (run128 m input iv), ec')).
Proof.
  revert input iv ec. induction fuel as [|fuel IH]; intros input iv ec Hl Hc; cbn [stream_blocks].
  { destruct input; [|simpl in Hl; lia]. by exists ec. }
  destruct (Nat.leb_spec 16 (length input)) as [Hge|Hlt].
  2:{ rewrite Nat.div_small by done. exists ec. cbn zeta. by rewrite Nat.mul_0_r, drop_0. }
  cbn zeta. cbn [ctr_refresh]. pose proof Hc as [Hivl _]. pose proof (encipher_length iv Hivl) as HE.
  rewrite ctr_run by (rewrite length_take; lia). rewrite drop_0.
  destruct (IH (drop 16 input) (ctr128_inc iv) (encipher iv)) as [ec' Hrec];
    [rewrite length_drop; lia|apply ctr128_inc_value, Hc|]. cbn zeta in Hrec. rewrite Hrec.
  rewrite length_drop in *. exists ec'.
  assert (Hm : (length input / 16 = S ((length input - 16) / 16))%nat).
  { rewrite <- (Nat.div_add_l 1 16) by lia. f_equal. lia. }
  rewrite Hm. cbn [run128]. destruct (run128 _ (drop 16 input) (ctr128_inc iv)) as [o iv']. cbn [fst snd].
  rewrite drop_drop. do 3 f_equal. f_equal. lia.
Qed.
End runs.

Section ctr32_lemmas.
Context `{BlockLaws} {F : CtrFunction} {FL : CtrLaws C F}.

Lemma blocks32_take n input iv : blocks32 n (take (16 * n) input) iv = blocks32 n input iv.
Proof.
  revert input iv. induction n as [|n IH]; intros input iv; cbn [blocks32]; [done|].
  rewrite take_take, Nat.min_l by lia. f_equal. rewrite <- (IH (drop 16 input)).
  rewrite take_drop_commute. by replace (16 * S n)%nat with (16 + 16 * n)%nat by lia.
Qed.

(** How many blocks a run has, and the counter after it. *)
Lemma run_length c n :
  0 <= c < 4294967296 -> 0 < n < 268435456 ->
  let c' := u32 (c + n) in
  let '(k, ctr32) := if c' <? n then (n - c', 0) else (n, c') in
  0 < k <= n /\ c + k <= 4294967296 /\ ctr32 = u32 (c + k).
Proof.
  intros Hc Hn. cbn zeta. destruct (Z.lt_ge_cases (c + n) 4294967296) as [Hlt|Hge].
  - rewrite u32_small by lia. rewrite (proj2 (Z.ltb_ge _ _)) by lia. split_and!; try lia. by rewrite u32_small by lia.
  - assert (He : u32 (c + n) = c + n - 4294967296).
    { unfold u32, wrap. change (2 ^ 32) with 4294967296. symmetry. apply (Z.mod_unique _ _ 1); lia. }
    rewrite He. rewrite (proj2 (Z.ltb_lt _ _)) by lia. split_and!; try lia.
    replace (c + (n - (c + n - 4294967296))) with 4294967296 by lia. done.
Qed.

Lemma ctr32_blocks_run fuel input iv :
  (length input <= fuel)%nat -> zlen input < 4294967296 -> counter_ok iv -> let m := (length input / 16)%nat in
  ctr32_blocks fuel input iv (get_ctr32 iv) =
    (fst (run128 m input iv), drop (16 * m) input, snd (run128 m input iv), get_ctr32 (snd (run128 m input iv))).
Proof.
  revert input iv. induction fuel as [|fuel IH]; intros input iv Hl Hz Hc; cbn [ctr32_blocks].
  { destruct input; [done|simpl in Hl; lia]. }
  destruct (Nat.leb_spec 16 (length input)) as [Hge|Hlt].
  2:{ cbn zeta. rewrite Nat.div_small by done. cbn [run128 fst snd]. by rewrite Nat.mul_0_r, drop_0. }
  cbn zeta. set (m := (length input / 16)%nat).
  assert (Hm : zlen input / 16 = Z.of_nat m) by (unfold zlen, m; by rewrite Nat2Z.inj_div). rewrite Hm.
  assert (Hm16 : (16 * m <= length input)%nat) by (apply Nat.Div0.mul_div_le).
  assert (Hm1 : (1 <= m)%nat) by (apply (Nat.Div0.div_le_mono 16 (length input) 16); lia).
  destruct (get_ctr32_value iv Hc) as [_ Hr]. unfold zlen in *.
  pose proof (run_length (get_ctr32 iv) (Z.of_nat m) Hr ltac:(lia)) as Hrun. cbn zeta in Hrun.
  destruct (if u32 (get_ctr32 iv + Z.of_nat m) <? Z.of_nat m then _ else _) as [k ctr32].
  destruct Hrun as (Hk & Hck & ->). set (a := Z.to_nat k). assert (Ha : k = Z.of_nat a) by lia.
  rewrite (ctr_function_blocks a), blocks32_take; [|rewrite length_take; lia|apply Hc].
  pose proof (run128_blocks32 a input iv Hc ltac:(lia) ltac:(lia)) as Hra. rewrite Ha.
  replace m with (a + (m - a))%nat by lia. rewrite run128_app, Hra.
  destruct (store_ctr32_value iv k Hc ltac:(lia) Hck) as (Hsc & Hsg & _). rewrite Ha in Hsc, Hsg.
  set (iv1 := store_ctr32 iv (u32 (get_ctr32 iv + Z.of_nat a))) in *. rewrite <- Hsg at 1.
  specialize (IH (drop (16 * a) input) iv1). rewrite length_drop in IH.
  specialize (IH ltac:(lia) ltac:(lia) Hsc). cbn zeta in IH.
  assert (Hma : ((length input - 16 * a) / 16 = m - a)%nat).
  { assert (He : m = ((length input - 16 * a) / 16 + a)%nat); [|lia].
    unfold m. rewrite <- Nat.div_add by lia. f_equal. lia. }
  rewrite Hma in IH. rewrite IH. destruct (run128 (m - a) (drop (16 * a) input) iv1) as [o iv2]. cbn [fst snd].
  rewrite drop_drop. do 3 f_equal. f_equal. lia.
Qed.
End ctr32_lemmas.

(** ** The theorem *)

(** The state that the bytes of the first loop leave. *)
Lemma ctr_head n input iv ec :
  exists out rest n', stream_head ctr_step n input (iv, ec) = (out, rest, n', (iv, ec)) /\ (length rest <= length input)%nat.
Proof.
  revert n. induction input as [|x input IH]; intros n; cbn [stream_head]; [by exists [], [], n|].
  destruct (n =? 0)%nat; [by exists [], (x :: input), n|]. cbn [ctr_step snd].
  destruct (IH ((n + 1) mod 16)%nat) as (out & rest & n' & -> & Hl). eexists _, _, _. split; [done|]. simpl. lia.
Qed.

Section ctr32_theorem.
Context `{BlockLaws} {F : CtrFunction} {FL : CtrLaws C F}.

(** C29: The 32-bit counter function changes nothing: over a function that counts in 32
    bits, CRYPTO_ctr128_encrypt_ctr32 has the output, position and vector of
    CRYPTO_ctr128_encrypt, which counts in 128 bits, also when the 32-bit counter
    overflows inside the data, for every length that a size_t holds; the buffer of
    key stream is the same wherever a later call can use it. *)
Theorem ctr32_agrees input ivec ecount_buf n :
  (n < 16)%nat -> length ivec = 16%nat -> bytes_ok ivec -> length ecount_buf = 16%nat -> zlen input < 4294967296 ->
  let '(out1, n1, (iv1, ec1)) := CRYPTO_ctr128_encrypt_ctr32 input ivec ecount_buf n in
  let '(out2, n2, (iv2, ec2)) := CRYPTO_ctr128_encrypt input ivec ecount_buf n in
  out1 = out2 /\ n1 = n2 /\ iv1 = iv2 /\ (n1 <> 0%nat -> ec1 = ec2).
Proof.
  intros Hn Hiv Hivok Hec Hz. assert (Hc : counter_ok ivec) by done.
  unfold CRYPTO_ctr128_encrypt_ctr32, CRYPTO_ctr128_encrypt, stream.
  pose proof (stream_head_bytes ctr_refresh ctr_step n input (ivec, ecount_buf) Hn) as Hh.
  destruct (ctr_head n input ivec ecount_buf) as (out1 & rest & n1 & Hhead & Hlr). rewrite Hhead in *.
  destruct Hh as (_ & Hn1 & Hrest).
  assert (Hzr : zlen rest < 4294967296) by (unfold zlen in *; lia).
  rewrite (ctr32_blocks_run (length rest) rest ivec ltac:(lia) Hzr Hc).
  destruct rest as [|x rest'].
  { cbn [length stream_blocks]. cbn. split_and!; done. }
  rewrite (Hrest ltac:(done)). set (rest := x :: rest') in *. set (m := (length rest / 16)%nat).
  destruct (stream_blocks_run (length rest) rest ivec ecount_buf ltac:(lia) Hc) as [ec' Hblk]. fold m in Hblk. rewrite Hblk.
  pose proof (run128_ok m rest ivec Hc) as Hc1. destruct (run128 m rest ivec) as [out2 iv1]. cbn [fst snd] in *.
  destruct (drop (16 * m) rest) as [|y tail] eqn:Et; [split_and!; done|].
  pose proof Hc1 as [Hiv1 Hiv1ok]. pose proof (encipher_length iv1 Hiv1) as HE. pose proof (encipher_bytes iv1 Hiv1 Hiv1ok) as HEok.
  assert (Htl : (length (y :: tail) <= 16)%nat).
  { rewrite <- Et, length_drop. pose proof (Nat.div_mod_eq (length rest) 16). pose proof (Nat.mod_upper_bound (length rest) 16 ltac:(lia)). unfold m. lia. }
  rewrite (ctr_function_blocks 1) by done. cbn [blocks32]. rewrite app_nil_r, (take_ge (replicate 16 0)) by done.
  rewrite xor_zeros by done. cbn [ctr_refresh]. rewrite !ctr_run by lia.
  rewrite <- ctr128_inc_store by done. split_and!; done.
Qed.
End ctr32_theorem.

(** ** Instances to evaluate on *)

(** A counter function over the reversing cipher. *)
Definition demo_ctr : CtrFunction := fun input ivec => @blocks32 demo_cipher (length input / 16) input ivec.

Lemma demo_ctr_laws : CtrLaws demo_cipher demo_ctr.
Proof. intros n input ivec Hl _. unfold ctr_function, demo_ctr. rewrite Hl, Nat.mul_comm. by rewrite Nat.div_mul. Qed.

(** A vector whose last 32 bits overflow after two blocks. *)
Definition edge_iv : bytes := replicate 11 0xFF ++ [0; 0xFF; 0xFF; 0xFF; 0xFE].

Lemma ctr32_agrees_witness :
  exists (C : BlockCipher) (F : CtrFunction),
    let '(out1, n1, (iv1, ec1)) := CRYPTO_ctr128_encrypt_ctr32 demo_text edge_iv edge_iv 0 in
    let '(out2, n2, (iv2, ec2)) := CRYPTO_ctr128_encrypt demo_text edge_iv edge_iv 0 in
    out1 = out2 /\ n1 = n2 /\ iv1 = iv2 /\ (n1 <> 0%nat -> ec1 = ec2).
Proof.
  exists demo_cipher, demo_ctr. assert (Hok : bytes_ok edge_iv) by (by apply bytes_ok_checked).
  assert (Hz : zlen demo_text < 4294967296) by (vm_compute; reflexivity).
  exact (@ctr32_agrees demo_cipher demo_laws demo_ctr demo_ctr_laws demo_text edge_iv edge_iv 0 ltac:(lia) eq_refl Hok eq_refl Hz).
Defined.
