(* ===== verification/AesModes.v ===== *)
(** * AES modes (crypto/aes/aes_cbc.c, aes_cfb.c, aes_ofb.c, aes_wrap.c)

    The modes of [Modes] over the block cipher of [Aes]: AES discharges the
    interface that the modes ask for. *)

From S2P Require Import Prelude Words Aes AesSpec Modes KeyWrap Cfb.

(** The block function of a key: [AES_encrypt] returns a block for every key
    that AES_set_encrypt_key has filled. *)
Definition run_block (f : bytes -> aes_key -> outcome bytes) (key : aes_key) (b : bytes) : bytes :=
  match f b key with Done c => c | _ => [] end.

Definition encrypt_key (userKey : bytes) (bits : Z) : aes_key :=
  default (AesKey [] 0) (snd (AES_set_encrypt_key (Some userKey) bits (Some (AesKey [] 0)))).

Definition decrypt_key (userKey : bytes) (bits : Z) : aes_key :=
  default (AesKey [] 0) (snd (AES_set_decrypt_key (Some userKey) bits (Some (AesKey [] 0)))).

(** AES as a block cipher: encryption and decryption with the two schedules. *)
Definition aes_cipher (userKey : bytes) (bits : Z) : BlockCipher := {|
  encipher := run_block AES_encrypt (encrypt_key userKey bits);
  decipher := run_block AES_decrypt (decrypt_key userKey bits)
|}.

(** The entry points of the three files; [len] is the number of bytes wanted. *)
Definition AES_cbc_encrypt (userKey : bytes) (bits : Z) (input : bytes) (len : nat) (ivec : bytes) (enc : bool)
  : bytes * bytes :=
  if enc then @CRYPTO_cbc128_encrypt (aes_cipher userKey bits) input ivec
  else @CRYPTO_cbc128_decrypt (aes_cipher userKey bits) input len ivec.

Definition AES_cfb128_encrypt (userKey : bytes) (bits : Z) (input ivec : bytes) (num : Z) (enc : bool)
  : bytes * Z * bytes :=
  @CRYPTO_cfb128_encrypt (aes_cipher userKey bits) input ivec num enc.

Definition AES_ofb128_encrypt (userKey : bytes) (bits : Z) (input ivec : bytes) (num : Z) : bytes * Z * bytes :=
  @CRYPTO_ofb128_encrypt (aes_cipher userKey bits) input ivec num.

Definition AES_cfb1_encrypt (userKey : bytes) (bits : Z) (indet input out : bytes) (length : nat) (ivec : bytes) (enc : bool)
  : bytes * bytes :=
  @CRYPTO_cfb128_1_encrypt (aes_cipher userKey bits) indet input out length ivec enc.

Definition AES_cfb8_encrypt (userKey : bytes) (bits : Z) (indet input ivec : bytes) (enc : bool) : bytes * bytes :=
  @CRYPTO_cfb128_8_encrypt (aes_cipher userKey bits) indet input ivec enc.

(** The size_t result is returned as an int. *)
Definition to_int (x : Z) : Z := if x <? 2147483648 then x else x - 4294967296.

Definition AES_wrap_key (userKey : bytes) (bits : Z) (iv : option bytes) (out input : bytes) : outcome (Z * bytes) :=
  '(ret, out) ← CRYPTO_128_wrap (run_block AES_encrypt (encrypt_key userKey bits)) iv out input;
  Done (to_int ret, out).

Definition AES_unwrap_key (userKey : bytes) (bits : Z) (iv : option bytes) (out input : bytes) : outcome (Z * bytes) :=
  '(ret, out) ← CRYPTO_128_unwrap (run_block AES_decrypt (decrypt_key userKey bits)) iv out input;
  Done (to_int ret, out).

Section aes_cipher.
Context (userKey : bytes) (bits : Z) (nk nr : nat).
Context (Hsize : key_size bits nk nr) (Hkey : bytes_ok userKey).

Lemma enc_loop_done r b rk s : exists t b', enc_loop (S r) b rk s = Done (t, b').
Proof.
  revert b s. induction r as [|r IH]; intros b s; [eexists _, _; reflexivity|].
  destruct (IH (b + 8)%nat (enc_round (enc_round s rk (b + 4)) rk (b + 8))) as (t & b' & Heq).
  exists t, b'. exact Heq.
Qed.

Lemma dec_loop_done r b rk s : exists t b', dec_loop (S r) b rk s = Done (t, b').
Proof.
  revert b s. induction r as [|r IH]; intros b s; [eexists _, _; reflexivity|].
  destruct (IH (b + 8)%nat (dec_round (dec_round s rk (b + 4)) rk (b + 8))) as (t & b' & Heq).
  exists t, b'. exact Heq.
Qed.

(** Both keys, and what they do to a block. *)
Lemma aes_keys_blocks b :
  bytes_ok b -> length b = 16%nat ->
  exists c, AES_encrypt b (encrypt_key userKey bits) = Done c /\ bytes_ok c /\ length c = 16%nat /\
    AES_decrypt c (decrypt_key userKey bits) = Done b.
Proof.
  intros Hb Hl.
  destruct (aes_decrypt_encrypt bits nk nr userKey (AesKey [] 0) b Hsize Hkey Hb Hl)
    as (ek & dk & c & He & Hd & Hc & Hcb & Hcl & Hdc).
  unfold encrypt_key, decrypt_key. rewrite He, Hd. simpl. by exists c.
Qed.

Lemma aes_key_rounds :
  (exists r, Z.to_nat (Z.shiftr (rounds (encrypt_key userKey bits)) 1) = S r) /\
  (exists r, Z.to_nat (Z.shiftr (rounds (decrypt_key userKey bits)) 1) = S r).
Proof.
  assert (Hr : exists r, Z.to_nat (Z.shiftr (Z.of_nat nr) 1) = S r).
  { destruct Hsize as [(_ & _ & ->)|[(_ & _ & ->)|(_ & _ & ->)]]; eexists; reflexivity. }
  unfold encrypt_key, decrypt_key, AES_set_decrypt_key.
  rewrite (set_encrypt_key_schedule bits nk nr userKey _ Hsize Hkey). by split.
Qed.

Lemma run_encrypt_length b : length (run_block AES_encrypt (encrypt_key userKey bits) b) = 16%nat.
Proof.
  destruct aes_key_rounds as [[r Hr] _]. unfold run_block, AES_encrypt. rewrite Hr.
  destruct (enc_loop_done r 0 (rd_key (encrypt_key userKey bits))
    (first_key b (rd_key (encrypt_key userKey bits)))) as (t & b' & ->). done.
Qed.

Lemma run_decrypt_length b : length (run_block AES_decrypt (decrypt_key userKey bits) b) = 16%nat.
Proof.
  destruct aes_key_rounds as [_ [r Hr]]. unfold run_block, AES_decrypt. rewrite Hr.
  destruct (dec_loop_done r 0 (rd_key (decrypt_key userKey bits))
    (first_key b (rd_key (decrypt_key userKey bits)))) as (t & b' & ->). done.
Qed.

Lemma run_encrypt_bytes b :
  length b = 16%nat -> bytes_ok b -> bytes_ok (run_block AES_encrypt (encrypt_key userKey bits) b).
Proof. intros Hl Hb. destruct (aes_keys_blocks b Hb Hl) as (c & Hc & Hok & _). unfold run_block. by rewrite Hc. Qed.

Lemma run_decrypt_encrypt b :
  length b = 16%nat -> bytes_ok b ->
  run_block AES_decrypt (decrypt_key userKey bits) (run_block AES_encrypt (encrypt_key userKey bits) b) = b.
Proof.
  intros Hl Hb. destruct (aes_keys_blocks b Hb Hl) as (c & Hc & _ & _ & Hd). unfold run_block. by rewrite Hc, Hd.
Qed.

Lemma aes_laws : BlockLaws (aes_cipher userKey bits).
Proof.
  constructor; intros b Hb.
  - apply run_encrypt_length.
  - apply run_decrypt_length.
  - by apply run_encrypt_bytes.
  - by apply run_decrypt_encrypt.
Qed.
End aes_cipher.

(** AES in CBC mode decrypts what it encrypted: for every key of 128, 192 or 256
    bits, every vector and every input, AES_cbc_encrypt with the decryption
    schedule returns the input of AES_cbc_encrypt with the encryption schedule,
    and both leave the same vector for the next call. *)
Theorem aes_cbc_roundtrip userKey bits nk nr input ivec :
  key_size bits nk nr -> bytes_ok userKey ->
  bytes_ok input -> bytes_ok ivec -> length ivec = 16%nat ->
  let '(c, iv1) := AES_cbc_encrypt userKey bits input (length input) ivec true in
  AES_cbc_encrypt userKey bits c (length input) ivec false = (input, iv1).
Proof.
  intros Hsize Hkey Hin Hiv Hl. unfold AES_cbc_encrypt.
  pose proof (@cbc_decrypt_encrypt _ (aes_laws userKey bits nk nr Hsize Hkey) input ivec Hin Hiv Hl) as Hr.
  destruct (@CRYPTO_cbc128_encrypt _ input ivec) as [c iv1]. apply Hr.
Qed.

Lemma aes_cbc_roundtrip_witness :
  key_size 128 4 10 /\ bytes_ok c1_key /\ bytes_ok demo_text /\ bytes_ok demo_iv /\
  let '(c, iv1) := AES_cbc_encrypt c1_key 128 demo_text (length demo_text) demo_iv true in
  AES_cbc_encrypt c1_key 128 c (length demo_text) demo_iv false = (demo_text, iv1).
Proof.
  assert (Hsize : key_size 128 4 10) by (left; done). split; [exact Hsize|]. split; [apply c1_bytes|].
  split; [exact demo_text_ok|]. split; [exact demo_iv_ok|].
  exact (aes_cbc_roundtrip c1_key 128 4 10 demo_text demo_iv Hsize (proj1 c1_bytes) demo_text_ok demo_iv_ok eq_refl).
Defined.

(** AES_unwrap_key returns the key that AES_wrap_key wrapped, for every AES key and
    every length whose results an int holds. *)
Theorem aes_key_wrap_roundtrip userKey bits nk nr iv out out2 input :
  key_size bits nk nr -> bytes_ok userKey ->
  wrap_length (zlen input) -> zlen input + 8 < 2147483648 -> bytes_ok input -> iv_ok iv ->
  zlen input + 8 <= zlen out -> zlen input <= zlen out2 ->
  exists c, AES_wrap_key userKey bits iv out input = Done (zlen input + 8, c ++ drop (Z.to_nat (zlen input + 8)) out) /\
    zlen c = zlen input + 8 /\
    AES_unwrap_key userKey bits iv out2 c = Done (zlen input, input ++ drop (Z.to_nat (zlen input)) out2).
Proof.
  intros Hsize Hkey Hl Hint Hok Hiv Hout Hout2.
  destruct (@wrap_unwrap _ (aes_laws userKey bits nk nr Hsize Hkey) iv out out2 input Hl Hok Hiv Hout Hout2)
    as (c & Hw & Hc & Hu & _).
  exists c. unfold AES_wrap_key, AES_unwrap_key. cbn [encipher decipher aes_cipher] in Hw, Hu.
  rewrite Hw, Hu. cbn [mbind outcome_bind]. unfold to_int. pose proof (zlen_nonneg input).
  by rewrite !(proj2 (Z.ltb_lt _ 2147483648)) by lia.
Qed.

Lemma aes_key_wrap_roundtrip_witness :
  key_size 128 4 10 /\ bytes_ok c1_key /\ wrap_length (zlen demo_key) /\ bytes_ok demo_key /\ iv_ok None /\
  exists c, AES_unwrap_key c1_key 128 None demo_out c = Done (24, demo_key ++ replicate 16 7).
Proof.
  assert (Hsize : key_size 128 4 10) by (left; done). split; [exact Hsize|]. split; [apply c1_bytes|].
  split; [exact demo_wrap_length|]. split; [exact demo_key_ok|]. split; [exact default_iv_ok|].
  destruct (aes_key_wrap_roundtrip c1_key 128 4 10 None demo_out demo_out demo_key Hsize (proj1 c1_bytes)
    demo_wrap_length ltac:(vm_compute; reflexivity) demo_key_ok default_iv_ok ltac:(vm_compute; discriminate)
    ltac:(vm_compute; discriminate)) as (c & _ & _ & Hu).
  exists c. exact Hu.
Defined.
