(* ===== verification/Base64.v ===== *)
(** * Base64 (crypto/evp/encode.c)

    Encoding and decoding of blocks and of streams that arrive in pieces, with the
    standard and the SRP alphabet. *)

From S2P Require Import Prelude Words.

(** ** The alphabets *)

Definition data_bin2ascii : bytes := bs "ABCDEFGHIJKLMNOPQRSTUVWXYZabcdefghijklmnopqrstuvwxyz0123456789+/".
Definition srpdata_bin2ascii : bytes := bs "0123456789ABCDEFGHIJKLMNOPQRSTUVWXYZabcdefghijklmnopqrstuvwxyz./".

Definition data_ascii2bin : list Z := [
  0xFF; 0xFF; 0xFF; 0xFF; 0xFF; 0xFF; 0xFF; 0xFF;
  0xFF; 0xE0; 0xF0; 0xFF; 0xFF; 0xF1; 0xFF; 0xFF;
  0xFF; 0xFF; 0xFF; 0xFF; 0xFF; 0xFF; 0xFF; 0xFF;
  0xFF; 0xFF; 0xFF; 0xFF; 0xFF; 0xFF; 0xFF; 0xFF;
  0xE0; 0xFF; 0xFF; 0xFF; 0xFF; 0xFF; 0xFF; 0xFF;
  0xFF; 0xFF; 0xFF; 0x3E; 0xFF; 0xF2; 0xFF; 0x3F;
  0x34; 0x35; 0x36; 0x37; 0x38; 0x39; 0x3A; 0x3B;
  0x3C; 0x3D; 0xFF; 0xFF; 0xFF; 0x00; 0xFF; 0xFF;
  0xFF; 0x00; 0x01; 0x02; 0x03; 0x04; 0x05; 0x06;
  0x07; 0x08; 0x09; 0x0A; 0x0B; 0x0C; 0x0D; 0x0E;
  0x0F; 0x10; 0x11; 0x12; 0x13; 0x14; 0x15; 0x16;
  0x17; 0x18; 0x19; 0xFF; 0xFF; 0xFF; 0xFF; 0xFF;
  0xFF; 0x1A; 0x1B; 0x1C; 0x1D; 0x1E; 0x1F; 0x20;
  0x21; 0x22; 0x23; 0x24; 0x25; 0x26; 0x27; 0x28;
  0x29; 0x2A; 0x2B; 0x2C; 0x2D; 0x2E; 0x2F; 0x30;
  0x31; 0x32; 0x33; 0xFF; 0xFF; 0xFF; 0xFF; 0xFF
].

Definition srpdata_ascii2bin : list Z := [
  0xFF; 0xFF; 0xFF; 0xFF; 0xFF; 0xFF; 0xFF; 0xFF;
  0xFF; 0xE0; 0xF0; 0xFF; 0xFF; 0xF1; 0xFF; 0xFF;
  0xFF; 0xFF; 0xFF; 0xFF; 0xFF; 0xFF; 0xFF; 0xFF;
  0xFF; 0xFF; 0xFF; 0xFF; 0xFF; 0xFF; 0xFF; 0xFF;
  0xE0; 0xFF; 0xFF; 0xFF; 0xFF; 0xFF; 0xFF; 0xFF;
  0xFF; 0xFF; 0xFF; 0xFF; 0xFF; 0xF2; 0x3E; 0x3F;
  0x00; 0x01; 0x02; 0x03; 0x04; 0x05; 0x06; 0x07;
  0x08; 0x09; 0xFF; 0xFF; 0xFF; 0x00; 0xFF; 0xFF;
  0xFF; 0x0A; 0x0B; 0x0C; 0x0D; 0x0E; 0x0F; 0x10;
  0x11; 0x12; 0x13; 0x14; 0x15; 0x16; 0x17; 0x18;
  0x19; 0x1A; 0x1B; 0x1C; 0x1D; 0x1E; 0x1F; 0x20;
  0x21; 0x22; 0x23; 0xFF; 0xFF; 0xFF; 0xFF; 0xFF;
  0xFF; 0x24; 0x25; 0x26; 0x27; 0x28; 0x29; 0x2A;
  0x2B; 0x2C; 0x2D; 0x2E; 0x2F; 0x30; 0x31; 0x32;
  0x33; 0x34; 0x35; 0x36; 0x37; 0x38; 0x39; 0x3A;
  0x3B; 0x3C; 0x3D; 0xFF; 0xFF; 0xFF; 0xFF; 0xFF
].

Definition B64_EOLN : Z := 0xF0.
Definition B64_CR : Z := 0xF1.
Definition B64_EOF : Z := 0xF2.
Definition B64_WS : Z := 0xE0.
Definition B64_ERROR : Z := 0xFF.
Definition B64_NOT_BASE64 (a : Z) : bool := Z.lor a 0x13 =? 0xF3.
Definition B64_BASE64 (a : Z) : bool := negb (B64_NOT_BASE64 a).

Definition conv_bin2ascii (a : Z) (table : bytes) : Z := nth (Z.to_nat (Z.land a 0x3f)) table 0.

Definition conv_ascii2bin (a : Z) (table : list Z) : Z :=
  if Z.land a 0x80 =? 0 then nth (Z.to_nat a) table 0 else B64_ERROR.

(** The two flags of a context; a null context has neither. *)
Record encode_flags := Flags { no_newlines : bool; use_srp : bool }.

Definition bin_table (fl : encode_flags) : bytes := if use_srp fl then srpdata_bin2ascii else data_bin2ascii.
Definition ascii_table (fl : encode_flags) : list Z := if use_srp fl then srpdata_ascii2bin else data_ascii2bin.

(** The 24 bits of a group of three bytes. *)
Definition group24 (f0 f1 f2 : Z) : Z := Z.lor (Z.lor (Z.shiftl f0 16) (Z.shiftl f1 8)) f2.

(** evp_encodeblock_int: the characters written; the return value is their number. *)
Fixpoint encodeblock (table : bytes) (f : bytes) : bytes :=
  match f with
  | f0 :: f1 :: f2 :: f' =>
      let l := group24 f0 f1 f2 in
      conv_bin2ascii (Z.shiftr l 18) table :: conv_bin2ascii (Z.shiftr l 12) table ::
      conv_bin2ascii (Z.shiftr l 6) table :: conv_bin2ascii l table :: encodeblock table f'
  | [f0; f1] =>
      let l := Z.lor (Z.shiftl f0 16) (Z.shiftl f1 8) in
      [conv_bin2ascii (Z.shiftr l 18) table; conv_bin2ascii (Z.shiftr l 12) table;
       conv_bin2ascii (Z.shiftr l 6) table; 61]
  | [f0] =>
      let l := Z.shiftl f0 16 in
      [conv_bin2ascii (Z.shiftr l 18) table; conv_bin2ascii (Z.shiftr l 12) table; 61; 61]
  | [] => []
  end.

Definition evp_encodeblock_int (fl : encode_flags) (f : bytes) : bytes := encodeblock (bin_table fl) f.

Definition no_flags : encode_flags := Flags false false.

Definition EVP_EncodeBlock (f : bytes) : bytes := evp_encodeblock_int no_flags f.

(** [while (n > 0 && ... == B64_WS)]. *)
Fixpoint trim_start (table : list Z) (f : bytes) : bytes :=
  match f with
  | c :: f' => if conv_ascii2bin c table =? B64_WS then trim_start table f' else f
  | [] => []
  end.

(** [while (n > 3 && B64_NOT_BASE64(...))], on the reversed characters. *)
Fixpoint trim_end (table : list Z) (r : bytes) : bytes :=
  match r with
  | c :: r' =>
      if (3 <? length r)%nat && B64_NOT_BASE64 (conv_ascii2bin c table) then trim_end table r' else r
  | [] => []
  end.

Definition high_bit (v : Z) : bool := negb (Z.land v 0x80 =? 0).

(** The loop over groups of four characters; [None] stands for -1. *)
Fixpoint decode_groups (table : list Z) (f : bytes) : option bytes :=
  match f with
  | c0 :: c1 :: c2 :: c3 :: f' =>
      let a := conv_ascii2bin c0 table in
      let b := conv_ascii2bin c1 table in
      let c := conv_ascii2bin c2 table in
      let d := conv_ascii2bin c3 table in
      if high_bit a || high_bit b || high_bit c || high_bit d then None
      else
        let l := Z.lor (Z.lor (Z.lor (Z.shiftl a 18) (Z.shiftl b 12)) (Z.shiftl c 6)) d in
        rest ← decode_groups table f';
        Some (Z.land (Z.shiftr l 16) 0xff :: Z.land (Z.shiftr l 8) 0xff :: Z.land l 0xff :: rest)
  | _ => Some []
  end.

Definition evp_decodeblock_int (fl : encode_flags) (f : bytes) : option bytes :=
  let table := ascii_table fl in
  let f := rev (trim_end table (rev (trim_start table f))) in
  if negb (length f mod 4 =? 0)%nat then None else decode_groups table f.

Definition EVP_DecodeBlock (f : bytes) : option bytes := evp_decodeblock_int no_flags f.

(** ** Streams *)

(** The context: [enc_data] is the part of the 80-byte array that holds data, so
    that its length is the field num. *)
Record encode_ctx := EncodeCtx { enc_data : bytes; ctx_length : nat; line_num : Z; flags : encode_flags }.

Definition num (ctx : encode_ctx) : nat := length (enc_data ctx).
Definition set_data (d : bytes) (ctx : encode_ctx) : encode_ctx :=
  EncodeCtx d (ctx_length ctx) (line_num ctx) (flags ctx).

Definition EVP_EncodeInit : encode_ctx := EncodeCtx [] 48 0 no_flags.
Definition EVP_DecodeInit : encode_ctx := EncodeCtx [] 0 0 no_flags.

Definition evp_encode_ctx_set_flags (fl : encode_flags) (ctx : encode_ctx) : encode_ctx :=
  EncodeCtx (enc_data ctx) (ctx_length ctx) (line_num ctx) fl.

Definition EVP_ENCODE_CTX_num (ctx : encode_ctx) : nat := num ctx.
Definition EVP_ENCODE_CTX_copy (sctx : encode_ctx) : encode_ctx := sctx.

Definition INT_MAX : Z := 2147483647.

(** A line of output and what follows it. *)
Definition encode_line (fl : encode_flags) (f : bytes) : bytes :=
  evp_encodeblock_int fl f ++ (if no_newlines fl then [] else [10]).

(** [while (inl >= ctx->length && total <= INT_MAX)]: output, what is left of the
    input, and the total. *)
Fixpoint encode_lines (fuel : nat) (ctx : encode_ctx) (input : bytes) (total : Z) : bytes * bytes * Z :=
  match fuel with
  | O => ([], input, total)
  | S fuel' =>
      if (ctx_length ctx <=? length input)%nat && (total <=? INT_MAX) then
        let line := encode_line (flags ctx) (take (ctx_length ctx) input) in
        let '(out, rest, total) := encode_lines fuel' ctx (drop (ctx_length ctx) input) (total + zlen line) in
        (line ++ out, rest, total)
      else ([], input, total)
  end.

(** The return value, the output and the context; with too much output the
    characters are written but the length reported is 0. *)
Definition EVP_EncodeUpdate (ctx : encode_ctx) (input : bytes) : Z * bytes * encode_ctx :=
  match input with
  | [] => (0, [], ctx)
  | _ =>
      if (length input <? ctx_length ctx - num ctx)%nat then
        (1, [], set_data (enc_data ctx ++ input) ctx)
      else
        let i := (ctx_length ctx - num ctx)%nat in
        let '(out, input, ctx) :=
          match enc_data ctx with
          | [] => ([], input, ctx)
          | _ => (encode_line (flags ctx) (enc_data ctx ++ take i input), drop i input, set_data [] ctx)
          end in
        let '(out', rest, total) := encode_lines (S (length input)) ctx input (zlen out) in
        if INT_MAX <? total then (0, [], ctx)
        else (1, out ++ out', set_data rest ctx)
  end.

Definition EVP_EncodeFinal (ctx : encode_ctx) : bytes * encode_ctx :=
  match enc_data ctx with
  | [] => ([], ctx)
  | d => (encode_line (flags ctx) d, set_data [] ctx)
  end.

(** Decoding one call: the characters held, the padding seen, the output. *)
Record decoding := Decoding { held : bytes; eof : Z; output : bytes }.

Inductive decode_stop :=
  | DecodeError (s : decoding)             (* rv = -1, goto end *)
  | DecodeTail (seof : bool) (s : decoding).  (* the label tail *)

(** Decoding the characters held: [None] is the error exit. *)
Definition flush (fl : encode_flags) (s : decoding) : option decoding :=
  match evp_decodeblock_int fl (held s) with
  | Some d =>
      if zlen d <? eof s then None
      else Some (Decoding [] (eof s) (output s ++ take (Z.to_nat (zlen d - eof s)) d))
  | None => None
  end.

Fixpoint decode_chars (fl : encode_flags) (input : bytes) (s : decoding) : decode_stop :=
  match input with
  | [] => DecodeTail false s
  | tmp :: input' =>
      let v := conv_ascii2bin tmp (ascii_table fl) in
      if v =? B64_ERROR then DecodeError s
      else
        let s' := if tmp =? 61 then Decoding (held s) (eof s + 1) (output s) else s in
        if negb (tmp =? 61) && (0 <? eof s) && B64_BASE64 v then DecodeError s
        else if 2 <? eof s' then DecodeError s'
        else if v =? B64_EOF then DecodeTail true s'
        else if B64_BASE64 v && (64 <=? length (held s'))%nat then DecodeError s'
        else
          let s' := if B64_BASE64 v then Decoding (held s' ++ [tmp]) (eof s') (output s') else s' in
          if (length (held s') =? 64)%nat then
            match flush fl s' with
            | Some s' => decode_chars fl input' s'
            | None => DecodeError (Decoding [] (eof s') (output s'))
            end
          else decode_chars fl input' s'
  end.

(** The padding among the characters held from the call before. *)
Definition held_padding (d : bytes) : Z :=
  match rev d with
  | c1 :: c2 :: _ => if c1 =? 61 then (if c2 =? 61 then 2 else 1) else 0
  | [c1] => if c1 =? 61 then 1 else 0
  | [] => 0
  end.

Definition EVP_DecodeUpdate (ctx : encode_ctx) (input : bytes) : Z * bytes * encode_ctx :=
  let s := Decoding (enc_data ctx) (held_padding (enc_data ctx)) [] in
  let finish rv s := (rv, output s, set_data (held s) ctx) in
  match input with
  | [] => finish 0 s
  | _ =>
      match decode_chars (flags ctx) input s with
      | DecodeError s => finish (-1) s
      | DecodeTail seof s =>
          let last s :=
            finish (if seof || ((length (held s) =? 0)%nat && negb (eof s =? 0)) then 0 else 1) s in
          match held s with
          | [] => last s
          | _ =>
              if (length (held s) mod 4 =? 0)%nat then
                match flush (flags ctx) s with
                | Some s => last s
                | None => finish (-1) (Decoding [] (eof s) (output s))
                end
              else if seof then finish (-1) s
              else last s
          end
      end
  end.

Definition EVP_DecodeFinal (ctx : encode_ctx) : Z * bytes * encode_ctx :=
  match enc_data ctx with
  | [] => (1, [], ctx)
  | d =>
      match evp_decodeblock_int (flags ctx) d with
      | None => (-1, [], ctx)
      | Some out => (1, out, set_data [] ctx)
      end
  end.

Example encode_demo : EVP_EncodeBlock (bs "any carnal pleas") = bs "YW55IGNhcm5hbCBwbGVhcw==".
Proof. reflexivity. Qed.

Example decode_demo :
  EVP_DecodeUpdate EVP_DecodeInit (bs "YW55IGNhcm5hbCBwbGVhcw==" ++ [10]) =
    (0, bs "any carnal pleas", EVP_DecodeInit).
Proof. reflexivity. Qed.

(** ** Blocks *)

(** Induction over a list in groups of three. *)
Lemma groups_of_3 {A} (P : list A -> Prop) :
  P [] -> (forall x, P [x]) -> (forall x y, P [x; y]) ->
  (forall x y z l, P l -> P (x :: y :: z :: l)) -> forall l, P l.
Proof.
  intros H0 H1 H2 H3 l.
  assert (Hn : forall n l, (length l <= n)%nat -> P l); [|by apply (Hn (length l))].
  intros n. induction n as [|n IH]; intros l' Hl.
  - by destruct l'; [|simpl in Hl; lia].
  - destruct l' as [|x [|y [|z l']]]; [done|apply H1|apply H2|]. apply H3, IH. simpl in Hl. lia.
Qed.

(** What the alphabets have in common: every 6-bit value is written as a
    character, other than =, that reads back as the value. *)
Definition alphabet_entry (fl : encode_flags) (v : Z) : bool :=
  let c := conv_bin2ascii v (bin_table fl) in
  (conv_ascii2bin c (ascii_table fl) =? v) && negb (c =? 61).

Lemma alphabet_checked fl v : 0 <= v < 64 -> alphabet_entry fl v = true.
Proof.
  intros Hv. assert (Hall : forallb (alphabet_entry fl) (map Z.of_nat (seq 0 64)) = true).
  { destruct fl as [? []]; vm_compute; reflexivity. }
  rewrite forallb_forall in Hall. apply Hall, in_map_iff. exists (Z.to_nat v). split; [lia|]. apply in_seq. lia.
Qed.

Lemma land_63 x : Z.land x 0x3f = x mod 64.
Proof. change 0x3f with (Z.ones 6). by rewrite Z.land_ones. Qed.

Lemma conv_bin2ascii_spec fl x :
  let c := conv_bin2ascii x (bin_table fl) in
  conv_ascii2bin c (ascii_table fl) = x mod 64 /\ c <> 61.
Proof.
  intros c. assert (Hc : c = conv_bin2ascii (x mod 64) (bin_table fl)).
  { unfold c, conv_bin2ascii. rewrite !land_63. by rewrite Z.mod_mod. }
  pose proof (alphabet_checked fl (x mod 64) ltac:(by apply Z.mod_pos_bound)) as H.
  unfold alphabet_entry in H. rewrite <- Hc in H. lia.
Qed.

Lemma conv_equals fl : conv_ascii2bin 61 (ascii_table fl) = 0.
Proof. by destruct fl as [? []]. Qed.

Lemma group24_sum f0 f1 f2 : byte_ok f1 -> byte_ok f2 -> group24 f0 f1 f2 = f0 * 65536 + f1 * 256 + f2.
Proof.
  unfold byte_ok, group24. intros H1 H2. rewrite <- Z.lor_assoc. rewrite (lor_shiftl_low f1 8) by lia.
  rewrite lor_shiftl_low by lia. lia.
Qed.

(** Four characters of the values of a 24-bit group read back as its bytes. *)
Lemma decode_group fl c0 c1 c2 c3 f0 f1 f2 rest :
  byte_ok f0 -> byte_ok f1 -> byte_ok f2 -> let l := group24 f0 f1 f2 in let table := ascii_table fl in
  conv_ascii2bin c0 table = Z.shiftr l 18 mod 64 -> conv_ascii2bin c1 table = Z.shiftr l 12 mod 64 ->
  conv_ascii2bin c2 table = Z.shiftr l 6 mod 64 -> conv_ascii2bin c3 table = l mod 64 ->
  decode_groups table (c0 :: c1 :: c2 :: c3 :: rest) = (fun out => f0 :: f1 :: f2 :: out) <$> decode_groups table rest.
Proof.
  intros H0 H1 H2 l table E0 E1 E2 E3. cbn [decode_groups]. rewrite E0, E1, E2, E3.
  assert (Hlow : forall x, high_bit (x mod 64) = false).
  { intros x. unfold high_bit. rewrite negb_false_iff, Z.eqb_eq. change 0x80 with (Z.shiftl 1 7).
    apply Z.bits_inj'. intros n Hn. rewrite Z.land_spec, Z.bits_0.
    destruct (Z.lt_ge_cases n 7); [rewrite Z.shiftl_spec_low by done; apply andb_false_r|].
    change 64 with (2 ^ 6). by rewrite Z.mod_pow2_bits_high by lia. }
  rewrite !Hlow. cbn [orb].
  assert (Hl : l = f0 * 65536 + f1 * 256 + f2) by (by apply group24_sum). unfold byte_ok in *.
  rewrite !Z.shiftr_div_pow2 by lia. change (2 ^ 18) with 262144. change (2 ^ 12) with 4096. change (2 ^ 6) with 64.
  set (m := Z.lor _ (l mod 64)).
  assert (Hm : m = l).
  { unfold m. rewrite <- !Z.lor_assoc. pose proof (Z.mod_pos_bound l 64 ltac:(lia)).
    pose proof (Z.mod_pos_bound (l / 64) 64 ltac:(lia)). pose proof (Z.mod_pos_bound (l / 4096) 64 ltac:(lia)).
    rewrite (lor_shiftl_low _ 6) by lia. rewrite (lor_shiftl_low _ 12) by lia. rewrite lor_shiftl_low by lia.
    clear m. Z.to_euclidean_division_equations; lia. }
  rewrite Hm. clear m Hm. rewrite !land_255. change (2 ^ 16) with 65536. change (2 ^ 8) with 256.
  assert (l / 65536 mod 256 = f0) as -> by (Z.to_euclidean_division_equations; lia).
  assert (l / 256 mod 256 = f1) as -> by (Z.to_euclidean_division_equations; lia).
  assert (l mod 256 = f2) as -> by (Z.to_euclidean_division_equations; lia).
  by destruct (decode_groups table rest).
Qed.

(** The bytes that pad a last group. *)
Definition padding (f : bytes) : nat := ((3 - length f mod 3) mod 3)%nat.

Lemma padding_step x y z (f : bytes) : padding (x :: y :: z :: f) = padding f.
Proof.
  unfold padding. cbn [length]. do 2 f_equal. replace (S (S (S (length f)))) with (length f + 1 * 3)%nat by lia.
  by rewrite Nat.Div0.mod_add.
Qed.

Lemma padding_le f : (padding f <= 2)%nat.
Proof. unfold padding. pose proof (Nat.mod_upper_bound (3 - length f mod 3) 3). lia. Qed.

Lemma decode_encodeblock fl f :
  bytes_ok f -> decode_groups (ascii_table fl) (encodeblock (bin_table fl) f) = Some (f ++ replicate (padding f) 0).
Proof.
  induction f as [|f0|f0 f1|f0 f1 f2 f IH] using groups_of_3; intros Hf; cbn [encodeblock].
  - done.
  - apply Forall_cons in Hf as [H0 _]. assert (Hz : byte_ok 0) by (unfold byte_ok; lia).
    pose proof (group24_sum f0 0 0 Hz Hz) as Hg. unfold group24 in Hg. rewrite Z.shiftl_0_l, !Z.lor_0_r in Hg.
    rewrite (decode_group fl _ _ _ _ f0 0 0); try done; try apply conv_bin2ascii_spec;
      unfold group24; rewrite Z.shiftl_0_l, !Z.lor_0_r; try apply conv_bin2ascii_spec.
    all: rewrite conv_equals, Hg, ?Z.shiftr_div_pow2 by lia; change (2 ^ 6) with 64; clear.
    all: Z.to_euclidean_division_equations; lia.
  - apply Forall_cons in Hf as [H0 [H1 _]%Forall_cons]. assert (Hz : byte_ok 0) by (unfold byte_ok; lia).
    pose proof (group24_sum f0 f1 0 H1 Hz) as Hg. unfold group24 in Hg. rewrite Z.lor_0_r in Hg.
    rewrite (decode_group fl _ _ _ _ f0 f1 0); try done; unfold group24; rewrite ?Z.lor_0_r;
      try apply conv_bin2ascii_spec.
    rewrite conv_equals, Hg. Z.to_euclidean_division_equations; lia.
  - apply Forall_cons in Hf as [H0 [H1 [H2 Hf]%Forall_cons]%Forall_cons].
    rewrite (decode_group fl _ _ _ _ f0 f1 f2); try done; try apply conv_bin2ascii_spec.
    rewrite IH by done. by rewrite padding_step.
Qed.

(** A character of the alphabet or a padding character. *)
Definition base64_char (fl : encode_flags) (c : Z) : Prop := 0 <= conv_ascii2bin c (ascii_table fl) < 64.

Lemma encodeblock_chars fl f : Forall (base64_char fl) (encodeblock (bin_table fl) f).
Proof.
  assert (Hc : forall x, base64_char fl (conv_bin2ascii x (bin_table fl))).
  { intros x. unfold base64_char. destruct (conv_bin2ascii_spec fl x) as [-> _]. by apply Z.mod_pos_bound. }
  assert (He : base64_char fl 61) by (unfold base64_char; rewrite conv_equals; lia).
  induction f as [|f0|f0 f1|f0 f1 f2 f IH] using groups_of_3; cbn [encodeblock];
    repeat (apply Forall_cons; split; [first [apply Hc|exact He]|]); first [exact IH|constructor].
Qed.

Lemma encodeblock_length fl f : (length (encodeblock (bin_table fl) f) = 4 * ((length f + 2) / 3))%nat.
Proof.
  induction f as [|f0|f0 f1|f0 f1 f2 f IH] using groups_of_3; try done. cbn [encodeblock length]. rewrite IH.
  replace (S (S (S (length f))) + 2)%nat with (length f + 2 + 1 * 3)%nat by lia. rewrite Nat.div_add by lia. lia.
Qed.

(** Values below 64 are base64, and neither white space, end nor error. *)
Lemma small_value v : 0 <= v < 64 ->
  B64_NOT_BASE64 v = false /\ (v =? B64_WS) = false /\ (v =? B64_ERROR) = false /\ (v =? B64_EOF) = false.
Proof.
  intros Hv.
  assert (Hall : forallb (fun v => negb (B64_NOT_BASE64 v)) (map Z.of_nat (seq 0 64)) = true) by reflexivity.
  rewrite forallb_forall in Hall. unfold B64_WS, B64_ERROR, B64_EOF. split_and!; try (apply Z.eqb_neq; lia).
  apply negb_true_iff, Hall, in_map_iff. exists (Z.to_nat v). split; [lia|]. apply in_seq. lia.
Qed.

Lemma trim_base64 fl f :
  Forall (base64_char fl) f ->
  rev (trim_end (ascii_table fl) (rev (trim_start (ascii_table fl) f))) = f.
Proof.
  intros Hf. assert (Hs : trim_start (ascii_table fl) f = f).
  { destruct Hf as [|c f Hc _]; [done|]. simpl. by destruct (small_value _ Hc) as (_ & -> & _). }
  rewrite Hs. apply Forall_rev in Hf.
  assert (He : trim_end (ascii_table fl) (rev f) = rev f).
  { destruct Hf as [|c r Hc _]; [done|]. cbn [trim_end]. destruct (small_value _ Hc) as (-> & _). by rewrite andb_false_r. }
  by rewrite He, rev_involutive.
Qed.

Lemma decode_encode_block fl f :
  bytes_ok f -> evp_decodeblock_int fl (evp_encodeblock_int fl f) = Some (f ++ replicate (padding f) 0).
Proof.
  intros Hf. unfold evp_decodeblock_int, evp_encodeblock_int.
  rewrite trim_base64 by apply encodeblock_chars. rewrite encodeblock_length.
  rewrite Nat.mul_comm, Nat.Div0.mod_mul. simpl negb. cbv iota. by apply decode_encodeblock.
Qed.

(** A base64 block decodes to what was encoded, in either alphabet: the encoder
    writes four characters for every three bytes begun, and the decoder accepts
    them and returns the bytes followed by the zeros that padded the last group. *)
Theorem base64_block_roundtrip fl f :
  bytes_ok f ->
  (length (evp_encodeblock_int fl f) = 4 * ((length f + 2) / 3))%nat /\
  evp_decodeblock_int fl (evp_encodeblock_int fl f) = Some (f ++ replicate (padding f) 0).
Proof. intros Hf. split; [apply encodeblock_length|by apply decode_encode_block]. Qed.

(** ** Encoding in pieces *)

(** The reference: the whole data cut into lines of 48 bytes. *)
Definition encode_text (fl : encode_flags) (data : bytes) : bytes :=
  concat (map (encode_line fl) (pieces (length data) 48 data)).

Lemma encode_text_line fl line data :
  length line = 48%nat -> encode_text fl (line ++ data) = encode_line fl line ++ encode_text fl data.
Proof.
  intros Hl. unfold encode_text. destruct line as [|x line]; [done|].
  replace (length ((x :: line) ++ data)) with (S (length (line ++ data))) by done. cbn [pieces app].
  change (x :: line ++ data) with ((x :: line) ++ data).
  rewrite take_app_length', drop_app_length' by done. cbn [map concat]. do 3 f_equal.
  apply pieces_fuel; rewrite ?length_app; lia.
Qed.

Lemma encode_text_last fl data : (0 < length data <= 48)%nat -> encode_text fl data = encode_line fl data.
Proof.
  intros Hl. unfold encode_text. destruct data as [|x data]; [simpl in Hl; lia|]. cbn [length pieces].
  rewrite take_ge, drop_ge by lia. destruct (length data); simpl; by rewrite app_nil_r.
Qed.

Lemma encode_line_length fl f : zlen (encode_line fl f) <= 4 * ((zlen f + 2) / 3) + 1.
Proof.
  unfold encode_line, evp_encodeblock_int. rewrite zlen_app. unfold zlen at 1. rewrite encodeblock_length.
  rewrite Nat2Z.inj_mul, Nat2Z.inj_div, Nat2Z.inj_add. unfold zlen. destruct (no_newlines fl); simpl length; lia.
Qed.

(** The loop over whole lines, while the total stays below the limit. *)
Lemma encode_lines_text fuel ctx input total :
  ctx_length ctx = 48%nat -> (length input < fuel)%nat -> total + zlen input / 48 * 65 <= INT_MAX ->
  let '(out, rest, total') := encode_lines fuel ctx input total in
  (length rest < 48)%nat /\ total' <= total + zlen input / 48 * 65 /\
  forall x, out ++ encode_text (flags ctx) (rest ++ x) = encode_text (flags ctx) (input ++ x).
Proof.
  intros Hc. revert input total. induction fuel as [|fuel IH]; intros input total Hf Ht; [lia|].
  cbn [encode_lines]. rewrite Hc. unfold INT_MAX in *.
  destruct (Nat.leb_spec 48 (length input)) as [Hle|Hlt].
  - assert (0 < zlen input / 48) by (apply Z.div_str_pos; unfold zlen; lia).
    rewrite (proj2 (Z.leb_le _ _)) by lia. cbn [andb].
    assert (Hl : length (take 48 input) = 48%nat) by (rewrite length_take; lia).
    pose proof (encode_line_length (flags ctx) (take 48 input)) as Hline.
    replace (zlen (take 48 input)) with 48 in Hline by (unfold zlen; lia). change (4 * ((48 + 2) / 3) + 1) with 65 in Hline.
    assert (Hd : zlen (drop 48 input) = zlen input - 48) by (unfold zlen; rewrite length_drop; lia).
    assert (Hq : zlen (drop 48 input) / 48 = zlen input / 48 - 1).
    { rewrite Hd. replace (zlen input - 48) with (zlen input + (-1) * 48) by ring. rewrite Z.div_add; lia. }
    set (line := encode_line (flags ctx) (take 48 input)) in *.
    specialize (IH (drop 48 input) (total + zlen line) ltac:(rewrite length_drop; lia) ltac:(lia)).
    destruct (encode_lines fuel ctx (drop 48 input) (total + zlen line)) as [[out rest] total'].
    destruct IH as (Hr & Ht' & Hx). split_and!; [done|lia|]. intros x. rewrite <- app_assoc, Hx. unfold line.
    rewrite <- encode_text_line by done. by rewrite app_assoc, take_drop.
  - cbn [andb]. split_and!; [done| |done]. rewrite Z.div_small by (unfold zlen; lia). lia.
Qed.

(** A context of encoding, between two calls. *)
Definition encoding (fl : encode_flags) (h : bytes) : encode_ctx := EncodeCtx h 48 0 fl.

Lemma encode_update_text fl h input :
  (length h < 48)%nat -> zlen input <= 1500000000 ->
  let '(rv, out, ctx) := EVP_EncodeUpdate (encoding fl h) input in
  rv = (if decide (input = []) then 0 else 1) /\
  exists h', ctx = encoding fl h' /\ (length h' < 48)%nat /\
    forall x, out ++ encode_text fl (h' ++ x) = encode_text fl (h ++ input ++ x).
Proof.
  intros Hh Hlen. destruct input as [|y input]; [split; [done|]; by exists h|].
  remember (y :: input) as inp eqn:Einp. assert (Hne : inp <> []) by (subst; done).
  assert (Hgo : EVP_EncodeUpdate (encoding fl h) inp =
    if (length inp <? 48 - length h)%nat then (1, [], encoding fl (h ++ inp))
    else
      let '(out, input, ctx) :=
        match h with
        | [] => ([], inp, encoding fl h)
        | _ => (encode_line fl (h ++ take (48 - length h) inp), drop (48 - length h) inp, encoding fl [])
        end in
      let '(out', rest, total) := encode_lines (S (length input)) ctx input (zlen out) in
      if INT_MAX <? total then (0, [], ctx) else (1, out ++ out', set_data rest ctx)) by (by rewrite Einp).
  rewrite Hgo. clear Hgo Einp y input. rewrite decide_False by done.
  destruct (Nat.ltb_spec (length inp) (48 - length h)) as [Hshort|Hlong].
  { split; [done|]. exists (h ++ inp). split; [done|]. split; [rewrite length_app; lia|]. intros x. by rewrite app_assoc. }
  assert (Hbound : forall t (l : bytes), 0 <= t <= 65 -> zlen l <= 1500000000 -> t + zlen l / 48 * 65 <= INT_MAX).
  { intros t l Ht Hl. unfold INT_MAX. Z.to_euclidean_division_equations; lia. }
  destruct h as [|z h].
  - pose proof (encode_lines_text (S (length inp)) (encoding fl []) inp 0 eq_refl ltac:(lia)
      (Hbound 0 inp ltac:(lia) Hlen)) as Hl. change (zlen (@nil Z)) with 0.
    destruct (encode_lines (S (length inp)) (encoding fl []) inp 0) as [[out rest] total]. destruct Hl as (Hr & Ht & Hx).
    pose proof (Hbound 0 inp ltac:(lia) Hlen). rewrite (proj2 (Z.ltb_ge _ _)) by lia.
    split; [done|]. exists rest. split; [done|]. split; [done|]. exact Hx.
  - set (hd := z :: h) in *. set (line := encode_line fl (hd ++ take (48 - length hd) inp)).
    assert (Hl48 : length (hd ++ take (48 - length hd) inp) = 48%nat) by (rewrite length_app, length_take; lia).
    assert (Hline : 0 <= zlen line <= 65).
    { split; [apply zlen_nonneg|]. unfold line. etransitivity; [apply encode_line_length|].
      replace (zlen (hd ++ take (48 - length hd) inp)) with 48 by (unfold zlen; lia). done. }
    set (rst := drop (48 - length hd) inp).
    assert (Hrlen : zlen rst <= 1500000000) by (unfold rst, zlen in *; rewrite length_drop; lia).
    pose proof (encode_lines_text (S (length rst)) (encoding fl []) rst (zlen line) eq_refl ltac:(lia)
      (Hbound _ rst Hline Hrlen)) as Hl.
    destruct (encode_lines (S (length rst)) (encoding fl []) rst (zlen line)) as [[out rest] total].
    destruct Hl as (Hr & Ht & Hx). pose proof (Hbound _ rst Hline Hrlen). rewrite (proj2 (Z.ltb_ge _ _)) by lia.
    split; [done|]. exists rest. split; [done|]. split; [done|]. intros x. rewrite <- app_assoc, Hx. unfold line.
    cbn [flags encoding]. rewrite <- encode_text_line by done. rewrite <- app_assoc. unfold rst.
    by rewrite (app_assoc (take _ inp)), take_drop.
Qed.

(** The output of a sequence of calls and of the last one. *)
Fixpoint encode_calls (ctx : encode_ctx) (chunks : list bytes) : bytes :=
  match chunks with
  | [] => fst (EVP_EncodeFinal ctx)
  | c :: chunks' =>
      let '(_, out, ctx) := EVP_EncodeUpdate ctx c in
      out ++ encode_calls ctx chunks'
  end.

Lemma encode_calls_text fl chunks :
  Forall (fun c => zlen c <= 1500000000) chunks ->
  encode_calls (evp_encode_ctx_set_flags fl EVP_EncodeInit) chunks = encode_text fl (concat chunks).
Proof.
  intros Hc. change (evp_encode_ctx_set_flags fl EVP_EncodeInit) with (encoding fl []).
  assert (Hgo : forall h, (length h < 48)%nat ->
    encode_calls (encoding fl h) chunks = encode_text fl (h ++ concat chunks)); [|by apply (Hgo []); simpl; lia].
  induction Hc as [|c chunks Hlen _ IH]; intros h Hh; cbn [encode_calls concat].
  - rewrite app_nil_r. destruct h as [|z h]; [done|]. symmetry. apply encode_text_last. simpl in *. lia.
  - pose proof (encode_update_text fl h c Hh Hlen) as Hu.
    destruct (EVP_EncodeUpdate (encoding fl h) c) as [[rv out] ctx]. destruct Hu as (_ & h' & -> & Hh' & Hx).
    by rewrite IH, Hx.
Qed.

(** Encoding does not depend on how the data is cut: whatever sequence of
    EVP_EncodeUpdate calls (each below 1.5 billion bytes, so that no total
    passes INT_MAX) delivers the data, their outputs and that of EVP_EncodeFinal
    add up to the lines of 48 bytes of the whole, each ended by a newline unless
    the flag forbids it. *)
Theorem base64_encode_in_pieces fl chunks :
  Forall (fun c => zlen c <= 1500000000) chunks ->
  encode_calls (evp_encode_ctx_set_flags fl EVP_EncodeInit) chunks = encode_text fl (concat chunks).
Proof. apply encode_calls_text. Qed.

(** ** Decoding in pieces *)

(** The characters of a text other than the newlines. *)
Definition plain (t : bytes) : bytes := filter (fun c => c <> 10) t.

Lemma base64_char_not_newline fl c : base64_char fl c -> c <> 10.
Proof. intros H ->. destruct fl as [? []]; by destruct H. Qed.

Lemma plain_base64 fl t : Forall (base64_char fl) t -> plain t = t.
Proof.
  induction 1 as [|c t Hc _ IH]; [done|]. unfold plain. rewrite filter_cons_True by (by eapply base64_char_not_newline).
  by f_equal.
Qed.

Lemma encodeblock_app table d e :
  (length d mod 3 = 0)%nat -> encodeblock table (d ++ e) = encodeblock table d ++ encodeblock table e.
Proof.
  induction d as [|x|x y|x y z d IH] using groups_of_3; intros Hd; try done.
  cbn [app encodeblock]. rewrite IH; [done|]. cbn [length] in Hd.
  replace (S (S (S (length d)))) with (length d + 1 * 3)%nat in Hd by lia. by rewrite Nat.Div0.mod_add in Hd.
Qed.

(** Without its newlines, a text is a single block: a line holds whole groups. *)
Lemma plain_text fl data : plain (encode_text fl data) = encodeblock (bin_table fl) data.
Proof.
  assert (Hl : forall line, plain (encode_line fl line) = encodeblock (bin_table fl) line).
  { intros line. unfold encode_line, plain. rewrite filter_app.
    rewrite (plain_base64 fl) by apply encodeblock_chars. destruct (no_newlines fl); by rewrite app_nil_r. }
  assert (Hgo : forall n data, (length data <= n)%nat ->
    plain (encode_text fl data) = encodeblock (bin_table fl) data); [|by apply (Hgo (length data))].
  intros n. induction n as [|n IH]; intros d Hd.
  - by destruct d; [|simpl in Hd; lia].
  - destruct (decide (length d <= 48)%nat) as [Hs|Hs].
    + destruct d as [|x d]; [done|]. rewrite encode_text_last; [apply Hl|cbn [length] in *; lia].
    + assert (H48 : length (take 48 d) = 48%nat) by (rewrite length_take; lia).
      rewrite <- (take_drop 48 d). rewrite encode_text_line by done. rewrite encodeblock_app by (by rewrite H48).
      unfold plain. rewrite filter_app. fold (plain (encode_line fl (take 48 d))). rewrite Hl. f_equal.
      apply IH. rewrite length_drop. lia.
Qed.

Definition text_char (fl : encode_flags) (c : Z) : Prop := base64_char fl c \/ c = 10.

Lemma encode_text_chars fl data : Forall (text_char fl) (encode_text fl data).
Proof.
  assert (Hl : forall line, Forall (text_char fl) (encode_line fl line)).
  { intros line. unfold encode_line. apply Forall_app. split.
    - eapply Forall_impl; [apply encodeblock_chars|]. by left.
    - destruct (no_newlines fl); [constructor|]. apply Forall_singleton. by right. }
  unfold encode_text. induction (pieces (length data) 48 data) as [|l ls IH]; [constructor|].
  simpl. by apply Forall_app.
Qed.

(** A block or the start of one: at most two padding characters, at its end. *)
Definition padded (l : bytes) (q : nat) : Prop :=
  exists a, l = a ++ replicate q 61 /\ ~ In 61 a /\ (q <= 2)%nat.

Lemma encodeblock_padded fl d : padded (encodeblock (bin_table fl) d) (padding d).
Proof.
  assert (Hn : forall x, conv_bin2ascii x (bin_table fl) <> 61) by (intros x; apply conv_bin2ascii_spec).
  induction d as [|x|x y|x y z d IH] using groups_of_3; cbn [encodeblock].
  - exists []. split_and!; [done|by intros []|apply padding_le].
  - eexists [_; _]. split; [done|]. split; [|apply padding_le]. simpl. intros [H|[H|[]]]; by apply Hn in H.
  - eexists [_; _; _]. split; [done|]. split; [|apply padding_le]. simpl. intros [H|[H|[H|[]]]]; by apply Hn in H.
  - rewrite padding_step. destruct IH as (a & -> & Ha & Hq). eexists (_ :: _ :: _ :: _ :: a). split; [done|].
    split; [|done]. simpl. intros [H|[H|[H|[H|H]]]]; [by apply Hn in H..|done].
Qed.

Lemma held_padding_padded l q : padded l q -> held_padding l = Z.of_nat q.
Proof.
  intros (a & -> & Ha & Hq). unfold held_padding. rewrite rev_app_distr. rewrite in_rev in Ha.
  assert (Hc : forall c r, rev a = c :: r -> (c =? 61) = false).
  { intros c r E. apply Z.eqb_neq. intros ->. apply Ha. rewrite E. by left. }
  destruct q as [|[|[|q]]]; [| | |lia]; cbn [replicate rev app];
    destruct (rev a) as [|c [|c' r]] eqn:E; try done; by rewrite (Hc _ _ eq_refl).
Qed.

Lemma replicate_split {A} q (x : A) l c t :
  replicate q x = l ++ c :: t -> l = replicate (length l) x /\ c = x /\ (length l < q)%nat.
Proof.
  revert q. induction l as [|y l IH]; intros [|q] E; try done; injection E as <- E.
  - split_and!; [done|done|simpl; lia].
  - apply IH in E as (El & -> & Hl). cbn [length replicate]. rewrite <- El. split_and!; [done|done|lia].
Qed.

(** What a prefix of a block says about the next character. *)
Lemma padded_next h c t q :
  padded (h ++ c :: t) q ->
  held_padding (h ++ [c]) = held_padding h + (if c =? 61 then 1 else 0) /\ held_padding (h ++ [c]) <= 2 /\
  (c <> 61 -> held_padding h = 0).
Proof.
  intros (a & E & Ha & Hq). symmetry in E. apply app_eq_inv in E as [(l & -> & E)|(l & -> & E)].
  - destruct l as [|c' l].
    + cbn [app] in E. destruct q as [|q]; [done|]. injection E as -> E. rewrite app_nil_r in *.
      rewrite (held_padding_padded (h ++ [61]) 1) by (exists h; split; [done|split; [done|lia]]).
      rewrite (held_padding_padded h 0) by (exists h; split; [by rewrite app_nil_r|split; [done|lia]]). by split_and!.
    + injection E as -> E.
      assert (Hc : c' <> 61) by (intros ->; apply Ha, in_app_iff; right; by left).
      assert (Hh : ~ In 61 h) by (intros H; by apply Ha, in_app_iff; left).
      rewrite (held_padding_padded (h ++ [c']) 0);
        [|exists (h ++ [c']); split; [by rewrite app_nil_r|split; [|lia]]; rewrite in_app_iff; simpl; naive_solver].
      rewrite (held_padding_padded h 0) by (exists h; split; [by rewrite app_nil_r|split; [done|lia]]).
      destruct (Z.eqb_spec c' 61); [done|]. by split_and!.
  - apply replicate_split in E as (El & -> & Hl). revert El Hl. generalize (length l) as k. intros k -> Hl.
    assert (Hp : forall j, (j <= 2)%nat -> held_padding (a ++ replicate j 61) = Z.of_nat j)
      by (intros j Hj; apply held_padding_padded; by exists a).
    rewrite <- app_assoc, <- replicate_S_end, !Hp by lia. split_and!; [|lia|done]. change (61 =? 61) with true. lia.
Qed.

Lemma padded_start h t q : padded (h ++ t) q -> 0 <= held_padding h <= 2.
Proof.
  intros H. destruct t as [|c t].
  - rewrite app_nil_r in H. rewrite (held_padding_padded _ _ H). destruct H as (_ & _ & _ & H). lia.
  - apply padded_next in H as (H1 & H2 & H3). split; [|destruct (c =? 61); lia].
    unfold held_padding. destruct (rev h) as [|x [|y r]]; [lia|destruct (x =? 61); lia|].
    destruct (x =? 61); [destruct (y =? 61); lia|lia].
Qed.

(** A block cut after whole groups of characters is the blocks of two halves. *)
Lemma block_split table d h t :
  encodeblock table d = h ++ t -> (length h mod 4 = 0)%nat ->
  exists da db, d = da ++ db /\ encodeblock table da = h /\ encodeblock table db = t /\ (db = [] \/ padding da = 0%nat).
Proof.
  assert (Hfour : forall h : bytes, (length h mod 4 = 0)%nat ->
    h = [] \/ exists c0 c1 c2 c3 h', h = c0 :: c1 :: c2 :: c3 :: h' /\ (length h' mod 4 = 0)%nat).
  { intros [|c0 [|c1 [|c2 [|c3 h']]]] Hh; [by left|done..|]. right. exists c0, c1, c2, c3, h'. split; [done|].
    cbn [length] in Hh. replace (S (S (S (S (length h'))))) with (length h' + 1 * 4)%nat in Hh by lia.
    by rewrite Nat.Div0.mod_add in Hh. }
  assert (Hnil : forall d : bytes, exists da db, d = da ++ db /\ encodeblock table da = [] /\
    encodeblock table db = encodeblock table d /\ (db = [] \/ padding da = 0%nat))
    by (intros d'; exists [], d'; split_and!; [done..|by right]).
  revert h. induction d as [|x|x y|x y z d IH] using groups_of_3; intros h E Hh.
  1-3: destruct (Hfour h Hh) as [->|(c0 & c1 & c2 & c3 & h' & -> & _)]; [cbn [app] in E; subst t; apply Hnil|].
  - done.
  - injection E as <- <- <- <- E. symmetry in E. apply app_eq_nil in E as [-> ->].
    exists [x], []. split_and!; [done..|by left].
  - injection E as <- <- <- <- E. symmetry in E. apply app_eq_nil in E as [-> ->].
    exists [x; y], []. split_and!; [done..|by left].
  - destruct (Hfour h Hh) as [->|(c0 & c1 & c2 & c3 & h' & -> & Hh')]; [cbn [app] in E; subst t; apply Hnil|].
    cbn [encodeblock app] in E. injection E as <- <- <- <- E.
    destruct (IH h' E Hh') as (da & db & -> & <- & <- & Hp). exists (x :: y :: z :: da), db.
    rewrite padding_step. by split_and!.
Qed.

Lemma flush_block fl da out :
  bytes_ok da -> let h := encodeblock (bin_table fl) da in
  flush fl (Decoding h (held_padding h) out) = Some (Decoding [] (held_padding h) (out ++ da)).
Proof.
  intros Hd h. unfold flush. cbn [held eof output]. unfold h.
  fold (evp_encodeblock_int fl da). rewrite (decode_encode_block fl da Hd). unfold evp_encodeblock_int.
  rewrite (held_padding_padded _ _ (encodeblock_padded fl da)). rewrite zlen_app.
  assert (Hz : zlen (replicate (padding da) 0) = Z.of_nat (padding da)) by (unfold zlen; by rewrite length_replicate).
  rewrite Hz. pose proof (zlen_nonneg da). rewrite (proj2 (Z.ltb_ge _ _)) by lia. do 3 f_equal.
  replace (Z.to_nat _) with (length da) by (unfold zlen; lia). by rewrite take_app_length.
Qed.

(** What is still to be decoded when the characters [t] are still to come. *)
Definition decoding_of (fl : encode_flags) (todo t : bytes) (s : decoding) : Prop :=
  held s ++ plain t = encodeblock (bin_table fl) todo /\ (length (held s) < 64)%nat /\
  (eof s = held_padding (held s) \/ todo = [] /\ 0 <= eof s <= 2).

Lemma decoding_of_eof fl todo t s : decoding_of fl todo t s -> 0 <= eof s <= 2.
Proof.
  intros (E & _ & [->|[_ H]]); [|done].
  apply (padded_start (held s) (plain t) (padding todo)). rewrite E. apply encodeblock_padded.
Qed.

Lemma decode_newline fl r s :
  0 <= eof s <= 2 -> (length (held s) < 64)%nat -> decode_chars fl (10 :: r) s = decode_chars fl r s.
Proof.
  intros He Hh. cbn [decode_chars]. assert (conv_ascii2bin 10 (ascii_table fl) = 0xF0) as -> by (by destruct fl as [? []]).
  change (0xF0 =? B64_ERROR) with false. change (10 =? 61) with false. change (B64_BASE64 0xF0) with false.
  change (0xF0 =? B64_EOF) with false. rewrite andb_false_r. cbn [andb]. cbv iota.
  rewrite (proj2 (Z.ltb_ge _ _)) by lia. by rewrite (proj2 (Nat.eqb_neq _ _)) by lia.
Qed.

Lemma decode_char fl c r h out q t :
  base64_char fl c -> padded (h ++ c :: t) q -> (length h < 64)%nat ->
  decode_chars fl (c :: r) (Decoding h (held_padding h) out) =
    let s := Decoding (h ++ [c]) (held_padding (h ++ [c])) out in
    if (length (h ++ [c]) =? 64)%nat then
      match flush fl s with
      | Some s' => decode_chars fl r s'
      | None => DecodeError (Decoding [] (eof s) out)
      end
    else decode_chars fl r s.
Proof.
  intros Hc Hp Hh. apply padded_next in Hp as (Hn & H2 & H0). cbn [decode_chars].
  destruct (small_value _ Hc) as (Hb & _ & -> & ->). unfold B64_BASE64. rewrite Hb. cbn [negb andb].
  set (s1 := if c =? 61 then _ else _).
  assert (Hs1 : s1 = Decoding h (held_padding (h ++ [c])) out)
    by (unfold s1; rewrite Hn; destruct (c =? 61); cbn [held eof output]; by rewrite ?Z.add_0_r).
  rewrite Hs1. clear s1 Hs1. cbn [held eof output].
  assert (negb (c =? 61) && (0 <? held_padding h) && true = false) as ->.
  { destruct (Z.eqb_spec c 61); [done|]. by rewrite H0. }
  rewrite (proj2 (Z.ltb_ge _ _)) by lia. by rewrite (proj2 (Nat.leb_gt _ _)) by lia.
Qed.

(** The loop over the characters of one call decodes a part of what was to be decoded. *)
Lemma decode_chars_text fl d r t s :
  bytes_ok d -> Forall (text_char fl) r -> decoding_of fl d (r ++ t) s ->
  exists s' d1 d2, d = d1 ++ d2 /\ decode_chars fl r s = DecodeTail false s' /\
    output s' = output s ++ d1 /\ decoding_of fl d2 t s'.
Proof.
  intros Hd Hr. revert d s Hd. induction Hr as [|c r Hc Hr IH]; intros d s Hd Hs.
  { exists s, [], d. split_and!; [done|done|by rewrite app_nil_r|done]. }
  pose proof (decoding_of_eof _ _ _ _ Hs) as He. destruct Hs as (E & Hl & Heof).
  destruct Hc as [Hc| ->].
  2: { rewrite decode_newline by done. apply IH; [done|]. by split_and!. }
  unfold plain in E. cbn [app] in E. rewrite filter_cons_True in E by (by eapply base64_char_not_newline).
  fold (plain (r ++ t)) in E.
  assert (Hpad : padded (held s ++ c :: plain (r ++ t)) (padding d)) by (rewrite E; apply encodeblock_padded).
  destruct Heof as [Heof|[-> _]]; [|by destruct (held s)].
  destruct s as [h e out]. cbn [held eof output] in *. subst e.
  rewrite (decode_char fl c r h out (padding d) (plain (r ++ t)) Hc Hpad Hl). cbv zeta.
  replace (h ++ c :: plain (r ++ t)) with ((h ++ [c]) ++ plain (r ++ t)) in E by (by rewrite <- app_assoc).
  destruct (Nat.eqb_spec (length (h ++ [c])) 64) as [H64|H64].
  - symmetry in E. apply block_split in E as (da & db & -> & Ea & Eb & Hp); [|by rewrite H64].
    apply Forall_app in Hd as [Hda Hdb]. rewrite <- Ea. rewrite flush_block by done. rewrite Ea.
    destruct (IH db (Decoding [] (held_padding (h ++ [c])) (out ++ da)) Hdb) as (s' & d1 & d2 & -> & Hdec & Hout & Hs').
    { split; [by rewrite Eb|]. split; [simpl; lia|]. cbn [held eof]. destruct Hp as [-> |Hp].
      - right. split; [done|]. rewrite <- Ea. rewrite (held_padding_padded _ _ (encodeblock_padded fl da)).
        pose proof (padding_le da). lia.
      - left. rewrite <- Ea. rewrite (held_padding_padded _ _ (encodeblock_padded fl da)). by rewrite Hp. }
    cbn [output] in Hout. exists s', (da ++ d1), d2. split_and!; [by rewrite <- app_assoc|done|by rewrite Hout, <- app_assoc|done].
  - destruct (IH d (Decoding (h ++ [c]) (held_padding (h ++ [c])) out) Hd) as (s' & d1 & d2 & -> & Hdec & Hout & Hs').
    { split; [done|]. cbn [held]. split; [rewrite length_app in *; cbn [length] in *; lia|by left]. }
    by exists s', d1, d2.
Qed.

(** A context of decoding, between two calls. *)
Definition decoding_ctx (fl : encode_flags) (todo t : bytes) (ctx : encode_ctx) : Prop :=
  flags ctx = fl /\ enc_data ctx ++ plain t = encodeblock (bin_table fl) todo /\ (length (enc_data ctx) < 64)%nat /\
  (enc_data ctx = [] \/ (length (enc_data ctx) mod 4 <> 0)%nat).

Lemma decode_update_text fl d r t ctx :
  bytes_ok d -> Forall (text_char fl) r -> decoding_ctx fl d (r ++ t) ctx ->
  exists rv d1 d2 ctx', d = d1 ++ d2 /\ EVP_DecodeUpdate ctx r = (rv, d1, ctx') /\ 0 <= rv /\ decoding_ctx fl d2 t ctx'.
Proof.
  intros Hd Hr (Hfl & E & Hl & Hm). destruct r as [|c r].
  { exists 0, [], d, ctx. split_and!; try done. unfold EVP_DecodeUpdate. by destruct ctx. }
  destruct (decode_chars_text fl d (c :: r) t (Decoding (enc_data ctx) (held_padding (enc_data ctx)) []) Hd Hr)
    as (s' & d1 & d2 & -> & Hdec & Hout & Hs); [by split_and!; [..|left]|].
  pose proof (decoding_of_eof _ _ _ _ Hs) as He. destruct Hs as (E' & Hl' & Heof).
  unfold EVP_DecodeUpdate. rewrite Hfl, Hdec. cbn [output] in Hout. rewrite app_nil_l in Hout. cbn [orb].
  apply Forall_app in Hd as [_ Hd2].
  assert (Hrv : forall b : bool, 0 <= (if b then 0 else 1)) by (by intros []).
  destruct s' as [h e out]. cbn [held eof output] in *. subst out. destruct h as [|x h].
  - eexists _, d1, d2, _. split; [done|]. split; [done|]. split; [apply Hrv|]. split_and!; try done. by left.
  - set (hd := x :: h) in *. destruct (Nat.eqb_spec (length hd mod 4) 0) as [H4|H4].
    + symmetry in E'. apply block_split in E' as (da & db & -> & Ea & Eb & Hp); [|done].
      destruct Heof as [->|[Hnil _]]; [|by apply app_eq_nil in Hnil as [-> ->]; subst hd].
      apply Forall_app in Hd2 as [Hda _]. rewrite <- Ea, flush_block by done.
      eexists _, (d1 ++ da), db, _. split; [by rewrite <- app_assoc|]. split; [done|]. split; [apply Hrv|].
      split_and!; [done|by rewrite Eb|simpl; lia|by left].
    + eexists _, d1, d2, _. split; [done|]. split; [done|]. split; [apply Hrv|]. split_and!; try done. by right.
Qed.

(** The output of a sequence of calls and of the last one; [None] when a call
    reports an error. *)
Fixpoint decode_calls (ctx : encode_ctx) (texts : list bytes) : option bytes :=
  match texts with
  | [] =>
      let '(rv, out, _) := EVP_DecodeFinal ctx in
      if rv <? 0 then None else Some out
  | t :: texts' =>
      let '(rv, out, ctx) := EVP_DecodeUpdate ctx t in
      if rv <? 0 then None else app out <$> decode_calls ctx texts'
  end.

Lemma decode_calls_text fl d texts ctx :
  bytes_ok d -> Forall (text_char fl) (concat texts) -> decoding_ctx fl d (concat texts) ctx ->
  decode_calls ctx texts = Some d.
Proof.
  revert d ctx. induction texts as [|t texts IH]; intros d ctx Hd Ht Hctx.
  - destruct Hctx as (_ & E & _ & Hm). cbn [concat] in E. change (plain []) with (@nil Z) in E. rewrite app_nil_r in E.
    destruct Hm as [Hm|Hm]; [|by rewrite E, encodeblock_length, Nat.mul_comm, Nat.Div0.mod_mul in Hm].
    cbn [decode_calls]. unfold EVP_DecodeFinal. rewrite Hm in *. by destruct d as [|? [|? [|? ?]]].
  - cbn [concat] in *. apply Forall_app in Ht as [Ht Hts].
    destruct (decode_update_text fl d t (concat texts) ctx Hd Ht Hctx) as (rv & d1 & d2 & ctx' & -> & Hu & Hrv & Hctx').
    apply Forall_app in Hd as [_ Hd2]. cbn [decode_calls]. rewrite Hu. rewrite (proj2 (Z.ltb_ge _ _)) by lia.
    by rewrite (IH d2 ctx').
Qed.

(** C20: A base64 stream decodes to what was encoded: whatever way the data was cut
    when it was encoded (each call below 1.5 billion bytes), in either alphabet
    and with newlines or without, and whatever way the text is cut when it is
    decoded - within a group, between two padding characters, before a newline -
    no call to EVP_DecodeUpdate or EVP_DecodeFinal reports an error and their
    outputs add up to the data. *)
Theorem base64_stream_roundtrip fl chunks texts :
  Forall (fun c => zlen c <= 1500000000) chunks -> bytes_ok (concat chunks) ->
  concat texts = encode_calls (evp_encode_ctx_set_flags fl EVP_EncodeInit) chunks ->
  decode_calls (evp_encode_ctx_set_flags fl EVP_DecodeInit) texts = Some (concat chunks).
Proof.
  intros Hc Hb E. rewrite encode_calls_text in E by done. apply (decode_calls_text fl); [done|rewrite E; apply encode_text_chars|].
  split_and!; [done|by rewrite E, plain_text|simpl; lia|by left].
Qed.

Lemma base64_block_roundtrip_witness :
  evp_decodeblock_int (Flags false true) (evp_encodeblock_int (Flags false true) (bs "salt")) = Some (bs "salt" ++ [0; 0]).
Proof. exact (proj2 (base64_block_roundtrip (Flags false true) (bs "salt") ltac:(by apply bytes_ok_checked))). Defined.

Lemma base64_encode_in_pieces_witness :
  encode_calls EVP_EncodeInit [bs "any carnal "; bs "plea"; bs "s"] = bs "YW55IGNhcm5hbCBwbGVhcw==" ++ [10].
Proof.
  exact (base64_encode_in_pieces no_flags [bs "any carnal "; bs "plea"; bs "s"]
    ltac:(repeat constructor; discriminate)).
Defined.

Lemma base64_stream_roundtrip_witness :
  decode_calls EVP_DecodeInit [bs "YW55IGNhcm5h"; bs "bCBwbGVhcw="; bs "="; [10]] = Some (bs "any carnal pleas").
Proof.
  exact (base64_stream_roundtrip no_flags [bs "any carnal "; bs "pleas"]
    [bs "YW55IGNhcm5h"; bs "bCBwbGVhcw="; bs "="; [10]]
    ltac:(repeat constructor; discriminate) ltac:(by apply bytes_ok_checked) eq_refl).
Defined.
