(* ===== verification/UintSet.v ===== *)
(** * Sets of 64-bit integers (ssl/quic/uint_set.c)

    The sorted list of ranges behind the packet number tracking of QUIC.  The list
    is kept here from its tail to its head, the order in which the operations walk
    it; [live] counts the items that are allocated.  Whether an allocation
    succeeds is an argument. *)

From S2P Require Import Prelude.

Record uint_range := URange { rstart : Z; rend : Z }.

Record uint_set := USet { ranges : list uint_range; live : Z }.

Definition ossl_uint_set_init : uint_set := USet [] 0.

(** Frees the items of the list. *)
Definition ossl_uint_set_destroy (s : uint_set) : Z := live s - zlen (ranges s).

(** [x] with the items before it: the list and the allocated items. *)
Definition uint_set_merge_adjacent (x : uint_range) (prevs : list uint_range) (live : Z) : list uint_range * Z :=
  match prevs with
  | [] => ([x], live)
  | xprev :: prevs' =>
      if negb (u64 (rstart x - 1) =? rend xprev) then (x :: prevs, live)
      else (URange (rstart xprev) (rend x) :: prevs', live - 1)
  end.

Definition u64_min (x y : Z) : Z := if x <? y then x else y.
Definition u64_max (x y : Z) : Z := if y <? x then x else y.

Definition uint_range_overlaps (a b : uint_range) : bool :=
  u64_max (rstart a) (rstart b) <=? u64_min (rend a) (rend b).

(** [while (zprev != NULL && uint_range_overlaps(...))], and the nodes it passes
    freed: the earliest start, what is before it, the allocated items. *)
Fixpoint earliest_overlapping (range : uint_range) (z : uint_range) (prevs : list uint_range) (live : Z)
  : Z * list uint_range * Z :=
  match prevs with
  | zprev :: prevs' =>
      if uint_range_overlaps zprev range then earliest_overlapping range zprev prevs' (live - 1)
      else (rstart z, prevs, live)
  | [] => (rstart z, [], live)
  end.

(** The walk backwards: the return value, the list, the allocated items. *)
Fixpoint insert_walk (alloc : bool) (range : uint_range) (l : list uint_range) (live : Z)
  : Z * list uint_range * Z :=
  let start := rstart range in
  let end_ := rend range in
  match l with
  | [] => (1, [], live)
  | z :: prevs =>
      if (rstart z <=? start) && (end_ <=? rend z) then (1, l, live)
      else if uint_range_overlaps z range then
        let '(first, prevs', live') := earliest_overlapping range z prevs live in
        (1, URange (u64_min start first) (u64_max end_ (rend z)) :: prevs', live')
      else if (end_ <? rstart z) && match prevs with [] => true | zprev :: _ => rend zprev <? start end then
        if rstart z =? u64 (end_ + 1) then
          let '(l', live') := uint_set_merge_adjacent (URange start (rend z)) prevs live in (1, l', live')
        else
          match prevs with
          | zprev :: prevs' =>
              if u64 (rend zprev + 1) =? start then
                let '(l', live') := uint_set_merge_adjacent z (URange (rstart zprev) end_ :: prevs') live in
                (1, l', live')
              else if alloc then (1, z :: range :: prevs, live + 1) else (0, l, live)
          | [] => if alloc then (1, [z; range], live + 1) else (0, l, live)
          end
      else
        let '(rv, l', live') := insert_walk alloc range prevs live in (rv, z :: l', live')
  end.

Definition ossl_uint_set_insert (alloc : bool) (range : uint_range) (s : uint_set) : Z * uint_set :=
  let start := rstart range in
  let end_ := rend range in
  if negb (start <=? end_) then (0, s)
  else
    match ranges s with
    | [] => if alloc then (1, USet [range] (live s + 1)) else (0, s)
    | z :: prevs =>
        let f := List.last (ranges s) z in
        if rend z <? start then
          if u64 (rend z + 1) =? start then (1, USet (URange (rstart z) end_ :: prevs) (live s))
          else if alloc then (1, USet (range :: ranges s) (live s + 1))
          else (0, s)
        else if (start <=? rstart f) && (rend z <=? end_) then
          (* the other items are unlinked, not freed *)
          (1, USet [range] (live s))
        else if end_ <? rstart f then
          let '(rv, l, live') := insert_walk alloc range [f] (live s) in
          (rv, USet (removelast (ranges s) ++ l) live')
        else
          let '(rv, l, live') := insert_walk alloc range (ranges s) (live s) in (rv, USet l live')
    end.

Definition cons_range (z : uint_range) (r : list uint_range * Z) : list uint_range * Z := (z :: r.1, r.2).

Fixpoint remove_walk (alloc : bool) (range : uint_range) (l : list uint_range) (live : Z)
  : outcome (list uint_range * Z) :=
  let start := rstart range in
  let end_ := rend range in
  match l with
  | [] => Done ([], live)
  | z :: prevs =>
      if rend z <? start then Done (l, live)
      else if (start <=? rstart z) && (rend z <=? end_) then remove_walk alloc range prevs (live - 1)
      else if (start <=? rstart z) && (rstart z <=? end_) then
        r ← remove_walk alloc range prevs live;
        Done (cons_range (URange (u64 (end_ + 1)) (rend z)) r)
      else if rend z <=? end_ then Done (URange (rstart z) (u64 (start - 1)) :: prevs, live)
      else if (rstart z <? start) && (end_ <? rend z) then
        if alloc then
          Done (URange (u64 (end_ + 1)) (rend z) :: URange (rstart z) (u64 (start - 1)) :: prevs, live + 1)
        else Crash NullDereference
      else
        r ← remove_walk alloc range prevs live;
        Done (cons_range z r)
  end.

Definition ossl_uint_set_remove (alloc : bool) (range : uint_range) (s : uint_set) : outcome (Z * uint_set) :=
  if negb (rstart range <=? rend range) then Done (0, s)
  else
    r ← remove_walk alloc range (ranges s) (live s);
    Done (1, USet r.1 r.2).

Fixpoint query_walk (l : list uint_range) (v : Z) : Z :=
  match l with
  | [] => 0
  | x :: prevs =>
      if (rstart x <=? v) && (v <=? rend x) then 1
      else if rend x <? v then 0
      else query_walk prevs v
  end.

Definition ossl_uint_set_query (s : uint_set) (v : Z) : Z := query_walk (ranges s) v.

(** ** The invariant and the set a list stands for *)

Definition in_range (v : Z) (r : uint_range) : Prop := rstart r <= v <= rend r.
Definition member (v : Z) (l : list uint_range) : Prop := Exists (in_range v) l.
Definition range_ok (r : uint_range) : Prop := 0 <= rstart r <= rend r /\ rend r < 2 ^ 64.

(** Ranges that descend from a bound, disjoint and none empty. *)
Fixpoint descending (hi : Z) (l : list uint_range) : Prop :=
  match l with
  | [] => True
  | r :: l' => 0 <= rstart r <= rend r /\ rend r < hi /\ descending (rstart r) l'
  end.

Definition uint_set_ok (s : uint_set) : Prop := descending (2 ^ 64) (ranges s).

Lemma member_cons v r l : member v (r :: l) <-> in_range v r \/ member v l.
Proof. apply Exists_cons. Qed.

Lemma member_nil v : member v [] <-> False.
Proof. apply Exists_nil. Qed.

Lemma member_app v l1 l2 : member v (l1 ++ l2) <-> member v l1 \/ member v l2.
Proof. apply Exists_app. Qed.

Lemma member_below v hi l : descending hi l -> member v l -> 0 <= v < hi.
Proof.
  revert hi. induction l as [|r l IH]; intros hi; simpl; [by rewrite member_nil|].
  intros (H1 & H2 & H3) [Hv|Hv]%member_cons; [unfold in_range in Hv; lia|]. specialize (IH _ H3 Hv). lia.
Qed.

Lemma descending_weaken hi hi' l : hi <= hi' -> descending hi l -> descending hi' l.
Proof. destruct l; simpl; [done|]. intros ? (? & ? & ?). split_and!; [lia|lia|lia|done]. Qed.

#[export] Hint Rewrite member_cons member_nil member_app : uint_set.

Ltac range_bools :=
  repeat match goal with
  | H : (_ && _) = true |- _ => apply andb_true_iff in H as [? ?]
  | H : (_ && _) = false |- _ => apply andb_false_iff in H
  | H : (_ <=? _) = true |- _ => apply Z.leb_le in H
  | H : (_ <=? _) = false |- _ => apply Z.leb_gt in H
  | H : (_ <? _) = true |- _ => apply Z.ltb_lt in H
  | H : (_ <? _) = false |- _ => apply Z.ltb_ge in H
  | H : (_ =? _) = true |- _ => apply Z.eqb_eq in H
  | H : (_ =? _) = false |- _ => apply Z.eqb_neq in H
  end.

Lemma overlaps_spec a b :
  uint_range_overlaps a b = true <-> rstart a <= rend b /\ rstart b <= rend a /\ rstart a <= rend a /\ rstart b <= rend b.
Proof.
  unfold uint_range_overlaps, u64_min, u64_max.
  destruct (Z.ltb_spec (rend a) (rend b)), (Z.ltb_spec (rstart b) (rstart a)); lia.
Qed.

(** ** Insertion *)

Ltac min_max := unfold u64_min, u64_max in *; repeat match goal with
  | |- context [?x <? ?y] => destruct (Z.ltb_spec x y)
  | H : context [?x <? ?y] |- _ => destruct (Z.ltb_spec x y)
  end.

Lemma earliest_spec range z prevs live :
  descending (rend z + 1) (z :: prevs) -> rstart range <= rend range -> rstart z <= rend range ->
  let '(first, prevs', live') := earliest_overlapping range z prevs live in
  0 <= first <= rstart z /\ descending (u64_min (rstart range) first) prevs' /\
  live' - zlen prevs' = live - zlen prevs /\
  forall e v, rend z <= e -> rend range <= e ->
    (u64_min (rstart range) first <= v <= e \/ member v prevs' <->
     u64_min (rstart range) (rstart z) <= v <= e \/ member v prevs).
Proof.
  intros Hd Hr. revert z live Hd. induction prevs as [|zprev prevs IH]; intros z live (Hz & _ & Hd) Hov;
    cbn [earliest_overlapping]; [by split_and!; try lia|].
  cbn [descending] in Hd. destruct Hd as (Hp & Hpz & Hd).
  destruct (uint_range_overlaps zprev range) eqn:E.
  - apply overlaps_spec in E. specialize (IH zprev (live - 1) ltac:(split_and!; [lia|lia|lia|done]) ltac:(lia)).
    destruct (earliest_overlapping range zprev prevs (live - 1)) as [[first prevs'] live'].
    destruct IH as (Hf & Hd' & Hlive & Hm). split_and!; [lia|lia|done|rewrite zlen_cons; lia|].
    intros e v He1 He2. rewrite Hm by lia. rewrite member_cons. unfold in_range. clear Hm.
    min_max; intuition lia.
  - assert (Hno : rend zprev < rstart range).
    { apply not_true_iff_false in E. rewrite overlaps_spec in E. lia. }
    split_and!; [lia|lia| |done|done]. cbn [descending]. split_and!; [lia|lia|min_max; lia|done].
Qed.

(** What an insertion does to a list below [hi] and to the number of allocated items. *)
Definition insertion (alloc : bool) (range : uint_range) (hi : Z) (l : list uint_range) (live : Z)
    (res : Z * list uint_range * Z) : Prop :=
  let '(rv, l', live') := res in
  rv = 0 /\ alloc = false /\ l' = l /\ live' = live \/
  rv = 1 /\ live' - zlen l' = live - zlen l /\ descending hi l' /\
  (forall v, member v l' <-> in_range v range \/ member v l).

Lemma merge_adjacent_spec x prevs live hi :
  descending hi (x :: prevs) -> hi <= 2 ^ 64 ->
  let '(l', live') := uint_set_merge_adjacent x prevs live in
  live' - zlen l' = live - zlen (x :: prevs) /\ descending hi l' /\ forall v, member v l' <-> member v (x :: prevs).
Proof.
  intros (Hx & Hhi & Hd) H64. destruct prevs as [|xprev prevs]; cbn [uint_set_merge_adjacent]; [by split_and!; try lia|].
  cbn [descending] in Hd. destruct Hd as (Hp & Hpx & Hd). rewrite u64_small by lia.
  destruct (Z.eqb_spec (rstart x - 1) (rend xprev)) as [E|E]; cbn [negb].
  - split_and!; [rewrite !zlen_cons; lia|cbn [descending rstart rend]; split_and!; try lia; done|].
    intros v. rewrite !member_cons. unfold in_range. cbn [rstart rend]. intuition lia.
  - split_and!; [done| |done]. cbn [descending]. by split_and!; try lia.
Qed.

Lemma insert_walk_spec alloc range l live hi :
  descending hi l -> hi <= 2 ^ 64 -> 0 <= rstart range <= rend range -> rend range < hi ->
  match l with [] => False | z :: _ => rstart range <= rend z end ->
  insertion alloc range hi l live (insert_walk alloc range l live).
Proof.
  intros Hd H64 Hr. revert hi Hd H64. induction l as [|z prevs IH]; intros hi Hd H64 Hhi Hz; [done|].
  cbn [insert_walk]. pose proof Hd as (Hzz & Hzhi & Hdp).
  destruct ((rstart z <=? rstart range) && (rend range <=? rend z)) eqn:Edwarf.
  { range_bools. right. split_and!; try done. intros v. rewrite member_cons. unfold in_range. intuition lia. }
  clear Edwarf. destruct (uint_range_overlaps z range) eqn:Eov.
  { apply overlaps_spec in Eov.
    pose proof (earliest_spec range z prevs live ltac:(split_and!; [lia|lia|lia|done]) ltac:(lia) ltac:(lia)) as He.
    destruct (earliest_overlapping range z prevs live) as [[first prevs'] live'].
    destruct He as (Hf & Hd' & Hlive & Hm). right. split_and!; [done|rewrite !zlen_cons; lia| |].
    - cbn [descending rstart rend]. split_and!; [min_max; lia|min_max; lia|min_max; lia|done].
    - intros v. rewrite !member_cons. unfold in_range at 1. cbn [rstart rend].
      rewrite Hm by (min_max; lia). unfold in_range. min_max; intuition lia. }
  assert (Hlt : rend range < rstart z).
  { apply not_true_iff_false in Eov. rewrite overlaps_spec in Eov. lia. }
  rewrite (proj2 (Z.ltb_lt _ _) Hlt). cbn [andb].
  destruct (match prevs with [] => true | zprev :: _ => rend zprev <? rstart range end) eqn:Egap.
  2: { destruct prevs as [|zprev prevs]; [done|]. range_bools. specialize (IH (rstart z) Hdp ltac:(lia) Hlt Egap).
       destruct (insert_walk alloc range (zprev :: prevs) live) as [[rv l'] live'].
       destruct IH as [(-> & -> & -> & ->)|(-> & Hlive & Hd' & Hm)]; [by left|right].
       split_and!; [done|rewrite !(zlen_cons z); lia|done|]. intros v. rewrite !(member_cons v z), Hm. tauto. }
  clear IH. rewrite u64_small by lia.
  assert (Hnew : descending (rstart z) (range :: prevs)).
  { cbn [descending]. split_and!; [lia|lia|lia|]. destruct prevs; [done|]. range_bools. cbn [descending] in *. tauto. }
  assert (Hadd : insertion alloc range hi (z :: prevs) live
    (if alloc then (1, z :: range :: prevs, live + 1) else (0, z :: prevs, live))).
  { destruct alloc; [right|by left]. split_and!; [done|rewrite !zlen_cons; lia|done|].
    intros v. rewrite !member_cons. tauto. }
  destruct (Z.eqb_spec (rstart z) (rend range + 1)) as [Ea|Ea].
  { assert (Hx : descending hi (URange (rstart range) (rend z) :: prevs)).
    { cbn [descending rstart rend] in *. split_and!; [lia|lia|lia|tauto]. }
    pose proof (merge_adjacent_spec _ prevs live hi Hx H64) as Hmerge.
    destruct (uint_set_merge_adjacent _ prevs live) as [l' live']. destruct Hmerge as (Hlive & Hd' & Hm).
    right. rewrite zlen_cons in *. split_and!; [done|done|done|]. intros v. rewrite Hm, !member_cons.
    unfold in_range. cbn [rstart rend]. intuition lia. }
  destruct prevs as [|zprev prevs]; [done|]. cbn [descending] in Hnew, Hdp. rewrite u64_small by lia.
  destruct (Z.eqb_spec (rend zprev + 1) (rstart range)) as [Eb|Eb]; [|done].
  assert (Hx : descending hi (z :: URange (rstart zprev) (rend range) :: prevs)).
  { cbn [descending rstart rend]. split_and!; try lia. tauto. }
  pose proof (merge_adjacent_spec _ _ live hi Hx H64) as Hmerge.
  destruct (uint_set_merge_adjacent _ _ live) as [l' live']. destruct Hmerge as (Hlive & Hd' & Hm).
  right. rewrite !zlen_cons in *. split_and!; [done|done|done|]. intros v. rewrite Hm, !member_cons.
  unfold in_range. cbn [rstart rend]. intuition lia.
Qed.

(** The start of the last range of a list, [hi] for the empty one. *)
Fixpoint lowest (hi : Z) (l : list uint_range) : Z :=
  match l with
  | [] => hi
  | r :: l' => lowest (rstart r) l'
  end.

Lemma descending_app hi l1 l2 : descending hi (l1 ++ l2) <-> descending hi l1 /\ descending (lowest hi l1) l2.
Proof. revert hi. induction l1 as [|r l1 IH]; intros hi; cbn [descending app lowest]; [tauto|]. rewrite IH. tauto. Qed.

Lemma lowest_le hi l : descending hi l -> lowest hi l <= hi.
Proof.
  revert hi. induction l as [|r l IH]; intros hi; cbn [descending lowest]; [lia|]. intros (? & ? & H). apply IH in H. lia.
Qed.

(** The new range covers every range of a set that is not empty. *)
Definition dwarfs (range : uint_range) (l : list uint_range) : bool :=
  match l with
  | [] => false
  | z :: _ => (rstart range <=? rstart (List.last l z)) && (rend z <=? rend range) && (rstart range <=? rend z)
  end.

Lemma last_start_le hi l d : descending hi l -> l <> [] -> 0 <= rstart (List.last l d) < hi.
Proof.
  revert hi. induction l as [|r l IH]; intros hi; [done|]. intros (H1 & H2 & H3) _.
  destruct l as [|r' l]; [cbn [List.last]; lia|]. change (List.last (r :: r' :: l) d) with (List.last (r' :: l) d).
  specialize (IH _ H3 ltac:(done)). lia.
Qed.

Lemma member_above hi l d v : descending hi l -> member v l -> rstart (List.last l d) <= v.
Proof.
  revert hi. induction l as [|r l IH]; intros hi; [by rewrite member_nil|]. rewrite member_cons.
  intros (H1 & H2 & H3) Hv. destruct l as [|r' l]; [rewrite member_nil in Hv; cbn [List.last]; unfold in_range in Hv; intuition lia|].
  change (List.last (r :: r' :: l) d) with (List.last (r' :: l) d).
  destruct Hv as [Hv|Hv]; [|by eapply IH]. unfold in_range in Hv.
  pose proof (last_start_le _ (r' :: l) d H3 ltac:(done)). lia.
Qed.

(** What ossl_uint_set_insert does, leaks included: the items the new range covers
    are unlinked without being freed when it covers all of them. *)
Lemma insert_range_spec alloc range s :
  uint_set_ok s -> range_ok range ->
  let '(rv, s') := ossl_uint_set_insert alloc range s in
  rv = 0 /\ alloc = false /\ s' = s \/
  rv = 1 /\ uint_set_ok s' /\ (forall v, member v (ranges s') <-> in_range v range \/ member v (ranges s)) /\
  ossl_uint_set_destroy s' =
    ossl_uint_set_destroy s + (if dwarfs range (ranges s) then zlen (ranges s) - 1 else 0).
Proof.
  destruct s as [l lv]. unfold uint_set_ok, range_ok, ossl_uint_set_destroy. cbn [ranges live].
  intros Hd (Hr & Hr64). unfold ossl_uint_set_insert. cbn [ranges live].
  rewrite (proj2 (Z.leb_le _ _)) by lia. cbn [negb]. destruct l as [|z prevs].
  { destruct alloc; [right|by left]. cbn [ranges live dwarfs]. split_and!; [done|simpl; lia| |unfold zlen; simpl; lia].
    intros v. by rewrite member_cons. }
  set (l := z :: prevs) in *. pose proof Hd as (Hz & Hz64 & Hdp).
  change (dwarfs range l) with
    ((rstart range <=? rstart (List.last l z)) && (rend z <=? rend range) && (rstart range <=? rend z)).
  destruct (Z.ltb_spec (rend z) (rstart range)) as [Hafter|Hafter].
  { rewrite (proj2 (Z.leb_gt (rstart range) (rend z)) Hafter), andb_false_r. rewrite u64_small by lia.
    destruct (Z.eqb_spec (rend z + 1) (rstart range)) as [E|E].
    - right. cbn [ranges live]. split_and!; [done|cbn [descending rstart rend]; split_and!; try lia; done| |].
      + intros v. unfold l. rewrite !member_cons. unfold in_range. cbn [rstart rend]. intuition lia.
      + unfold l. rewrite !zlen_cons. lia.
    - destruct alloc; [right|by left]. cbn [ranges live].
      split_and!; [done|cbn [descending]; split_and!; try lia; done|by intros v; rewrite member_cons|rewrite zlen_cons; lia]. }
  rewrite (proj2 (Z.leb_le (rstart range) (rend z)) Hafter), andb_true_r.
  destruct ((rstart range <=? rstart (List.last l z)) && (rend z <=? rend range)) eqn:Edwarf.
  { range_bools. right. cbn [ranges live]. split_and!; [done|simpl; lia| |unfold zlen; simpl; lia].
    intros v. rewrite member_cons, member_nil. split; [tauto|]. intros [Hv|Hv]; [tauto|]. left. unfold in_range.
    pose proof (member_above _ _ z _ Hd Hv). split; [lia|]. unfold l in Hv. rewrite member_cons in Hv.
    destruct Hv as [Hv|Hv]; [unfold in_range in Hv; lia|]. pose proof (member_below _ _ _ Hdp Hv). lia. }
  clear Edwarf. rewrite Z.add_0_r. destruct (Z.ltb_spec (rend range) (rstart (List.last l z))) as [Hbefore|Hbefore].
  - destruct (exists_last (l := l) ltac:(done)) as (l1 & f & El). rewrite El in *. clear l El.
    rewrite last_last in *. rewrite removelast_last. apply descending_app in Hd as [Hd1 Hd2].
    pose proof (lowest_le _ _ Hd1). cbn [descending] in Hd2.
    pose proof (insert_walk_spec alloc range [f] lv (lowest (2 ^ 64) l1) Hd2 ltac:(lia) ltac:(lia) ltac:(lia) ltac:(simpl; lia)) as Hi.
    destruct (insert_walk alloc range [f] lv) as [[rv l'] live'].
    destruct Hi as [(-> & -> & -> & ->)|(-> & Hlive & Hd' & Hm)]; [by left|right]. cbn [ranges live].
    split_and!; [done|by apply descending_app| |rewrite !zlen_app; lia].
    intros v. rewrite !member_app, Hm. tauto.
  - pose proof (insert_walk_spec alloc range l lv (2 ^ 64) Hd ltac:(lia) ltac:(lia) ltac:(lia) Hafter) as Hi.
    destruct (insert_walk alloc range l lv) as [[rv l'] live'].
    destruct Hi as [(-> & -> & -> & ->)|(-> & Hlive & Hd' & Hm)]; [by left|right]. cbn [ranges live].
    split_and!; [done|done|done|lia].
Qed.

(** ** Removal *)

(** A part of the range lies inside a single range of the list, on both sides of which something is left. *)
Definition strictly_inside (range z : uint_range) : Prop := rstart z < rstart range /\ rend range < rend z.

Lemma remove_walk_spec alloc range l lv hi :
  descending hi l -> hi <= 2 ^ 64 -> 0 <= rstart range <= rend range ->
  (alloc = false /\ Exists (strictly_inside range) l /\ remove_walk alloc range l lv = Crash NullDereference) \/
  exists l' lv', remove_walk alloc range l lv = Done (l', lv') /\ descending hi l' /\ lv' - zlen l' = lv - zlen l /\
    forall v, member v l' <-> member v l /\ ~ in_range v range.
Proof.
  intros Hd H64 Hr. revert hi lv Hd H64. induction l as [|z prevs IH]; intros hi lv Hd H64; cbn [remove_walk].
  { right. exists [], lv. split_and!; [done..|]. intros v. rewrite member_nil. tauto. }
  pose proof Hd as (Hz & Hzhi & Hdp).
  assert (Hprevs : forall v, member v prevs -> v < rstart z) by (intros v Hv; by apply (member_below _ _ _ Hdp)).
  destruct (Z.ltb_spec (rend z) (rstart range)).
  { right. exists (z :: prevs), lv. split_and!; [done..|]. intros v. rewrite member_cons. specialize (Hprevs v).
    unfold in_range. intuition lia. }
  assert (Hsub : Exists (strictly_inside range) prevs -> Exists (strictly_inside range) (z :: prevs)) by (by right).
  destruct ((rstart range <=? rstart z) && (rend z <=? rend range)) eqn:E1.
  { range_bools. destruct (IH (rstart z) (lv - 1) Hdp ltac:(lia)) as [(? & ? & ?)|(l' & lv' & -> & Hd' & Hlv & Hm)];
      [left; by auto|right]. exists l', lv'.
    split_and!; [done|eapply descending_weaken; [|done]; lia|rewrite zlen_cons; lia|].
    intros v. rewrite Hm, member_cons. unfold in_range. intuition lia. }
  destruct ((rstart range <=? rstart z) && (rstart z <=? rend range)) eqn:E2.
  { range_bools. rewrite u64_small by lia.
    destruct (IH (rstart z) lv Hdp ltac:(lia)) as [(? & ? & ->)|(l' & lv' & -> & Hd' & Hlv & Hm)]; [left; by auto|right].
    eexists (_ :: l'), lv'. split; [reflexivity|]. split; [|split].
    - cbn [descending rstart rend]. split_and!; [lia|lia|lia|eapply descending_weaken; [|done]; lia].
    - rewrite !zlen_cons. lia.
    - intros v. rewrite !member_cons, Hm. specialize (Hprevs v). unfold in_range. cbn [rstart rend]. intuition lia. }
  destruct (Z.leb_spec (rend z) (rend range)).
  { right. rewrite u64_small by lia. eexists _, lv. split; [reflexivity|]. range_bools. split; [|split].
    - cbn [descending rstart rend]. split_and!; [lia|lia|lia|done].
    - rewrite !zlen_cons. lia.
    - intros v. rewrite !member_cons. specialize (Hprevs v). unfold in_range. cbn [rstart rend]. intuition lia. }
  destruct ((rstart z <? rstart range) && (rend range <? rend z)) eqn:E4.
  { range_bools. destruct alloc; [right|left; split_and!; [done|by left|done]].
    rewrite !u64_small by lia. eexists _, _. split; [reflexivity|]. split; [|split].
    - cbn [descending rstart rend]. split_and!; try lia. done.
    - rewrite !zlen_cons. lia.
    - intros v. rewrite !member_cons. specialize (Hprevs v). unfold in_range. cbn [rstart rend]. intuition lia. }
  range_bools.
  destruct (IH (rstart z) lv Hdp ltac:(lia)) as [(? & ? & ->)|(l' & lv' & -> & Hd' & Hlv & Hm)]; [left; by auto|right].
  eexists (_ :: l'), lv'. split; [reflexivity|]. split; [|split].
  - cbn [descending]. tauto.
  - rewrite !zlen_cons. lia.
  - intros v. rewrite !member_cons, Hm. unfold in_range. intuition lia.
Qed.

Lemma remove_range_spec alloc range s :
  uint_set_ok s -> range_ok range ->
  (alloc = false /\ Exists (strictly_inside range) (ranges s) /\
   ossl_uint_set_remove alloc range s = Crash NullDereference) \/
  exists s', ossl_uint_set_remove alloc range s = Done (1, s') /\ uint_set_ok s' /\
    ossl_uint_set_destroy s' = ossl_uint_set_destroy s /\
    forall v, member v (ranges s') <-> member v (ranges s) /\ ~ in_range v range.
Proof.
  intros Hs (Hr & _). unfold ossl_uint_set_remove. rewrite (proj2 (Z.leb_le _ _)) by lia. cbn [negb].
  destruct (remove_walk_spec alloc range (ranges s) (live s) _ Hs ltac:(lia) Hr)
    as [(? & ? & ->)|(l' & lv' & -> & Hd & Hlv & Hm)]; [by left|right].
  eexists. split; [reflexivity|]. by split_and!.
Qed.

Lemma query_spec s v : uint_set_ok s ->
  ossl_uint_set_query s v = 1 /\ member v (ranges s) \/ ossl_uint_set_query s v = 0 /\ ~ member v (ranges s).
Proof.
  unfold uint_set_ok, ossl_uint_set_query. generalize (2 ^ 64) as hi. generalize (ranges s) as l.
  induction l as [|x prevs IH]; intros hi; cbn [query_walk]; [right; split; [done|by intros ?%member_nil]|].
  intros (Hx & _ & Hd). rewrite member_cons. destruct ((rstart x <=? v) && (v <=? rend x)) eqn:E.
  { left. split; [done|]. left. range_bools. done. }
  assert (Hno : ~ in_range v x) by (unfold in_range; range_bools; lia).
  destruct (Z.ltb_spec (rend x) v).
  - right. split; [done|]. intros [?|Hv]; [done|]. pose proof (member_below _ _ _ Hd Hv). lia.
  - destruct (IH _ Hd) as [[-> ?]|[-> ?]]; [left|right]; tauto.
Qed.

(** ** The contract: a set of integers *)

Inductive set_op :=
  | OpInsert (range : uint_range)
  | OpRemove (range : uint_range).

Definition op_range (op : set_op) : uint_range := match op with OpInsert r => r | OpRemove r => r end.

(** An operation whose allocation succeeds. *)
Definition run_op (s : uint_set) (op : set_op) : outcome uint_set :=
  match op with
  | OpInsert range => Done (snd (ossl_uint_set_insert true range s))
  | OpRemove range => r ← ossl_uint_set_remove true range s; Done (snd r)
  end.

Fixpoint run_ops (s : uint_set) (ops : list set_op) : outcome uint_set :=
  match ops with
  | [] => Done s
  | op :: ops' => s' ← run_op s op; run_ops s' ops'
  end.

(** The specification: membership after the operations, one integer at a time. *)
Definition covers (range : uint_range) (v : Z) : bool := (rstart range <=? v) && (v <=? rend range).
Definition contains_after (before : bool) (op : set_op) (v : Z) : bool :=
  match op with
  | OpInsert range => covers range v || before
  | OpRemove range => before && negb (covers range v)
  end.
Definition contains (ops : list set_op) (v : Z) : bool := fold_left (fun b op => contains_after b op v) ops false.

Lemma covers_spec range v : covers range v = true <-> in_range v range.
Proof. unfold covers, in_range. lia. Qed.

(** A set and the predicate it implements. *)
Definition implements (s : uint_set) (p : Z -> bool) : Prop :=
  uint_set_ok s /\ forall v, p v = true <-> member v (ranges s).

Lemma run_op_spec s p op :
  implements s p -> range_ok (op_range op) ->
  exists s', run_op s op = Done s' /\ implements s' (fun v => contains_after (p v) op v).
Proof.
  intros [Hs Hp] Hr. destruct op as [range|range]; cbn [run_op contains_after op_range] in *.
  - pose proof (insert_range_spec true range s Hs Hr) as Hi. destruct (ossl_uint_set_insert true range s) as [rv s'].
    destruct Hi as [(_ & ? & _)|(-> & Hs' & Hm & _)]; [done|]. exists s'. split; [done|]. split; [done|].
    intros v. by rewrite orb_true_iff, covers_spec, Hp, Hm.
  - destruct (remove_range_spec true range s Hs Hr) as [(? & _)|(s' & -> & Hs' & _ & Hm)]; [done|]. exists s'.
    split; [done|]. split; [done|].
    intros v. by rewrite andb_true_iff, negb_true_iff, Hp, Hm, <- covers_spec, not_true_iff_false.
Qed.

(** C21: The structure is a set of integers: after any sequence of insertions and
    removals of ranges, with allocations that succeed, no operation has faulted,
    the ranges are sorted, disjoint and not empty, and a query answers 1 exactly
    for the integers that the last operation on them put in. *)
Theorem uint_set_refines ops :
  Forall (fun op => range_ok (op_range op)) ops ->
  exists s, run_ops ossl_uint_set_init ops = Done s /\ uint_set_ok s /\
    forall v, ossl_uint_set_query s v = if contains ops v then 1 else 0.
Proof.
  assert (Hgo : forall s p, implements s p -> Forall (fun op => range_ok (op_range op)) ops ->
    exists s', run_ops s ops = Done s' /\ implements s' (fun v => fold_left (fun b op => contains_after b op v) ops (p v))).
  { induction ops as [|op ops IH]; intros s p Hs Hok; [by exists s|]. inversion Hok as [|? ? Hop Hops]; subst.
    destruct (run_op_spec s p op Hs Hop) as (s1 & H1 & Hs1). cbn [run_ops]. rewrite H1. by apply (IH s1 _ Hs1). }
  intros Hok. destruct (Hgo ossl_uint_set_init (fun _ => false)) as (s & Hrun & Hs & Hp); [|done|].
  { split; [done|]. intros v. unfold ossl_uint_set_init. cbn [ranges]. by rewrite member_nil. }
  exists s. split_and!; [done|done|]. intros v. specialize (Hp v). unfold contains.
  destruct (query_spec s v Hs) as [[-> Hv]|[-> Hv]], (fold_left _ ops false); try done; exfalso; intuition congruence.
Qed.

(** What an operation costs, allocation failures included: an insertion either
    reports 0, for want of memory only, and changes nothing, or adds the range;
    the items allocated and not in the list - those that destroying the set
    leaves behind - grow by all but one of the ranges when the new range covers
    every range of the set, and by none otherwise.  A removal keeps that number,
    except that it dereferences the null pointer when it must cut a range in two
    and the allocation fails. *)
Theorem uint_set_accounting alloc range s :
  uint_set_ok s -> range_ok range ->
  (let '(rv, s') := ossl_uint_set_insert alloc range s in
   rv = 0 /\ alloc = false /\ s' = s \/
   rv = 1 /\ (forall v, member v (ranges s') <-> in_range v range \/ member v (ranges s)) /\
   ossl_uint_set_destroy s' = ossl_uint_set_destroy s + (if dwarfs range (ranges s) then zlen (ranges s) - 1 else 0)) /\
  ((alloc = false /\ Exists (strictly_inside range) (ranges s) /\
    ossl_uint_set_remove alloc range s = Crash NullDereference) \/
   exists s', ossl_uint_set_remove alloc range s = Done (1, s') /\ ossl_uint_set_destroy s' = ossl_uint_set_destroy s).
Proof.
  intros Hs Hr. split.
  - pose proof (insert_range_spec alloc range s Hs Hr) as Hi. destruct (ossl_uint_set_insert alloc range s) as [rv s']. tauto.
  - destruct (remove_range_spec alloc range s Hs Hr) as [?|(s' & ? & _ & ? & _)]; [by left|right]. by exists s'.
Qed.

(** ** Inputs *)

Definition demo_ops : list set_op :=
  [OpInsert (URange 5 10); OpInsert (URange 20 30); OpRemove (URange 24 25); OpInsert (URange 11 12)].

Lemma uint_set_refines_witness :
  exists s, run_ops ossl_uint_set_init demo_ops = Done s /\ ossl_uint_set_query s 12 = 1 /\ ossl_uint_set_query s 24 = 0.
Proof.
  destruct (uint_set_refines demo_ops ltac:(repeat constructor; cbv; congruence)) as (s & H & _ & Hq).
  exists s. split; [exact H|]. split; [exact (Hq 12)|exact (Hq 24)].
Defined.

Definition demo_set : uint_set := USet [URange 20 30; URange 5 10] 2.

(** An insertion that covers both ranges leaves one item allocated and out of the list. *)
Lemma uint_set_accounting_witness :
  uint_set_ok demo_set /\
  ossl_uint_set_destroy (snd (ossl_uint_set_insert false (URange 0 40) demo_set)) = 1 /\
  ossl_uint_set_remove false (URange 6 7) demo_set = Crash NullDereference.
Proof.
  assert (Hs : uint_set_ok demo_set) by (cbv; intuition congruence).
  split; [exact Hs|]. split.
  - destruct (proj1 (uint_set_accounting false (URange 0 40) demo_set Hs ltac:(cbv; intuition congruence)))
      as [(H & _)|(_ & _ & H)]; [discriminate H|exact H].
  - destruct (proj2 (uint_set_accounting false (URange 6 7) demo_set Hs ltac:(cbv; intuition congruence)))
      as [(_ & _ & H)|(s' & H & _)]; [exact H|discriminate H].
Defined.

(** Two ranges border after this insertion: it overlaps only the first of the ranges
    and stops one short of the second, so that the two are not merged. *)
Example insert_can_border :
  (s ← run_ops ossl_uint_set_init [OpInsert (URange 5 10); OpInsert (URange 20 30); OpInsert (URange 8 19)];
   Done (ranges s)) = Done [URange 20 30; URange 5 19].
Proof. reflexivity. Qed.
