(* ===== verification/Md32.v ===== *)
(** * Hashing by blocks of 64 bytes (include/crypto/md32_common.h)

    HASH_UPDATE, HASH_TRANSFORM and HASH_FINAL, which the file expands for each
    hash that defines a block function, over an interface for that function.  The
    hash of a message does not depend on the calls that delivered it: it is the
    block function run over the message with its padding. *)

From S2P Require Import Prelude Words.

(** What a hash defines before it includes the file. *)
Class Md32 := {
  md_state : Type;
  HASH_BLOCK_DATA_ORDER : md_state -> bytes -> nat -> md_state;
  data_order_is_big_endian : bool
}.

Definition HASH_CBLOCK : nat := 64.

(** Several blocks are one after the other. *)
Class Md32Laws (M : Md32) := {
  block_none : forall s d, HASH_BLOCK_DATA_ORDER s d 0 = s;
  block_app : forall s d1 d2 n m, length d1 = (n * HASH_CBLOCK)%nat ->
    HASH_BLOCK_DATA_ORDER s (d1 ++ d2) (n + m) = HASH_BLOCK_DATA_ORDER (HASH_BLOCK_DATA_ORDER s d1 n) d2 m
}.

Section md32.
Context {M : Md32}.

(** [data] holds the bytes of an incomplete block, so that its length is the field num. *)
Record hash_ctx := HashCtx { h : md_state; Nl : Z; Nh : Z; data : bytes }.

Definition HASH_INIT (s : md_state) : hash_ctx := HashCtx s 0 0 [].

(** The four bytes HOST_l2c writes. *)
Definition HOST_l2c (l : Z) : bytes :=
  if data_order_is_big_endian
  then [Z.land (Z.shiftr l 24) 0xff; Z.land (Z.shiftr l 16) 0xff; Z.land (Z.shiftr l 8) 0xff; Z.land l 0xff]
  else [Z.land l 0xff; Z.land (Z.shiftr l 8) 0xff; Z.land (Z.shiftr l 16) 0xff; Z.land (Z.shiftr l 24) 0xff].

(** The bit counter: the new Nl and Nh. *)
Definition count_bits (nl nh : Z) (len : Z) : Z * Z :=
  let l := Z.land (nl + u32 (Z.shiftl len 3)) 0xffffffff in
  let nh := if l <? nl then u32 (nh + 1) else nh in
  (l, u32 (nh + Z.shiftr len 29)).

(** From [n = len / HASH_CBLOCK;] on. *)
Definition absorb (s : md_state) (nl nh : Z) (input : bytes) : hash_ctx :=
  let n := (length input / HASH_CBLOCK)%nat in
  let s := if (0 <? n)%nat then HASH_BLOCK_DATA_ORDER s input n else s in
  HashCtx s nl nh (drop (n * HASH_CBLOCK) input).

Definition HASH_UPDATE (c : hash_ctx) (input : bytes) : hash_ctx :=
  match input with
  | [] => c
  | _ =>
      let '(nl, nh) := count_bits (Nl c) (Nh c) (zlen input) in
      let n := length (data c) in
      if (n =? 0)%nat then absorb (h c) nl nh input
      else if (HASH_CBLOCK <=? length input)%nat || (HASH_CBLOCK <=? length input + n)%nat then
        let s := HASH_BLOCK_DATA_ORDER (h c) (data c ++ take (HASH_CBLOCK - n) input) 1 in
        absorb s nl nh (drop (HASH_CBLOCK - n) input)
      else HashCtx (h c) nl nh (data c ++ input)
  end.

Definition HASH_TRANSFORM (c : hash_ctx) (d : bytes) : hash_ctx :=
  HashCtx (HASH_BLOCK_DATA_ORDER (h c) d 1) (Nl c) (Nh c) (data c).

(** The state from which HASH_MAKE_STRING takes the digest. *)
Definition HASH_FINAL (c : hash_ctx) : md_state :=
  let p := data c ++ [0x80] in
  let n := length p in
  let '(s, p) :=
    if (HASH_CBLOCK - 8 <? n)%nat
    then (HASH_BLOCK_DATA_ORDER (h c) (p ++ replicate (HASH_CBLOCK - n) 0) 1, [])
    else (h c, p) in
  let p := p ++ replicate (HASH_CBLOCK - 8 - length p) 0 in
  let p := p ++ (if data_order_is_big_endian then HOST_l2c (Nh c) ++ HOST_l2c (Nl c)
                 else HOST_l2c (Nl c) ++ HOST_l2c (Nh c)) in
  HASH_BLOCK_DATA_ORDER s p 1.

(** ** The reference: padding a message *)

(** Eight bytes of a 64-bit integer in the order of the hash. *)
Definition length_field (x : Z) : bytes :=
  if data_order_is_big_endian then rev (le_bytes 8 x) else le_bytes 8 x.

(** A one bit, zeros to eight bytes before the end of a block, the length in bits. *)
Definition md_padding (len : Z) : bytes :=
  0x80 :: replicate (Z.to_nat ((55 - len) mod 64)) 0 ++ length_field (8 * len mod 2 ^ 64).

Definition md_pad (msg : bytes) : bytes := msg ++ md_padding (zlen msg).

Definition md_hash (s : md_state) (msg : bytes) : md_state :=
  HASH_BLOCK_DATA_ORDER s (md_pad msg) (length (md_pad msg) / HASH_CBLOCK).

(** ** Updates *)

Context {L : Md32Laws M}.

(** What a context has absorbed. *)
Definition absorbed (s0 : md_state) (msg : bytes) (c : hash_ctx) : Prop :=
  (exists front k, msg = front ++ data c /\ length front = (k * HASH_CBLOCK)%nat /\ h c = HASH_BLOCK_DATA_ORDER s0 front k) /\
  (length (data c) < HASH_CBLOCK)%nat /\
  0 <= Nl c < 2 ^ 32 /\ 0 <= Nh c < 2 ^ 32 /\ Nh c * 2 ^ 32 + Nl c = 8 * zlen msg mod 2 ^ 64.

Lemma count_bits_spec nl nh len total :
  0 <= nl < 2 ^ 32 -> 0 <= nh < 2 ^ 32 -> nh * 2 ^ 32 + nl = 8 * total mod 2 ^ 64 -> 0 <= len < 2 ^ 32 ->
  let '(nl', nh') := count_bits nl nh len in
  0 <= nl' < 2 ^ 32 /\ 0 <= nh' < 2 ^ 32 /\ nh' * 2 ^ 32 + nl' = 8 * (total + len) mod 2 ^ 64.
Proof.
  intros Hl Hh E Hlen. unfold count_bits. change 0xffffffff with (Z.ones 32). rewrite Z.land_ones by lia.
  rewrite Z.shiftl_mul_pow2, Z.shiftr_div_pow2 by lia. unfold u32, wrap.
  change (2 ^ 3) with 8. change (2 ^ 29) with 536870912. change (2 ^ 64) with 18446744073709551616 in *.
  change (2 ^ 32) with 4294967296 in *.
  destruct (Z.ltb_spec ((nl + len * 8 mod 4294967296) mod 4294967296) nl);
    (split; [apply Z.mod_pos_bound; lia|split; [apply Z.mod_pos_bound; lia|]]); Z.to_euclidean_division_equations; lia.
Qed.

(** The counter holds the number of bits of a message modulo 2^64. *)
Definition counts (msg : bytes) (nl nh : Z) : Prop :=
  0 <= nl < 2 ^ 32 /\ 0 <= nh < 2 ^ 32 /\ nh * 2 ^ 32 + nl = 8 * zlen msg mod 2 ^ 64.

Lemma block_front s front rest k :
  length front = (k * HASH_CBLOCK)%nat -> HASH_BLOCK_DATA_ORDER s (front ++ rest) k = HASH_BLOCK_DATA_ORDER s front k.
Proof. intros Hl. rewrite <- (Nat.add_0_r k) at 1. by rewrite block_app, block_none. Qed.

Lemma absorb_absorbed s0 front k nl nh rest :
  length front = (k * HASH_CBLOCK)%nat -> counts (front ++ rest) nl nh ->
  absorbed s0 (front ++ rest) (absorb (HASH_BLOCK_DATA_ORDER s0 front k) nl nh rest).
Proof.
  intros Hf Hc. unfold absorb. set (n := (length rest / HASH_CBLOCK)%nat).
  assert (Hn : (n * HASH_CBLOCK <= length rest < n * HASH_CBLOCK + HASH_CBLOCK)%nat).
  { unfold n, HASH_CBLOCK. pose proof (Nat.div_mod_eq (length rest) 64).
    pose proof (Nat.mod_upper_bound (length rest) 64). lia. }
  split; [|split; [cbn [data]; rewrite length_drop; lia|exact Hc]]. cbn [data h].
  exists (front ++ take (n * HASH_CBLOCK) rest), (k + n)%nat.
  split; [by rewrite <- app_assoc, take_drop|]. split; [rewrite length_app, length_take; lia|].
  rewrite block_app by done. destruct (Nat.ltb_spec 0 n) as [Hpos|Hz].
  - rewrite <- (take_drop (n * HASH_CBLOCK) rest) at 1. apply block_front. rewrite length_take. lia.
  - replace n with 0%nat by lia. by rewrite block_none.
Qed.

Lemma update_absorbed s0 msg c input :
  absorbed s0 msg c -> zlen input < 2 ^ 32 -> absorbed s0 (msg ++ input) (HASH_UPDATE c input).
Proof.
  intros Habs Hlen. destruct input as [|x input']; [by rewrite app_nil_r|].
  destruct Habs as ((front & k & -> & Hf & Hh) & Hd & Hnl & Hnh & Hcount).
  unfold HASH_UPDATE. set (input := x :: input') in *.
  pose proof (count_bits_spec (Nl c) (Nh c) (zlen input) (zlen (front ++ data c)) Hnl Hnh Hcount
    ltac:(split; [apply zlen_nonneg|done])) as Hc.
  destruct (count_bits (Nl c) (Nh c) (zlen input)) as [nl nh]. rewrite <- zlen_app in Hc.
  destruct (Nat.eqb_spec (length (data c)) 0) as [Hz|Hz].
  { apply nil_length_inv in Hz. rewrite Hz, app_nil_r in *. rewrite Hh. by apply absorb_absorbed. }
  rewrite <- app_assoc in *. destruct ((HASH_CBLOCK <=? length input)%nat || _) eqn:Efull.
  - assert (Hfull : (HASH_CBLOCK <= length input + length (data c))%nat).
    { apply orb_true_iff in Efull as [E|E]; apply Nat.leb_le in E; lia. }
    set (m := (HASH_CBLOCK - length (data c))%nat) in *.
    assert (Hb : length (data c ++ take m input) = (1 * HASH_CBLOCK)%nat) by (rewrite length_app, length_take; lia).
    rewrite Hh. rewrite <- (block_app s0 front _ k 1) by done.
    replace (front ++ data c ++ input) with ((front ++ data c ++ take m input) ++ drop m input) in *
      by (by rewrite <- !app_assoc, take_drop).
    apply absorb_absorbed; [rewrite length_app, Hb, Hf; lia|exact Hc].
  - apply orb_false_iff in Efull as [_ E]. apply Nat.leb_gt in E.
    split; [|split; [cbn [data]; rewrite length_app; lia|exact Hc]]. cbn [data h]. by exists front, k.
Qed.

Lemma init_absorbed s0 : absorbed s0 [] (HASH_INIT s0).
Proof.
  split_and!; try done; [|simpl; unfold HASH_CBLOCK; lia]. exists [], 0%nat. by rewrite block_none.
Qed.

(** ** The last block *)

Lemma length_field_words nl nh : 0 <= nl < 2 ^ 32 ->
  length_field (nh * 2 ^ 32 + nl) =
    if data_order_is_big_endian then HOST_l2c nh ++ HOST_l2c nl else HOST_l2c nl ++ HOST_l2c nh.
Proof.
  intros Hl. unfold length_field, HOST_l2c. rewrite (le_bytes_app 4 4) by done. rewrite !le_bytes_4.
  by destruct data_order_is_big_endian.
Qed.

Lemma length_HOST_l2c l : length (HOST_l2c l) = 4%nat.
Proof. unfold HOST_l2c. by destruct data_order_is_big_endian. Qed.

Lemma final_absorbed s0 msg c : absorbed s0 msg c -> HASH_FINAL c = md_hash s0 msg.
Proof.
  intros ((front & k & Emsg & Hf & Hh) & Hd & Hnl & Hnh & Hcount).
  unfold HASH_FINAL, md_hash, md_pad, md_padding. rewrite <- Hcount. rewrite length_field_words by done.
  set (w := if data_order_is_big_endian then _ else _).
  assert (Hw : length w = 8%nat) by (unfold w; destruct data_order_is_big_endian; rewrite length_app, !length_HOST_l2c; done).
  assert (Hmsg : zlen msg mod 64 = zlen (data c)).
  { rewrite Emsg, zlen_app. unfold zlen at 1. rewrite Hf. unfold HASH_CBLOCK in *.
    rewrite Nat2Z.inj_mul, Z.add_comm, Z.mod_add by lia. apply Z.mod_small. unfold zlen. lia. }
  set (z := Z.to_nat ((55 - zlen msg) mod 64)).
  assert (Hz : z = if (length (data c) <=? 55)%nat then (55 - length (data c))%nat else (119 - length (data c))%nat).
  { unfold z, zlen, HASH_CBLOCK in *. destruct (Nat.leb_spec (length (data c)) 55); Z.to_euclidean_division_equations; lia. }
  rewrite Emsg, Hh. rewrite <- (app_assoc front), (length_app front), Hf.
  unfold HASH_CBLOCK in *. rewrite (length_app (data c) [_]). cbn [length]. rewrite Nat.add_1_r.
  assert (Hlast : forall p j, length p = (j * 64)%nat ->
    HASH_BLOCK_DATA_ORDER s0 (front ++ p) ((k * 64 + length p) / 64) = HASH_BLOCK_DATA_ORDER (HASH_BLOCK_DATA_ORDER s0 front k) p j).
  { intros p j Hp. rewrite Hp. replace (k * 64 + j * 64)%nat with ((k + j) * 64)%nat by lia. rewrite Nat.div_mul by lia.
    by apply block_app. }
  destruct (Nat.leb_spec (length (data c)) 55) as [Hs|Hs].
  - rewrite (proj2 (Nat.ltb_ge _ _)) by lia. rewrite length_app. cbn [length]. rewrite (Hlast _ 1%nat).
    + f_equal. rewrite <- !app_assoc. cbn [app]. do 4 f_equal. lia.
    + rewrite length_app. cbn [length]. rewrite length_app, length_replicate, Hw. lia.
  - rewrite (proj2 (Nat.ltb_lt _ _)) by lia. rewrite (Hlast _ 2%nat).
    + assert (Eb : data c ++ 0x80 :: replicate z 0 ++ w =
        (((data c ++ [0x80]) ++ replicate (64 - S (length (data c))) 0) ++ ([] ++ replicate (64 - 8 - 0) 0) ++ w)).
      { rewrite <- !app_assoc. cbn [app]. do 2 f_equal. rewrite app_assoc, <- replicate_add. do 2 f_equal. lia. }
      rewrite Eb. rewrite (block_app _ _ _ 1 1); [done|].
      rewrite !length_app, length_replicate. unfold HASH_CBLOCK. simpl. lia.
    + rewrite length_app. cbn [length]. rewrite length_app, length_replicate, Hw. lia.
Qed.

Lemma updates_absorbed s0 msg c chunks :
  absorbed s0 msg c -> Forall (fun x => zlen x < 2 ^ 32) chunks ->
  absorbed s0 (msg ++ concat chunks) (fold_left HASH_UPDATE chunks c).
Proof.
  intros Hc Hs. revert msg c Hc. induction Hs as [|x chunks Hx _ IH]; intros msg c Hc; cbn [concat fold_left].
  - by rewrite app_nil_r.
  - rewrite app_assoc. apply IH. by apply update_absorbed.
Qed.

Lemma md_pad_length msg : exists k, length (md_pad msg) = (k * HASH_CBLOCK)%nat.
Proof.
  assert (Hf : forall x, length (length_field x) = 8%nat).
  { intros x. unfold length_field. destruct data_order_is_big_endian; [rewrite length_rev|]; done. }
  unfold md_pad, md_padding. rewrite length_app. cbn [length]. rewrite length_app, length_replicate, Hf.
  exists (Z.to_nat ((zlen msg + 72) / 64)). unfold HASH_CBLOCK, zlen. Z.to_euclidean_division_equations. lia.
Qed.

Lemma md_pad_ok msg : bytes_ok msg -> bytes_ok (md_pad msg).
Proof.
  intros Hm. apply Forall_app. split; [done|]. constructor; [by unfold byte_ok|]. apply Forall_app. split.
  - apply Forall_replicate. by unfold byte_ok.
  - unfold length_field. destruct data_order_is_big_endian; [apply Forall_rev|]; apply le_bytes_ok.
Qed.

(** However the message arrives, the state at the end is that of the padded message. *)
Lemma hash_in_pieces s0 chunks :
  Forall (fun x => zlen x < 2 ^ 32) chunks ->
  HASH_FINAL (fold_left HASH_UPDATE chunks (HASH_INIT s0)) = md_hash s0 (concat chunks).
Proof. intros Hc. apply final_absorbed. by apply (updates_absorbed s0 []), Hc; apply init_absorbed. Qed.
End md32.
