(* ===== verification/Sha256.v ===== *)
(** * SHA-224 and SHA-256 (crypto/sha/sha256.c)

    The block function in its two forms - the loop compiled for a small footprint
    and the unrolled one, in which the eight registers keep their places and the
    names rotate - with the message schedule in a ring of 16 words, and the
    initial states; the rest comes from md32_common.h.  Both forms are shown to be
    the hash of FIPS 180-4. *)

From S2P Require Import Prelude Words Md32.

(** The rows of the table. *)
Definition K256 : list Z := concat [
  [0x428a2f98; 0x71374491; 0xb5c0fbcf; 0xe9b5dba5];
  [0x3956c25b; 0x59f111f1; 0x923f82a4; 0xab1c5ed5];
  [0xd807aa98; 0x12835b01; 0x243185be; 0x550c7dc3];
  [0x72be5d74; 0x80deb1fe; 0x9bdc06a7; 0xc19bf174];
  [0xe49b69c1; 0xefbe4786; 0x0fc19dc6; 0x240ca1cc];
  [0x2de92c6f; 0x4a7484aa; 0x5cb0a9dc; 0x76f988da];
  [0x983e5152; 0xa831c66d; 0xb00327c8; 0xbf597fc7];
  [0xc6e00bf3; 0xd5a79147; 0x06ca6351; 0x14292967];
  [0x27b70a85; 0x2e1b2138; 0x4d2c6dfc; 0x53380d13];
  [0x650a7354; 0x766a0abb; 0x81c2c92e; 0x92722c85];
  [0xa2bfe8a1; 0xa81a664b; 0xc24b8b70; 0xc76c51a3];
  [0xd192e819; 0xd6990624; 0xf40e3585; 0x106aa070];
  [0x19a4c116; 0x1e376c08; 0x2748774c; 0x34b0bcb5];
  [0x391c0cb3; 0x4ed8aa4a; 0x5b9cca4f; 0x682e6ff3];
  [0x748f82ee; 0x78a5636f; 0x84c87814; 0x8cc70208];
  [0x90befffa; 0xa4506ceb; 0xbef9a3f7; 0xc67178f2]
].

Definition ROTATE (a n : Z) : Z := Z.lor (u32 (Z.shiftl a n)) (Z.shiftr (Z.land a 0xffffffff) (32 - n)).
Definition Sigma0 (x : Z) : Z := ROTATE x 30 ⊕ ROTATE x 19 ⊕ ROTATE x 10.
Definition Sigma1 (x : Z) : Z := ROTATE x 26 ⊕ ROTATE x 21 ⊕ ROTATE x 7.
Definition sigma0 (x : Z) : Z := ROTATE x 25 ⊕ ROTATE x 14 ⊕ Z.shiftr x 3.
Definition sigma1 (x : Z) : Z := ROTATE x 15 ⊕ ROTATE x 13 ⊕ Z.shiftr x 10.
Definition Ch (x y z : Z) : Z := Z.land x y ⊕ Z.land (Z.lnot x) z.
Definition Maj (x y z : Z) : Z := Z.land x y ⊕ Z.land x z ⊕ Z.land y z.

(** The word at a position of the input. *)
Definition HOST_c2l (c : bytes) : Z :=
  Z.lor (Z.lor (Z.lor (Z.shiftl (nth 0 c 0) 24) (Z.shiftl (nth 1 c 0) 16)) (Z.shiftl (nth 2 c 0) 8)) (nth 3 c 0).

Definition word_at (l : list Z) (i : nat) : Z := nth i l 0.

(** ** The unrolled form *)

(** The registers a to h, by their place. *)
Notation registers := (list Z).
Definition ra : nat := 0.
Definition rb : nat := 1.
Definition rc : nat := 2.
Definition rd : nat := 3.
Definition re : nat := 4.
Definition rf : nat := 5.
Definition rg : nat := 6.
Definition rh : nat := 7.

(** The macro, with the registers that stand for its parameters. *)
Definition ROUND_00_15 (i : nat) (a b c d e f g h : nat) (T1 : Z) (r : registers) : registers :=
  let T1 := u32 (T1 + (word_at r h + Sigma1 (word_at r e) + Ch (word_at r e) (word_at r f) (word_at r g) + word_at K256 i)) in
  let r := <[h := u32 (Sigma0 (word_at r a) + Maj (word_at r a) (word_at r b) (word_at r c))]> r in
  let r := <[d := u32 (word_at r d + T1)]> r in
  <[h := u32 (word_at r h + T1)]> r.

(** [X[(i)&0x0f] += s0 + s1 + X[(i+9)&0x0f]] for the step [i]. *)
Definition schedule_step (i : nat) (X : list Z) : list Z :=
  let s0 := sigma0 (word_at X ((i + 1) mod 16)) in
  let s1 := sigma1 (word_at X ((i + 14) mod 16)) in
  <[(i mod 16)%nat := u32 (word_at X (i mod 16) + (s0 + s1 + word_at X ((i + 9) mod 16)))]> X.

Definition ROUND_16_63 (i : nat) (a b c d e f g h : nat) (s : list Z * registers) : list Z * registers :=
  let X := schedule_step i s.1 in
  (X, ROUND_00_15 i a b c d e f g h (word_at X (i mod 16)) s.2).

(** The first 16 words, read from the input or, in the other branch, in place. *)
Definition load_block (input : bytes) : list Z := map (fun i => HOST_c2l (drop (4 * i) input)) (seq 0 16).

Definition rounds_00_15 (X : list Z) (r : registers) : registers :=
  let r := ROUND_00_15 0 ra rb rc rd re rf rg rh (word_at X 0) r in
  let r := ROUND_00_15 1 rh ra rb rc rd re rf rg (word_at X 1) r in
  let r := ROUND_00_15 2 rg rh ra rb rc rd re rf (word_at X 2) r in
  let r := ROUND_00_15 3 rf rg rh ra rb rc rd re (word_at X 3) r in
  let r := ROUND_00_15 4 re rf rg rh ra rb rc rd (word_at X 4) r in
  let r := ROUND_00_15 5 rd re rf rg rh ra rb rc (word_at X 5) r in
  let r := ROUND_00_15 6 rc rd re rf rg rh ra rb (word_at X 6) r in
  let r := ROUND_00_15 7 rb rc rd re rf rg rh ra (word_at X 7) r in
  let r := ROUND_00_15 8 ra rb rc rd re rf rg rh (word_at X 8) r in
  let r := ROUND_00_15 9 rh ra rb rc rd re rf rg (word_at X 9) r in
  let r := ROUND_00_15 10 rg rh ra rb rc rd re rf (word_at X 10) r in
  let r := ROUND_00_15 11 rf rg rh ra rb rc rd re (word_at X 11) r in
  let r := ROUND_00_15 12 re rf rg rh ra rb rc rd (word_at X 12) r in
  let r := ROUND_00_15 13 rd re rf rg rh ra rb rc (word_at X 13) r in
  let r := ROUND_00_15 14 rc rd re rf rg rh ra rb (word_at X 14) r in
  let r := ROUND_00_15 15 rb rc rd re rf rg rh ra (word_at X 15) r in
  r.

(** The body of [for (i = 16; i < 64; i += 8)]. *)
Definition eight_rounds (i : nat) (s : list Z * registers) : list Z * registers :=
  let s := ROUND_16_63 (i + 0) ra rb rc rd re rf rg rh s in
  let s := ROUND_16_63 (i + 1) rh ra rb rc rd re rf rg s in
  let s := ROUND_16_63 (i + 2) rg rh ra rb rc rd re rf s in
  let s := ROUND_16_63 (i + 3) rf rg rh ra rb rc rd re s in
  let s := ROUND_16_63 (i + 4) re rf rg rh ra rb rc rd s in
  let s := ROUND_16_63 (i + 5) rd re rf rg rh ra rb rc s in
  let s := ROUND_16_63 (i + 6) rc rd re rf rg rh ra rb s in
  let s := ROUND_16_63 (i + 7) rb rc rd re rf rg rh ra s in
  s.

(** [ctx->h[0] += a; ...]. *)
Definition add_registers (h r : list Z) : list Z := zip_with (fun x y => u32 (x + y)) h r.

Definition sha256_block (h : list Z) (input : bytes) : list Z :=
  let X := load_block input in
  let r := rounds_00_15 X h in
  let s := fold_left (fun s i => eight_rounds i s) [16; 24; 32; 40; 48; 56]%nat (X, r) in
  add_registers h s.2.

(** [while (num--)]. *)
Fixpoint sha256_block_data_order (num : nat) (h : list Z) (input : bytes) : list Z :=
  match num with
  | O => h
  | S num' => sha256_block_data_order num' (sha256_block h input) (drop HASH_CBLOCK input)
  end.

(** ** The form for a small footprint *)

(** The assignments at the end of both loop bodies, given T1. *)
Definition small_round (i : nat) (T1 : Z) (r : registers) : registers :=
  match r with
  | [a; b; c; d; e; f; g; h] =>
      let T1 := u32 (T1 + (h + Sigma1 e + Ch e f g + word_at K256 i)) in
      let T2 := u32 (Sigma0 a + Maj a b c) in
      [u32 (T1 + T2); a; b; c; u32 (d + T1); e; f; g]
  | _ => r
  end.

Definition small_step (s : list Z * registers) (i : nat) : list Z * registers :=
  if (i <? 16)%nat then (s.1, small_round i (word_at s.1 i) s.2)
  else
    let X := schedule_step i s.1 in
    (X, small_round i (word_at X (i mod 16)) s.2).

Definition sha256_block_small (h : list Z) (input : bytes) : list Z :=
  let s := fold_left small_step (seq 0 64) (load_block input, h) in
  add_registers h s.2.

(** ** The contexts *)

Record sha256_state := Sha256State { hs : list Z; md_len : Z }.

#[export] Instance Sha256 : Md32 := {|
  md_state := sha256_state;
  HASH_BLOCK_DATA_ORDER := fun s d n => Sha256State (sha256_block_data_order n (hs s) d) (md_len s);
  data_order_is_big_endian := true
|}.

Definition SHA224_Init : hash_ctx := HASH_INIT (Sha256State
  [0xc1059ed8; 0x367cd507; 0x3070dd17; 0xf70e5939; 0xffc00b31; 0x68581511; 0x64f98fa7; 0xbefa4fa4] 28).
Definition SHA256_Init : hash_ctx := HASH_INIT (Sha256State
  [0x6a09e667; 0xbb67ae85; 0x3c6ef372; 0xa54ff53a; 0x510e527f; 0x9b05688c; 0x1f83d9ab; 0x5be0cd19] 32).
Definition ossl_sha256_192_init : hash_ctx :=
  let s := Md32.h SHA256_Init in
  HashCtx (Sha256State (hs s) 24) (Nl SHA256_Init) (Nh SHA256_Init) (data SHA256_Init).

Definition SHA256_Update (c : hash_ctx) (input : bytes) : hash_ctx := HASH_UPDATE c input.
Definition SHA224_Update (c : hash_ctx) (input : bytes) : hash_ctx := SHA256_Update c input.
Definition SHA256_Transform (c : hash_ctx) (input : bytes) : hash_ctx := HASH_TRANSFORM c input.

(** The digest, or [None] for the return value 0. *)
Definition HASH_MAKE_STRING (s : sha256_state) : option bytes :=
  let first n := concat (map HOST_l2c (take n (hs s))) in
  if md_len s =? 24 then Some (first 6%nat)
  else if md_len s =? 28 then Some (first 7%nat)
  else if md_len s =? 32 then Some (first 8%nat)
  else if 32 <? md_len s then None
  else Some (first (Z.to_nat (md_len s / 4))).

Definition SHA256_Final (c : hash_ctx) : option bytes := HASH_MAKE_STRING (HASH_FINAL c).
Definition SHA224_Final (c : hash_ctx) : option bytes := SHA256_Final c.

Definition hex_byte (x : Z) : bytes :=
  let digit d := if d <? 10 then 48 + d else 87 + d in [digit (x / 16); digit (x mod 16)].
Definition hex (b : bytes) : bytes := concat (map hex_byte b).

Example sha256_abc :
  hex <$> SHA256_Final (SHA256_Update SHA256_Init (bs "abc")) =
    Some (bs "ba7816bf8f01cfea414140de5dae2223b00361a396177a9cb410ff61f20015ad").
Proof. vm_compute. reflexivity. Qed.

Example sha224_two_blocks :
  hex <$> SHA224_Final (SHA224_Update SHA224_Init (bs "abcdbcdecdefdefgefghfghighijhijkijkljklmklmnlmnomnopnopq")) =
    Some (bs "75388b16512776cc5dba5da1fd890150b0c6455cb4f58b1952522525").
Proof. vm_compute. reflexivity. Qed.

(** ** The hash of FIPS 180-4 *)

(** Words are integers modulo 2^32. *)
Definition ROTR (n x : Z) : Z := Z.lor (Z.shiftr (u32 x) n) (u32 (Z.shiftl x (32 - n))).
Definition SHR (n x : Z) : Z := Z.shiftr x n.
Definition big_sigma0 (x : Z) : Z := ROTR 2 x ⊕ ROTR 13 x ⊕ ROTR 22 x.
Definition big_sigma1 (x : Z) : Z := ROTR 6 x ⊕ ROTR 11 x ⊕ ROTR 25 x.
Definition small_sigma0 (x : Z) : Z := ROTR 7 x ⊕ ROTR 18 x ⊕ SHR 3 x.
Definition small_sigma1 (x : Z) : Z := ROTR 17 x ⊕ ROTR 19 x ⊕ SHR 10 x.

(** The first [16 + n] words of the message schedule. *)
Fixpoint fips_schedule (n : nat) (M : list Z) : list Z :=
  match n with
  | O => M
  | S n' =>
      let W := fips_schedule n' M in
      W ++ [u32 (small_sigma1 (word_at W (14 + n')) + word_at W (9 + n') +
                 small_sigma0 (word_at W (1 + n')) + word_at W n')]
  end.

Definition fips_round (K W : Z) (r : list Z) : list Z :=
  match r with
  | [a; b; c; d; e; f; g; h] =>
      let T1 := u32 (h + big_sigma1 e + Ch e f g + K + W) in
      let T2 := u32 (big_sigma0 a + Maj a b c) in
      [u32 (T1 + T2); a; b; c; u32 (d + T1); e; f; g]
  | _ => r
  end.

(** The words of a block, most significant byte first. *)
Definition be32 (b : bytes) : Z := fold_left (fun v x => v * 256 + x) b 0.
Definition fips_words (block : bytes) : list Z := map (fun i => be32 (take 4 (drop (4 * i) block))) (seq 0 16).

(** The constants: the first 32 bits of the fractional parts of the cube roots of the
    first 64 primes, and of the square roots of the first 8; for SHA-224 the
    second 32 bits of the square roots of the next 8. *)
Definition is_prime (p : Z) : bool := forallb (fun d => negb (p mod d =? 0)) (map Z.of_nat (seq 2 (Z.to_nat p - 2))).
Definition primes (a n : nat) : list Z := List.filter is_prime (map Z.of_nat (seq a n)).

(** The cube root of [x], rounded down, from [r] and the bits below [n]. *)
Fixpoint cube_root (n : nat) (r x : Z) : Z :=
  match n with
  | O => r
  | S n' =>
      let r' := r + 2 ^ Z.of_nat n' in
      cube_root n' (if r' ^ 3 <=? x then r' else r) x
  end.

Definition fips_K : list Z := map (fun p => cube_root 36 0 (p * 2 ^ 96) mod 2 ^ 32) (primes 2 310).
Definition fips_H256 : list Z := map (fun p => Z.sqrt (p * 2 ^ 64) mod 2 ^ 32) (primes 2 18).
Definition fips_H224 : list Z := map (fun p => Z.sqrt (p * 2 ^ 128) mod 2 ^ 32) (primes 20 34).

Definition fips_compress (H : list Z) (block : bytes) : list Z :=
  let W := fips_schedule 48 (fips_words block) in
  add_registers H (fold_left (fun r t => fips_round (word_at fips_K t) (word_at W t) r) (seq 0 64) H).

(** The hash of the padded message; FIPS 180-4 defines it below 2^64 bits. *)
Definition fips_sha256 (H : list Z) (msg : bytes) : list Z :=
  fold_left fips_compress (pieces (length (md_pad msg)) 64 (md_pad msg)) H.

(** ** The two forms of the block function *)

Lemma fips_K_table : fips_K = K256.
Proof. vm_compute. reflexivity. Qed.

Lemma ROTATE_ROTR n x : ROTATE x (32 - n) = ROTR n x.
Proof.
  unfold ROTATE, ROTR. rewrite Z.lor_comm. change 0xffffffff with (Z.ones 32). rewrite Z.land_ones by lia.
  by replace (32 - (32 - n)) with n by lia.
Qed.

Lemma sigmas x : Sigma0 x = big_sigma0 x /\ Sigma1 x = big_sigma1 x /\ sigma0 x = small_sigma0 x /\ sigma1 x = small_sigma1 x.
Proof.
  unfold Sigma0, Sigma1, sigma0, sigma1, big_sigma0, big_sigma1, small_sigma0, small_sigma1.
  by rewrite <- !ROTATE_ROTR.
Qed.

Lemma small_round_fips i w r : small_round i w r = fips_round (word_at K256 i) w r.
Proof.
  destruct r as [|a [|b [|c [|d [|e [|f [|g [|h [|]]]]]]]]]; try done. cbn [small_round fips_round].
  destruct (sigmas a) as (-> & _). destruct (sigmas e) as (_ & -> & _).
  replace (w + (h + big_sigma1 e + Ch e f g + word_at K256 i)) with
    (h + big_sigma1 e + Ch e f g + word_at K256 i + w) by ring. done.
Qed.

(** The registers in the order in which round [k] of eight names them. *)
Definition place (k j : nat) : nat := ((j + 8 - k) mod 8)%nat.
Definition view (k : nat) (r : registers) : registers := map (fun j => word_at r (place k j)) (seq 0 8).

Definition round_at (k i : nat) (T1 : Z) (r : registers) : registers :=
  ROUND_00_15 i (place k 0) (place k 1) (place k 2) (place k 3) (place k 4) (place k 5) (place k 6) (place k 7) T1 r.

Lemma round_at_length k i w r : length (round_at k i w r) = length r.
Proof. unfold round_at, ROUND_00_15. cbv zeta. by rewrite !length_insert. Qed.

Lemma round_at_view k i w r :
  (k < 8)%nat -> length r = 8%nat -> view (S k) (round_at k i w r) = small_round i w (view k r).
Proof.
  intros Hk Hr. destruct r as [|x0 [|x1 [|x2 [|x3 [|x4 [|x5 [|x6 [|x7 [|]]]]]]]]]; try done.
  assert (Hadd : forall x y, u32 (x + y) = u32 (y + x)) by (intros x y; by rewrite Z.add_comm).
  do 8 (destruct k as [|k]; [cbn -[u32 Sigma0 Sigma1 Ch Maj K256 word_at Z.add];
    cbv [word_at nth]; repeat (f_equal; try apply Hadd)|]). lia.
Qed.

Definition vs (k : nat) (s : list Z * registers) : list Z * registers := (s.1, view k s.2).

Definition step_at (k i : nat) (s : list Z * registers) : list Z * registers :=
  let X := schedule_step i s.1 in (X, round_at k i (word_at X (i mod 16)) s.2).

Lemma step_at_view k i s :
  (k < 8)%nat -> (16 <= i)%nat -> length s.2 = 8%nat ->
  vs (S k) (step_at k i s) = small_step (vs k s) i /\ length (step_at k i s).2 = 8%nat.
Proof.
  intros Hk Hi Hs. unfold step_at, vs, small_step. cbn [fst snd]. rewrite (proj2 (Nat.ltb_ge _ _)) by done.
  by rewrite round_at_view, round_at_length.
Qed.

Lemma rounds_at i w r :
  ROUND_00_15 i ra rb rc rd re rf rg rh w r = round_at 0 i w r /\
  ROUND_00_15 i rh ra rb rc rd re rf rg w r = round_at 1 i w r /\
  ROUND_00_15 i rg rh ra rb rc rd re rf w r = round_at 2 i w r /\
  ROUND_00_15 i rf rg rh ra rb rc rd re w r = round_at 3 i w r /\
  ROUND_00_15 i re rf rg rh ra rb rc rd w r = round_at 4 i w r /\
  ROUND_00_15 i rd re rf rg rh ra rb rc w r = round_at 5 i w r /\
  ROUND_00_15 i rc rd re rf rg rh ra rb w r = round_at 6 i w r /\
  ROUND_00_15 i rb rc rd re rf rg rh ra w r = round_at 7 i w r.
Proof. by split_and!. Qed.

Lemma steps_at i s :
  ROUND_16_63 i ra rb rc rd re rf rg rh s = step_at 0 i s /\
  ROUND_16_63 i rh ra rb rc rd re rf rg s = step_at 1 i s /\
  ROUND_16_63 i rg rh ra rb rc rd re rf s = step_at 2 i s /\
  ROUND_16_63 i rf rg rh ra rb rc rd re s = step_at 3 i s /\
  ROUND_16_63 i re rf rg rh ra rb rc rd s = step_at 4 i s /\
  ROUND_16_63 i rd re rf rg rh ra rb rc s = step_at 5 i s /\
  ROUND_16_63 i rc rd re rf rg rh ra rb s = step_at 6 i s /\
  ROUND_16_63 i rb rc rd re rf rg rh ra s = step_at 7 i s.
Proof. by split_and!. Qed.

Lemma view_8 r : view 8 r = view 0 r.
Proof. done. Qed.

Lemma vs_8 s : vs 8 s = vs 0 s.
Proof. done. Qed.

Lemma eight_rounds_view i s :
  (16 <= i)%nat -> length s.2 = 8%nat ->
  vs 0 (eight_rounds i s) = fold_left small_step (seq i 8) (vs 0 s) /\ length (eight_rounds i s).2 = 8%nat.
Proof.
  intros Hi Hs. unfold eight_rounds. cbv zeta.
  destruct (step_at_view 0 (i + 0) s ltac:(lia) ltac:(lia) Hs) as [E0 L0].
  rewrite (proj1 (steps_at _ s)). set (s0 := step_at 0 _ s) in *. clearbody s0.
  destruct (step_at_view 1 (i + 1) s0 ltac:(lia) ltac:(lia) L0) as [E1 L1].
  rewrite (proj1 (proj2 (steps_at _ s0))). set (s1 := step_at 1 _ s0) in *. clearbody s1.
  destruct (step_at_view 2 (i + 2) s1 ltac:(lia) ltac:(lia) L1) as [E2 L2].
  rewrite (proj1 (proj2 (proj2 (steps_at _ s1)))). set (s2 := step_at 2 _ s1) in *. clearbody s2.
  destruct (step_at_view 3 (i + 3) s2 ltac:(lia) ltac:(lia) L2) as [E3 L3].
  rewrite (proj1 (proj2 (proj2 (proj2 (steps_at _ s2))))). set (s3 := step_at 3 _ s2) in *. clearbody s3.
  destruct (step_at_view 4 (i + 4) s3 ltac:(lia) ltac:(lia) L3) as [E4 L4].
  rewrite (proj1 (proj2 (proj2 (proj2 (proj2 (steps_at _ s3)))))). set (s4 := step_at 4 _ s3) in *. clearbody s4.
  destruct (step_at_view 5 (i + 5) s4 ltac:(lia) ltac:(lia) L4) as [E5 L5].
  rewrite (proj1 (proj2 (proj2 (proj2 (proj2 (proj2 (steps_at _ s4))))))). set (s5 := step_at 5 _ s4) in *. clearbody s5.
  destruct (step_at_view 6 (i + 6) s5 ltac:(lia) ltac:(lia) L5) as [E6 L6].
  rewrite (proj1 (proj2 (proj2 (proj2 (proj2 (proj2 (proj2 (steps_at _ s5)))))))). set (s6 := step_at 6 _ s5) in *. clearbody s6.
  destruct (step_at_view 7 (i + 7) s6 ltac:(lia) ltac:(lia) L6) as [E7 L7].
  rewrite ((proj2 (proj2 (proj2 (proj2 (proj2 (proj2 (proj2 (steps_at _ s6))))))))). set (s7 := step_at 7 _ s6) in *. clearbody s7.
  split; [|done]. rewrite <- vs_8, E7, E6, E5, E4, E3, E2, E1, E0. cbn [seq fold_left].
  replace (i + 0)%nat with i by lia. do 7 f_equal; lia.
Qed.

Lemma first_rounds_at X r :
  rounds_00_15 X r =
    fold_left (fun r k => round_at k (8 + k) (word_at X (8 + k)) r) (seq 0 8)
      (fold_left (fun r k => round_at k (0 + k) (word_at X (0 + k)) r) (seq 0 8) r).
Proof.
  unfold rounds_00_15. cbv zeta.
  rewrite !(proj1 (rounds_at _ _ _)).
  rewrite !(proj1 (proj2 (rounds_at _ _ _))).
  rewrite !(proj1 (proj2 (proj2 (rounds_at _ _ _)))).
  rewrite !(proj1 (proj2 (proj2 (proj2 (rounds_at _ _ _))))).
  rewrite !(proj1 (proj2 (proj2 (proj2 (proj2 (rounds_at _ _ _)))))).
  rewrite !(proj1 (proj2 (proj2 (proj2 (proj2 (proj2 (rounds_at _ _ _))))))).
  rewrite !(proj1 (proj2 (proj2 (proj2 (proj2 (proj2 (proj2 (rounds_at _ _ _)))))))).
  rewrite !((proj2 (proj2 (proj2 (proj2 (proj2 (proj2 (proj2 (rounds_at _ _ _))))))))).
  cbn [seq fold_left Nat.add]. done.
Qed.

Lemma first_rounds_view X r :
  length r = 8%nat ->
  (X, view 0 (rounds_00_15 X r)) = fold_left small_step (seq 0 16) (X, view 0 r) /\ length (rounds_00_15 X r) = 8%nat.
Proof.
  intros Hr.
  assert (Hgo : forall n r, length r = 8%nat -> (n <= 8)%nat -> forall i, (i + n <= 16)%nat ->
    let r' := fold_left (fun r k => round_at k (i + k) (word_at X (i + k)) r) (seq 0 n) r in
    (X, view n r') = fold_left small_step (seq i n) (X, view 0 r) /\ length r' = 8%nat).
  { clear r Hr. intros n r Hr. induction n as [|n IH]; intros Hn i Hi; [done|].
    rewrite !seq_S, !fold_left_app. cbv zeta. cbn [fold_left Nat.add]. destruct (IH ltac:(lia) i ltac:(lia)) as [E L].
    rewrite <- E, round_at_view, round_at_length by (done || lia). split; [|done].
    unfold small_step. cbn [fst snd]. by rewrite (proj2 (Nat.ltb_lt _ _)) by lia. }
  destruct (Hgo 8%nat r Hr ltac:(lia) 0%nat ltac:(lia)) as [E0 L0].
  set (r1 := fold_left _ (seq 0 8) r) in *.
  destruct (Hgo 8%nat r1 L0 ltac:(lia) 8%nat ltac:(lia)) as [E1 L1].
  set (r2 := fold_left _ (seq 0 8) r1) in *. rewrite view_8 in *.
  assert (Hr2 : rounds_00_15 X r = r2).
  { apply first_rounds_at. }
  rewrite Hr2. split; [|done]. rewrite E1, E0. by rewrite <- fold_left_app.
Qed.

Lemma view_0 r : length r = 8%nat -> view 0 r = r.
Proof. by destruct r as [|? [|? [|? [|? [|? [|? [|? [|? [|]]]]]]]]]. Qed.

(** The unrolled form is the loop. *)
Lemma sha256_block_forms h input : length h = 8%nat -> sha256_block h input = sha256_block_small h input.
Proof.
  intros Hh. unfold sha256_block, sha256_block_small. cbv zeta. set (X := load_block input). clearbody X.
  destruct (first_rounds_view X h Hh) as [E L]. rewrite (view_0 h Hh) in E.
  revert E L. generalize (rounds_00_15 X h) as r0. intros r0 E L. set (s0 := (X, r0)).
  change (vs 0 s0 = fold_left small_step (seq 0 16) (X, h)) in E.
  change (length s0.2 = 8%nat) in L. clearbody s0. f_equal.
  assert (Hgo : forall l s n, length s.2 = 8%nat -> l = map (fun k => 16 + 8 * k)%nat (seq n (length l)) ->
    vs 0 (fold_left (fun s i => eight_rounds i s) l s) = fold_left small_step (seq (16 + 8 * n) (8 * length l)) (vs 0 s) /\
    length (fold_left (fun s i => eight_rounds i s) l s).2 = 8%nat).
  { induction l as [|i l IH]; intros s n Hs Hl; [done|]. cbn [length seq map] in Hl. injection Hl as Ei El.
    cbn [fold_left length]. destruct (eight_rounds_view i s ltac:(lia) Hs) as [E1 L1].
    destruct (IH (eight_rounds i s) (S n) L1 El) as [E2 L2]. split; [|exact L2]. rewrite E2, E1, Ei.
    replace (8 * S (length l))%nat with (8 + 8 * length l)%nat by lia. rewrite seq_app, fold_left_app.
    by replace (16 + 8 * n + 8)%nat with (16 + 8 * S n)%nat by lia. }
  assert (Hl : [16; 24; 32; 40; 48; 56]%nat = map (fun k => 16 + 8 * k)%nat (seq 0 6)) by done.
  pose proof (Hgo [16; 24; 32; 40; 48; 56]%nat s0 0%nat L Hl) as [E' L']. clear Hl Hgo.
  revert E' L'. generalize (fold_left (fun s i => eight_rounds i s) [16; 24; 32; 40; 48; 56]%nat s0). intros s' E' L'.
  change (seq 0 64) with (seq 0 16 ++ seq 16 48). rewrite fold_left_app, <- E.
  change (seq 16 48) with (seq (16 + 8 * 0) (8 * length [16; 24; 32; 40; 48; 56]%nat)). rewrite <- E'.
  cbn [vs snd]. by rewrite view_0.
Qed.

(** The schedule grows at its end. *)
Lemma fips_schedule_length n M : length (fips_schedule n M) = (length M + n)%nat.
Proof. induction n as [|n IH]; [simpl; lia|]. cbn [fips_schedule]. rewrite length_app, IH. simpl. lia. Qed.

Lemma fips_schedule_prefix n m M i :
  (n <= m)%nat -> (i < length M + n)%nat -> word_at (fips_schedule m M) i = word_at (fips_schedule n M) i.
Proof.
  intros Hnm Hi. induction Hnm as [|m Hnm IH]; [done|]. cbn [fips_schedule]. unfold word_at in *.
  rewrite app_nth1; [done|]. rewrite fips_schedule_length. lia.
Qed.

Lemma fips_schedule_word n M t :
  length M = 16%nat -> (16 <= t < 16 + n)%nat -> let W := fips_schedule n M in
  word_at W t = u32 (small_sigma1 (word_at W (t - 2)) + word_at W (t - 7) +
                     small_sigma0 (word_at W (t - 15)) + word_at W (t - 16)).
Proof.
  intros HM Ht W. unfold W. rewrite (fips_schedule_prefix (S (t - 16)) n M t) by lia.
  cbn [fips_schedule]. unfold word_at at 1.
  rewrite app_nth2 by (rewrite fips_schedule_length; lia). rewrite fips_schedule_length, HM.
  replace (t - (16 + (t - 16)))%nat with 0%nat by lia. cbn [nth].
  replace (14 + (t - 16))%nat with (t - 2)%nat by lia. replace (9 + (t - 16))%nat with (t - 7)%nat by lia.
  replace (1 + (t - 16))%nat with (t - 15)%nat by lia.
  by rewrite <- !(fips_schedule_prefix (t - 16) n M) by lia.
Qed.

(** The ring holds the last 16 words before step [t]. *)
Definition ring (W : list Z) (t : nat) (X : list Z) : Prop :=
  length X = 16%nat /\ forall j, (Nat.max 16 t - 16 <= j < Nat.max 16 t)%nat -> word_at X (j mod 16) = word_at W j.

Lemma schedule_step_ring M t X :
  length M = 16%nat -> let W := fips_schedule 48 M in
  (16 <= t < 64)%nat -> ring W t X -> ring W (S t) (schedule_step t X).
Proof.
  intros HM W Ht [HX Hr]. unfold schedule_step. cbv zeta. split; [by rewrite length_insert|].
  assert (Hm : (t mod 16 < 16)%nat) by (by apply Nat.mod_upper_bound).
  intros j Hj. unfold word_at at 1. rewrite nth_lookup. destruct (decide (j = t)) as [->|Hne].
  - rewrite list_lookup_insert_eq by lia. cbn [default]. unfold W. rewrite fips_schedule_word by (done || lia). fold W.
    destruct (sigmas (word_at X ((t + 1) mod 16))) as (_ & _ & -> & _).
    destruct (sigmas (word_at X ((t + 14) mod 16))) as (_ & _ & _ & ->).
    assert (Hback : forall d, (0 < d <= 16)%nat -> word_at X ((t + (16 - d)) mod 16) = word_at W (t - d)).
    { intros d Hd. rewrite <- Hr by lia. f_equal. replace (t + (16 - d))%nat with (t - d + 1 * 16)%nat by lia.
      apply Nat.Div0.mod_add. }
    rewrite <- (Hback 2%nat), <- (Hback 7%nat), <- (Hback 15%nat), <- (Hback 16%nat) by lia.
    change (16 - 2)%nat with 14%nat. change (16 - 7)%nat with 9%nat. change (16 - 15)%nat with 1%nat.
    change (16 - 16)%nat with 0%nat. rewrite Nat.add_0_r. unfold id. f_equal. ring.
  - rewrite list_lookup_insert_ne, <- nth_lookup; [apply Hr; lia|].
    intros E. assert (j mod 16 = t mod 16)%nat by done.
    pose proof (Nat.div_mod_eq j 16). pose proof (Nat.div_mod_eq t 16). lia.
Qed.

Lemma rounds_fips M n t X r :
  length M = 16%nat -> let W := fips_schedule 48 M in (t + n = 64)%nat -> ring W t X ->
  (fold_left small_step (seq t n) (X, r)).2 =
    fold_left (fun r t => fips_round (word_at K256 t) (word_at W t) r) (seq t n) r.
Proof.
  intros HM W. revert t X r. induction n as [|n IH]; intros t X r Ht Hr; [done|]. cbn [seq fold_left].
  assert (Hlast : forall X', ring W (S t) X' -> word_at X' (t mod 16) = word_at W t) by (intros X' [_ H]; apply H; lia).
  unfold small_step at 2. cbn [fst snd]. destruct (Nat.ltb_spec t 16) as [Hs|Hs].
  - assert (Hr' : ring W (S t) X) by (destruct Hr as [HX Hr]; split; [done|]; intros j Hj; apply Hr; lia).
    rewrite (IH (S t) X) by (done || lia). rewrite small_round_fips. rewrite <- (Hlast X Hr').
    by rewrite Nat.mod_small by lia.
  - assert (Hr' : ring W (S t) (schedule_step t X)) by (apply schedule_step_ring; done || lia).
    rewrite (IH (S t)) by (done || lia). rewrite small_round_fips. by rewrite (Hlast _ Hr').
Qed.

Lemma HOST_c2l_be32 b0 b1 b2 b3 rest :
  bytes_ok [b0; b1; b2; b3] -> HOST_c2l (b0 :: b1 :: b2 :: b3 :: rest) = be32 [b0; b1; b2; b3].
Proof.
  intros H. repeat apply Forall_cons in H as [? H]. unfold byte_ok in *. unfold HOST_c2l. cbn [nth].
  rewrite <- !Z.lor_assoc. rewrite (lor_shiftl_low b2 8) by lia. rewrite (lor_shiftl_low b1 16) by lia.
  rewrite lor_shiftl_low by lia. unfold be32. cbn [fold_left]. lia.
Qed.

Lemma load_block_words block rest :
  length block = 64%nat -> bytes_ok block -> load_block (block ++ rest) = fips_words block.
Proof.
  intros Hl Hb. apply map_ext_in. intros i Hi. apply in_seq in Hi. rewrite drop_app_le by lia.
  assert (Hd : (4 <= length (drop (4 * i) block))%nat) by (rewrite length_drop; lia).
  assert (Hbd : bytes_ok (drop (4 * i) block)) by (by apply Forall_drop).
  destruct (drop (4 * i) block) as [|b0 [|b1 [|b2 [|b3 d]]]]; try (simpl in Hd; lia).
  apply (HOST_c2l_be32 b0 b1 b2 b3). by apply (Forall_app _ [b0; b1; b2; b3] d) in Hbd as [? _].
Qed.

Lemma sha256_block_fips h block rest :
  length h = 8%nat -> length block = 64%nat -> bytes_ok block -> sha256_block h (block ++ rest) = fips_compress h block.
Proof.
  intros Hh Hl Hb. rewrite sha256_block_forms by done. unfold sha256_block_small, fips_compress. cbv zeta.
  rewrite fips_K_table.  rewrite load_block_words by done. f_equal. apply (rounds_fips (fips_words block) 64 0); [done|done|].
  split; [done|]. intros j Hj. rewrite Nat.mod_small by lia.
  symmetry. apply (fips_schedule_prefix 0 48); [lia|]. change (length (fips_words block)) with 16%nat. lia.
Qed.

Lemma fips_round_length K W r : length r = 8%nat -> length (fips_round K W r) = 8%nat.
Proof. by destruct r as [|? [|? [|? [|? [|? [|? [|? [|? [|]]]]]]]]]. Qed.

Lemma fips_compress_length H block : length H = 8%nat -> length (fips_compress H block) = 8%nat.
Proof.
  intros HH. unfold fips_compress, add_registers. cbv zeta. rewrite fips_K_table, length_zip_with.
  assert (Hgo : forall l r, length r = 8%nat ->
    length (fold_left (fun r t => fips_round (word_at K256 t) (word_at (fips_schedule 48 (fips_words block)) t) r) l r) = 8%nat).
  { induction l as [|t l IH]; intros r Hr; [done|]. cbn [fold_left]. by apply IH, fips_round_length. }
  rewrite Hgo by done. lia.
Qed.

Lemma fips_sha256_length H msg : length H = 8%nat -> length (fips_sha256 H msg) = 8%nat.
Proof.
  unfold fips_sha256. generalize (pieces (length (md_pad msg)) 64 (md_pad msg)) as bs. intros bs. revert H.
  induction bs as [|b bs IH]; intros H HH; [done|]. cbn [fold_left]. by apply IH, fips_compress_length.
Qed.

(** ** The interface of md32_common.h *)

Lemma sha256_block_prefix h d1 d2 :
  (64 <= length d1)%nat -> sha256_block h (d1 ++ d2) = sha256_block h d1.
Proof.
  intros Hl. unfold sha256_block. assert (load_block (d1 ++ d2) = load_block d1) as ->; [|done].
  apply map_ext_in. intros i Hi. apply in_seq in Hi. rewrite drop_app_le by lia.
  assert (Hd : (4 <= length (drop (4 * i) d1))%nat) by (rewrite length_drop; lia).
  by destruct (drop (4 * i) d1) as [|b0 [|b1 [|b2 [|b3 d]]]]; try (simpl in Hd; lia).
Qed.

#[export] Instance sha256_laws : Md32Laws Sha256.
Proof.
  split; [by intros [? ?] ?|]. intros [h0 len] d1 d2 n m Hl. cbn.
  assert (Hgo : sha256_block_data_order (n + m) h0 (d1 ++ d2) =
    sha256_block_data_order m (sha256_block_data_order n h0 d1) d2); [|by rewrite Hgo]. revert h0 d1 Hl.
  induction n as [|n IH]; intros h0 d1 Hl; [by destruct d1|]. cbn [sha256_block_data_order Nat.add].
  unfold HASH_CBLOCK in *. rewrite sha256_block_prefix by lia. rewrite drop_app_le by lia.
  apply IH. rewrite length_drop. lia.
Qed.

Lemma data_order_fips n h0 d :
  length h0 = 8%nat -> length d = (n * 64)%nat -> bytes_ok d ->
  sha256_block_data_order n h0 d = fold_left fips_compress (pieces (length d) 64 d) h0.
Proof.
  assert (Hgo : forall n fuel h0 d, (length d <= fuel)%nat -> length h0 = 8%nat -> length d = (n * 64)%nat -> bytes_ok d ->
    sha256_block_data_order n h0 d = fold_left fips_compress (pieces fuel 64 d) h0); [|by intros; apply Hgo; try lia].
  clear n h0 d. induction n as [|n IH]; intros fuel h0 d Hfuel Hh Hl Hb; [by destruct d, fuel|].
  assert (Ht : length (take 64 d) = 64%nat) by (rewrite length_take; lia).
  destruct fuel as [|fuel]; [lia|]. cbn [sha256_block_data_order pieces].
  assert (bytes_ok (take 64 d) /\ bytes_ok (drop 64 d)) as [Hb1 Hb2] by (apply Forall_app; by rewrite take_drop).
  assert (E : sha256_block h0 d = fips_compress h0 (take 64 d)).
  { rewrite <- (take_drop 64 d) at 1. by apply sha256_block_fips. }
  destruct d as [|x d]; [done|]. rewrite E. cbn [fold_left]. change HASH_CBLOCK with 64%nat.
  apply IH; rewrite ?length_drop; [lia|by apply fips_compress_length|lia|done].
Qed.

Lemma sha256_final init len chunks :
  Forall (fun x => zlen x < 2 ^ 32) chunks -> bytes_ok (concat chunks) -> length init = 8%nat ->
  HASH_FINAL (fold_left HASH_UPDATE chunks (HASH_INIT (Sha256State init len))) =
    Sha256State (fips_sha256 init (concat chunks)) len.
Proof.
  intros Hc Hb Hi. rewrite hash_in_pieces by done. unfold md_hash, fips_sha256. cbn [HASH_BLOCK_DATA_ORDER Sha256 hs md_len].
  destruct (md_pad_length (concat chunks)) as [k Hk].
  assert (Hn : (length (md_pad (concat chunks)) / HASH_CBLOCK = k)%nat)
    by (rewrite Hk; apply Nat.div_mul; unfold HASH_CBLOCK; lia).
  rewrite Hn, (data_order_fips k); [done|done|exact Hk|by apply md_pad_ok].
Qed.

(** C22: SHA-256 and SHA-224 are the hashes of FIPS 180-4: whatever the calls that
    deliver the message, each below 4 GiB, the digest is the one the standard
    defines - with constants from the roots of primes, right rotations, a schedule
    of 64 words and the padding - of the whole message. *)
Theorem sha256_standard chunks :
  Forall (fun x => zlen x < 2 ^ 32) chunks -> bytes_ok (concat chunks) ->
  SHA256_Final (fold_left SHA256_Update chunks SHA256_Init) =
    Some (concat (map HOST_l2c (fips_sha256 fips_H256 (concat chunks)))) /\
  SHA224_Final (fold_left SHA224_Update chunks SHA224_Init) =
    Some (concat (map HOST_l2c (take 7 (fips_sha256 fips_H224 (concat chunks))))).
Proof.
  intros Hc Hb.
  assert (fips_H256 = hs (Md32.h SHA256_Init)) as -> by (vm_compute; reflexivity).
  assert (fips_H224 = hs (Md32.h SHA224_Init)) as -> by (vm_compute; reflexivity).
  unfold SHA224_Final, SHA256_Final. change SHA224_Update with HASH_UPDATE. change SHA256_Update with HASH_UPDATE.
  unfold SHA256_Init, SHA224_Init. rewrite !sha256_final by done. unfold HASH_MAKE_STRING. cbn [hs md_len Md32.h HASH_INIT].
  split; [|done]. unfold Z.eqb, Z.ltb, Z.compare, Pos.eqb. cbv iota. do 3 f_equal. apply take_ge.
  by rewrite fips_sha256_length.
Qed.

(** The two forms of the block function agree: the unrolled rounds, in which the
    names of the registers rotate instead of their values, compute what the loop
    for a small footprint computes. *)
Theorem sha256_forms_agree h input :
  length h = 8%nat -> sha256_block h input = sha256_block_small h input.
Proof. apply sha256_block_forms. Qed.

Lemma sha256_standard_witness :
  SHA256_Final (fold_left SHA256_Update [bs "a"; bs "bc"] SHA256_Init) =
    Some (concat (map HOST_l2c (fips_sha256 fips_H256 (bs "abc")))).
Proof.
  exact (proj1 (sha256_standard [bs "a"; bs "bc"] ltac:(by repeat constructor) ltac:(by apply bytes_ok_checked))).
Defined.

Lemma sha256_forms_agree_witness :
  sha256_block (map Z.of_nat (seq 0 8)) (bs "block") = sha256_block_small (map Z.of_nat (seq 0 8)) (bs "block").
Proof. exact (sha256_forms_agree (map Z.of_nat (seq 0 8)) (bs "block") eq_refl). Defined.
