(* ===== verification/Vlint.v ===== *)
(** * Variable-length integers of QUIC (crypto/quic_vlint.c, internal/quic_vlint.h)

    Encoding in 1, 2, 4 or 8 bytes, the two most significant bits of the first byte
    telling which, and decoding from a buffer of any length. *)

From S2P Require Import Prelude Words.

Definition OSSL_QUIC_VLINT_2B_MIN : Z := 64.
Definition OSSL_QUIC_VLINT_4B_MIN : Z := 16384.
Definition OSSL_QUIC_VLINT_8B_MIN : Z := 1073741824.
Definition OSSL_QUIC_VLINT_MAX : Z := Z.shiftl 1 62 - 1.

Definition ossl_quic_vlint_encode_len (v : Z) : Z :=
  if v <? OSSL_QUIC_VLINT_2B_MIN then 1
  else if v <? OSSL_QUIC_VLINT_4B_MIN then 2
  else if v <? OSSL_QUIC_VLINT_8B_MIN then 4
  else if v <=? OSSL_QUIC_VLINT_MAX then 8
  else 0.

(** The bytes written to the buffer. *)
Definition ossl_quic_vlint_encode_n (v n : Z) : bytes :=
  if n =? 1 then [u8 v]
  else if n =? 2 then [u8 (Z.lor 0x40 (Z.land (Z.shiftr v 8) 0x3F)); u8 v]
  else if n =? 4 then
    [u8 (Z.lor 0x80 (Z.land (Z.shiftr v 24) 0x3F)); u8 (Z.shiftr v 16); u8 (Z.shiftr v 8); u8 v]
  else
    [u8 (Z.lor 0xC0 (Z.land (Z.shiftr v 56) 0x3F)); u8 (Z.shiftr v 48); u8 (Z.shiftr v 40); u8 (Z.shiftr v 32);
     u8 (Z.shiftr v 24); u8 (Z.shiftr v 16); u8 (Z.shiftr v 8); u8 v].

Definition ossl_quic_vlint_encode (v : Z) : bytes := ossl_quic_vlint_encode_n v (ossl_quic_vlint_encode_len v).

Definition ossl_quic_vlint_decode_len (first_byte : Z) : Z := Z.shiftl 1 (Z.shiftr (Z.land first_byte 0xC0) 6).

(** A load past the end of the buffer is 0 here; the caller excludes it. *)
Definition ossl_quic_vlint_decode_unchecked (buf : bytes) : Z :=
  let b i := nth i buf 0 in
  let first_byte := b 0%nat in
  let sz := ossl_quic_vlint_decode_len first_byte in
  if sz =? 1 then Z.land first_byte 0x3F
  else if sz =? 2 then Z.lor (Z.shiftl (Z.land first_byte 0x3F) 8) (b 1%nat)
  else if sz =? 4 then
    Z.lor (Z.lor (Z.lor (Z.shiftl (Z.land first_byte 0x3F) 24) (Z.shiftl (b 1%nat) 16)) (Z.shiftl (b 2%nat) 8)) (b 3%nat)
  else
    Z.lor (Z.lor (Z.lor (Z.lor (Z.lor (Z.lor (Z.lor (Z.shiftl (Z.land first_byte 0x3F) 56) (Z.shiftl (b 1%nat) 48))
      (Z.shiftl (b 2%nat) 40)) (Z.shiftl (b 3%nat) 32)) (Z.shiftl (b 4%nat) 24)) (Z.shiftl (b 5%nat) 16))
      (Z.shiftl (b 6%nat) 8)) (b 7%nat).

(** The number of bytes consumed and the value; [None] for the return value 0. *)
Definition ossl_quic_vlint_decode (buf : bytes) : option (Z * Z) :=
  match buf with
  | [] => None
  | first_byte :: _ =>
      let dec_len := ossl_quic_vlint_decode_len first_byte in
      if zlen buf <? dec_len then None
      else Some (dec_len, ossl_quic_vlint_decode_unchecked buf)
  end.

(** ** The first byte *)

(** The two top bits [k] and the six bits [x] below them. *)
Definition first (k x : Z) : Z := k * 64 + x.

Lemma first_byte k v : 0 <= k < 4 -> u8 (Z.lor (k * 64) (Z.land v 0x3F)) = first k (v mod 64).
Proof.
  intros Hk. change 0x3F with (Z.ones 6). rewrite Z.land_ones by lia. change (2 ^ 6) with 64.
  pose proof (Z.mod_pos_bound v 64 ltac:(lia)).
  replace (k * 64) with (Z.shiftl k 6) by (rewrite Z.shiftl_mul_pow2; lia). rewrite lor_shiftl_low by lia.
  unfold u8, first. apply wrap_small. lia.
Qed.

Lemma first_bits k x : 0 <= k < 4 -> 0 <= x < 64 ->
  Z.land (first k x) 0x3F = x /\ ossl_quic_vlint_decode_len (first k x) = 2 ^ k.
Proof.
  intros Hk Hx. unfold first. split.
  - change 0x3F with (Z.ones 6). rewrite Z.land_ones by lia. rewrite Z.add_comm. change (2 ^ 6) with 64.
    rewrite Z.mod_add by lia. by apply Z.mod_small.
  - unfold ossl_quic_vlint_decode_len. rewrite Z.shiftr_land, Z.shiftr_div_pow2 by lia. change (2 ^ 6) with 64.
    rewrite Z.div_add_l by lia. rewrite (Z.div_small x) by lia. change (Z.shiftr 0xC0 6) with (Z.ones 2).
    rewrite Z.add_0_r, Z.land_ones, Z.mod_small by lia. rewrite Z.shiftl_mul_pow2 by lia. lia.
Qed.

Lemma byte_first b : byte_ok b -> exists k x, 0 <= k < 4 /\ 0 <= x < 64 /\ b = first k x.
Proof.
  unfold byte_ok, first. intros Hb. exists (b / 64), (b mod 64). Z.to_euclidean_division_equations. lia.
Qed.

(** ** Numbers as their bytes *)

(** Most significant digit first, in base 256. *)
Definition digits (x : Z) (l : bytes) : Z := fold_left (fun v b => v * 256 + b) l x.

Lemma digit_step v k k' : k' = k + 8 -> 0 <= k -> Z.shiftr v k' * 256 + u8 (Z.shiftr v k) = Z.shiftr v k.
Proof.
  intros -> Hk. rewrite <- Z.shiftr_shiftr by lia. rewrite (Z.shiftr_div_pow2 (Z.shiftr v k) 8) by lia. unfold u8, wrap.
  change (2 ^ 8) with 256. pose proof (Z.div_mod (Z.shiftr v k) 256 ltac:(lia)). lia.
Qed.

Lemma digit_last v : Z.shiftr v 8 * 256 + u8 v = v.
Proof. pose proof (digit_step v 0 8 eq_refl ltac:(lia)) as H. by rewrite Z.shiftr_0_r in H. Qed.

Lemma decode_2 x b1 rest : 0 <= x < 64 -> bytes_ok [b1] ->
  ossl_quic_vlint_decode_unchecked (first 1 x :: b1 :: rest) = digits x [b1].
Proof.
  intros Hx Hb. repeat apply Forall_cons in Hb as [? Hb]. unfold byte_ok in *.
  destruct (first_bits 1 x ltac:(lia) Hx) as [E1 E2]. unfold ossl_quic_vlint_decode_unchecked.
  cbv zeta. cbn [nth]. rewrite E1, E2. change (2 ^ 1) with 2. cbn [Z.eqb Pos.eqb]. rewrite lor_shiftl_low by lia. cbn [digits fold_left]. lia.
Qed.

Lemma decode_4 x b1 b2 b3 rest : 0 <= x < 64 -> bytes_ok [b1; b2; b3] ->
  ossl_quic_vlint_decode_unchecked (first 2 x :: b1 :: b2 :: b3 :: rest) = digits x [b1; b2; b3].
Proof.
  intros Hx Hb. repeat apply Forall_cons in Hb as [? Hb]. unfold byte_ok in *.
  destruct (first_bits 2 x ltac:(lia) Hx) as [E1 E2]. unfold ossl_quic_vlint_decode_unchecked.
  cbv zeta. cbn [nth]. rewrite E1, E2. change (2 ^ 2) with 4. cbn [Z.eqb Pos.eqb]. rewrite <- !Z.lor_assoc. rewrite (lor_shiftl_low b2 8) by lia. rewrite (lor_shiftl_low b1 16) by lia. rewrite lor_shiftl_low by lia.
  cbn [digits fold_left]. lia.
Qed.

Lemma decode_8 x b1 b2 b3 b4 b5 b6 b7 rest : 0 <= x < 64 -> bytes_ok [b1; b2; b3; b4; b5; b6; b7] ->
  ossl_quic_vlint_decode_unchecked (first 3 x :: b1 :: b2 :: b3 :: b4 :: b5 :: b6 :: b7 :: rest) =
    digits x [b1; b2; b3; b4; b5; b6; b7].
Proof.
  intros Hx Hb. repeat apply Forall_cons in Hb as [? Hb]. unfold byte_ok in *.
  destruct (first_bits 3 x ltac:(lia) Hx) as [E1 E2]. unfold ossl_quic_vlint_decode_unchecked.
  cbv zeta. cbn [nth]. rewrite E1, E2. change (2 ^ 3) with 8. cbn [Z.eqb Pos.eqb]. rewrite <- !Z.lor_assoc. 
  rewrite (lor_shiftl_low b6 8) by lia. rewrite (lor_shiftl_low b5 16) by lia. rewrite (lor_shiftl_low b4 24) by lia. rewrite (lor_shiftl_low b3 32) by lia. rewrite (lor_shiftl_low b2 40) by lia. rewrite (lor_shiftl_low b1 48) by lia. rewrite lor_shiftl_low by lia.
  cbn [digits fold_left]. lia.
Qed.

Lemma u8_ok x : byte_ok (u8 x).
Proof. apply wrap_range. lia. Qed.

#[export] Hint Resolve u8_ok : words.

Lemma first_ok k x : 0 <= k < 4 -> byte_ok (first k (x mod 64)).
Proof. intros Hk. unfold first, byte_ok. pose proof (Z.mod_pos_bound x 64 ltac:(lia)). lia. Qed.

Ltac ok_list :=
  repeat first [apply Forall_nil_2 | apply Forall_cons_2; [first [apply u8_ok | by apply first_ok]|]].

(** The numbers of bytes an encoding may have. *)
Definition vlint_size (n : Z) : Prop := n = 1 \/ n = 2 \/ n = 4 \/ n = 8.

Lemma encode_len_spec v : 0 <= v < 2 ^ 62 ->
  vlint_size (ossl_quic_vlint_encode_len v) /\
  forall n, vlint_size n -> (ossl_quic_vlint_encode_len v <= n <-> v < 2 ^ (8 * n - 2)).
Proof.
  intros Hv. unfold ossl_quic_vlint_encode_len, OSSL_QUIC_VLINT_MAX, OSSL_QUIC_VLINT_2B_MIN, OSSL_QUIC_VLINT_4B_MIN,
    OSSL_QUIC_VLINT_8B_MIN. change (Z.shiftl 1 62) with 4611686018427387904. change (2 ^ 62) with 4611686018427387904 in Hv.
  unfold vlint_size.
  repeat match goal with |- context [?a <? ?b] => destruct (Z.ltb_spec a b) | |- context [?a <=? ?b] => destruct (Z.leb_spec a b) end;
    (split; [lia|]); intros n [->|[->|[->| ->]]]; try lia.
  all: match goal with |- context [2 ^ ?e] => let c := eval vm_compute in (2 ^ e) in change (2 ^ e) with c end; lia.
Qed.

Lemma shiftr_small v k : 0 <= k -> 0 <= v < 2 ^ (k + 6) -> Z.shiftr v k mod 64 = Z.shiftr v k /\ 0 <= Z.shiftr v k < 64.
Proof.
  intros Hk Hv. rewrite Z.shiftr_div_pow2 by lia. rewrite Z.pow_add_r in Hv by lia. change (2 ^ 6) with 64 in Hv.
  assert (H : 0 <= v / 2 ^ k < 64).
  { pose proof (Z.pow_pos_nonneg 2 k ltac:(lia) Hk).
    split; [apply Z.div_pos; lia|apply Z.div_lt_upper_bound; lia]. }
  split; [by apply Z.mod_small|done].
Qed.

Lemma vlint_decode_encode v n rest :
  0 <= v < 2 ^ (8 * n - 2) -> vlint_size n ->
  zlen (ossl_quic_vlint_encode_n v n) = n /\ bytes_ok (ossl_quic_vlint_encode_n v n) /\
  ossl_quic_vlint_decode (ossl_quic_vlint_encode_n v n ++ rest) = Some (n, v).
Proof.
  assert (Hdec : forall k x l, 0 <= k < 4 -> 2 ^ k <= zlen (first k (x mod 64) :: l) ->
    ossl_quic_vlint_decode (first k (x mod 64) :: l) = Some (2 ^ k, ossl_quic_vlint_decode_unchecked (first k (x mod 64) :: l))).
  { intros k x l Hk Hl. unfold ossl_quic_vlint_decode.
    destruct (first_bits k (x mod 64) Hk (Z.mod_pos_bound x 64 ltac:(lia))) as [_ ->]. by rewrite (proj2 (Z.ltb_ge _ _)). }
  assert (Hrest : forall l : bytes, 0 <= zlen l) by apply zlen_nonneg. specialize (Hrest rest).
  intros Hv [->|[->|[->| ->]]]; unfold ossl_quic_vlint_encode_n; cbn [Z.eqb Pos.eqb].
  - assert (Hu : u8 v = first 0 (v mod 64)).
    { change (2 ^ (8 * 1 - 2)) with 64 in Hv. unfold u8, first. rewrite (Z.mod_small v 64) by done. apply wrap_small. lia. }
    split; [done|]. rewrite Hu. split; [ok_list|]. cbn [app].
    rewrite (Hdec 0) by (rewrite ?zlen_cons; simpl; lia). unfold ossl_quic_vlint_decode_unchecked. cbv zeta. cbn [nth].
    destruct (first_bits 0 (v mod 64) ltac:(lia) (Z.mod_pos_bound v 64 ltac:(lia))) as [-> ->].
    change (2 ^ 0) with 1. cbn [Z.eqb Pos.eqb]. by rewrite Z.mod_small.
  - destruct (shiftr_small v 8 ltac:(lia) Hv) as [Em Hm]. rewrite (first_byte 1) by lia.
    split; [done|]. split; [ok_list|]. cbn [app].
    rewrite (Hdec 1) by (rewrite ?zlen_cons; simpl; lia). rewrite decode_2; [|by rewrite Em|ok_list].
    rewrite Em. cbn [digits fold_left]. do 2 f_equal. apply digit_last.
  - destruct (shiftr_small v 24 ltac:(lia) Hv) as [Em Hm]. rewrite (first_byte 2) by lia.
    split; [done|]. split; [ok_list|]. cbn [app].
    rewrite (Hdec 2) by (rewrite ?zlen_cons; simpl; lia). rewrite decode_4; [|by rewrite Em|ok_list].
    rewrite Em. cbn [digits fold_left]. do 2 f_equal.
    rewrite (digit_step v 16 24), (digit_step v 8 16) by lia. apply digit_last.
  - destruct (shiftr_small v 56 ltac:(lia) Hv) as [Em Hm]. rewrite (first_byte 3) by lia.
    split; [done|]. split; [ok_list|]. cbn [app].
    rewrite (Hdec 3) by (rewrite ?zlen_cons; simpl; lia). rewrite decode_8; [|by rewrite Em|ok_list].
    rewrite Em. cbn [digits fold_left]. do 2 f_equal.
    rewrite (digit_step v 48 56), (digit_step v 40 48), (digit_step v 32 40), (digit_step v 24 32),
      (digit_step v 16 24), (digit_step v 8 16) by lia. apply digit_last.
Qed.

(** C24: The encodings round trip: a number below 2^62 takes as many bytes as
    encode_len says, the fewest that can hold it; encoded in these or in any
    larger permitted number of bytes, and followed by anything, it decodes to
    itself and to that number of bytes; and a buffer that ends before the bytes
    its first byte announces, and only such a buffer, is refused. *)
Theorem quic_vlint_roundtrip v rest :
  0 <= v < 2 ^ 62 ->
  (let e := ossl_quic_vlint_encode v in let n := ossl_quic_vlint_encode_len v in
   zlen e = n /\ bytes_ok e /\ ossl_quic_vlint_decode (e ++ rest) = Some (n, v)) /\
  (forall n, vlint_size n -> ossl_quic_vlint_encode_len v <= n ->
     zlen (ossl_quic_vlint_encode_n v n) = n /\
     ossl_quic_vlint_decode (ossl_quic_vlint_encode_n v n ++ rest) = Some (n, v)) /\
  (forall n, vlint_size n -> n < ossl_quic_vlint_encode_len v -> 2 ^ (8 * n - 2) <= v) /\
  (forall b buf,
     ossl_quic_vlint_decode (b :: buf) = None <-> zlen (b :: buf) < ossl_quic_vlint_decode_len b).
Proof.
  intros Hv. destruct (encode_len_spec v Hv) as [Hsize Hlen]. split_and!.
  - apply vlint_decode_encode; [|done]. split; [lia|]. by apply Hlen.
  - intros n Hn Hle. destruct (vlint_decode_encode v n rest) as (? & ? & ?); [|done|done]. split; [lia|]. by apply Hlen.
  - intros n Hn Hlt. apply Z.nlt_ge. intros H. apply (Hlen n Hn) in H. lia.
  - intros b buf. unfold ossl_quic_vlint_decode. destruct (Z.ltb_spec (zlen (b :: buf)) (ossl_quic_vlint_decode_len b)); split; (done || lia).
Qed.

Lemma quic_vlint_roundtrip_witness :
  ossl_quic_vlint_decode (ossl_quic_vlint_encode 151288809941952652 ++ [7]) = Some (8, 151288809941952652) /\
  ossl_quic_vlint_encode 151288809941952652 = [0xc2; 0x19; 0x7c; 0x5e; 0xff; 0x14; 0xe8; 0x8c].
Proof.
  split; [|reflexivity]. exact (proj2 (proj2 (proj1 (quic_vlint_roundtrip 151288809941952652 [7] ltac:(lia))))).
Defined.
