(* ===== verification/Pqueue.v ===== *)
(** * Priority queues (ssl/priority_queue.c)

    A binary heap of pairs of data and a handle, with the table that gives the
    position of every handle and links the free ones.  The contract: a finite map
    from handles to data from which the least datum can be taken. *)

From Stdlib Require Import ZifyNat Sorted.
From S2P Require Import Prelude.

(** What the comparison of the user returns orders the data. *)
Class Comparison (A : Type) := compare : A -> A -> Z.
Class ComparisonLaws (A : Type) (C : Comparison A) := {
  compare_swap : forall x y : A, 0 < compare x y <-> compare y x < 0;
  compare_trans : forall x y z : A, compare x y <= 0 -> compare y z <= 0 -> compare x z <= 0
}.

Section pqueue.
Context {A : Type} {C : Comparison A}.

(** The heap up to htop; the positions or links of the hmax elements. *)
Record pqueue := Pqueue { heap : list (A * nat); elements : list nat; hmax : nat; freelist : nat }.

Definition htop (pq : pqueue) : nat := length (heap pq).

Definition min_nodes : nat := 8.
(** SIZE_MAX / sizeof(struct pq_heap_st), with 32-bit pointers. *)
Definition max_nodes : Z := 4294967295 / 8.

(** [while (current < target)]; 0 when it cannot grow. *)
Fixpoint compute_pqueue_growth (fuel : nat) (target current : Z) : outcome Z :=
  if current <? target then
    match fuel with
    | O => NoFuel
    | S fuel' =>
        if max_nodes <=? current then Done 0
        else
          let current := current * 8 / 5 in
          compute_pqueue_growth fuel' target (if max_nodes <=? current then max_nodes else current)
    end
  else Done current.

(** [pq->elements[m].posn = v]. *)
Definition set_posn (m v : nat) (e : list nat) : outcome (list nat) :=
  if (m <? length e)%nat then Done (<[m := v]> e) else Crash BufferOverflow.

Definition pqueue_swap_elem (pq : pqueue) (i j : nat) : outcome pqueue :=
  match heap pq !! i, heap pq !! j with
  | Some hi, Some hj =>
      e ← set_posn (snd hj) i (elements pq);
      e ← set_posn (snd hi) j e;
      Done (Pqueue (<[j := hi]> (<[i := hj]> (heap pq))) e (hmax pq) (freelist pq))
  | _, _ => Crash OverRead
  end.

(** [compare(h[i].data, h[j].data)]. *)
Definition compare_at (pq : pqueue) (i j : nat) : outcome Z :=
  match heap pq !! i, heap pq !! j with
  | Some x, Some y => Done (compare (fst x) (fst y))
  | _, _ => Crash OverRead
  end.

Definition parent (n : nat) : nat := ((n - 1) / 2)%nat.

Fixpoint pqueue_force_bottom (fuel : nat) (pq : pqueue) (n : nat) : outcome pqueue :=
  if (0 <? n)%nat then
    match fuel with
    | O => NoFuel
    | S fuel' =>
        pq ← pqueue_swap_elem pq n (parent n);
        pqueue_force_bottom fuel' pq (parent n)
    end
  else Done pq.

Fixpoint pqueue_move_down (fuel : nat) (pq : pqueue) (n : nat) : outcome pqueue :=
  if (0 <? n)%nat then
    match fuel with
    | O => NoFuel
    | S fuel' =>
        c ← compare_at pq n (parent n);
        if 0 <=? c then Done pq
        else
          pq ← pqueue_swap_elem pq n (parent n);
          pqueue_move_down fuel' pq (parent n)
    end
  else Done pq.

(** [p], moved to the other child when that one is less. *)
Definition lesser_child (pq : pqueue) (p : nat) : outcome nat :=
  if (p + 1 <? htop pq)%nat then
    c ← compare_at pq p (p + 1);
    Done (if 0 <? c then (p + 1)%nat else p)
  else Done p.

Fixpoint move_up_loop (fuel : nat) (pq : pqueue) (n p : nat) : outcome pqueue :=
  if (p <? htop pq)%nat then
    c ← compare_at pq p n;
    if c <? 0 then
      match fuel with
      | O => NoFuel
      | S fuel' =>
          pq ← pqueue_swap_elem pq n p;
          p' ← lesser_child pq (p * 2 + 1);
          move_up_loop fuel' pq p p'
      end
    else Done pq
  else Done pq.

Definition pqueue_move_up (pq : pqueue) (n : nat) : outcome pqueue :=
  p ← lesser_child pq (n * 2 + 1);
  move_up_loop (htop pq) pq n p.

Definition pqueue_add_freelist (pq : pqueue) (from : nat) : pqueue :=
  let e := <[from := freelist pq]> (elements pq) in
  let e := fold_left (fun e i => <[i := (i - 1)%nat]> e) (seq (from + 1) (hmax pq - (from + 1))) e in
  Pqueue (heap pq) e (hmax pq) (hmax pq - 1).

(** [alloc] tells whether both reallocations succeed; what they add is indeterminate. *)
Definition ossl_pqueue_reserve (alloc : bool) (indet : nat -> nat) (pq : pqueue) (n : nat) : outcome (Z * pqueue) :=
  let cur_max := hmax pq in
  if (htop pq + n <? cur_max)%nat then Done (1, pq)
  else
    new_max ← compute_pqueue_growth n (Z.of_nat (n + cur_max)) (Z.of_nat cur_max);
    if new_max =? 0 then Done (0, pq)
    else if negb alloc then Done (0, pq)
    else
      let new_max := Z.to_nat new_max in
      let e := elements pq ++ map indet (seq cur_max (new_max - cur_max)) in
      Done (1, pqueue_add_freelist (Pqueue (heap pq) e new_max (freelist pq)) cur_max).

(** The return value, the handle and the queue. *)
Definition ossl_pqueue_push (alloc : bool) (indet : nat -> nat) (pq : pqueue) (data : A)
  : outcome (Z * nat * pqueue) :=
  '(ok, pq) ← ossl_pqueue_reserve alloc indet pq 1;
  if ok =? 0 then Done (0, 0%nat, pq)
  else
    let n := htop pq in
    let m := freelist pq in
    match elements pq !! m with
    | None => Crash OverRead
    | Some link =>
        e ← set_posn m n (elements pq);
        pq ← pqueue_move_down n (Pqueue (heap pq ++ [(data, m)]) e (hmax pq) link) n;
        Done (1, m, pq)
    end.

Definition ossl_pqueue_peek (pq : pqueue) : option A := fst <$> head (heap pq).

Definition ossl_pqueue_pop (pq : pqueue) : outcome (option A * pqueue) :=
  match heap pq with
  | [] => Done (None, pq)
  | (res, elem) :: _ =>
      let top := (htop pq - 1)%nat in
      pq ←
        (if negb (top =? 0)%nat then
           match heap pq !! top with
           | None => Crash OverRead
           | Some x =>
               e ← set_posn (snd x) 0 (elements pq);
               pqueue_move_up (Pqueue (<[0%nat := x]> (take top (heap pq))) e (hmax pq) (freelist pq)) 0
           end
         else Done (Pqueue [] (elements pq) (hmax pq) (freelist pq)));
      e ← set_posn elem (freelist pq) (elements pq);
      Done (Some res, Pqueue (heap pq) e (hmax pq) elem)
  end.

Definition ossl_pqueue_remove (pq : pqueue) (elem : nat) : outcome (option A * pqueue) :=
  if (hmax pq <=? elem)%nat || (htop pq =? 0)%nat then Done (None, pq)
  else
    match elements pq !! elem with
    | None => Crash OverRead
    | Some n =>
        if (n =? htop pq - 1)%nat then
          match heap pq !! n with
          | None => Crash OverRead
          | Some x =>
              e ← set_posn elem (freelist pq) (elements pq);
              Done (Some (fst x), Pqueue (take n (heap pq)) e (hmax pq) elem)
          end
        else
          pq ← pqueue_force_bottom n pq n;
          ossl_pqueue_pop pq
    end.

(** Both allocations of ossl_pqueue_new succeed. *)
Definition ossl_pqueue_new (indet : nat -> nat) : pqueue :=
  pqueue_add_freelist (Pqueue [] (map indet (seq 0 min_nodes)) min_nodes 0) 0.

Definition ossl_pqueue_num (pq : pqueue) : nat := htop pq.

(** The data the function given is called on before the queue is freed. *)
Definition ossl_pqueue_pop_free (pq : pqueue) : list A := map fst (heap pq).

(** ** The table of positions *)

Definition handles (l : list (A * nat)) : list nat := map snd l.

Definition linked (pq : pqueue) : Prop :=
  forall i x, heap pq !! i = Some x -> elements pq !! snd x = Some i.

Lemma linked_inj pq i j x y :
  linked pq -> heap pq !! i = Some x -> heap pq !! j = Some y -> snd x = snd y -> i = j.
Proof. intros Hl Hx Hy E. pose proof (Hl _ _ Hx) as H1. rewrite E, (Hl _ _ Hy) in H1. by injection H1. Qed.

(** [pq'] has the items of [pq], in a different order. *)
Record shuffled (pq pq' : pqueue) : Prop := Shuffled {
  sh_heap : heap pq' ≡ₚ heap pq;
  sh_hmax : hmax pq' = hmax pq;
  sh_freelist : freelist pq' = freelist pq;
  sh_length : length (elements pq') = length (elements pq);
  sh_linked : linked pq';
  sh_free : forall m, m ∉ handles (heap pq) -> elements pq' !! m = elements pq !! m
}.

Lemma shuffled_refl pq : linked pq -> shuffled pq pq.
Proof. by split. Qed.

Lemma handles_perm l l' : l ≡ₚ l' -> handles l ≡ₚ handles l'.
Proof. apply Permutation_map. Qed.

Lemma shuffled_trans pq1 pq2 pq3 : shuffled pq1 pq2 -> shuffled pq2 pq3 -> shuffled pq1 pq3.
Proof.
  intros [] []. split; try done; try congruence.
  - by etrans.
  - intros m Hm. rewrite sh_free1; [by apply sh_free0|]. by rewrite (handles_perm _ _ sh_heap0).
Qed.

Lemma shuffled_htop pq pq' : shuffled pq pq' -> htop pq' = htop pq.
Proof. intros H. apply Permutation_length, (sh_heap _ _ H). Qed.

Lemma lookup_handle (l : list (A * nat)) i x : l !! i = Some x -> snd x ∈ handles l.
Proof. intros H. apply list_elem_of_fmap. exists x. split; [done|]. by eapply list_elem_of_lookup_2. Qed.

Lemma set_posn_done m v e w : e !! m = Some w -> set_posn m v e = Done (<[m := v]> e).
Proof. intros H. unfold set_posn. apply lookup_lt_Some in H. by rewrite (proj2 (Nat.ltb_lt _ _)). Qed.

(** The lookup in a list with two items exchanged. *)
Definition swapped {B} (i j : nat) (x y : B) (l : list B) (k : nat) : option B :=
  if decide (k = j) then Some x else if decide (k = i) then Some y else l !! k.

Lemma swap_spec pq i j x y :
  linked pq -> heap pq !! i = Some x -> heap pq !! j = Some y -> i <> j ->
  exists pq', pqueue_swap_elem pq i j = Done pq' /\ shuffled pq pq' /\
    forall k, heap pq' !! k = swapped i j x y (heap pq) k.
Proof.
  intros Hl Hx Hy Hij. unfold pqueue_swap_elem. rewrite Hx, Hy.
  rewrite (set_posn_done _ _ _ j) by (by apply Hl). cbn [mbind outcome_bind].
  assert (Hne : snd x <> snd y) by (intros E; by apply Hij, (linked_inj pq i j x y)).
  pose proof (Hl _ _ Hx) as Ex. pose proof (Hl _ _ Hy) as Ey.
  pose proof (lookup_lt_Some _ _ _ Hx). pose proof (lookup_lt_Some _ _ _ Hy).
  rewrite (set_posn_done _ _ _ i) by (by rewrite list_lookup_insert_ne).
  assert (Hk : forall k, <[j:=x]> (<[i:=y]> (heap pq)) !! k = swapped i j x y (heap pq) k).
  { intros k. unfold swapped. destruct (decide (k = j)) as [->|Hkj].
    - rewrite list_lookup_insert_eq; [done|]. by rewrite length_insert.
    - rewrite list_lookup_insert_ne by done. destruct (decide (k = i)) as [->|Hki].
      + by rewrite list_lookup_insert_eq.
      + by rewrite list_lookup_insert_ne. }
  eexists. split; [reflexivity|]. split; [|exact Hk]. split; cbn [heap hmax freelist elements]; try done.
  - by apply Permutation_insert_swap.
  - by rewrite !length_insert.
  - intros k z. cbn [heap elements]. rewrite Hk. unfold swapped.
    destruct (decide (k = j)) as [->|Hkj]; [intros [= <-]; rewrite list_lookup_insert_eq; [done|]|].
    { rewrite length_insert. by eapply lookup_lt_Some. }
    destruct (decide (k = i)) as [->|Hki]; [intros [= <-]|intros Hz].
    + rewrite list_lookup_insert_ne by done. rewrite list_lookup_insert_eq; [done|]. by eapply lookup_lt_Some.
    + rewrite !list_lookup_insert_ne; [by apply Hl| |]; intros E; [apply Hkj|apply Hki]; by eapply linked_inj.
  - intros m Hm. rewrite !list_lookup_insert_ne; [done| |]; intros <-; apply Hm; by eapply lookup_handle.
Qed.

(** ** The order of the heap *)

Context {L : ComparisonLaws A C}.

(** The datum of the first item is not greater. *)
Definition le (x y : A * nat) : Prop := compare (fst x) (fst y) <= 0.

Lemma le_trans x y z : le x y -> le y z -> le x z.
Proof. apply compare_trans. Qed.

Lemma lt_le x y : compare (fst x) (fst y) < 0 -> le x y.
Proof. unfold le. lia. Qed.

Lemma not_lt_le x y : 0 <= compare (fst x) (fst y) -> le y x.
Proof.
  unfold le. intros H. pose proof (compare_swap (fst y) (fst x)) as [Hs _]. apply Z.nlt_ge. intros H'.
  specialize (Hs H'). lia.
Qed.

Lemma gt_le x y : 0 < compare (fst x) (fst y) -> le y x.
Proof. intros H. apply not_lt_le. lia. Qed.

Lemma parent_iff i p : (0 < i)%nat -> parent i = p <-> (i = 2 * p + 1 \/ i = 2 * p + 2)%nat.
Proof. unfold parent. intros H. Z.to_euclidean_division_equations. lia. Qed.

Lemma parent_lt i : (0 < i)%nat -> (parent i < i)%nat.
Proof. unfold parent. intros H. Z.to_euclidean_division_equations. lia. Qed.

Implicit Types l : list (A * nat).

Definition ordered_at l (i : nat) : Prop :=
  forall x y, (0 < i)%nat -> l !! i = Some x -> l !! parent i = Some y -> le y x.

Definition heap_ordered l : Prop := forall i, ordered_at l i.

(** The parent of a place is not greater than the children of the place. *)
Definition skips l (n : nat) : Prop :=
  forall c x y, (0 < n)%nat -> (0 < c)%nat -> parent c = n -> l !! c = Some x -> l !! parent n = Some y -> le y x.

Lemma ordered_skips l n :
  ordered_at l n -> (forall c, (0 < c)%nat -> parent c = n -> ordered_at l c) -> skips l n.
Proof.
  intros Hn Hc c x y H0 H0c Hp Hx Hy.
  destruct (l !! n) as [z|] eqn:Hz.
  - apply (le_trans _ z); [by apply Hn|]. apply (Hc c); [done|done|done|done|by rewrite Hp].
  - apply lookup_ge_None in Hz. apply lookup_lt_Some in Hx. pose proof (parent_lt c H0c). lia.
Qed.

Section swap.
Context (l l' : list (A * nat)) (n p : nat) (x y : A * nat).
Context (Hn : (0 < n)%nat) (Hp : parent n = p) (Hx : l !! n = Some x) (Hy : l !! p = Some y).
Context (Hl' : forall k, l' !! k = swapped n p x y l k).

Lemma swapped_p : l' !! p = Some x.
Proof. rewrite Hl'. unfold swapped. by rewrite decide_True. Qed.

Lemma swapped_n : l' !! n = Some y.
Proof. rewrite Hl'. unfold swapped. pose proof (parent_lt n Hn). rewrite decide_False by lia. by rewrite decide_True. Qed.

Lemma swapped_other k : k <> n -> k <> p -> l' !! k = l !! k.
Proof. intros H1 H2. rewrite Hl'. unfold swapped. by rewrite !decide_False. Qed.

(** A place away from the exchange keeps its order. *)
Lemma swap_ordered_away i :
  ordered_at l i -> i <> n -> i <> p -> parent i <> n -> parent i <> p -> ordered_at l' i.
Proof. intros Hi H1 H2 H3 H4 u v H0. rewrite !swapped_other by done. by apply Hi. Qed.

(** Exchanging [n] with its parent, whose datum is not less, moves the place out of
    order to the parent. *)
Lemma swap_down :
  le x y -> (forall i, i <> n -> ordered_at l i) -> skips l n ->
  (forall i, i <> p -> ordered_at l' i) /\ skips l' p.
Proof.
  intros Hle Hord Hskip. pose proof (parent_lt n Hn) as Hlt. rewrite Hp in Hlt. split.
  - intros i Hi. destruct (decide (i = n)) as [->|Hin].
    { intros u v _. rewrite Hp, swapped_n, swapped_p. by intros [= <-] [= <-]. }
    destruct (decide (parent i = n)) as [E|E].
    { intros u v H0. rewrite E, swapped_n, swapped_other by done. intros Hu [= <-].
      apply (Hskip i u y); by rewrite ?Hp. }
    destruct (decide (parent i = p)) as [E'|E'].
    { intros u v H0. rewrite E', swapped_p, swapped_other by done. intros Hu [= <-].
      apply (le_trans _ y); [done|]. apply (Hord i Hin); [done|done|by rewrite E']. }
    by apply swap_ordered_away; [apply Hord| | | |].
  - intros c u v H0 H0c Hc Hu Hv. pose proof (parent_lt p H0) as Hpp.
    rewrite swapped_other in Hv by lia.
    assert (Hvy : le v y) by (apply (Hord p ltac:(lia)); done).
    destruct (decide (c = n)) as [->|Hcn].
    + rewrite swapped_n in Hu. by injection Hu as <-.
    + assert (c <> p) by (pose proof (parent_lt c H0c); lia). rewrite swapped_other in Hu by done.
      apply (le_trans _ y); [done|]. apply (Hord c Hcn); [done|done|by rewrite Hc].
Qed.

(** Forcing [n] to the place of its parent: only edges at that place are out of order. *)
Lemma swap_force :
  (forall i, i <> n -> parent i <> n -> ordered_at l i) -> skips l n ->
  (forall i, i <> p -> parent i <> p -> ordered_at l' i) /\ skips l' p.
Proof.
  intros Hord Hskip. pose proof (parent_lt n Hn) as Hlt. rewrite Hp in Hlt. split.
  - intros i Hi Hpi. destruct (decide (i = n)) as [->|Hin]; [by rewrite Hp in Hpi|].
    destruct (decide (parent i = n)) as [E|E].
    { intros u v H0. rewrite E, swapped_n, swapped_other by done. intros Hu [= <-]. apply (Hskip i u y); by rewrite ?Hp. }
    by apply swap_ordered_away; [apply Hord| | | |].
  - intros c u v H0 H0c Hc Hu Hv. pose proof (parent_lt p H0) as Hpp.
    rewrite swapped_other in Hv by lia.
    assert (Hvy : le v y) by (apply (Hord p ltac:(lia)); [lia|done|done|done]).
    destruct (decide (c = n)) as [->|Hcn].
    + rewrite swapped_n in Hu. by injection Hu as <-.
    + assert (c <> p) by (pose proof (parent_lt c H0c); lia). rewrite swapped_other in Hu by done.
      apply (le_trans _ y); [done|]. apply (Hord c Hcn); [lia|done|done|by rewrite Hc].
Qed.

(** Exchanging [p] with its least child [n], when that is less. *)
Lemma swap_up :
  le x y -> (forall c z, (0 < c)%nat -> parent c = p -> l !! c = Some z -> le x z) ->
  (forall i, parent i <> p \/ i = 0%nat -> ordered_at l i) -> skips l p ->
  (forall i, parent i <> n \/ i = 0%nat -> ordered_at l' i) /\ skips l' n.
Proof.
  intros Hle Hleast Hord Hskip. pose proof (parent_lt n Hn) as Hlt. rewrite Hp in Hlt. split.
  - intros i Hi u v H0. destruct Hi as [Hi|Hi]; [|lia]. destruct (decide (i = n)) as [->|Hin].
    { rewrite Hp, swapped_n, swapped_p. by intros [= <-] [= <-]. }
    destruct (decide (parent i = p)) as [E|E].
    { assert (i <> p) by (pose proof (parent_lt i H0); lia).
      rewrite E, swapped_p, swapped_other by done. intros Hu [= <-]. by apply (Hleast i). }
    destruct (decide (i = p)) as [->|Hip].
    { rewrite swapped_p, swapped_other by (pose proof (parent_lt p H0); lia). intros [= <-] Hv.
      by apply (Hskip n x v). }
    rewrite !swapped_other by done. by apply Hord; [left|].
  - intros c u v _ H0c Hc. rewrite Hp, swapped_p. intros Hu [= <-].
    assert (Hcn : c <> n /\ c <> p) by (pose proof (parent_lt c H0c); lia).
    rewrite swapped_other in Hu by tauto. apply (Hord c); [left; lia|done|done|by rewrite Hc].
Qed.
End swap.

(** ** The loops *)

Lemma compare_at_done pq i j x y :
  heap pq !! i = Some x -> heap pq !! j = Some y -> compare_at pq i j = Done (compare (fst x) (fst y)).
Proof. intros Hx Hy. unfold compare_at. by rewrite Hx, Hy. Qed.

Lemma heap_item pq i : (i < htop pq)%nat -> exists x, heap pq !! i = Some x.
Proof. intros H. apply lookup_lt_is_Some_2 in H as [x H]. by exists x. Qed.

Lemma move_down_spec fuel pq n :
  linked pq -> (n < htop pq)%nat -> (n <= fuel)%nat ->
  (forall i, i <> n -> ordered_at (heap pq) i) -> skips (heap pq) n ->
  exists pq', pqueue_move_down fuel pq n = Done pq' /\ shuffled pq pq' /\ heap_ordered (heap pq').
Proof.
  revert pq n. induction fuel as [|fuel IH]; intros pq n Hl Hn Hf Hord Hskip; cbn [pqueue_move_down].
  { rewrite (proj2 (Nat.ltb_ge _ _)) by lia. exists pq. split_and!; [done|by apply shuffled_refl|].
    intros i x y H0. apply Hord; lia. }
  destruct (Nat.ltb_spec 0 n) as [H0|H0].
  2: { exists pq. split_and!; [done|by apply shuffled_refl|]. intros i x y Hi. apply Hord; lia. }
  pose proof (parent_lt n H0) as Hp. destruct (heap_item pq n Hn) as [x Hx].
  destruct (heap_item pq (parent n)) as [y Hy]; [lia|].
  rewrite (compare_at_done pq n (parent n) x y) by done. cbn [mbind outcome_bind].
  destruct (Z.leb_spec 0 (compare (fst x) (fst y))) as [Hc|Hc].
  { exists pq. split_and!; [done|by apply shuffled_refl|]. intros i u v Hi Hu Hv.
    destruct (decide (i = n)) as [->|Hin]; [|by apply (Hord i)].
    rewrite Hx in Hu. rewrite Hy in Hv. injection Hu as <-. injection Hv as <-. by apply not_lt_le. }
  destruct (swap_spec pq n (parent n) x y Hl Hx Hy ltac:(lia)) as (pq1 & -> & Hsh & Hlk). cbn [mbind outcome_bind].
  destruct (swap_down (heap pq) (heap pq1) n (parent n) x y H0 eq_refl Hy Hlk (lt_le _ _ Hc) Hord Hskip) as [Hord1 Hskip1].
  destruct (IH pq1 (parent n)) as (pq' & -> & Hsh' & Ho);
    [apply Hsh|rewrite (shuffled_htop _ _ Hsh); lia|lia|done|done|].
  exists pq'. split_and!; [done|by eapply shuffled_trans|done].
Qed.

Lemma force_bottom_spec fuel pq n x :
  linked pq -> heap pq !! n = Some x -> (n <= fuel)%nat ->
  (forall i, i <> n -> parent i <> n -> ordered_at (heap pq) i) -> skips (heap pq) n ->
  exists pq', pqueue_force_bottom fuel pq n = Done pq' /\ shuffled pq pq' /\ heap pq' !! 0%nat = Some x /\
    forall i, i <> 0%nat -> parent i <> 0%nat -> ordered_at (heap pq') i.
Proof.
  revert pq n. induction fuel as [|fuel IH]; intros pq n Hl Hx Hf Hord Hskip; cbn [pqueue_force_bottom].
  { rewrite (proj2 (Nat.ltb_ge _ _)) by lia. replace n with 0%nat in * by lia.
    exists pq. split_and!; [done|by apply shuffled_refl|done|done]. }
  destruct (Nat.ltb_spec 0 n) as [H0|H0].
  2: { replace n with 0%nat in * by lia. exists pq. split_and!; [done|by apply shuffled_refl|done|done]. }
  pose proof (parent_lt n H0) as Hp. pose proof (lookup_lt_Some _ _ _ Hx) as Hn.
  destruct (heap_item pq (parent n)) as [y Hy]; [unfold htop; lia|].
  destruct (swap_spec pq n (parent n) x y Hl Hx Hy ltac:(lia)) as (pq1 & -> & Hsh & Hlk). cbn [mbind outcome_bind].
  destruct (swap_force (heap pq) (heap pq1) n (parent n) x y H0 eq_refl Hy Hlk Hord Hskip) as [Hord1 Hskip1].
  destruct (IH pq1 (parent n)) as (pq' & -> & Hsh' & Hroot & Ho);
    [apply Hsh|rewrite Hlk; unfold swapped; by rewrite decide_True|lia|done|done|].
  exists pq'. split_and!; [done|by eapply shuffled_trans|done|done].
Qed.

(** [p] is the place of the least child of [n], if [n] has children. *)
Definition least_child l (n p : nat) : Prop :=
  (forall c, (0 < c)%nat -> parent c = n -> (c < length l)%nat -> (p < length l)%nat) /\
  forall x, l !! p = Some x ->
    (0 < p)%nat /\ parent p = n /\ forall c z, (0 < c)%nat -> parent c = n -> l !! c = Some z -> le x z.

Lemma le_refl x : le x x.
Proof.
  unfold le. destruct (Z.le_gt_cases (compare (fst x) (fst x)) 0) as [|H]; [done|].
  pose proof (proj1 (compare_swap _ _) H). lia.
Qed.

Lemma lesser_child_spec pq n : exists p, lesser_child pq (n * 2 + 1) = Done p /\ least_child (heap pq) n p.
Proof.
  unfold lesser_child. set (p := (n * 2 + 1)%nat).
  assert (Hpp : parent p = n /\ parent (p + 1) = n) by (rewrite !parent_iff by lia; lia). destruct Hpp as [Hp1 Hp2].
  assert (Hch : forall c, (0 < c)%nat -> parent c = n -> c = p \/ c = (p + 1)%nat).
  { intros c H0 Hc. rewrite parent_iff in Hc by done. lia. }
  destruct (Nat.ltb_spec (p + 1) (htop pq)) as [Hlt|Hge].
  - destruct (heap_item pq p) as [x Hx]; [lia|]. destruct (heap_item pq (p + 1)) as [y Hy]; [lia|].
    rewrite (compare_at_done pq p (p + 1) x y) by done. cbn [mbind outcome_bind]. eexists. split; [reflexivity|].
    destruct (Z.ltb_spec 0 (compare (fst x) (fst y))) as [Hc|Hc].
    + split; [unfold htop in *; lia|]. intros y' Hy'. rewrite Hy in Hy'. injection Hy' as <-. split; [lia|].
      split; [done|]. intros c z H0 Hc' Hz. destruct (Hch c H0 Hc') as [->| ->].
      * rewrite Hx in Hz. injection Hz as <-. by apply gt_le.
      * rewrite Hy in Hz. injection Hz as <-. apply le_refl.
    + split; [unfold htop in *; lia|]. intros x' Hx'. rewrite Hx in Hx'. injection Hx' as <-. split; [lia|].
      split; [done|]. intros c z H0 Hc' Hz. destruct (Hch c H0 Hc') as [->| ->].
      * rewrite Hx in Hz. injection Hz as <-. apply le_refl.
      * rewrite Hy in Hz. injection Hz as <-. exact Hc.
  - exists p. split; [done|]. split.
    + intros c H0 Hc Hlen. destruct (Hch c H0 Hc) as [->| ->]; lia.
    + intros x Hx. split; [lia|]. split; [done|]. intros c z H0 Hc Hz. destruct (Hch c H0 Hc) as [->| ->].
      * rewrite Hx in Hz. injection Hz as <-. apply le_refl.
      * apply lookup_lt_Some in Hz. unfold htop in Hge. lia.
Qed.

Lemma move_up_loop_spec fuel pq n p :
  linked pq -> (n < htop pq)%nat -> (htop pq <= n + fuel)%nat -> least_child (heap pq) n p ->
  (forall i, parent i <> n \/ i = 0%nat -> ordered_at (heap pq) i) -> skips (heap pq) n ->
  exists pq', move_up_loop fuel pq n p = Done pq' /\ shuffled pq pq' /\ heap_ordered (heap pq').
Proof.
  revert pq n p. induction fuel as [|fuel IH]; intros pq n p Hl Hn Hf [Hnone Hleast] Hord Hskip; [lia|].
  cbn [move_up_loop]. destruct (Nat.ltb_spec p (htop pq)) as [Hp|Hp].
  2: { exists pq. split_and!; [done|by apply shuffled_refl|]. intros i u v H0 Hu Hv.
       destruct (decide (parent i = n)) as [E|E]; [|by apply (Hord i (or_introl E))].
       pose proof (Hnone i H0 E (lookup_lt_Some _ _ _ Hu)). unfold htop in Hp. lia. }
  destruct (heap_item pq p Hp) as [x Hx]. destruct (heap_item pq n Hn) as [y Hy].
  destruct (Hleast x Hx) as (Hp0 & Hpar & Hmin). pose proof (parent_lt p Hp0) as Hlt.
  rewrite (compare_at_done pq p n x y) by done. cbn [mbind outcome_bind].
  destruct (Z.ltb_spec (compare (fst x) (fst y)) 0) as [Hc|Hc].
  2: { exists pq. split_and!; [done|by apply shuffled_refl|]. intros i u v H0 Hu Hv.
       destruct (decide (parent i = n)) as [E|E]; [|by apply (Hord i (or_introl E))].
       rewrite E, Hy in Hv. injection Hv as <-. apply (le_trans _ x); [by apply not_lt_le|by apply (Hmin i)]. }
  destruct (swap_spec pq n p y x Hl Hy Hx ltac:(lia)) as (pq1 & -> & Hsh & Hlk). cbn [mbind outcome_bind].
  assert (Hlk' : forall k, heap pq1 !! k = swapped p n x y (heap pq) k).
  { intros k. rewrite Hlk. unfold swapped. destruct (decide (k = p)), (decide (k = n)); try done. lia. }
  destruct (swap_up (heap pq) (heap pq1) p n x y Hp0 Hpar Hx Hlk' (lt_le _ _ Hc) Hmin Hord Hskip) as [Hord1 Hskip1].
  destruct (lesser_child_spec pq1 p) as (p' & -> & Hleast'). cbn [mbind outcome_bind].
  pose proof (shuffled_htop _ _ Hsh) as Htop.
  destruct (IH pq1 p p') as (pq' & -> & Hsh' & Ho); [apply Hsh|lia|lia|done|done|done|].
  exists pq'. split_and!; [done|by eapply shuffled_trans|done].
Qed.

Lemma move_up_spec pq :
  linked pq -> (0 < htop pq)%nat -> (forall i, i <> 0%nat -> parent i <> 0%nat -> ordered_at (heap pq) i) ->
  exists pq', pqueue_move_up pq 0 = Done pq' /\ shuffled pq pq' /\ heap_ordered (heap pq').
Proof.
  intros Hl Hn Hord. unfold pqueue_move_up. destruct (lesser_child_spec pq 0) as (p & -> & Hp). cbn [mbind outcome_bind].
  apply move_up_loop_spec; [done|done|lia|done| |].
  - intros i [Hi|Hi] u v H0; [|lia]. by apply (Hord i); [lia|..].
  - intros c u v H0. lia.
Qed.

(** The root is the least. *)
Lemma root_least l x : heap_ordered l -> l !! 0%nat = Some x -> forall i y, l !! i = Some y -> le x y.
Proof.
  intros Ho Hx i. induction (lt_wf i) as [i _ IH]. intros y Hy. destruct (decide (i = 0%nat)) as [->|Hi].
  - rewrite Hx in Hy. injection Hy as <-. apply le_refl.
  - pose proof (parent_lt i ltac:(lia)) as Hp. pose proof (lookup_lt_Some _ _ _ Hy) as Hlt.
    destruct (lookup_lt_is_Some_2 l (parent i)) as [z Hz]; [lia|].
    apply (le_trans _ z); [by apply (IH (parent i))|]. apply (Ho i); [lia|done|done].
Qed.

(** ** The free elements *)

(** The chain of free elements that starts at [fl]. *)
Fixpoint free_chain (e : list nat) (fl : nat) (locs : list nat) : Prop :=
  match locs with
  | [] => True
  | m :: locs' => fl = m /\ exists link, e !! m = Some link /\ free_chain e link locs'
  end.

Lemma free_chain_ext e e' fl locs :
  (forall m, m ∈ locs -> e' !! m = e !! m) -> free_chain e fl locs -> free_chain e' fl locs.
Proof.
  revert fl. induction locs as [|m locs IH]; intros fl Hext; [done|]. intros (-> & link & Hm & Hc).
  split; [done|]. exists link. split; [rewrite Hext; [done|left]|]. apply IH; [|done].
  intros m' Hm'. apply Hext. by right.
Qed.

Lemma free_chain_bound e fl locs m : free_chain e fl locs -> m ∈ locs -> (m < length e)%nat.
Proof.
  revert fl. induction locs as [|m' locs IH]; intros fl; [by intros _ ?%elem_of_nil|].
  intros (_ & link & Hm' & Hc) [->|Hm]%elem_of_cons; [by eapply lookup_lt_Some|by eapply IH].
Qed.

(** The structure is sound, with [locs] free: every handle is in the heap or in the
    chain, once. *)
Record sound (pq : pqueue) (locs : list nat) : Prop := Sound {
  so_length : length (elements pq) = hmax pq;
  so_linked : linked pq;
  so_max : (8 <= hmax pq)%nat /\ Z.of_nat (hmax pq) <= max_nodes;
  so_chain : free_chain (elements pq) (freelist pq) locs;
  so_nodup : NoDup (handles (heap pq) ++ locs);
  so_count : length (handles (heap pq) ++ locs) = hmax pq
}.

Definition pq_ok (pq : pqueue) : Prop := heap_ordered (heap pq) /\ exists locs, sound pq locs.

Lemma sound_free pq locs m : sound pq locs -> m ∈ locs -> m ∉ handles (heap pq).
Proof. intros [] Hm Hm'. apply NoDup_app in so_nodup0 as (_ & H & _). by apply (H m). Qed.

Lemma sound_handles pq locs : sound pq locs -> NoDup (handles (heap pq)).
Proof. intros []. by apply NoDup_app in so_nodup0 as (H & _). Qed.

Lemma shuffled_sound pq pq' locs : shuffled pq pq' -> sound pq locs -> sound pq' locs.
Proof.
  intros Hsh Hso. pose proof (handles_perm _ _ (sh_heap _ _ Hsh)) as Hh. split.
  - rewrite (sh_length _ _ Hsh), (sh_hmax _ _ Hsh). apply Hso.
  - apply Hsh.
  - rewrite (sh_hmax _ _ Hsh). apply Hso.
  - rewrite (sh_freelist _ _ Hsh). eapply free_chain_ext; [|apply Hso].
    intros m Hm. apply (sh_free _ _ Hsh). by eapply sound_free.
  - rewrite Hh. apply Hso.
  - rewrite Hh, (sh_hmax _ _ Hsh). apply Hso.
Qed.

(** The queue as a map from handles to data. *)
Definition contents (pq : pqueue) : gmap nat A := list_to_map (map (fun x => (snd x, fst x)) (heap pq)).

Lemma contents_fst l : (map (fun x : A * nat => (snd x, fst x)) l).*1 = handles l.
Proof. induction l as [|x l IH]; [done|]. cbn [map fmap list_fmap handles fst]. by rewrite IH. Qed.

Lemma contents_perm pq pq' : NoDup (handles (heap pq)) -> heap pq' ≡ₚ heap pq -> contents pq' = contents pq.
Proof.
  intros Hnd Hp. symmetry. apply list_to_map_proper; [by rewrite contents_fst|]. apply Permutation_map. by symmetry.
Qed.

Lemma contents_lookup pq m d : NoDup (handles (heap pq)) -> contents pq !! m = Some d <-> (d, m) ∈ heap pq.
Proof.
  intros Hnd. unfold contents. rewrite <- elem_of_list_to_map by (by rewrite contents_fst).
  rewrite list_elem_of_fmap. split; [intros ([d' m'] & [= -> ->] & H); done|]. intros H. by exists (d, m).
Qed.

(** ** Growing *)

Lemma growth_spec fuel target current :
  8 <= current <= max_nodes -> target <= current + Z.of_nat fuel ->
  exists r, compute_pqueue_growth fuel target current = Done r /\
    (r = 0 /\ max_nodes < target \/ target <= r <= max_nodes /\ current <= r).
Proof.
  revert current. induction fuel as [|fuel IH]; intros current Hc Hf; cbn [compute_pqueue_growth].
  - rewrite (proj2 (Z.ltb_ge _ _)) by lia. exists current. split; [done|]. lia.
  - destruct (Z.ltb_spec current target) as [Hlt|Hge]; [|exists current; split; [done|lia]].
    destruct (Z.leb_spec max_nodes current); [exists 0; split; [done|lia]|].
    assert (H8 : current + 1 <= current * 8 / 5) by (Z.to_euclidean_division_equations; lia).
    destruct (IH (if max_nodes <=? current * 8 / 5 then max_nodes else current * 8 / 5)) as (r & Hr & Hcase).
    + destruct (Z.leb_spec max_nodes (current * 8 / 5)); lia.
    + destruct (Z.leb_spec max_nodes (current * 8 / 5)); lia.
    + exists r. split; [exact Hr|]. destruct (Z.leb_spec max_nodes (current * 8 / 5)); lia.
Qed.

(** The links the loop of pqueue_add_freelist writes. *)
Lemma links_lookup e a k i :
  fold_left (fun e i => <[i := (i - 1)%nat]> e) (seq a k) e !! i =
    if decide (a <= i < a + k /\ i < length e)%nat then Some (i - 1)%nat else e !! i.
Proof.
  assert (Hlen : forall k, length (fold_left (fun e i => <[i := (i - 1)%nat]> e) (seq a k) e) = length e).
  { clear k. intros k. induction k as [|k IH]; [done|]. rewrite seq_S, fold_left_app. cbn [fold_left].
    by rewrite length_insert. }
  induction k as [|k IH]; [by rewrite decide_False by lia|].
  rewrite seq_S, fold_left_app. cbn [fold_left]. destruct (decide (i = a + k)%nat) as [->|Hne].
  - destruct (decide (a + k < length e)%nat) as [Hl|Hl].
    + rewrite list_lookup_insert_eq by (by rewrite Hlen). by rewrite decide_True by lia.
    + rewrite list_insert_ge by (rewrite Hlen; lia). rewrite IH. by rewrite !decide_False by lia.
  - rewrite list_lookup_insert_ne by lia. rewrite IH. by destruct (decide _), (decide _); try lia.
Qed.

Lemma add_freelist_sound pq locs from :
  linked pq -> free_chain (elements pq) (freelist pq) locs -> NoDup (handles (heap pq) ++ locs) ->
  length (handles (heap pq) ++ locs) = from -> (forall m, m ∈ handles (heap pq) ++ locs -> (m < from)%nat) ->
  length (elements pq) = hmax pq -> (from < hmax pq)%nat -> (8 <= hmax pq)%nat -> Z.of_nat (hmax pq) <= max_nodes ->
  sound (pqueue_add_freelist pq from) (rev (seq from (hmax pq - from)) ++ locs).
Proof.
  intros Hl Hc Hnd Hcount Hbound Hlen Hfrom H8 Hmax.
  set (e' := elements (pqueue_add_freelist pq from)).
  assert (He' : forall i, e' !! i =
    if decide (from < i < hmax pq)%nat then Some (i - 1)%nat
    else if decide (i = from) then Some (freelist pq) else elements pq !! i).
  { intros i. unfold e', pqueue_add_freelist. cbn [elements]. rewrite links_lookup, length_insert, Hlen.
    destruct (decide (from < i < hmax pq)%nat); [by rewrite decide_True by lia|]. rewrite decide_False by lia.
    destruct (decide (i = from)) as [->|Hi]; [by rewrite list_lookup_insert_eq by lia|by rewrite list_lookup_insert_ne]. }
  assert (Hold : forall i, (i < from)%nat -> e' !! i = elements pq !! i)
    by (intros i Hi; rewrite He'; by rewrite !decide_False by lia).
  split.
  - unfold pqueue_add_freelist. cbn [elements hmax]. transitivity (length (<[from:=freelist pq]> (elements pq))); [|by rewrite length_insert].
    generalize (<[from:=freelist pq]> (elements pq)) as e. generalize (seq (from + 1) (hmax pq - (from + 1))) as l.
    induction l as [|x l IH]; intros e; [done|]. cbn [fold_left]. by rewrite IH, length_insert.
  - intros i x Hx. cbn [heap] in Hx. change (e' !! snd x = Some i). rewrite Hold; [by apply Hl|].
    apply Hbound, elem_of_app. left. by eapply lookup_handle.
  - done.
  - change (free_chain e' (hmax pq - 1) (rev (seq from (hmax pq - from)) ++ locs)).
    assert (Hgo : forall k, (0 < k)%nat -> (from + k <= hmax pq)%nat -> free_chain e' (from + k - 1) (rev (seq from k) ++ locs)).
    { induction k as [|k IH]; intros Hk Hle; [lia|]. rewrite seq_S, rev_app_distr. cbn [rev app free_chain].
      split; [lia|]. rewrite He'. destruct (decide (k = 0)%nat) as [->|Hk0].
      - rewrite decide_False by lia. rewrite decide_True by lia. exists (freelist pq). split; [done|].
        eapply free_chain_ext; [|exact Hc]. intros m Hm. apply Hold, Hbound, elem_of_app. by right.
      - rewrite decide_True by lia. exists (from + k - 1)%nat. split; [done|]. apply IH; lia. }
    replace (hmax pq - 1)%nat with (from + (hmax pq - from) - 1)%nat by lia. apply Hgo; lia.
  - cbn [heap pqueue_add_freelist]. apply NoDup_app in Hnd as (Hn1 & Hn2 & Hn3).
    assert (Hseq : forall m, m ∈ rev (seq from (hmax pq - from)) -> (from <= m)%nat).
    { intros m Hm. rewrite list_elem_of_In, <- in_rev, in_seq in Hm. lia. }
    apply NoDup_app. split; [done|]. split.
    + intros m Hm [Hm'|Hm']%elem_of_app; [|by apply (Hn2 m)]. apply Hseq in Hm'.
      pose proof (Hbound m ltac:(apply elem_of_app; by left)). lia.
    + apply NoDup_app. split; [apply NoDup_ListNoDup, List.NoDup_rev, seq_NoDup|]. split; [|done].
      intros m Hm Hm'. apply Hseq in Hm. pose proof (Hbound m ltac:(apply elem_of_app; by right)). lia.
  - cbn [heap hmax pqueue_add_freelist]. rewrite !length_app, length_rev, length_seq in *. lia.
Qed.

Lemma sound_bound pq locs m : sound pq locs -> m ∈ handles (heap pq) ++ locs -> (m < hmax pq)%nat.
Proof.
  intros Hso [Hm|Hm]%elem_of_app; rewrite <- (so_length _ _ Hso).
  - apply list_elem_of_fmap in Hm as ([d m'] & -> & Hm). apply list_elem_of_lookup_1 in Hm as [i Hi].
    eapply lookup_lt_Some, (so_linked _ _ Hso), Hi.
  - eapply free_chain_bound; [apply Hso|done].
Qed.

(** Making room: done, or refused for want of memory or at the greatest size. *)
Lemma reserve_spec alloc indet pq locs :
  sound pq locs ->
  ossl_pqueue_reserve alloc indet pq 1 = Done (0, pq) /\
    (alloc = false \/ Z.of_nat (hmax pq) = max_nodes) /\ (hmax pq <= htop pq + 1)%nat \/
  exists pq' m locs', ossl_pqueue_reserve alloc indet pq 1 = Done (1, pq') /\ heap pq' = heap pq /\ sound pq' (m :: locs').
Proof.
  intros Hso. pose proof (so_max _ _ Hso) as [H8 Hm]. unfold ossl_pqueue_reserve.
  assert (Hcount : (htop pq + length locs)%nat = hmax pq).
  { rewrite <- (so_count _ _ Hso), length_app. unfold handles. by rewrite length_map. }
  destruct (Nat.ltb_spec (htop pq + 1) (hmax pq)) as [Hlt|Hge].
  { right. destruct locs as [|m locs]; [simpl in Hcount; lia|]. by exists pq, m, locs. }
  destruct (growth_spec 1 (Z.of_nat (1 + hmax pq)) (Z.of_nat (hmax pq))) as (r & Hr & Hcase); [lia|lia|].
  rewrite Hr. cbn [mbind outcome_bind]. destruct (Z.eqb_spec r 0) as [->|Hr0]; [left; split_and!; [done|right; lia|done]|].
  destruct alloc; cbn [negb]; [right|left; split_and!; [done|by left|done]].
  set (e := elements pq ++ map indet (seq (hmax pq) (Z.to_nat r - hmax pq))).
  set (pq1 := Pqueue (heap pq) e (Z.to_nat r) (freelist pq)).
  assert (He : forall m, (m < hmax pq)%nat -> e !! m = elements pq !! m)
    by (intros m Hm'; apply lookup_app_l; by rewrite (so_length _ _ Hso)).
  assert (Hso' : sound (pqueue_add_freelist pq1 (hmax pq)) (rev (seq (hmax pq) (Z.to_nat r - hmax pq)) ++ locs)).
  { apply add_freelist_sound; cbn [heap elements freelist hmax pq1]; try lia.
    - intros i x Hx. cbn [heap elements] in *. rewrite He; [by apply (so_linked _ _ Hso)|].
      apply (sound_bound _ _ _ Hso), elem_of_app. left. by eapply lookup_handle.
    - eapply free_chain_ext; [|apply Hso]. intros m Hm'. apply He, (sound_bound _ _ _ Hso), elem_of_app. by right.
    - apply Hso.
    - apply Hso.
    - intros m Hm'. by apply (sound_bound _ _ _ Hso).
    - unfold e. rewrite length_app, length_map, length_seq, (so_length _ _ Hso). lia. }
  assert (Hne : (0 < Z.to_nat r - hmax pq)%nat) by lia.
  destruct (Z.to_nat r - hmax pq)%nat as [|k] eqn:Ek; [lia|]. rewrite seq_S, rev_app_distr in Hso'. cbn [rev app] in Hso'.
  eexists _, _, _. split; [reflexivity|]. split; [done|exact Hso'].
Qed.

(** ** The operations *)

Lemma contents_cons pq pq' d m :
  NoDup (handles (heap pq')) -> heap pq' ≡ₚ (d, m) :: heap pq -> contents pq' = <[m := d]> (contents pq).
Proof.
  intros Hnd Hp. unfold contents. rewrite (list_to_map_proper _ (map (fun x => (snd x, fst x)) ((d, m) :: heap pq))).
  - done.
  - by rewrite contents_fst.
  - by apply Permutation_map.
Qed.

Lemma new_ok indet : pq_ok (ossl_pqueue_new indet) /\ contents (ossl_pqueue_new indet) = ∅.
Proof.
  split; [|done]. split; [by intros i x y _ ?|]. eexists. apply (add_freelist_sound _ [] 0);
    [by intros i x ?|done|apply NoDup_nil_2|done|by intros m ?%elem_of_nil|done|cbn; unfold min_nodes; lia|cbn; unfold min_nodes; lia|].
  unfold max_nodes; cbn; unfold min_nodes; lia.
Qed.

Lemma push_spec alloc indet pq data :
  pq_ok pq ->
  ossl_pqueue_push alloc indet pq data = Done (0, 0%nat, pq) /\
    (alloc = false \/ Z.of_nat (hmax pq) = max_nodes) /\ (hmax pq <= htop pq + 1)%nat \/
  exists m pq', ossl_pqueue_push alloc indet pq data = Done (1, m, pq') /\ pq_ok pq' /\
    m ∉ handles (heap pq) /\ heap pq' ≡ₚ (data, m) :: heap pq.
Proof.
  intros [Ho [locs Hso]]. unfold ossl_pqueue_push.
  destruct (reserve_spec alloc indet pq locs Hso) as [[-> Hcase]|(pq1 & m & locs1 & -> & Hheap & Hso1)]; [by left|right].
  cbn [mbind outcome_bind]. change (1 =? 0) with false. cbv iota.
  destruct (so_chain _ _ Hso1) as (-> & link & Hlink & Hchain). rewrite Hlink.
  rewrite (set_posn_done _ _ _ _ Hlink). cbn [mbind outcome_bind].
  assert (Hm : m ∉ handles (heap pq1)) by (apply (sound_free _ _ _ Hso1); left).
  set (n := htop pq1). set (pq2 := Pqueue (heap pq1 ++ [(data, m)]) (<[m := n]> (elements pq1)) (hmax pq1) link).
  assert (Htop : htop pq2 = S n) by (unfold htop, pq2; cbn [heap]; rewrite length_app; simpl; unfold n, htop; lia).
  pose proof (so_nodup _ _ Hso1) as Hnd. pose proof (so_count _ _ Hso1) as Hcount.
  assert (Hso2 : sound pq2 locs1).
  { split; cbn [elements heap hmax freelist pq2].
    - rewrite length_insert. apply Hso1.
    - intros i x. cbn [heap elements pq2]. intros Hx. apply lookup_app_Some in Hx as [Hx|[Hge Hx]].
      + rewrite list_lookup_insert_ne; [by apply (so_linked _ _ Hso1)|]. intros E. apply Hm. rewrite E. by eapply lookup_handle.
      + destruct (i - length (heap pq1))%nat as [|k] eqn:E; [|destruct k; discriminate Hx]. injection Hx as <-. cbn [snd].
        rewrite list_lookup_insert_eq by (by eapply lookup_lt_Some). f_equal. unfold n, htop. lia.
    - apply Hso1.
    - eapply free_chain_ext; [|exact Hchain]. intros m' Hm'. apply list_lookup_insert_ne. intros ->.
      apply NoDup_app in Hnd as (_ & _ & Hnd). by apply NoDup_cons in Hnd as [? _].
    - unfold handles in *. rewrite map_app, <- app_assoc. exact Hnd.
    - unfold handles in *. rewrite map_app, <- app_assoc. exact Hcount. }
  destruct (move_down_spec n pq2 n) as (pq' & Hmd & Hsh & Ho'); [apply Hso2|lia|lia| | |].
  - intros i Hi x y H0 Hx Hy. cbn [heap pq2] in Hx, Hy. rewrite Hheap in *.
    assert (Hlt : (i < length (heap pq))%nat).
    { apply lookup_lt_Some in Hx. rewrite length_app in Hx. unfold n, htop in Hi. rewrite Hheap in Hi. simpl in Hx. lia. }
    pose proof (parent_lt i H0). rewrite lookup_app_l in Hx, Hy by lia. by apply (Ho i).
  - intros c x y H0 H0c Hp Hx _. apply lookup_lt_Some in Hx. change (length (heap pq2)) with (htop pq2) in Hx.
    pose proof (parent_lt c H0c). lia.
  - fold pq2 n. rewrite Hmd. cbn [mbind outcome_bind]. exists m, pq'. split; [done|]. split.
    + split; [done|]. exists locs1. by eapply shuffled_sound.
    + rewrite <- Hheap. split; [done|]. rewrite (sh_heap _ _ Hsh). cbn [heap pq2]. by rewrite Permutation_app_comm.
Qed.

(** Taking the root, whatever its datum. *)
Lemma pop_root pq locs res elem :
  sound pq locs -> heap pq !! 0%nat = Some (res, elem) ->
  (forall i, i <> 0%nat -> parent i <> 0%nat -> ordered_at (heap pq) i) ->
  exists pq', ossl_pqueue_pop pq = Done (Some res, pq') /\ pq_ok pq' /\ heap pq ≡ₚ (res, elem) :: heap pq'.
Proof.
  intros Hso Hroot Hord. destruct (heap pq) as [|r rest] eqn:Eheap; [done|]. injection Hroot as ->.
  pose proof (so_linked _ _ Hso) as Hl. pose proof (so_nodup _ _ Hso) as Hnd. rewrite Eheap in Hnd. cbn [handles map snd] in Hnd.
  pose proof (Hl 0%nat (res, elem) ltac:(by rewrite Eheap)) as Helem. cbn [snd] in Helem.
  unfold ossl_pqueue_pop. rewrite Eheap. unfold htop. rewrite Eheap. cbn [length]. rewrite Nat.sub_1_r. cbn [pred].
  assert (Hchain : forall e, length e = hmax pq -> (forall m, m ∈ locs -> e !! m = elements pq !! m) ->
    free_chain (<[elem := freelist pq]> e) elem (elem :: locs)).
  { intros e Hlen He. split; [done|]. exists (freelist pq). split.
    - apply list_lookup_insert_eq. rewrite Hlen, <- (so_length _ _ Hso). by eapply lookup_lt_Some.
    - eapply free_chain_ext; [|apply Hso]. intros m Hm. rewrite list_lookup_insert_ne; [by apply He|].
      intros <-. apply NoDup_cons in Hnd as [Hnd _]. apply Hnd, elem_of_app. by right. }
  assert (Hcount : length (handles rest ++ elem :: locs) = hmax pq).
  { pose proof (so_count _ _ Hso) as Hc. rewrite Eheap in Hc. cbn [handles map app length] in Hc.
    rewrite length_app in *. cbn [length]. unfold handles. lia. }
  assert (Hnd' : NoDup (handles rest ++ elem :: locs)) by (by rewrite <- Permutation_middle).
  destruct rest as [|r0 rest0].
  { cbn [length Nat.eqb negb mbind outcome_bind]. cbn [elements freelist heap hmax].
    rewrite (set_posn_done _ _ _ _ Helem). cbn [mbind outcome_bind].
    eexists. split; [reflexivity|]. split; [|done]. split; [by intros i x y _ ?|]. exists (elem :: locs).
    split; cbn [elements heap hmax freelist]; try done.
    - rewrite length_insert. apply Hso.
    - apply Hso.
    - by apply Hchain; [apply Hso|]. }
  destruct (exists_last (l := r0 :: rest0) ltac:(done)) as (mid & x & Erest). rewrite Erest in *. clear r0 rest0 Erest.
  assert (Hlast : heap pq !! S (length mid) = Some x).
  { rewrite Eheap. change ((mid ++ [x]) !! length mid = Some x). rewrite lookup_app_r by lia. by rewrite Nat.sub_diag. }
  pose proof (Hl _ _ Hlast) as Hx. rewrite Eheap in Hlast.
  rewrite length_app, Nat.add_1_r. cbn [Nat.eqb negb length]. rewrite Hlast.
  rewrite (set_posn_done _ _ _ _ Hx). cbn [mbind outcome_bind].
  assert (Etake : <[0%nat := x]> (take (S (length mid)) ((res, elem) :: mid ++ [x])) = x :: mid)
    by (cbn [take]; by rewrite take_app_length).
  rewrite Etake. set (pq1 := Pqueue (x :: mid) (<[snd x := 0%nat]> (elements pq)) (hmax pq) (freelist pq)).
  assert (Hperm1 : handles (mid ++ [x]) ≡ₚ handles (x :: mid))
    by (unfold handles; rewrite map_app; by rewrite Permutation_app_comm).
  rewrite Hperm1 in Hnd, Hnd'. apply NoDup_cons in Hnd as [Helem' _].
  assert (Hxmid : snd x ∉ handles mid /\ snd x ∉ locs /\ snd x <> elem).
  { cbn [handles map app] in Hnd'. apply NoDup_cons in Hnd' as [H _]. rewrite elem_of_app, elem_of_cons in H.
    split_and!; intros H'; apply H; [by left|by right; right|by right; left]. }
  destruct Hxmid as (Hxmid & Hxlocs & Hxelem).
  assert (Hmid : forall k z, mid !! k = Some z -> heap pq !! S k = Some z).
  { intros k z Hz. rewrite Eheap. change ((mid ++ [x]) !! k = Some z). by apply lookup_app_l_Some. }
  destruct (move_up_spec pq1) as (pq2 & Hmu & Hsh & Ho2).
  { intros [|k] z Hz; cbn [heap elements pq1] in *.
    - injection Hz as <-. apply list_lookup_insert_eq. by eapply lookup_lt_Some.
    - rewrite list_lookup_insert_ne; [by apply Hl, Hmid|]. intros E. apply Hxmid. rewrite E. by eapply lookup_handle. }
  { unfold htop. simpl. lia. }
  { intros [|i] Hi Hpi; [done|]. intros u v H0 Hu Hv. cbn [heap pq1] in Hu, Hv. change (mid !! i = Some u) in Hu.
    destruct (parent (S i)) as [|pi] eqn:Ep; [done|]. change (mid !! pi = Some v) in Hv.
    apply (Hord (S i)); [done|by rewrite Ep|done|rewrite <- Eheap; by apply Hmid|]. rewrite Ep, <- Eheap. by apply Hmid. }
  change (Pqueue (x :: mid) (<[snd x:=0%nat]> (elements pq)) (hmax pq) (freelist pq)) with pq1. rewrite Hmu.
  cbn [mbind outcome_bind].
  assert (Hsame : forall m, m ∉ handles (x :: mid) -> elements pq2 !! m = elements pq !! m).
  { intros m Hm. rewrite (sh_free _ _ Hsh m Hm). cbn [elements pq1]. apply list_lookup_insert_ne. intros <-.
    apply Hm. by left. }
  assert (Helem2 : elements pq2 !! elem = Some 0%nat).
  { rewrite Hsame; [done|]. intros H. apply Helem', elem_of_app. by left. }
  rewrite (set_posn_done _ _ _ _ Helem2). cbn [mbind outcome_bind]. rewrite (sh_freelist _ _ Hsh). cbn [freelist pq1].
  pose proof (handles_perm _ _ (sh_heap _ _ Hsh)) as Hh2. cbn [heap pq1] in Hh2.
  eexists. split; [reflexivity|]. split.
  - split; [exact Ho2|]. exists (elem :: locs). split; cbn [elements heap hmax freelist].
    + rewrite length_insert, (sh_length _ _ Hsh), (sh_hmax _ _ Hsh). cbn [elements hmax pq1]. rewrite length_insert. apply Hso.
    + intros i z Hz. cbn [heap elements] in *. rewrite list_lookup_insert_ne; [by apply (sh_linked _ _ Hsh)|].
      intros E. apply Helem', elem_of_app. left. rewrite <- Hh2, E. by eapply lookup_handle.
    + rewrite (sh_hmax _ _ Hsh). apply Hso.
    + apply Hchain.
      * rewrite (sh_length _ _ Hsh). cbn [elements pq1]. rewrite length_insert. apply Hso.
      * intros m Hm. apply Hsame. intros H. apply (sound_free _ _ _ Hso Hm). rewrite Eheap. cbn [handles map]. right.
        change (m ∈ handles (mid ++ [x])). by rewrite Hperm1.
    + by rewrite Hh2.
    + rewrite Hh2, (sh_hmax _ _ Hsh). cbn [hmax pq1]. rewrite <- Hcount. by rewrite Hperm1.
  - cbn [heap]. rewrite (sh_heap _ _ Hsh). cbn [heap pq1]. constructor. by rewrite Permutation_app_comm.
Qed.

Lemma pop_spec pq :
  pq_ok pq ->
  heap pq = [] /\ ossl_pqueue_pop pq = Done (None, pq) \/
  exists d m pq', ossl_pqueue_pop pq = Done (Some d, pq') /\ pq_ok pq' /\ heap pq ≡ₚ (d, m) :: heap pq' /\
    forall x, x ∈ heap pq -> le (d, m) x.
Proof.
  intros [Ho [locs Hso]]. destruct (heap pq) as [|[d m] rest] eqn:E.
  { left. unfold ossl_pqueue_pop. by rewrite E. }
  right. rewrite <- E in *. assert (Hroot : heap pq !! 0%nat = Some (d, m)) by (by rewrite E).
  destruct (pop_root pq locs d m Hso Hroot) as (pq' & Hpop & Hok & Hp); [intros i _ _; apply Ho|].
  exists d, m, pq'. split_and!; [done|done|done|]. intros x Hx. apply list_elem_of_lookup_1 in Hx as [i Hi].
  by eapply root_least.
Qed.

Lemma remove_spec pq d elem :
  pq_ok pq -> (d, elem) ∈ heap pq ->
  exists pq', ossl_pqueue_remove pq elem = Done (Some d, pq') /\ pq_ok pq' /\ heap pq ≡ₚ (d, elem) :: heap pq'.
Proof.
  intros [Ho [locs Hso]] Hin. apply list_elem_of_lookup_1 in Hin as [n Hn].
  pose proof (so_linked _ _ Hso _ _ Hn) as Helem. cbn [snd] in Helem.
  pose proof (lookup_lt_Some _ _ _ Helem) as Hlt. pose proof (lookup_lt_Some _ _ _ Hn) as Hnlt.
  unfold ossl_pqueue_remove. rewrite (proj2 (Nat.leb_gt _ _)) by (rewrite <- (so_length _ _ Hso); lia).
  rewrite (proj2 (Nat.eqb_neq (htop pq) 0)) by (unfold htop; lia). cbn [orb]. rewrite Helem.
  destruct (Nat.eqb_spec n (htop pq - 1)) as [E|E].
  - rewrite Hn, (set_posn_done _ _ _ _ Helem). cbn [mbind outcome_bind fst].
    assert (Eheap : heap pq = take n (heap pq) ++ [(d, elem)]).
    { rewrite <- (take_drop n (heap pq)) at 1. f_equal. rewrite (drop_S _ _ _ Hn). f_equal. apply drop_ge. unfold htop in E. lia. }
    assert (Hperm : heap pq ≡ₚ (d, elem) :: take n (heap pq)) by (rewrite Eheap at 1; by rewrite Permutation_app_comm).
    eexists. split; [reflexivity|]. split; [|exact Hperm].
    pose proof (handles_perm _ _ Hperm) as Hh. cbn [handles map snd] in Hh. fold (handles (take n (heap pq))) in Hh.
    pose proof (so_nodup _ _ Hso) as Hnd. rewrite Hh in Hnd. cbn [app] in Hnd. pose proof Hnd as [Hne _]%NoDup_cons.
    split.
    + intros i x y H0 Hx Hy. cbn [heap] in Hx, Hy. apply lookup_take_Some in Hx as [Hx _], Hy as [Hy _]. by apply (Ho i).
    + exists (elem :: locs). split; cbn [elements heap hmax freelist].
      * rewrite length_insert. apply Hso.
      * intros i z Hz. cbn [heap elements] in *. rewrite list_lookup_insert_ne.
        -- apply lookup_take_Some in Hz as [Hz _]. by apply (so_linked _ _ Hso).
        -- intros E'. apply Hne, elem_of_app. left. rewrite E'. by eapply lookup_handle.
      * apply Hso.
      * split; [done|]. exists (freelist pq). split; [by apply list_lookup_insert_eq|].
        eapply free_chain_ext; [|apply Hso]. intros m Hm. apply list_lookup_insert_ne. intros <-. apply Hne, elem_of_app. by right.
      * by rewrite <- Permutation_middle.
      * rewrite <- (so_count _ _ Hso), Hh, <- Permutation_middle. done.
  - destruct (force_bottom_spec n pq n (d, elem)) as (pq1 & -> & Hsh & Hroot & Hord);
      [apply Hso|done|lia|by intros i _ _|by apply ordered_skips; [|intros c _ _]|].
    cbn [mbind outcome_bind].
    destruct (pop_root pq1 locs d elem) as (pq' & Hpop & Hok & Hp); [by eapply shuffled_sound|done|done|].
    exists pq'. split_and!; [done|done|]. by rewrite <- (sh_heap _ _ Hsh).
Qed.

(** C23: The queue is a finite map from handles to data of which the least datum can be
    taken (a new queue is the empty map, [new_ok]): pushing adds the datum under a handle that
    was not in use, unless memory or the size of an array does not allow one more
    element; popping gives nothing on the empty queue, and otherwise removes some
    handle whose datum is at most every other; removing a handle in use gives its
    datum.  None of them leaves an array, loses a free element or disturbs the
    order of the heap. *)
Theorem pqueue_refines pq :
  pq_ok pq ->
  (forall alloc indet data,
     ossl_pqueue_push alloc indet pq data = Done (0, 0%nat, pq) /\
       (alloc = false \/ Z.of_nat (hmax pq) = max_nodes) /\ (hmax pq <= htop pq + 1)%nat \/
     exists m pq', ossl_pqueue_push alloc indet pq data = Done (1, m, pq') /\ pq_ok pq' /\
       contents pq !! m = None /\ contents pq' = <[m := data]> (contents pq)) /\
  (contents pq = ∅ /\ ossl_pqueue_pop pq = Done (None, pq) \/
   exists d m pq', ossl_pqueue_pop pq = Done (Some d, pq') /\ pq_ok pq' /\
     contents pq !! m = Some d /\ contents pq' = delete m (contents pq) /\
     forall m' d', contents pq !! m' = Some d' -> compare d d' <= 0) /\
  (forall elem d, contents pq !! elem = Some d ->
     exists pq', ossl_pqueue_remove pq elem = Done (Some d, pq') /\ pq_ok pq' /\
       contents pq' = delete elem (contents pq)).
Proof.
  intros Hok. pose proof Hok as [_ [locs Hso]]. pose proof (sound_handles _ _ Hso) as Hnd.
  assert (Hnone : forall q m, NoDup (handles (heap q)) -> m ∉ handles (heap q) -> contents q !! m = None).
  { intros q m Hq Hm. destruct (contents q !! m) as [d|] eqn:E; [|done]. apply contents_lookup in E; [|done].
    exfalso. apply Hm, list_elem_of_fmap. by exists (d, m). }
  assert (Hdel : forall q d m, heap pq ≡ₚ (d, m) :: heap q -> contents pq !! m = Some d /\ contents q = delete m (contents pq)).
  { intros q d m Hp. assert (Hh : NoDup (m :: handles (heap q))) by (rewrite <- (handles_perm _ _ Hp) at 1; done).
    rewrite (contents_cons q pq d m Hnd Hp). apply NoDup_cons in Hh as [Hm Hq].
    rewrite lookup_insert_eq. split; [done|]. by rewrite delete_insert_id by (by apply Hnone). }
  split_and!.
  - intros alloc indet data. destruct (push_spec alloc indet pq data Hok) as [?|(m & pq' & Hpush & Hok' & Hm & Hp)]; [by left|right].
    exists m, pq'. split_and!; [done|done|by apply Hnone|]. apply contents_cons; [|done].
    destruct Hok' as [_ [locs' Hso']]. by eapply sound_handles.
  - destruct (pop_spec pq Hok) as [[E Hpop]|(d & m & pq' & Hpop & Hok' & Hp & Hmin)]; [left|right].
    + split; [|done]. unfold contents. by rewrite E.
    + destruct (Hdel pq' d m Hp) as [Hm Hc]. exists d, m, pq'. split_and!; [done..|]. intros m' d' H.
      apply contents_lookup in H; [|done]. apply (Hmin _ H).
  - intros elem d H. apply contents_lookup in H; [|done]. destruct (remove_spec pq d elem Hok H) as (pq' & Hr & Hok' & Hp).
    exists pq'. split_and!; [done|done|]. by apply (Hdel pq' d elem).
Qed.
(** ** Sorting *)

Fixpoint push_all (indet : nat -> nat) (pq : pqueue) (input : list A) : outcome pqueue :=
  match input with
  | [] => Done pq
  | x :: input' =>
      '(_, _, pq) ← ossl_pqueue_push true indet pq x;
      push_all indet pq input'
  end.

Fixpoint pop_all (fuel : nat) (pq : pqueue) : outcome (list A) :=
  match fuel with
  | O => NoFuel
  | S fuel' =>
      '(x, pq) ← ossl_pqueue_pop pq;
      match x with
      | None => Done []
      | Some d => out ← pop_all fuel' pq; Done (d :: out)
      end
  end.

Lemma push_all_spec indet pq input :
  pq_ok pq -> Z.of_nat (htop pq + length input) < max_nodes ->
  exists pq', push_all indet pq input = Done pq' /\ pq_ok pq' /\ map fst (heap pq') ≡ₚ input ++ map fst (heap pq).
Proof.
  revert pq. induction input as [|x input IH]; intros pq Hok Hlen; [by exists pq|]. cbn [push_all length] in *.
  destruct (push_spec true indet pq x Hok) as [(_ & [?|Hmax] & Hge)|(m & pq1 & -> & Hok1 & _ & Hp)]; [done|lia|].
  cbn [mbind outcome_bind]. pose proof (Permutation_length Hp) as Htop. cbn [length] in Htop.
  destruct (IH pq1 Hok1) as (pq' & -> & Hok' & Hp'); [unfold htop in *; lia|]. exists pq'. split_and!; [done|done|].
  rewrite Hp', Hp. cbn [map fst app]. by rewrite Permutation_middle.
Qed.

Lemma pop_all_spec fuel pq :
  pq_ok pq -> (htop pq < fuel)%nat ->
  exists out, pop_all fuel pq = Done out /\ out ≡ₚ map fst (heap pq) /\ StronglySorted (fun x y => compare x y <= 0) out.
Proof.
  revert pq. induction fuel as [|fuel IH]; intros pq Hok Hf; [lia|]. cbn [pop_all].
  destruct (pop_spec pq Hok) as [[E ->]|(d & m & pq' & -> & Hok' & Hp & Hmin)]; cbn [mbind outcome_bind].
  { exists []. rewrite E. split_and!; [done|done|constructor]. }
  pose proof (Permutation_length Hp) as Htop. cbn [length] in Htop.
  destruct (IH pq' Hok') as (out & -> & Hout & Hsort); [unfold htop in *; lia|]. cbn [mbind outcome_bind].
  exists (d :: out). split; [done|]. split; [by rewrite Hp, Hout|]. constructor; [done|].
  apply List.Forall_forall. intros x Hx. rewrite Hout in Hx. apply list_elem_of_In in Hx.
  apply list_elem_of_fmap in Hx as (y & -> & Hy). apply (Hmin y). rewrite Hp. by right.
Qed.

(** Pushing data to a new queue and popping it until it is empty sorts it, if
    there are fewer data than the greatest size of the arrays and memory
    suffices: nothing is lost or added, no data come before lesser ones, and the
    loops of the queue end. *)
Theorem pqueue_sorts indet input :
  Z.of_nat (length input) < max_nodes ->
  exists out,
    (pq ← push_all indet (ossl_pqueue_new indet) input; pop_all (S (length input)) pq) = Done out /\
    out ≡ₚ input /\ StronglySorted (fun x y => compare x y <= 0) out.
Proof.
  intros Hlen. destruct (new_ok indet) as [Hok _].
  destruct (push_all_spec indet (ossl_pqueue_new indet) input Hok Hlen) as (pq & -> & Hok' & Hp).
  cbn [heap ossl_pqueue_new pqueue_add_freelist map] in Hp. rewrite app_nil_r in Hp. cbn [mbind outcome_bind].
  destruct (pop_all_spec (S (length input)) pq Hok') as (out & -> & Hout & Hs).
  { unfold htop. rewrite <- Hp. unfold handles. rewrite length_map. lia. }
  exists out. split_and!; [done|by rewrite Hout|done].
Qed.
End pqueue.

Arguments pqueue A : clear implicits.

(** ** Inputs *)

Definition by_value : Comparison Z := fun x y => x - y.

Lemma by_value_laws : ComparisonLaws Z by_value.
Proof. split; unfold compare, by_value; intros; lia. Qed.

(** A queue after two pushes. *)
Definition demo_queue : pqueue Z :=
  match (push_all (C := by_value) id (ossl_pqueue_new id) [5; 3]) with
  | Done pq => pq
  | _ => ossl_pqueue_new id
  end.

Lemma demo_queue_ok : pq_ok (C := by_value) demo_queue.
Proof.
  destruct (@push_all_spec Z by_value by_value_laws id (ossl_pqueue_new id) [5; 3]) as (pq & E & H & _).
  - by apply new_ok.
  - vm_compute. reflexivity.
  - unfold demo_queue. by rewrite E.
Qed.

Lemma pqueue_refines_witness :
  exists m pq', ossl_pqueue_push (C := by_value) true id demo_queue 4 = Done (1, m, pq') /\
    contents pq' = <[m := 4]> (contents demo_queue).
Proof.
  destruct (proj1 (@pqueue_refines Z by_value by_value_laws demo_queue demo_queue_ok) true id 4)
    as [(H & _)|(m & pq' & H & _ & _ & Hc)]; [discriminate H|]. exists m, pq'. split; [exact H|exact Hc].
Defined.

Lemma pqueue_sorts_witness :
  exists out,
    (pq ← push_all (C := by_value) id (ossl_pqueue_new id) [5; 3; 4]; pop_all (C := by_value) 4 pq) = Done out /\
    out ≡ₚ [5; 3; 4] /\ out = [3; 4; 5].
Proof.
  destruct (@pqueue_sorts Z by_value by_value_laws id [5; 3; 4] eq_refl) as (out & H & Hp & _).
  exists out. split; [exact H|]. split; [exact Hp|]. vm_compute in H. injection H as H. symmetry. exact H.
Defined.
