(* ===== verification/Lhash.v ===== *)
(** * Hash tables (crypto/lhash/lhash.c)

    Linear hashing: a table that grows by one bucket when its load is high and
    shrinks by one when it is low.  A chain is the list of its nodes, since no
    node is shared; the contract is a finite map from the keys that the comparison
    of the user distinguishes to the data last inserted. *)

From Stdlib Require Import ZifyNat.
From S2P Require Import Prelude.

(** The callbacks of a table that respect a key: the comparison answers 0 exactly
    on equal keys, and equal keys have equal hashes. *)
Class LhLaws {D : Type} (K : Type) (hash : D -> Z) (comp : D -> D -> Z) := {
  lkey : D -> K;
  comp_key : forall x y, comp x y = 0 <-> lkey x = lkey y;
  hash_key : forall x y, lkey x = lkey y -> hash x = hash y
}.

Section lhash.
(** The data, the argument that doall_arg passes on, and what a callback does. *)
Context {D A E : Type}.

Record node := Node { data : D; nhash : Z }.

(** The functions of the user, and the thunks through which they are called. *)
Record functions := Functions {
  comp : D -> D -> Z;
  hash : D -> Z;
  hashw : option (D -> (D -> Z) -> Z);
  compw : option (D -> D -> (D -> D -> Z) -> Z);
  daw : option (D -> (D -> list E) -> list E);
  daaw : option (D -> A -> (D -> A -> list E) -> list E)
}.

Record OPENSSL_LHASH := Lhash {
  b : list (list node);
  funs : functions;
  num_nodes : Z;
  num_alloc_nodes : Z;
  p : Z;
  pmax : Z;
  up_load : Z;
  down_load : Z;
  num_items : Z;
  error : Z
}.

Definition LH_LOAD_MULT : Z := 256.
Definition MIN_NODES : Z := 16.
Definition UP_LOAD : Z := 2 * LH_LOAD_MULT.
Definition DOWN_LOAD : Z := LH_LOAD_MULT.

Definition set_b (bs : list (list node)) (lh : OPENSSL_LHASH) : OPENSSL_LHASH :=
  Lhash bs (funs lh) (num_nodes lh) (num_alloc_nodes lh) (p lh) (pmax lh)
    (up_load lh) (down_load lh) (num_items lh) (error lh).
Definition set_num_items (n : Z) (lh : OPENSSL_LHASH) : OPENSSL_LHASH :=
  Lhash (b lh) (funs lh) (num_nodes lh) (num_alloc_nodes lh) (p lh) (pmax lh)
    (up_load lh) (down_load lh) n (error lh).
Definition set_error (e : Z) (lh : OPENSSL_LHASH) : OPENSSL_LHASH :=
  Lhash (b lh) (funs lh) (num_nodes lh) (num_alloc_nodes lh) (p lh) (pmax lh)
    (up_load lh) (down_load lh) (num_items lh) e.

(** The thunks that the macros of lhash.h pass: they cast and call. *)
Definition hfn_thunk (d : D) (hfn : D -> Z) : Z := hfn d.
Definition cfn_thunk (da db : D) (cfn : D -> D -> Z) : Z := cfn da db.
Definition doall_thunk (d : D) (doall : D -> list E) : list E := doall d.
Definition doall_arg_thunk (d : D) (arg : A) (doall : D -> A -> list E) : list E := doall d arg.

Definition OPENSSL_LH_set_thunks (lh : option OPENSSL_LHASH) hw cw da daa : option OPENSSL_LHASH :=
  match lh with
  | None => None
  | Some lh =>
      Some (Lhash (b lh) (Functions (comp (funs lh)) (hash (funs lh)) hw cw da daa)
        (num_nodes lh) (num_alloc_nodes lh) (p lh) (pmax lh)
        (up_load lh) (down_load lh) (num_items lh) (error lh))
  end.

(** [zalloc1] and [zalloc2] tell whether the two allocations succeed; [strhash]
    and [strcmp] are the functions taken when the caller passes none. *)
Definition OPENSSL_LH_new (strhash : D -> Z) (strcmp : D -> D -> Z) (zalloc1 zalloc2 : bool)
    (h : option (D -> Z)) (c : option (D -> D -> Z)) : option OPENSSL_LHASH :=
  if negb zalloc1 then None
  else if negb zalloc2 then None
  else
    Some {|
      b := replicate (Z.to_nat MIN_NODES) [];
      funs := {|
        comp := default strcmp c; hash := default strhash h;
        hashw := None; compw := None; daw := None; daaw := None |};
      num_nodes := MIN_NODES / 2; num_alloc_nodes := MIN_NODES; p := 0; pmax := MIN_NODES / 2;
      up_load := UP_LOAD; down_load := DOWN_LOAD; num_items := 0; error := 0 |}.

(** [lh->b[i]] read and written. *)
Definition bucket (bs : list (list node)) (i : Z) : outcome (list node) :=
  match bs !! Z.to_nat i with Some c => Done c | None => Crash OverRead end.
Definition set_bucket (bs : list (list node)) (i : Z) (c : list node) : outcome (list (list node)) :=
  if (Z.to_nat i <? length bs)%nat then Done (<[Z.to_nat i := c]> bs) else Crash BufferOverflow.

Definition hash_of (f : functions) (d : D) : Z :=
  match hashw f with Some w => w d (hash f) | None => hash f d end.
Definition comp_of (f : functions) (x y : D) : Z :=
  match compw f with Some w => w x y (comp f) | None => comp f x y end.

(** The loop of getrn: which link of the chain it returns the address of. *)
Fixpoint find_link (f : functions) (h : Z) (d : D) (c : list node) : nat :=
  match c with
  | [] => 0
  | n1 :: c' =>
      if negb (nhash n1 =? h) then S (find_link f h d c')
      else if comp_of f (data n1) d =? 0 then 0
      else S (find_link f h d c')
  end.

(** The bucket of a hash. *)
Definition address (lh : OPENSSL_LHASH) (h : Z) : Z :=
  let nn := h mod pmax lh in
  if nn <? p lh then h mod num_alloc_nodes lh else nn.

(** The hash, and the bucket and the link that [*rn] is; [*rn] is NULL when the
    link is the last one. *)
Definition getrn (lh : OPENSSL_LHASH) (d : D) : outcome (Z * Z * list node * nat) :=
  let h := hash_of (funs lh) d in
  let nn := address lh h in
  c ← bucket (b lh) nn;
  Done (h, nn, c, find_link (funs lh) h d c).

(** The loop of expand: what stays in the bucket, and the new bucket. *)
Fixpoint split_chain (nni pp : Z) (n1 n2 : list node) : list node * list node :=
  match n1 with
  | [] => ([], n2)
  | np :: rest =>
      if negb (nhash np mod nni =? pp) then split_chain nni pp rest (np :: n2)
      else
        let '(stay, moved) := split_chain nni pp rest n2 in
        (np :: stay, moved)
  end.

(** [realloc] tells whether the reallocation succeeds; what it adds is cleared. *)
Definition expand (realloc : bool) (lh : OPENSSL_LHASH) : outcome (Z * OPENSSL_LHASH) :=
  let nni := num_alloc_nodes lh in
  let pp := p lh in
  let pm := pmax lh in
  let last := pm <=? u32 (pp + 1) in
  if last && negb realloc then Done (0, set_error (error lh + 1) lh)
  else
    let j := u32 (nni * 2) in
    let bs :=
      if last then take (Z.to_nat nni) (take (Z.to_nat j) (b lh)) ++ replicate (Z.to_nat (j - nni)) []
      else b lh in
    bs ← set_bucket bs (u32 (pp + pm)) [];
    n1 ← bucket bs pp;
    let '(stay, moved) := split_chain nni pp n1 [] in
    bs ← set_bucket bs pp stay;
    bs ← set_bucket bs (u32 (pp + pm)) moved;
    Done (1, {|
      b := bs; funs := funs lh; num_nodes := u32 (num_nodes lh + 1);
      num_alloc_nodes := if last then j else nni;
      p := if last then 0 else u32 (pp + 1);
      pmax := if last then nni else pm;
      up_load := up_load lh; down_load := down_load lh;
      num_items := num_items lh; error := error lh |}).

Definition contract (realloc : bool) (lh : OPENSSL_LHASH) : outcome OPENSSL_LHASH :=
  let top := u32 (p lh + pmax lh - 1) in
  np ← bucket (b lh) top;
  bs ← set_bucket (b lh) top [];
  let first := p lh =? 0 in
  let bs := if first && realloc then take (Z.to_nat (pmax lh)) bs else bs in
  let err := if first && negb realloc then error lh + 1 else error lh in
  let pm := if first then pmax lh / 2 else pmax lh in
  let pp := if first then u32 (pm - 1) else u32 (p lh - 1) in
  n1 ← bucket bs pp;
  bs ← set_bucket bs pp (n1 ++ np);
  Done {|
    b := bs; funs := funs lh; num_nodes := u32 (num_nodes lh - 1);
    num_alloc_nodes := if first then num_alloc_nodes lh / 2 else num_alloc_nodes lh;
    p := pp; pmax := pm;
    up_load := up_load lh; down_load := down_load lh;
    num_items := num_items lh; error := err |}.

(** num_items * LH_LOAD_MULT / num_nodes. *)
Definition load (lh : OPENSSL_LHASH) : Z := u32 (num_items lh * LH_LOAD_MULT) / num_nodes lh.

(** The datum replaced, if any; [malloc] tells whether a node can be allocated. *)
Definition OPENSSL_LH_insert (realloc malloc : bool) (lh : OPENSSL_LHASH) (d : D)
  : outcome (option D * OPENSSL_LHASH) :=
  let lh := set_error 0 lh in
  '(ok, lh) ← (if up_load lh <=? load lh then expand realloc lh else Done (1, lh));
  if ok =? 0 then Done (None, lh)
  else
    '(h, nn, c, rn) ← getrn lh d;
    match c !! rn with
    | None =>
        if negb malloc then Done (None, set_error (error lh + 1) lh)
        else
          bs ← set_bucket (b lh) nn (c ++ [Node d h]);
          Done (None, set_num_items (u32 (num_items lh + 1)) (set_b bs lh))
    | Some nd =>
        bs ← set_bucket (b lh) nn (<[rn := Node d (nhash nd)]> c);
        Done (Some (data nd), set_b bs lh)
    end.

Definition OPENSSL_LH_delete (realloc : bool) (lh : OPENSSL_LHASH) (d : D)
  : outcome (option D * OPENSSL_LHASH) :=
  let lh := set_error 0 lh in
  '(h, nn, c, rn) ← getrn lh d;
  match c !! rn with
  | None => Done (None, lh)
  | Some nd =>
      bs ← set_bucket (b lh) nn (delete rn c);
      let lh := set_num_items (u32 (num_items lh - 1)) (set_b bs lh) in
      lh ← (if (MIN_NODES <? num_nodes lh) && (load lh <=? down_load lh) then contract realloc lh else Done lh);
      Done (Some (data nd), lh)
  end.

Definition OPENSSL_LH_retrieve (lh : OPENSSL_LHASH) (d : D) : outcome (option D * OPENSSL_LHASH) :=
  let lh := if negb (error lh =? 0) then set_error 0 lh else lh in
  '(h, nn, c, rn) ← getrn lh d;
  Done (data <$> c !! rn, lh).

(** The buckets below [n], freed and cleared; the nodes freed. *)
Fixpoint flush_buckets (n : nat) (bs : list (list node)) : outcome (list node * list (list node)) :=
  match n with
  | O => Done ([], bs)
  | S i =>
      '(freed, bs) ← flush_buckets i bs;
      c ← bucket bs (Z.of_nat i);
      bs ← set_bucket bs (Z.of_nat i) [];
      Done (freed ++ c, bs)
  end.

Definition OPENSSL_LH_flush (lh : option OPENSSL_LHASH) : outcome (list node * option OPENSSL_LHASH) :=
  match lh with
  | None => Done ([], None)
  | Some lh =>
      '(freed, bs) ← flush_buckets (Z.to_nat (num_nodes lh)) (b lh);
      Done (freed, Some (set_num_items 0 (set_b bs lh)))
  end.

(** The nodes freed; the table and its array are gone afterwards. *)
Definition OPENSSL_LH_free (lh : option OPENSSL_LHASH) : outcome (list node) :=
  match lh with
  | None => Done []
  | Some lh => '(freed, _) ← OPENSSL_LH_flush (Some lh); Done freed
  end.

(** The callbacks made for the nodes of a chain, and for the buckets below [n]
    from the last to the first. *)
Fixpoint doall_chain (call : D -> outcome (list E)) (c : list node) : outcome (list E) :=
  match c with
  | [] => Done []
  | a :: c' => es ← call (data a); es' ← doall_chain call c'; Done (es ++ es')
  end.

Fixpoint doall_buckets (call : D -> outcome (list E)) (n : nat) (bs : list (list node)) : outcome (list E) :=
  match n with
  | O => Done []
  | S i =>
      c ← bucket bs (Z.of_nat i);
      es ← doall_chain call c;
      es' ← doall_buckets call i bs;
      Done (es ++ es')
  end.

(** A thunk that is not set is a null function pointer. *)
Definition doall_util_fn (lh : option OPENSSL_LHASH) (use_arg : bool)
    (wfunc : option (D -> (D -> list E) -> list E)) (func : D -> list E)
    (func_arg : D -> A -> list E) (wfunc_arg : option (D -> A -> (D -> A -> list E) -> list E))
    (arg : A) : outcome (list E) :=
  match lh with
  | None => Done []
  | Some lh =>
      let call d :=
        if use_arg then
          match wfunc_arg with Some w => Done (w d arg func_arg) | None => Crash NullDereference end
        else
          match wfunc with Some w => Done (w d func) | None => Crash NullDereference end in
      doall_buckets call (Z.to_nat (num_nodes lh)) (b lh)
  end.

Definition OPENSSL_LH_doall (null_arg : A) (lh : option OPENSSL_LHASH) (func : D -> list E) : outcome (list E) :=
  match lh with
  | None => Done []
  | Some t => doall_util_fn lh false (daw (funs t)) func (fun _ _ => []) None null_arg
  end.

Definition OPENSSL_LH_doall_arg (lh : option OPENSSL_LHASH) (func : D -> A -> list E) (arg : A)
  : outcome (list E) :=
  match lh with
  | None => Done []
  | Some t => doall_util_fn lh true None (fun _ => []) func (daaw (funs t)) arg
  end.

Definition OPENSSL_LH_doall_arg_thunk (lh : option OPENSSL_LHASH) daaw (fn : D -> A -> list E) (arg : A)
  : outcome (list E) :=
  doall_util_fn lh true None (fun _ => []) fn daaw arg.

Definition OPENSSL_LH_num_items (lh : option OPENSSL_LHASH) : Z :=
  match lh with Some lh => num_items lh | None => 0 end.
Definition OPENSSL_LH_get_down_load (lh : OPENSSL_LHASH) : Z := down_load lh.
Definition OPENSSL_LH_set_down_load (n : Z) (lh : OPENSSL_LHASH) : OPENSSL_LHASH :=
  Lhash (b lh) (funs lh) (num_nodes lh) (num_alloc_nodes lh) (p lh) (pmax lh)
    (up_load lh) n (num_items lh) (error lh).
Definition OPENSSL_LH_error (lh : OPENSSL_LHASH) : Z := error lh.
End lhash.
Arguments node : clear implicits.
Arguments functions : clear implicits.
Arguments OPENSSL_LHASH : clear implicits.

(** ** Chains and buckets *)

Lemma bucket_some {D} (bs : list (list (node D))) i c : bs !! Z.to_nat i = Some c -> bucket bs i = Done c.
Proof. unfold bucket. by intros ->. Qed.

Lemma set_bucket_done {D} (bs : list (list (node D))) i c :
  (Z.to_nat i < length bs)%nat -> set_bucket bs i c = Done (<[Z.to_nat i := c]> bs).
Proof. intros Hi. unfold set_bucket. by rewrite (proj2 (Nat.ltb_lt _ _)). Qed.

(** The nodes of a table, with one bucket in front. *)
Lemma concat_focus {X} (bs : list (list X)) i c :
  bs !! i = Some c -> exists rest, forall c', concat (<[i := c']> bs) ≡ₚ c' ++ rest.
Proof.
  intros Hi. exists (concat (take i bs) ++ concat (drop (S i) bs)). intros c'.
  rewrite insert_take_drop by (by eapply lookup_lt_Some). rewrite concat_app. cbn [concat].
  rewrite !app_assoc. apply Permutation_app_tail. apply Permutation_app_comm.
Qed.

Lemma concat_focus_same {X} (bs : list (list X)) i c rest :
  bs !! i = Some c -> (forall c', concat (<[i := c']> bs) ≡ₚ c' ++ rest) -> concat bs ≡ₚ c ++ rest.
Proof. intros Hi Hr. rewrite <- (list_insert_id bs i c Hi) at 1. apply Hr. Qed.

Lemma elem_of_concat_bucket {X} (bs : list (list X)) x : x ∈ concat bs <-> exists i c, bs !! i = Some c /\ x ∈ c.
Proof.
  rewrite list_elem_of_In, in_concat. split.
  - intros (c & Hc & Hx). apply list_elem_of_In, list_elem_of_lookup in Hc as [i Hi]. exists i, c. by rewrite list_elem_of_In.
  - intros (i & c & Hi & Hx). exists c. split; [by eapply list_elem_of_In, list_elem_of_lookup_2|by apply list_elem_of_In].
Qed.

(** Splitting a chain keeps its nodes; those that stay have the old address. *)
Lemma split_chain_spec {D} nni pp (n1 n2 : list (node D)) :
  let '(stay, moved) := split_chain nni pp n1 n2 in
  stay ++ moved ≡ₚ n1 ++ n2 /\
  Forall (fun n => nhash n mod nni = pp) stay /\
  (Forall (fun n => nhash n mod nni <> pp) n2 -> Forall (fun n => nhash n mod nni <> pp) moved) /\
  (forall n, n ∈ moved -> n ∈ n1 \/ n ∈ n2) /\ (forall n, n ∈ stay -> n ∈ n1).
Proof.
  revert n2. induction n1 as [|np rest IH]; intros n2; cbn [split_chain].
  { split_and!; [done|constructor|done|set_solver|set_solver]. }
  destruct (Z.eqb_spec (nhash np mod nni) pp) as [Heq|Hne]; cbn [negb].
  - specialize (IH n2). destruct (split_chain nni pp rest n2) as [stay moved].
    destruct IH as (Hp & Hs & Hm & Hin & Hst). split_and!; [|by constructor|done|set_solver|set_solver].
    cbn [app]. by rewrite Hp.
  - specialize (IH (np :: n2)). destruct (split_chain nni pp rest (np :: n2)) as [stay moved].
    destruct IH as (Hp & Hs & Hm & Hin & Hst). split_and!; [|done| |set_solver|set_solver].
    + rewrite Hp. cbn [app]. by rewrite <- Permutation_middle.
    + intros Hn2. apply Hm. by constructor.
Qed.

(** ** The invariant *)

Lemma mod_double h m : 0 < m -> h mod (2 * m) = h mod m \/ h mod (2 * m) = h mod m + m.
Proof.
  intros Hm. rewrite (Z.mul_comm 2 m), Z.rem_mul_r by lia.
  pose proof (Z.mod_pos_bound (h / m) 2 ltac:(lia)).
  assert ((h / m) mod 2 = 0 \/ (h / m) mod 2 = 1) as [-> | ->] by lia; lia.
Qed.

Section wf.
Context {D A E K : Type} `{Countable K} {hash0 : D -> Z} {comp0 : D -> D -> Z}.
Context {L : LhLaws K hash0 comp0}.
Implicit Types (lh : OPENSSL_LHASH D A E) (c : list (node D)) (n : node D).

(** The callbacks are those of the class, called directly or through the thunks. *)
Definition calls (f : functions D A E) : Prop :=
  hash f = hash0 /\ comp f = comp0 /\
  (hashw f = None \/ hashw f = Some hfn_thunk) /\ (compw f = None \/ compw f = Some cfn_thunk).

(** The sizes; the number of buckets has a bound that no load can exceed, since
    the load is computed with 32 bits. *)
Definition max_buckets : Z := 8388609.
Record shape lh : Prop := Shape {
  sh_p : 0 <= p lh < pmax lh;
  sh_alloc : num_alloc_nodes lh = 2 * pmax lh;
  sh_nodes : num_nodes lh = p lh + pmax lh;
  sh_pow : exists k, pmax lh = 8 * 2 ^ Z.of_nat k;
  sh_bound : num_nodes lh <= max_buckets;
  sh_up : up_load lh = UP_LOAD
}.

(** Every node has the hash of its datum and is in the bucket of that hash. *)
Definition located (addr : Z -> Z) (bs : list (list (node D))) : Prop :=
  forall i c n, bs !! i = Some c -> n ∈ c -> nhash n = hash0 (data n) /\ addr (nhash n) = Z.of_nat i.

Definition node_key n : K := lkey (data n).

Record lh_wf lh : Prop := LhWf {
  wf_calls : calls (funs lh);
  wf_shape : shape lh;
  wf_len : num_alloc_nodes lh <= zlen (b lh);
  wf_located : located (address lh) (b lh);
  wf_nodup : NoDup (node_key <$> concat (b lh));
  wf_items : num_items lh = u32 (zlen (concat (b lh)))
}.

(** The finite map that a table is. *)
Definition nodes_map (ns : list (node D)) : gmap K D := list_to_map ((fun n => (node_key n, data n)) <$> ns).
Definition lh_map lh : gmap K D := nodes_map (concat (b lh)).

Lemma nodes_fst (ns : list (node D)) : ((fun n => (node_key n, data n)) <$> ns).*1 = node_key <$> ns.
Proof. rewrite <- list_fmap_compose. done. Qed.

Lemma nodes_map_perm (ns1 ns2 : list (node D)) :
  NoDup (node_key <$> ns1) -> ns1 ≡ₚ ns2 -> nodes_map ns1 = nodes_map ns2.
Proof.
  intros Hnd Hp. unfold nodes_map. apply list_to_map_proper; [by rewrite nodes_fst|]. by rewrite Hp.
Qed.

Lemma nodes_map_cons n ns : nodes_map (n :: ns) = <[node_key n := data n]> (nodes_map ns).
Proof. done. Qed.

Lemma nodes_map_none ns k : k ∉ node_key <$> ns -> nodes_map ns !! k = None.
Proof. intros Hk. apply not_elem_of_list_to_map. by rewrite nodes_fst. Qed.

Lemma nodes_map_some ns n : NoDup (node_key <$> ns) -> n ∈ ns -> nodes_map ns !! node_key n = Some (data n).
Proof.
  intros Hnd Hn. apply elem_of_list_to_map; [by rewrite nodes_fst|].
  apply list_elem_of_fmap. by exists n.
Qed.

Lemma nodes_map_delete n ns :
  NoDup (node_key <$> (n :: ns)) -> delete (node_key n) (nodes_map (n :: ns)) = nodes_map ns.
Proof.
  cbn [fmap list_fmap]. intros [Hn Hnd]%NoDup_cons. rewrite nodes_map_cons, delete_insert_eq, delete_id; [done|].
  by apply nodes_map_none.
Qed.

Lemma nodes_map_size ns : NoDup (node_key <$> ns) -> size (nodes_map ns) = length ns.
Proof.
  induction ns as [|n ns IH]; [done|]. cbn [fmap list_fmap]. intros [Hn Hnd]%NoDup_cons.
  rewrite nodes_map_cons, map_size_insert_None by (by apply nodes_map_none). simpl. by rewrite IH.
Qed.

(** *** Addresses *)

Lemma shape_pmax lh : shape lh -> 8 <= pmax lh <= max_buckets.
Proof.
  intros [Hp _ Hn [k Hk] Hb _]. assert (1 <= 2 ^ Z.of_nat k) by (pose proof (Z.pow_pos_nonneg 2 (Z.of_nat k)); lia).
  lia.
Qed.

Lemma address_range lh h : shape lh -> 0 <= address lh h < num_nodes lh.
Proof.
  intros Hs. pose proof (shape_pmax lh Hs). destruct Hs as [Hp Ha Hn _ _ _]. unfold address.
  pose proof (Z.mod_pos_bound h (pmax lh) ltac:(lia)). rewrite Ha. pose proof (mod_double h (pmax lh) ltac:(lia)).
  destruct (Z.ltb_spec (h mod pmax lh) (p lh)); lia.
Qed.

Lemma address_p lh h : shape lh -> address lh h = p lh <-> h mod pmax lh = p lh.
Proof.
  intros Hs. pose proof (shape_pmax lh Hs). destruct Hs as [Hp Ha Hn _ _ _]. unfold address. rewrite Ha.
  pose proof (Z.mod_pos_bound h (pmax lh) ltac:(lia)). pose proof (mod_double h (pmax lh) ltac:(lia)).
  destruct (Z.ltb_spec (h mod pmax lh) (p lh)); lia.
Qed.

(** The two remainders of a hash, as the sizes allow them. *)
Lemma remainders lh h :
  shape lh -> exists r r2, h mod pmax lh = r /\ h mod num_alloc_nodes lh = r2 /\
    0 <= r < pmax lh /\ (r2 = r \/ r2 = r + pmax lh).
Proof.
  intros Hs. pose proof (shape_pmax lh Hs) as Hpm. destruct Hs as [Hp Ha Hn _ _ _]. rewrite Ha.
  eexists _, _. split_and!; [done|done|apply Z.mod_pos_bound; lia..|]. apply mod_double. lia.
Qed.

(** One bucket more: bucket [p] is divided. *)
Lemma address_expanded lh lh' h :
  shape lh ->
  ((p lh + 1 < pmax lh /\ p lh' = p lh + 1 /\ pmax lh' = pmax lh /\ num_alloc_nodes lh' = num_alloc_nodes lh) \/
   (p lh + 1 = pmax lh /\ p lh' = 0 /\ pmax lh' = num_alloc_nodes lh)) ->
  address lh' h = if address lh h =? p lh then h mod num_alloc_nodes lh else address lh h.
Proof.
  intros Hs Hcase. destruct (remainders lh h Hs) as (r & r2 & Hr & Hr2 & Hrange & Hdbl).
  destruct Hs as [Hp _ _ _ _ _]. unfold address. rewrite Hr, Hr2.
  destruct Hcase as [(Hlt & -> & -> & ->)|(Hlast & -> & ->)]; rewrite ?Hr, ?Hr2; clear - Hp Hrange Hdbl Hlt || clear - Hp Hrange Hdbl Hlast.
  all: repeat case_z; lia.
Qed.

(** One bucket less: the last one joins bucket [p] of the smaller table. *)
Lemma address_contracted lh lh' h :
  shape lh ->
  ((0 < p lh /\ p lh' = p lh - 1 /\ pmax lh' = pmax lh /\ num_alloc_nodes lh' = num_alloc_nodes lh) \/
   (p lh = 0 /\ 2 * pmax lh' = pmax lh /\ p lh' = pmax lh' - 1 /\ num_alloc_nodes lh' = pmax lh)) ->
  address lh' h = if address lh h =? p lh + pmax lh - 1 then p lh' else address lh h.
Proof.
  intros Hs Hcase. pose proof (shape_pmax lh Hs) as Hpm.
  destruct (remainders lh h Hs) as (r & r2 & Hr & Hr2 & Hrange & Hdbl).
  destruct Hs as [Hp _ _ _ _ _]. unfold address. rewrite Hr2.
  destruct Hcase as [(Hlt & -> & -> & ->)|(Hz & Hh & -> & ->)]; rewrite ?Hr, ?Hr2.
  - clear - Hp Hrange Hdbl Hlt. repeat case_z; lia.
  - assert (Hq : r = h mod pmax lh' \/ r = h mod pmax lh' + pmax lh').
    { subst r. rewrite <- Hh. exact (mod_double h (pmax lh') ltac:(clear - Hpm Hh; lia)). }
    pose proof (Z.mod_pos_bound h (pmax lh') ltac:(clear - Hpm Hh; lia)) as Hqr.
    generalize dependent (h mod pmax lh'). intros q Hq Hqr. rewrite Hz in *. clear - Hp Hrange Hq Hqr Hh.
    repeat case_z; lia.
Qed.

(** *** Growing and shrinking keep the nodes *)

Lemma located_empty addr bs m i c :
  located addr bs -> (forall h, addr h < m) -> m <= Z.of_nat i -> bs !! i = Some c -> c = [].
Proof.
  intros Hl Hm Hi Hc. destruct c as [|n c]; [done|].
  destruct (Hl i (n :: c) n Hc ltac:(by left)) as [_ Ha]. specialize (Hm (nhash n)). lia.
Qed.

Lemma concat_take_empty {X} m (bs : list (list X)) :
  (forall i (l : list X), bs !! i = Some l -> (m <= i)%nat -> l = []) -> concat (take m bs) = concat bs.
Proof.
  intros He. rewrite <- (take_drop m bs) at 2. rewrite concat_app.
  assert (Hd : concat (drop m bs) = []); [|by rewrite Hd, app_nil_r].
  apply concat_nil_Forall, List.Forall_forall. intros l Hc.
  apply list_elem_of_In, list_elem_of_lookup in Hc as [i Hi]. rewrite lookup_drop in Hi. eapply He; [done|lia].
Qed.

Lemma concat_replicate_nil {X} m : concat (replicate m ([] : list X)) = [].
Proof. by induction m. Qed.

Lemma located_take addr bs m :
  located addr bs -> located addr (take m bs).
Proof. intros Hl i c n Hc. apply lookup_take_Some in Hc as [Hc _]. by eapply Hl. Qed.

Lemma located_insert addr addr' bs i c :
  (forall j c' n, j <> i -> bs !! j = Some c' -> n ∈ c' -> nhash n = hash0 (data n) /\ addr' (nhash n) = Z.of_nat j) ->
  (forall n, n ∈ c -> nhash n = hash0 (data n) /\ addr' (nhash n) = Z.of_nat i) ->
  located addr bs -> located addr' (<[i := c]> bs).
Proof.
  intros Hother Hc Hl j c' n Hj Hn. apply list_lookup_insert_Some in Hj as [(<- & <- & _)|[Hne Hj]]; [by apply Hc|].
  by eapply Hother.
Qed.

(** A new shape with the same nodes, each at its address. *)
Lemma wf_moved lh lh' :
  lh_wf lh -> shape lh' -> funs lh' = funs lh -> num_items lh' = num_items lh ->
  num_alloc_nodes lh' <= zlen (b lh') -> located (address lh') (b lh') ->
  concat (b lh') ≡ₚ concat (b lh) -> lh_wf lh'.
Proof.
  intros [Hc Hs Hlen Hloc Hnd Hi] Hs' Hf Hn Hlen' Hloc' Hp. constructor; [by rewrite Hf|done..| |].
  - by rewrite Hp.
  - rewrite Hn, Hi. unfold zlen. by rewrite Hp.
Qed.

(** What the operations that move nodes leave alone. *)
Definition same_contents lh lh' : Prop :=
  concat (b lh') ≡ₚ concat (b lh) /\ funs lh' = funs lh /\ down_load lh' = down_load lh /\
  num_items lh' = num_items lh.

(** The array that expand works on. *)
Definition expand_array lh : list (list (node D)) :=
  if pmax lh <=? p lh + 1 then
    take (Z.to_nat (num_alloc_nodes lh)) (take (Z.to_nat (2 * num_alloc_nodes lh)) (b lh)) ++
      replicate (Z.to_nat (num_alloc_nodes lh)) []
  else b lh.

Lemma expand_array_spec lh :
  lh_wf lh ->
  located (address lh) (expand_array lh) /\ concat (expand_array lh) = concat (b lh) /\
  (if pmax lh <=? p lh + 1 then 2 * num_alloc_nodes lh else num_alloc_nodes lh) <= zlen (expand_array lh).
Proof.
  intros [_ Hs Hlen Hloc _ _]. pose proof (shape_pmax lh Hs) as Hpm. unfold expand_array.
  pose proof (sh_alloc lh Hs) as Ha. pose proof (sh_nodes lh Hs) as Hn. pose proof (sh_p lh Hs) as Hp.
  destruct (pmax lh <=? p lh + 1); [|done].
  rewrite take_take, Nat.min_l by lia.
  assert (Hl : length (take (Z.to_nat (num_alloc_nodes lh)) (b lh)) = Z.to_nat (num_alloc_nodes lh)).
  { rewrite length_take. unfold zlen in Hlen. lia. }
  split_and!.
  - intros i c n Hc Hin. apply lookup_app_Some in Hc as [Hc|[_ Hc]].
    + apply lookup_take_Some in Hc as [Hc _]. by eapply Hloc.
    + apply lookup_replicate in Hc as [-> _]. set_solver.
  - rewrite concat_app, concat_replicate_nil, app_nil_r. apply concat_take_empty. intros i c Hc Hi.
    eapply (located_empty (address lh)); [done| |exact (inj_le _ _ Hi)|done].
    intros h. pose proof (address_range lh h Hs). lia.
  - unfold zlen. rewrite length_app, length_replicate, Hl. lia.
Qed.

(** Dividing bucket [i] into [i] and the empty bucket [j]. *)
Lemma split_bucket addr addr' bs i j c nni pp :
  located addr bs -> i <> j -> bs !! i = Some c -> bs !! j = Some [] ->
  (forall h, addr' h = if addr h =? Z.of_nat i then h mod nni else addr h) ->
  (forall h, addr h = Z.of_nat i -> h mod nni = Z.of_nat i \/ h mod nni = Z.of_nat j) -> pp = Z.of_nat i ->
  let '(stay, moved) := split_chain nni pp c [] in
  located addr' (<[j := moved]> (<[i := stay]> bs)) /\
  concat (<[j := moved]> (<[i := stay]> bs)) ≡ₚ concat bs.
Proof.
  intros Hl Hij Hi Hj Haddr Hsplit ->. pose proof (split_chain_spec nni (Z.of_nat i) c []) as Hs.
  destruct (split_chain nni (Z.of_nat i) c []) as [stay moved]. destruct Hs as (Hp & Hst & Hmv & Hinm & Hins).
  specialize (Hmv ltac:(constructor)). rewrite app_nil_r in Hp. rewrite Forall_forall in Hst, Hmv.
  assert (Hold : forall n, n ∈ c -> nhash n = hash0 (data n) /\ addr (nhash n) = Z.of_nat i).
  { intros n Hn. by apply (Hl i c n Hi). }
  split.
  - intros k c' n Hk Hn.
    apply list_lookup_insert_Some in Hk as [(<- & <- & _)|[Hjk Hk]];
      [|apply list_lookup_insert_Some in Hk as [(<- & <- & _)|[Hik Hk]]].
    + assert (Hnc : n ∈ c) by (destruct (Hinm n Hn); set_solver). destruct (Hold n Hnc) as [Hh Ha].
      split; [done|]. rewrite Haddr, Ha, Z.eqb_refl. destruct (Hsplit _ Ha) as [He|He]; [|done].
      by destruct (Hmv n Hn).
    + destruct (Hold n (Hins n Hn)) as [Hh Ha]. split; [done|]. rewrite Haddr, Ha, Z.eqb_refl. by apply Hst.
    + destruct (Hl k c' n Hk Hn) as [Hh Ha]. split; [done|]. rewrite Haddr.
      rewrite (proj2 (Z.eqb_neq _ _)) by lia. done.
  - assert (Hj' : <[i := stay]> bs !! j = Some []) by (by rewrite list_lookup_insert_ne).
    destruct (concat_focus _ j [] Hj') as [rest Hrest]. rewrite Hrest.
    pose proof (concat_focus_same _ j [] rest Hj' Hrest) as Hrest0. cbn [app] in Hrest0. rewrite <- Hrest0.
    destruct (concat_focus bs i c Hi) as [rest' Hrest']. rewrite Hrest'.
    rewrite (concat_focus_same bs i c rest' Hi Hrest'), <- Hp, !app_assoc. apply Permutation_app_tail, Permutation_app_comm.
Qed.

(** expand adds a bucket and keeps the nodes, or reports the failed allocation. *)
Lemma expand_spec realloc lh :
  lh_wf lh -> num_nodes lh < max_buckets ->
  (realloc = false /\ expand realloc lh = Done (0, set_error (error lh + 1) lh)) \/
  exists lh', expand realloc lh = Done (1, lh') /\ lh_wf lh' /\ same_contents lh lh' /\ error lh' = error lh /\
    num_nodes lh' = num_nodes lh + 1.
Proof.
  intros Hwf Hsmall. pose proof (wf_shape lh Hwf) as Hs. pose proof (shape_pmax lh Hs) as Hpm.
  destruct (expand_array_spec lh Hwf) as (Hloc & Hcat & Hlen). set (bs := expand_array lh) in *.
  pose proof Hs as [Hp Ha Hn Hpow Hb Hup]. unfold max_buckets in *.
  unfold expand. rewrite !(u32_small (p lh + 1)), (u32_small (num_alloc_nodes lh * 2)), (u32_small (p lh + pmax lh)),
    (u32_small (num_nodes lh + 1)) by lia.
  replace (num_alloc_nodes lh * 2) with (2 * num_alloc_nodes lh) by ring.
  destruct ((pmax lh <=? p lh + 1) && negb realloc) eqn:Hfail.
  { left. apply andb_prop in Hfail as [_ Hr]. by destruct realloc. }
  right. replace (2 * num_alloc_nodes lh - num_alloc_nodes lh) with (num_alloc_nodes lh) by ring.
  fold (expand_array lh). fold bs.
  assert (Hlong : p lh + pmax lh < zlen bs) by (destruct (pmax lh <=? p lh + 1); lia). unfold zlen in Hlong.
  destruct (lookup_lt_is_Some_2 bs (Z.to_nat (p lh))) as [c Hc]; [lia|].
  destruct (lookup_lt_is_Some_2 bs (Z.to_nat (p lh + pmax lh))) as [c2 Hc2]; [lia|].
  assert (c2 = []) as ->.
  { apply (located_empty (address lh) bs (p lh + pmax lh) (Z.to_nat (p lh + pmax lh)) c2 Hloc); [|lia|exact Hc2].
    intros h. pose proof (address_range lh h Hs). lia. }
  rewrite set_bucket_done by lia. cbn [mbind outcome_bind]. rewrite (list_insert_id _ _ _ Hc2).
  rewrite (bucket_some _ _ _ Hc). cbn [mbind outcome_bind].
  set (lh1 := Lhash bs (funs lh) (num_nodes lh + 1)
    (if pmax lh <=? p lh + 1 then 2 * num_alloc_nodes lh else num_alloc_nodes lh)
    (if pmax lh <=? p lh + 1 then 0 else p lh + 1) (if pmax lh <=? p lh + 1 then num_alloc_nodes lh else pmax lh)
    (up_load lh) (down_load lh) (num_items lh) (error lh)).
  pose proof (split_bucket (address lh) (address lh1) bs (Z.to_nat (p lh)) (Z.to_nat (p lh + pmax lh)) c
    (num_alloc_nodes lh) (p lh) Hloc ltac:(lia) Hc Hc2) as Hsplit.
  destruct (split_chain (num_alloc_nodes lh) (p lh) c []) as [stay moved].
  rewrite !set_bucket_done by (rewrite ?length_insert; lia). cbn [mbind outcome_bind].
  rewrite set_bucket_done by (rewrite ?length_insert; lia). cbn [mbind outcome_bind].
  destruct Hsplit as [Hl' Hc'].
  { intros h. rewrite Z2Nat.id by lia. apply (address_expanded lh lh1 h Hs). simpl.
    destruct (Z.leb_spec (pmax lh) (p lh + 1)); [right|left]; split_and!; lia. }
  { intros h. rewrite Z2Nat.id by lia. rewrite (address_p lh h Hs). intros Hh.
    destruct (remainders lh h Hs) as (r & r2 & Hr & -> & _ & Hd). rewrite Hr in Hh. subst r. lia. }
  { lia. }
  eexists. split; [reflexivity|]. rewrite Hcat in Hc'. split; [|by split_and!].
  eapply wf_moved; [exact Hwf| |done|done| |exact Hl'|exact Hc'].
  - destruct (Z.leb_spec (pmax lh) (p lh + 1)); constructor; simpl; unfold max_buckets; try lia; try done.
    destruct Hpow as [k Hk]. exists (S k). rewrite Nat2Z.inj_succ, Z.pow_succ_r; lia.
  - simpl. unfold zlen in *. rewrite !length_insert. done.
Qed.

(** Appending bucket [j] to bucket [i]. *)
Lemma merge_buckets addr addr' bs i j (n1 np : list (node D)) :
  located addr bs -> i <> j -> bs !! i = Some n1 -> bs !! j = Some np ->
  (forall h, addr' h = if addr h =? Z.of_nat j then Z.of_nat i else addr h) ->
  located addr' (<[i := n1 ++ np]> (<[j := []]> bs)) /\
  concat (<[i := n1 ++ np]> (<[j := []]> bs)) ≡ₚ concat bs.
Proof.
  intros Hl Hij Hi Hj Haddr. split.
  - intros k c n Hk Hn.
    apply list_lookup_insert_Some in Hk as [(<- & <- & _)|[Hik Hk]];
      [|apply list_lookup_insert_Some in Hk as [(<- & <- & _)|[Hjk Hk]]; [set_solver|]].
    + apply elem_of_app in Hn as [Hn|Hn].
      * destruct (Hl _ _ n Hi Hn) as [Hh Ha]. split; [done|]. rewrite Haddr, Ha.
        by rewrite (proj2 (Z.eqb_neq _ _)) by lia.
      * destruct (Hl _ _ n Hj Hn) as [Hh Ha]. split; [done|]. by rewrite Haddr, Ha, Z.eqb_refl.
    + destruct (Hl _ _ n Hk Hn) as [Hh Ha]. split; [done|]. rewrite Haddr, Ha.
      by rewrite (proj2 (Z.eqb_neq _ _)) by lia.
  - assert (Hi' : <[j := []]> bs !! i = Some n1) by (by rewrite list_lookup_insert_ne).
    destruct (concat_focus _ i n1 Hi') as [rest Hrest]. rewrite Hrest.
    destruct (concat_focus bs j np Hj) as [rest' Hrest'].
    rewrite (concat_focus_same bs j np rest' Hj Hrest').
    pose proof (concat_focus_same _ i n1 rest Hi' Hrest) as Hmid. rewrite (Hrest' []) in Hmid.
    cbn [app] in Hmid. rewrite Hmid, !app_assoc. apply Permutation_app_tail, Permutation_app_comm.
Qed.

(** The sizes after contract, for an array and an error count. *)
Definition contracted bs (err : Z) lh : OPENSSL_LHASH D A E :=
  let first := p lh =? 0 in
  let pm := if first then pmax lh / 2 else pmax lh in
  Lhash bs (funs lh) (num_nodes lh - 1) (if first then num_alloc_nodes lh / 2 else num_alloc_nodes lh)
    (if first then pm - 1 else p lh - 1) pm (up_load lh) (down_load lh) (num_items lh) err.

Lemma contracted_shape bs err lh :
  shape lh -> MIN_NODES < num_nodes lh ->
  let lh' := contracted bs err lh in
  shape lh' /\ p lh' < p lh + pmax lh - 1 /\ num_alloc_nodes lh' <= num_alloc_nodes lh /\
  (p lh = 0 -> num_alloc_nodes lh' = pmax lh) /\
  forall h, address lh' h = if address lh h =? p lh + pmax lh - 1 then p lh' else address lh h.
Proof.
  intros Hs Hbig lh'. pose proof (shape_pmax lh Hs) as Hpm. pose proof Hs as [Hp Ha Hn [k Hk] Hb Hup].
  unfold max_buckets, MIN_NODES in *.
  assert (Hhalf : p lh = 0 -> pmax lh / 2 * 2 = pmax lh /\ exists j, pmax lh / 2 = 8 * 2 ^ Z.of_nat j).
  { intros Hz. destruct k as [|k]; [change (8 * 2 ^ Z.of_nat 0) with 8 in Hk; lia|].
    rewrite Nat2Z.inj_succ, Z.pow_succ_r in Hk by lia.
    assert (Hd : pmax lh / 2 = 8 * 2 ^ Z.of_nat k) by (symmetry; apply (Z.div_unique _ _ _ 0); lia).
    split; [lia|by exists k]. }
  assert (Hcase : (0 < p lh /\ p lh' = p lh - 1 /\ pmax lh' = pmax lh /\ num_alloc_nodes lh' = num_alloc_nodes lh) \/
    (p lh = 0 /\ 2 * pmax lh' = pmax lh /\ p lh' = pmax lh' - 1 /\ num_alloc_nodes lh' = pmax lh)).
  { subst lh'. unfold contracted. cbn [p pmax num_alloc_nodes]. destruct (Z.eqb_spec (p lh) 0) as [Hz|Hnz]; [right|left].
    - destruct (Hhalf Hz) as [Hh _]. rewrite Ha. split_and!; lia.
    - split_and!; lia. }
  assert (Hn' : num_nodes lh' = num_nodes lh - 1) by done.
  split_and!; [|lia|lia|lia|intros h; by apply address_contracted].
  constructor; [lia..| |unfold max_buckets; lia|done].
  destruct Hcase as [(_ & _ & -> & _)|(Hz & Hpm2 & _)]; [by exists k|].
  destruct (Hhalf Hz) as [Hh [j Hj]]. exists j. lia.
Qed.

(** Shrinking the array drops empty buckets only. *)
Lemma located_shrink lh bs m :
  shape lh -> located (address lh) bs -> num_nodes lh <= Z.of_nat m ->
  located (address lh) (take m bs) /\ concat (take m bs) = concat bs.
Proof.
  intros Hs Hl Hm. split; [by apply located_take|]. apply concat_take_empty. intros i c Hi Hge.
  apply (located_empty (address lh) bs (num_nodes lh) i c Hl); [|lia|exact Hi].
  intros h. apply (address_range lh h Hs).
Qed.

(** contract removes a bucket and keeps the nodes, also when the array cannot be
    made smaller. *)
Lemma contract_spec realloc lh :
  lh_wf lh -> MIN_NODES < num_nodes lh ->
  exists lh', contract realloc lh = Done lh' /\ lh_wf lh' /\ same_contents lh lh' /\
    error lh' = (if (p lh =? 0) && negb realloc then error lh + 1 else error lh) /\
    num_nodes lh' = num_nodes lh - 1.
Proof.
  intros Hwf Hbig. pose proof (wf_shape lh Hwf) as Hs. pose proof (shape_pmax lh Hs) as Hpm.
  pose proof (wf_len lh Hwf) as Hlen. pose proof Hs as [Hp Ha Hn _ Hb _].
  set (err := if (p lh =? 0) && negb realloc then error lh + 1 else error lh).
  destruct (contracted_shape (b lh) err lh Hs Hbig) as (Hs' & Hpp & Hal & Hz & Haddr).
  set (lh1 := contracted (b lh) err lh) in *. pose proof (sh_p _ Hs') as Hp'. pose proof (shape_pmax _ Hs') as Hpm'.
  unfold max_buckets, MIN_NODES, zlen in *.
  destruct (lookup_lt_is_Some_2 (b lh) (Z.to_nat (p lh + pmax lh - 1))) as [np Hnp]; [lia|].
  destruct (lookup_lt_is_Some_2 (b lh) (Z.to_nat (p lh1))) as [n1 Hn1]; [lia|].
  destruct (merge_buckets (address lh) (address lh1) (b lh) (Z.to_nat (p lh1)) (Z.to_nat (p lh + pmax lh - 1)) n1 np
    (wf_located lh Hwf) ltac:(lia) Hn1 Hnp) as [Hl' Hc'].
  { intros h. rewrite !Z2Nat.id by lia. apply Haddr. }
  set (bs1 := <[Z.to_nat (p lh + pmax lh - 1) := []]> (b lh)) in *.
  set (bs2 := if (p lh =? 0) && realloc then take (Z.to_nat (pmax lh)) bs1 else bs1).
  assert (Hl1 : length bs1 = length (b lh)) by (unfold bs1; by rewrite length_insert).
  assert (Hbs1 : bs1 !! Z.to_nat (p lh1) = Some n1) by (unfold bs1; rewrite list_lookup_insert_ne; [done|lia]).
  assert (Hbs2 : bs2 !! Z.to_nat (p lh1) = Some n1 /\ num_alloc_nodes lh1 <= zlen bs2 /\
    concat (<[Z.to_nat (p lh1) := n1 ++ np]> bs2) ≡ₚ concat (b lh) /\
    located (address lh1) (<[Z.to_nat (p lh1) := n1 ++ np]> bs2)).
  { unfold bs2, zlen. destruct (Z.eqb_spec (p lh) 0) as [Hz0|_]; [destruct realloc|]; cbn [andb]; [|split_and!; try done; lia..].
    assert (Hlt : (Z.to_nat (p lh1) < Z.to_nat (pmax lh))%nat) by lia.
    destruct (located_shrink lh1 _ (Z.to_nat (pmax lh)) Hs' Hl') as [Hlt1 Hct]; [simpl; lia|].
    rewrite take_insert_lt in Hlt1, Hct by done. rewrite Hct.
    rewrite length_take, lookup_take_lt by done. split_and!; try done. rewrite (Hz Hz0). lia. }
  destruct Hbs2 as (Hb1 & Hb2 & Hb3 & Hb4).
  exists (contracted (<[Z.to_nat (p lh1) := n1 ++ np]> bs2) err lh). split.
  { unfold contract. rewrite (u32_small (p lh + pmax lh - 1)) by lia. rewrite (bucket_some _ _ _ Hnp).
    cbn [mbind outcome_bind]. rewrite set_bucket_done by lia. cbn [mbind outcome_bind]. fold bs1. fold bs2.
    assert (Hp1 : (if p lh =? 0 then u32 ((if p lh =? 0 then pmax lh / 2 else pmax lh) - 1) else u32 (p lh - 1)) = p lh1).
    { revert Hp' Hpm'. unfold lh1, contracted. cbn [p pmax]. destruct (p lh =? 0); intros; apply u32_small; lia. }
    rewrite Hp1, (bucket_some _ _ _ Hb1). cbn [mbind outcome_bind].
    rewrite set_bucket_done by (by eapply lookup_lt_Some). cbn [mbind outcome_bind].
    rewrite (u32_small (num_nodes lh - 1)) by lia. done. }
  split; [|by split_and!]. eapply wf_moved; [exact Hwf| |done|done| |exact Hb4|exact Hb3].
  - destruct Hs' as [? ? ? ? ? ?]. by constructor.
  - cbn [b contracted]. unfold zlen in *. by rewrite length_insert.
Qed.

(** *** Looking up *)

Lemma hash_of_calls f d : calls f -> hash_of f d = hash0 d.
Proof. intros (Hh & _ & Hw & _). unfold hash_of. destruct Hw as [-> | ->]; unfold hfn_thunk; by rewrite Hh. Qed.

Lemma comp_of_calls f x y : calls f -> comp_of f x y = comp0 x y.
Proof. intros (_ & Hc & _ & Hw). unfold comp_of. destruct Hw as [-> | ->]; unfold cfn_thunk; by rewrite Hc. Qed.

Lemma find_link_spec f d c :
  calls f -> Forall (fun n => nhash n = hash0 (data n)) c ->
  match c !! find_link f (hash0 d) d c with
  | Some n => node_key n = lkey d
  | None => lkey d ∉ node_key <$> c
  end.
Proof.
  intros Hf Hc. induction Hc as [|n1 c Hn1 _ IH]; cbn [find_link]; [set_solver|].
  assert (Hskip : node_key n1 <> lkey d ->
    match (n1 :: c) !! S (find_link f (hash0 d) d c) with
    | Some n => node_key n = lkey d
    | None => lkey d ∉ node_key <$> n1 :: c
    end).
  { intros Hne. cbn [lookup list_lookup]. destruct (c !! find_link f (hash0 d) d c); [done|]. set_solver. }
  destruct (Z.eqb_spec (nhash n1) (hash0 d)) as [He|Hne]; cbn [negb].
  - rewrite comp_of_calls by done. destruct (Z.eqb_spec (comp0 (data n1) d) 0) as [Hz|Hz].
    + cbn [lookup list_lookup]. by apply comp_key.
    + apply Hskip. unfold node_key. by rewrite <- comp_key.
  - apply Hskip. intros Hk. rewrite Hn1 in Hne. by apply Hne, hash_key.
Qed.

Lemma wf_chain lh i c n :
  lh_wf lh -> b lh !! i = Some c -> n ∈ c -> nhash n = hash0 (data n) /\ address lh (nhash n) = Z.of_nat i.
Proof. intros Hwf. apply (wf_located lh Hwf). Qed.

(** getrn finds the node of a key if there is one. *)
Lemma getrn_spec lh d :
  lh_wf lh ->
  exists c, let rn := find_link (funs lh) (hash0 d) d c in
    getrn lh d = Done (hash0 d, address lh (hash0 d), c, rn) /\
    b lh !! Z.to_nat (address lh (hash0 d)) = Some c /\
    lh_map lh !! lkey d = data <$> c !! rn /\
    match c !! rn with Some n => node_key n = lkey d | None => lkey d ∉ node_key <$> concat (b lh) end.
Proof.
  intros Hwf. pose proof (address_range lh (hash0 d) (wf_shape lh Hwf)) as Ha.
  pose proof (wf_len lh Hwf) as Hlen. unfold zlen in Hlen.
  pose proof (sh_alloc lh (wf_shape lh Hwf)). pose proof (sh_nodes lh (wf_shape lh Hwf)). pose proof (sh_p lh (wf_shape lh Hwf)).
  destruct (lookup_lt_is_Some_2 (b lh) (Z.to_nat (address lh (hash0 d)))) as [c Hc]; [lia|].
  exists c. cbn zeta. set (rn := find_link (funs lh) (hash0 d) d c).
  pose proof (find_link_spec (funs lh) d c (wf_calls lh Hwf)) as Hfind.
  specialize (Hfind ltac:(apply Forall_forall; intros n Hn; by apply (wf_chain lh _ c n Hwf Hc))). fold rn in Hfind.
  unfold getrn. rewrite (hash_of_calls _ d (wf_calls lh Hwf)), (bucket_some _ _ _ Hc). cbn [mbind outcome_bind].
  split; [done|]. split; [done|]. unfold lh_map. destruct (c !! rn) as [n|] eqn:Hn; cbn [fmap option_fmap option_map].
  - split; [|done]. rewrite <- Hfind. apply nodes_map_some; [apply (wf_nodup lh Hwf)|].
    apply elem_of_concat_bucket. eexists _, c. split; [exact Hc|by eapply list_elem_of_lookup_2].
  - assert (Hnot : lkey d ∉ node_key <$> concat (b lh)); [|split; [by apply nodes_map_none|done]].
    intros Hin. apply list_elem_of_fmap in Hin as (n & Hk & Hin). apply elem_of_concat_bucket in Hin as (i & c' & Hi & Hin).
    destruct (wf_chain lh i c' n Hwf Hi Hin) as [Hh Hai]. rewrite Hh, <- (hash_key d (data n) Hk) in Hai.
    rewrite Hai, Nat2Z.id, Hi in Hc. simplify_eq. apply Hfind, list_elem_of_fmap. by exists n.
Qed.

Lemma getrn_located lh d c n :
  lh_wf lh -> b lh !! Z.to_nat (address lh (hash0 d)) = Some c -> n ∈ c -> 
  nhash n = hash0 (data n) /\ address lh (nhash n) = Z.of_nat (Z.to_nat (address lh (hash0 d))).
Proof. intros Hwf Hc Hn. by apply (wf_chain lh _ c). Qed.

(** A chain replaced by one of nodes that belong there. *)
Lemma wf_bucket lh i c c' :
  lh_wf lh -> b lh !! i = Some c ->
  (forall n, n ∈ c' -> nhash n = hash0 (data n) /\ address lh (nhash n) = Z.of_nat i) ->
  exists rest, concat (b lh) ≡ₚ c ++ rest /\ concat (<[i := c']> (b lh)) ≡ₚ c' ++ rest /\
    (NoDup (node_key <$> c' ++ rest) ->
     lh_wf (set_num_items (u32 (zlen (c' ++ rest))) (set_b (<[i := c']> (b lh)) lh))).
Proof.
  intros Hwf Hi Hc'. destruct (concat_focus (b lh) i c Hi) as [rest Hrest]. exists rest.
  split; [by apply (concat_focus_same _ _ _ _ Hi)|]. split; [done|]. intros Hnd.
  destruct Hwf as [Hc [? ? ? ? ? ?] Hlen Hloc _ _]. constructor; simpl.
  - done.
  - by constructor.
  - unfold zlen in *. by rewrite length_insert.
  - eapply located_insert; [|exact Hc'|exact Hloc]. intros j l n _ Hj Hn. by apply (Hloc j l n).
  - by rewrite Hrest.
  - unfold zlen. by rewrite Hrest.
Qed.

Lemma wf_set_error e lh : lh_wf lh -> lh_wf (set_error e lh).
Proof. intros [? [? ? ? ? ? ?] ? ? ? ?]. constructor; try done. Qed.

Lemma same_contents_map lh lh' : lh_wf lh' -> same_contents lh lh' -> lh_map lh' = lh_map lh.
Proof. intros Hwf (Hp & _). apply nodes_map_perm; [apply (wf_nodup lh' Hwf)|done]. Qed.

(** The load calls for a new bucket only while their number is below its bound. *)
Lemma load_bound lh : shape lh -> up_load lh <= load lh -> num_nodes lh < max_buckets.
Proof.
  intros Hs Hload. pose proof (shape_pmax lh Hs). pose proof Hs as [Hp _ Hn _ _ Hup].
  rewrite Hup in Hload. unfold load, UP_LOAD, LH_LOAD_MULT, max_buckets in *.
  pose proof (u32_range (num_items lh * 256)) as Hu. set (x := u32 (num_items lh * 256)) in *.
  assert (Hm : num_nodes lh * (x / num_nodes lh) <= x) by (apply Z.mul_div_le; lia). nia.
Qed.

(** *** The operations *)

Lemma grow_spec realloc lh :
  lh_wf lh ->
  exists ok lh', (if up_load lh <=? load lh then expand realloc lh else Done (1, lh)) = Done (ok, lh') /\
    lh_wf lh' /\ lh_map lh' = lh_map lh /\
    ((ok = 1 /\ error lh' = error lh) \/ (ok = 0 /\ realloc = false /\ error lh' = error lh + 1)).
Proof.
  intros Hwf. destruct (Z.leb_spec (up_load lh) (load lh)) as [Hload|]; [|exists 1, lh; auto 6].
  destruct (expand_spec realloc lh Hwf (load_bound lh (wf_shape lh Hwf) Hload))
    as [[Hr ->]|(lh' & -> & Hwf' & Hs & He & _)].
  - exists 0, (set_error (error lh + 1) lh). split; [done|]. split; [by apply wf_set_error|]. split; [done|]. by right.
  - exists 1, lh'. split; [done|]. split; [done|]. split; [by apply same_contents_map|]. by left.
Qed.

(** A new node at the end of its chain. *)
Lemma add_node lh d c :
  lh_wf lh -> let nn := address lh (hash0 d) in
  b lh !! Z.to_nat nn = Some c -> lkey d ∉ node_key <$> concat (b lh) ->
  let lh' := set_num_items (u32 (num_items lh + 1)) (set_b (<[Z.to_nat nn := c ++ [Node d (hash0 d)]]> (b lh)) lh) in
  lh_wf lh' /\ lh_map lh' = <[lkey d := d]> (lh_map lh).
Proof.
  intros Hwf nn Hc Hnew lh'. pose proof (address_range lh (hash0 d) (wf_shape lh Hwf)) as Ha. fold nn in Ha.
  destruct (wf_bucket lh (Z.to_nat nn) c (c ++ [Node d (hash0 d)]) Hwf Hc) as (rest & Hold & Hp & Hmk).
  { intros n [Hn|Hn]%elem_of_app; [by apply (wf_chain lh _ c)|]. apply list_elem_of_singleton in Hn as ->. simpl. lia. }
  assert (Hperm : (c ++ [Node d (hash0 d)]) ++ rest ≡ₚ Node d (hash0 d) :: concat (b lh)).
  { rewrite Hold, <- app_assoc. simpl. by rewrite <- Permutation_middle. }
  assert (Hnd : NoDup (node_key <$> (c ++ [Node d (hash0 d)]) ++ rest)).
  { rewrite Hperm. cbn [fmap list_fmap]. apply NoDup_cons. split; [done|apply (wf_nodup lh Hwf)]. }
  specialize (Hmk Hnd). split.
  - assert (Hi : u32 (zlen ((c ++ [Node d (hash0 d)]) ++ rest)) = u32 (num_items lh + 1)); [|by rewrite Hi in Hmk].
    rewrite (wf_items lh Hwf), u32_add. f_equal. unfold zlen. rewrite Hperm. simpl. lia.
  - unfold lh_map. simpl. rewrite (nodes_map_perm _ (Node d (hash0 d) :: concat (b lh))); [done| |by rewrite Hp].
    by rewrite Hp.
Qed.

(** The datum of a node replaced. *)
Lemma replace_node lh d c k n :
  lh_wf lh -> let nn := address lh (hash0 d) in
  b lh !! Z.to_nat nn = Some c -> c !! k = Some n -> node_key n = lkey d ->
  let lh' := set_b (<[Z.to_nat nn := <[k := Node d (nhash n)]> c]> (b lh)) lh in
  lh_wf lh' /\ lh_map lh' = <[lkey d := d]> (lh_map lh).
Proof.
  intros Hwf nn Hc Hk Hkey. cbn zeta. set (n' := Node d (nhash n)).
  destruct (wf_chain lh _ c n Hwf Hc ltac:(by eapply list_elem_of_lookup_2)) as [Hh Ha].
  destruct (wf_bucket lh (Z.to_nat nn) c (<[k := n']> c) Hwf Hc) as (rest & Hold & Hp & Hmk).
  { intros m (j & Hj)%list_elem_of_lookup. apply list_lookup_insert_Some in Hj as [(_ & <- & _)|[_ Hj]].
    - simpl. split; [|done]. rewrite Hh. by apply hash_key.
    - apply (wf_chain lh _ c); [done..|by eapply list_elem_of_lookup_2]. }
  pose proof (list_elem_of_split_length c k n Hk) as (c1 & c2 & -> & ->).
  rewrite insert_app_r_alt, Nat.sub_diag in * by done. cbn [insert list_insert] in *.
  assert (Hkeys : node_key n' = node_key n) by done.
  pose proof (wf_nodup lh Hwf) as Hnd0. rewrite Hold in Hnd0.
  assert (Hnd : NoDup (node_key <$> (c1 ++ n' :: c2) ++ rest)).
  { rewrite !fmap_app in *. cbn [fmap list_fmap] in *. by rewrite Hkeys. }
  specialize (Hmk Hnd). split.
  - assert (Hi : u32 (zlen ((c1 ++ n' :: c2) ++ rest)) = num_items lh).
    { rewrite (wf_items lh Hwf). f_equal. unfold zlen. rewrite Hold, !length_app. done. }
    by rewrite Hi in Hmk.
  - unfold lh_map. simpl.
    rewrite (nodes_map_perm _ (n' :: c1 ++ c2 ++ rest)); [|by rewrite Hp|rewrite Hp, <- app_assoc; simpl; symmetry; apply Permutation_middle].
    rewrite (nodes_map_perm (concat (b lh)) (n :: c1 ++ c2 ++ rest));
      [|apply (wf_nodup lh Hwf)|rewrite Hold, <- app_assoc; simpl; symmetry; apply Permutation_middle].
    rewrite !nodes_map_cons, Hkeys, Hkey. by rewrite insert_insert_eq.
Qed.

(** What an insertion does: it replaces or adds, or reports a failed allocation. *)
Lemma insert_spec realloc malloc lh d :
  lh_wf lh ->
  exists r lh', OPENSSL_LH_insert realloc malloc lh d = Done (r, lh') /\ lh_wf lh' /\
    ((r = lh_map lh !! lkey d /\ lh_map lh' = <[lkey d := d]> (lh_map lh) /\ error lh' = 0) \/
     (realloc && malloc = false /\ r = None /\ lh_map lh' = lh_map lh /\ error lh' = 1)).
Proof.
  intros Hwf. unfold OPENSSL_LH_insert. apply (wf_set_error 0) in Hwf.
  destruct (grow_spec realloc (set_error 0 lh) Hwf) as (ok & lh1 & -> & Hwf1 & Hm & Hok). cbn [mbind outcome_bind].
  change (lh_map (set_error 0 lh)) with (lh_map lh) in Hm. change (error (set_error 0 lh)) with 0 in Hok.
  rewrite <- Hm. clear Hwf Hm lh.
  destruct Hok as [[-> He]|(-> & -> & He)]; cbn [Z.eqb]; [|exists None, lh1; split; [done|]; split; [done|]; right; by split_and!].
  destruct (getrn_spec lh1 d Hwf1) as (c & -> & Hc & Hl & Hmatch). cbn [mbind outcome_bind]. rewrite Hl.
  set (rn := find_link (funs lh1) (hash0 d) d c) in *.
  assert (Hlt : (Z.to_nat (address lh1 (hash0 d)) < length (b lh1))%nat) by (by eapply lookup_lt_Some).
  destruct (c !! rn) as [n|] eqn:Hn; cbn [fmap option_fmap option_map].
  - rewrite set_bucket_done by done. cbn [mbind outcome_bind]. eexists _, _. split; [reflexivity|].
    destruct (replace_node lh1 d c rn n Hwf1 Hc Hn Hmatch) as [Hwf' Hm']. split; [done|]. left. by split_and!.
  - destruct malloc; cbn [negb].
    + rewrite set_bucket_done by done. cbn [mbind outcome_bind]. eexists _, _. split; [reflexivity|].
      destruct (add_node lh1 d c Hwf1 Hc Hmatch) as [Hwf' Hm']. split; [done|]. left. by split_and!.
    + eexists _, _. split; [reflexivity|]. split; [by apply wf_set_error|]. right.
      rewrite andb_false_r. split_and!; [done..|]. simpl. by rewrite He.
Qed.

(** A node taken out of its chain. *)
Lemma remove_node lh d c k n :
  lh_wf lh -> let nn := address lh (hash0 d) in
  b lh !! Z.to_nat nn = Some c -> c !! k = Some n -> node_key n = lkey d ->
  let lh' := set_num_items (u32 (num_items lh - 1)) (set_b (<[Z.to_nat nn := delete k c]> (b lh)) lh) in
  lh_wf lh' /\ lh_map lh' = delete (lkey d) (lh_map lh).
Proof.
  intros Hwf nn Hc Hk Hkey. cbn zeta.
  destruct (wf_bucket lh (Z.to_nat nn) c (delete k c) Hwf Hc) as (rest & Hold & Hp & Hmk).
  { intros m Hm. apply (wf_chain lh _ c); [done..|]. rewrite (delete_Permutation c k n Hk). by right. }
  rewrite (delete_Permutation c k n Hk) in Hold. cbn [app] in Hold.
  pose proof (wf_nodup lh Hwf) as Hnd0. rewrite Hold in Hnd0.
  assert (Hnd : NoDup (node_key <$> delete k c ++ rest)) by (cbn [fmap list_fmap] in Hnd0; by apply NoDup_cons in Hnd0 as [_ ?]).
  specialize (Hmk Hnd). split.
  - assert (Hi : u32 (zlen (delete k c ++ rest)) = u32 (num_items lh - 1)); [|by rewrite Hi in Hmk].
    rewrite (wf_items lh Hwf). replace (u32 (zlen (concat (b lh))) - 1) with (u32 (zlen (concat (b lh))) + -1) by ring.
    rewrite u32_add. f_equal. unfold zlen. rewrite Hold. simpl. lia.
  - unfold lh_map. simpl. rewrite (nodes_map_perm _ (delete k c ++ rest)) by by rewrite Hp.
    rewrite (nodes_map_perm (concat (b lh)) (n :: delete k c ++ rest) (wf_nodup lh Hwf) Hold).
    by rewrite <- Hkey, nodes_map_delete.
Qed.

(** What a deletion does; a contraction that cannot reallocate sets the error. *)
Lemma delete_spec realloc lh d :
  lh_wf lh ->
  exists lh', OPENSSL_LH_delete realloc lh d = Done (lh_map lh !! lkey d, lh') /\ lh_wf lh' /\
    lh_map lh' = delete (lkey d) (lh_map lh) /\ (error lh' = 0 \/ (realloc = false /\ error lh' = 1)).
Proof.
  intros Hwf. unfold OPENSSL_LH_delete. apply (wf_set_error 0) in Hwf.
  destruct (getrn_spec (set_error 0 lh) d Hwf) as (c & -> & Hc & Hl & Hmatch). cbn [mbind outcome_bind].
  change (lh_map (set_error 0 lh)) with (lh_map lh) in *. rewrite Hl.
  set (rn := find_link (funs (set_error 0 lh)) (hash0 d) d c) in *.
  destruct (c !! rn) as [n|] eqn:Hn; cbn [fmap option_fmap option_map].
  2:{ eexists. split; [reflexivity|]. split; [done|]. split; [|by left]. rewrite delete_id; [done|]. by rewrite Hl. }
  rewrite set_bucket_done by (by eapply lookup_lt_Some). cbn [mbind outcome_bind].
  destruct (remove_node (set_error 0 lh) d c rn n Hwf Hc Hn Hmatch) as [Hwf1 Hm1].
  set (lh1 := set_num_items _ (set_b _ (set_error 0 lh))) in *.
  assert (He1 : error lh1 = 0) by done.
  destruct (Z.ltb_spec MIN_NODES (num_nodes lh1)) as [Hbig|]; [destruct (load lh1 <=? down_load lh1)|]; cbn [andb].
  2,3: cbn [mbind outcome_bind]; eexists; split; [reflexivity|]; split_and!; [done|done|by left].
  destruct (contract_spec realloc lh1 Hwf1 Hbig) as (lh2 & -> & Hwf2 & Hs & He & _). cbn [mbind outcome_bind].
  eexists. split; [reflexivity|]. split; [done|]. split; [by rewrite (same_contents_map _ _ Hwf2 Hs)|].
  rewrite He, He1. destruct (p lh1 =? 0), realloc; cbn [andb negb]; auto.
Qed.

Lemma retrieve_spec lh d :
  lh_wf lh ->
  exists lh', OPENSSL_LH_retrieve lh d = Done (lh_map lh !! lkey d, lh') /\ lh_wf lh' /\
    lh_map lh' = lh_map lh /\ error lh' = 0.
Proof.
  intros Hwf. unfold OPENSSL_LH_retrieve.
  set (lh1 := if negb (error lh =? 0) then set_error 0 lh else lh).
  assert (Hwf1 : lh_wf lh1) by (unfold lh1; destruct (negb _); [by apply wf_set_error|done]).
  assert (Hm : lh_map lh1 = lh_map lh) by (unfold lh1; by destruct (negb _)).
  assert (He : error lh1 = 0) by (unfold lh1; by destruct (Z.eqb_spec (error lh) 0)).
  destruct (getrn_spec lh1 d Hwf1) as (c & -> & _ & Hl & _). cbn [mbind outcome_bind].
  exists lh1. by rewrite <- Hl, Hm.
Qed.

Lemma flush_buckets_spec m (bs : list (list (node D))) :
  (m <= length bs)%nat ->
  flush_buckets m bs = Done (concat (take m bs), replicate m [] ++ drop m bs).
Proof.
  induction m as [|m IH]; intros Hm; cbn [flush_buckets]; [by rewrite drop_0|].
  rewrite IH by lia. cbn [mbind outcome_bind].
  destruct (lookup_lt_is_Some_2 bs m) as [c Hc]; [lia|].
  assert (Hget : (replicate m [] ++ drop m bs) !! Z.to_nat (Z.of_nat m) = Some c).
  { rewrite Nat2Z.id, lookup_app_r by (rewrite length_replicate; lia).
    rewrite length_replicate, Nat.sub_diag, lookup_drop. by rewrite Nat.add_0_r. }
  rewrite (bucket_some _ _ _ Hget). cbn [mbind outcome_bind].
  rewrite set_bucket_done by (by eapply lookup_lt_Some). cbn [mbind outcome_bind]. do 2 f_equal.
  - rewrite (take_S_r bs m c Hc), concat_app. cbn [concat]. by rewrite app_nil_r.
  - rewrite Nat2Z.id, insert_app_r_alt by (rewrite length_replicate; lia).
    rewrite length_replicate, Nat.sub_diag, (drop_S bs c m Hc). cbn [insert list_insert].
    rewrite replicate_S_end, <- app_assoc. done.
Qed.

(** flush frees every node and leaves an empty table. *)
Lemma flush_spec lh :
  lh_wf lh ->
  exists lh', OPENSSL_LH_flush (Some lh) = Done (concat (b lh), Some lh') /\ lh_wf lh' /\
    lh_map lh' = ∅ /\ error lh' = error lh.
Proof.
  intros Hwf. pose proof (wf_shape lh Hwf) as Hs. pose proof (shape_pmax lh Hs).
  pose proof Hs as [Hp Ha Hn _ _ _]. pose proof (wf_len lh Hwf) as Hlen. unfold zlen in Hlen.
  unfold OPENSSL_LH_flush. rewrite flush_buckets_spec by lia. cbn [mbind outcome_bind].
  assert (Hempty : forall i c, drop (Z.to_nat (num_nodes lh)) (b lh) !! i = Some c -> c = []).
  { intros i c Hi. rewrite lookup_drop in Hi.
    apply (located_empty (address lh) (b lh) (num_nodes lh) (Z.to_nat (num_nodes lh) + i)%nat c (wf_located lh Hwf)); [|lia|exact Hi].
    intros h. apply (address_range lh h Hs). }
  assert (Hdrop : concat (drop (Z.to_nat (num_nodes lh)) (b lh)) = []).
  { apply concat_nil_Forall, List.Forall_forall. intros c Hc.
    apply list_elem_of_In, list_elem_of_lookup in Hc as [i Hi]. by eapply Hempty. }
  set (bs := replicate _ [] ++ drop _ (b lh)).
  assert (Hbs : concat bs = []) by (unfold bs; by rewrite concat_app, concat_replicate_nil, Hdrop).
  exists (set_num_items 0 (set_b bs lh)). split.
  { rewrite <- (take_drop (Z.to_nat (num_nodes lh)) (b lh)) at 2. by rewrite concat_app, Hdrop, app_nil_r. }
  split; [|split; [unfold lh_map; simpl; by rewrite Hbs|done]].
  constructor; [apply (wf_calls lh Hwf)|by destruct Hs; constructor| | | |].
  - cbn [num_alloc_nodes b set_b set_num_items]. unfold bs, zlen. rewrite length_app, length_replicate, length_drop. lia.
  - intros i c n Hi Hin. exfalso. assert (Hc : n ∈ concat bs) by (apply elem_of_concat_bucket; by exists i, c).
    rewrite Hbs in Hc. set_solver.
  - simpl. rewrite Hbs. constructor.
  - simpl. by rewrite Hbs.
Qed.

(** *** Callbacks over a whole table *)

Lemma doall_chain_spec (call : D -> outcome (list E)) (g : D -> list E) c :
  (forall d, call d = Done (g d)) -> doall_chain call c = Done (concat (g <$> (data <$> c))).
Proof.
  intros Hc. induction c as [|a c IH]; cbn [doall_chain]; [done|]. rewrite Hc, IH. done.
Qed.

(** The order in which a traversal meets the data. *)
Definition doall_order lh : list D := data <$> concat (reverse (take (Z.to_nat (num_nodes lh)) (b lh))).

Lemma concat_reverse {X} (l : list (list X)) : concat (reverse l) ≡ₚ concat l.
Proof.
  induction l as [|x l IH]; [done|]. rewrite reverse_cons, concat_app. cbn [concat]. rewrite app_nil_r, IH.
  apply Permutation_app_comm.
Qed.

Lemma doall_buckets_spec (call : D -> outcome (list E)) (g : D -> list E) m (bs : list (list (node D))) :
  (forall d, call d = Done (g d)) -> (m <= length bs)%nat ->
  doall_buckets call m bs = Done (concat (g <$> (data <$> concat (reverse (take m bs))))).
Proof.
  intros Hc. induction m as [|m IH]; intros Hm; cbn [doall_buckets]; [done|].
  destruct (lookup_lt_is_Some_2 bs m) as [c Hcm]; [lia|].
  rewrite bucket_some with (c := c) by (by rewrite Nat2Z.id). cbn [mbind outcome_bind].
  rewrite (doall_chain_spec call g c Hc), IH by lia. cbn [mbind outcome_bind]. f_equal.
  rewrite (take_S_r bs m c Hcm), reverse_app. cbn [reverse rev_append app]. cbn [concat].
  by rewrite !fmap_app, concat_app.
Qed.

(** The first datum met stops a traversal whose thunk is missing. *)
Lemma doall_buckets_crash f m (bs : list (list (node D))) :
  (m <= length bs)%nat ->
  doall_buckets (fun _ => Crash f : outcome (list E)) m bs =
    match concat (take m bs) with [] => Done [] | _ => Crash f end.
Proof.
  induction m as [|m IH]; intros Hm; cbn [doall_buckets]; [done|].
  destruct (lookup_lt_is_Some_2 bs m) as [c Hcm]; [lia|].
  rewrite bucket_some with (c := c) by (by rewrite Nat2Z.id). cbn [mbind outcome_bind].
  rewrite IH, (take_S_r bs m c Hcm), concat_app by lia. cbn [concat]. rewrite app_nil_r.
  destruct c as [|a c]; cbn [doall_chain mbind outcome_bind].
  - rewrite app_nil_r. by destruct (concat (take m bs)).
  - by destruct (concat (take m bs)).
Qed.

(** The data of a table. *)
Definition lh_data lh : list D := (map_to_list (lh_map lh)).*2.

Lemma lh_data_nodes lh : lh_wf lh -> lh_data lh ≡ₚ data <$> concat (b lh).
Proof.
  intros Hwf. unfold lh_data, lh_map, nodes_map. rewrite map_to_list_to_map by (rewrite nodes_fst; apply (wf_nodup lh Hwf)).
  rewrite <- list_fmap_compose. done.
Qed.

Lemma wf_concat_nodes lh : lh_wf lh -> concat (take (Z.to_nat (num_nodes lh)) (b lh)) = concat (b lh).
Proof.
  intros Hwf. pose proof (wf_shape lh Hwf) as Hs. pose proof (shape_pmax lh Hs).
  apply (located_shrink lh); [done|apply (wf_located lh Hwf)|]. pose proof Hs as [Hp _ Hn _ _ _]. lia.
Qed.

Lemma wf_nodes_length lh : lh_wf lh -> (Z.to_nat (num_nodes lh) <= length (b lh))%nat.
Proof.
  intros Hwf. pose proof (wf_shape lh Hwf) as Hs. pose proof Hs as [Hp Ha Hn _ _ _].
  pose proof (wf_len lh Hwf) as Hlen. unfold zlen in Hlen. lia.
Qed.

Lemma num_items_size lh : lh_wf lh -> num_items lh = u32 (Z.of_nat (size (lh_map lh))).
Proof.
  intros Hwf. rewrite (wf_items lh Hwf). unfold lh_map. by rewrite nodes_map_size by apply (wf_nodup lh Hwf).
Qed.

(** *** Whole runs *)

Inductive lh_op :=
  | Insert (realloc malloc : bool) (d : D)
  | Delete (realloc : bool) (d : D)
  | Retrieve (d : D)
  | Flush
  | SetDownLoad (n : Z).

Definition run_op (op : lh_op) lh : outcome (option D * OPENSSL_LHASH D A E) :=
  match op with
  | Insert realloc malloc d => OPENSSL_LH_insert realloc malloc lh d
  | Delete realloc d => OPENSSL_LH_delete realloc lh d
  | Retrieve d => OPENSSL_LH_retrieve lh d
  | Flush => '(_, t) ← OPENSSL_LH_flush (Some lh); Done (None, default lh t)
  | SetDownLoad n => Done (None, OPENSSL_LH_set_down_load n lh)
  end.

Fixpoint run_ops (ops : list lh_op) lh : outcome (list (option D) * OPENSSL_LHASH D A E) :=
  match ops with
  | [] => Done ([], lh)
  | op :: ops' => '(r, lh) ← run_op op lh; '(rs, lh) ← run_ops ops' lh; Done (r :: rs, lh)
  end.

(** The contract: a map and the error count of the last operation. *)
Inductive op_step : gmap K D * Z -> lh_op -> option D -> gmap K D * Z -> Prop :=
  | step_insert m e realloc malloc d :
      op_step (m, e) (Insert realloc malloc d) (m !! lkey d) (<[lkey d := d]> m, 0)
  | step_insert_failed m e realloc malloc d :
      realloc && malloc = false -> op_step (m, e) (Insert realloc malloc d) None (m, 1)
  | step_delete m e realloc d :
      op_step (m, e) (Delete realloc d) (m !! lkey d) (delete (lkey d) m, 0)
  | step_delete_error m e d :
      op_step (m, e) (Delete false d) (m !! lkey d) (delete (lkey d) m, 1)
  | step_retrieve m e d : op_step (m, e) (Retrieve d) (m !! lkey d) (m, 0)
  | step_flush m e : op_step (m, e) Flush None (∅, e)
  | step_down_load m e (k : Z) : op_step (m, e) (SetDownLoad k) None (m, e).

Inductive op_steps : gmap K D * Z -> list lh_op -> list (option D) -> gmap K D * Z -> Prop :=
  | steps_nil s : op_steps s [] [] s
  | steps_cons s1 op r s2 ops rs s3 :
      op_step s1 op r s2 -> op_steps s2 ops rs s3 -> op_steps s1 (op :: ops) (r :: rs) s3.

Definition abstract lh : gmap K D * Z := (lh_map lh, error lh).

Lemma lh_op_spec op lh :
  lh_wf lh -> exists r lh', run_op op lh = Done (r, lh') /\ lh_wf lh' /\ op_step (abstract lh) op r (abstract lh').
Proof.
  intros Hwf. unfold abstract. destruct op as [realloc malloc d|realloc d|d| |n]; cbn [run_op].
  - destruct (insert_spec realloc malloc lh d Hwf) as (r & lh' & Hrun & Hwf' & Hcase).
    exists r, lh'. split_and!; [done..|].
    destruct Hcase as [(-> & -> & ->)|(Hf & -> & -> & ->)]; by constructor.
  - destruct (delete_spec realloc lh d Hwf) as (lh' & Hrun & Hwf' & Hm & Hcase).
    eexists _, lh'. split_and!; [done..|]. rewrite Hm. destruct Hcase as [->|[-> ->]]; constructor.
  - destruct (retrieve_spec lh d Hwf) as (lh' & Hrun & Hwf' & Hm & He).
    eexists _, lh'. split_and!; [done..|]. rewrite Hm, He. constructor.
  - destruct (flush_spec lh Hwf) as (lh' & -> & Hwf' & Hm & He). cbn [mbind outcome_bind default].
    eexists _, lh'. split_and!; [done..|]. rewrite Hm, He. constructor.
  - eexists _, _. split_and!; [done| |constructor]. destruct Hwf as [? [? ? ? ? ? ?] ? ? ? ?]. by constructor.
Qed.

Lemma run_ops_spec ops lh :
  lh_wf lh -> exists rs lh', run_ops ops lh = Done (rs, lh') /\ lh_wf lh' /\
    op_steps (abstract lh) ops rs (abstract lh').
Proof.
  revert lh. induction ops as [|op ops IH]; intros lh Hwf; cbn [run_ops].
  { eexists _, _. split_and!; [done..|constructor]. }
  destruct (lh_op_spec op lh Hwf) as (r & lh1 & -> & Hwf1 & H1). cbn [mbind outcome_bind].
  destruct (IH lh1 Hwf1) as (rs & lh2 & -> & Hwf2 & H2). cbn [mbind outcome_bind].
  eexists _, _. split_and!; [done..|]. by econstructor.
Qed.

(** A new table whose functions are those of the class; [typed] tells whether it
    is made through the macros, which set the thunks. *)
Definition new_table (typed : bool) : option (OPENSSL_LHASH D A E) :=
  let t := OPENSSL_LH_new hash0 comp0 true true (Some hash0) (Some comp0) in
  if typed then OPENSSL_LH_set_thunks t (Some hfn_thunk) (Some cfn_thunk) (Some doall_thunk) (Some doall_arg_thunk)
  else t.

Lemma located_replicate addr m : located addr (replicate m []).
Proof. intros i c n Hi Hn. apply lookup_replicate in Hi as [-> _]. set_solver. Qed.

Lemma new_table_wf typed :
  exists lh, new_table typed = Some lh /\ lh_wf lh /\ abstract lh = (∅, 0) /\
    daw (funs lh) = (if typed then Some doall_thunk else None) /\
    daaw (funs lh) = (if typed then Some doall_arg_thunk else None).
Proof.
  destruct typed; eexists; (split; [reflexivity|]); (split; [|by split_and!]).
  all: constructor; [by split_and!; auto| |done|apply (located_replicate _ 16)|constructor|done].
  all: constructor; simpl; unfold max_buckets; try lia; try done; by exists 0%nat.
Qed.

(** No operation changes the functions of the table. *)
Ltac funs_kept :=
  cbn zeta in *;
  repeat match goal with
  | He : (_ ≫= _) = Done _ |- _ => apply outcome_bind_done in He as (? & _ & He)
  | _ => case_match
  end; simplify_eq/=; done.

Lemma expand_funs realloc lh r lh' : expand realloc lh = Done (r, lh') -> funs lh' = funs lh.
Proof. unfold expand. intros He. funs_kept. Qed.

Lemma contract_funs realloc lh lh' : contract realloc lh = Done lh' -> funs lh' = funs lh.
Proof. unfold contract. intros He. funs_kept. Qed.

Lemma grow_funs realloc lh r lh' :
  (if up_load lh <=? load lh then expand realloc lh else Done (1, lh)) = Done (r, lh') -> funs lh' = funs lh.
Proof. destruct (_ <=? _); intros He; [by eapply expand_funs|by simplify_eq]. Qed.

Lemma shrink_funs realloc lh lh' (c : bool) :
  (if c then contract realloc lh else Done lh) = Done lh' -> funs lh' = funs lh.
Proof. destruct c; intros He; [by eapply contract_funs|by simplify_eq]. Qed.

Lemma run_op_funs op lh r lh' : run_op op lh = Done (r, lh') -> funs lh' = funs lh.
Proof.
  destruct op as [realloc malloc d|realloc d|d| |k]; cbn [run_op].
  - unfold OPENSSL_LH_insert. intros ([ok lh1] & Hg & He)%outcome_bind_done. apply grow_funs in Hg.
    change (funs (set_error 0 lh)) with (funs lh) in Hg. rewrite <- Hg. clear Hg. funs_kept.
  - unfold OPENSSL_LH_delete. intros ([[[h nn] c] rn] & _ & He)%outcome_bind_done.
    destruct (c !! rn); [|by simplify_eq]. apply outcome_bind_done in He as (bs & _ & He).
    apply outcome_bind_done in He as (lh2 & Hs & He). apply shrink_funs in Hs. by simplify_eq.
  - unfold OPENSSL_LH_retrieve. intros ([[[h nn] c] rn] & _ & He)%outcome_bind_done. funs_kept.
  - unfold OPENSSL_LH_flush. intros ([fr t] & He & Hr)%outcome_bind_done.
    apply outcome_bind_done in He as ([freed bs] & _ & He). by simplify_eq/=.
  - intros He. by simplify_eq.
Qed.

Lemma run_ops_funs ops lh rs lh' : run_ops ops lh = Done (rs, lh') -> funs lh' = funs lh.
Proof.
  revert lh rs. induction ops as [|op ops IH]; intros lh rs; cbn [run_ops]; [intros ?; by simplify_eq|].
  intros ([r lh1] & H1 & He)%outcome_bind_done. apply outcome_bind_done in He as ([rs2 lh2] & H2 & He).
  simplify_eq. by rewrite (IH _ _ H2), (run_op_funs _ _ _ _ H1).
Qed.

(** *** The theorems *)

(** C25: The table is a finite map: after any sequence of insertions, deletions,
    retrievals and flushes on a new table, whichever allocations failed, each call
    has returned what the map returns - the datum stored under the key, if any -
    the map has changed accordingly, an insertion whose allocation failed has left
    it unchanged and set the error, a deletion has taken effect even when the array
    could not be made smaller, and the number of items is that of the map. *)
Theorem lhash_refines typed ops :
  exists lh0 rs lh, new_table typed = Some lh0 /\ run_ops ops lh0 = Done (rs, lh) /\
    op_steps (∅, 0) ops rs (lh_map lh, OPENSSL_LH_error lh) /\
    OPENSSL_LH_num_items (Some lh) = u32 (Z.of_nat (size (lh_map lh))).
Proof.
  destruct (new_table_wf typed) as (lh0 & Hnew & Hwf0 & Habs & _).
  destruct (run_ops_spec ops lh0 Hwf0) as (rs & lh & Hrun & Hwf & Hsteps). rewrite Habs in Hsteps.
  exists lh0, rs, lh. split_and!; [done..|by apply num_items_size].
Qed.

(** The sizes stay within bounds: whatever is done to a table, it has p + pmax
    buckets with p < pmax, twice pmax entries are allocated for them, pmax is 8
    times a power of two, every node is in the bucket of its hash, and the number
    of buckets does not exceed 2^23 + 1, since the load is computed with 32 bits,
    so that no index or size overflows. *)
Theorem lhash_bounds typed ops :
  exists lh0 rs lh, new_table typed = Some lh0 /\ run_ops ops lh0 = Done (rs, lh) /\
    0 <= p lh < pmax lh /\ num_nodes lh = p lh + pmax lh /\ num_nodes lh <= 8388609 /\
    num_alloc_nodes lh = 2 * pmax lh /\ num_alloc_nodes lh <= zlen (b lh) /\ (exists k, pmax lh = 8 * 2 ^ Z.of_nat k) /\
    forall i c n, b lh !! i = Some c -> n ∈ c ->
      Z.of_nat i = address lh (hash0 (data n)) /\ Z.of_nat i < num_nodes lh.
Proof.
  destruct (new_table_wf typed) as (lh0 & Hnew & Hwf0 & _).
  destruct (run_ops_spec ops lh0 Hwf0) as (rs & lh & Hrun & Hwf & _).
  pose proof (wf_len lh Hwf) as Hlen. pose proof (wf_shape lh Hwf) as Hs. pose proof Hs as [Hp Ha Hn Hpow Hb _].
  exists lh0, rs, lh. split_and!; try done; try lia.
  intros i c n Hi Hin. destruct (wf_chain lh i c n Hwf Hi Hin) as [<- Haddr].
  pose proof (address_range lh (nhash n) Hs). lia.
Qed.

(** doall visits every datum once: after any operations on a table made through
    the macros, doall and doall_arg call the function on the data of the map, each
    once, and flush frees as many nodes as the map has data; on a table made by
    OPENSSL_LH_new alone, which has no thunks, doall calls a null pointer as soon
    as there is a datum. *)
Theorem lhash_doall typed ops null_arg func func_arg arg :
  exists lh0 rs lh, new_table typed = Some lh0 /\ run_ops ops lh0 = Done (rs, lh) /\
    (exists ds, ds ≡ₚ lh_data lh /\
      OPENSSL_LH_doall null_arg (Some lh) func =
        (if typed then Done (concat (func <$> ds)) else if decide (ds = []) then Done [] else Crash NullDereference) /\
      OPENSSL_LH_doall_arg (Some lh) func_arg arg =
        (if typed then Done (concat ((fun d => func_arg d arg) <$> ds))
         else if decide (ds = []) then Done [] else Crash NullDereference)) /\
    exists freed lh', OPENSSL_LH_flush (Some lh) = Done (freed, Some lh') /\ data <$> freed ≡ₚ lh_data lh /\
      lh_data lh' = [].
Proof.
  destruct (new_table_wf typed) as (lh0 & Hnew & Hwf0 & _ & Hdaw & Hdaaw).
  destruct (run_ops_spec ops lh0 Hwf0) as (rs & lh & Hrun & Hwf & _).
  pose proof (lh_data_nodes lh Hwf) as Hdata. pose proof (wf_concat_nodes lh Hwf) as Hcat.
  pose proof (wf_nodes_length lh Hwf) as Hlen.
  rewrite <- (run_ops_funs _ _ _ _ Hrun) in Hdaw, Hdaaw. exists lh0, rs, lh. split_and!; [done..| |].
  - exists (doall_order lh). split; [unfold doall_order; by rewrite concat_reverse, Hcat, Hdata|].
    unfold OPENSSL_LH_doall, OPENSSL_LH_doall_arg, doall_util_fn. rewrite Hdaw, Hdaaw.
    destruct typed; [split; by rewrite (doall_buckets_spec _ _ _ _ (fun d => eq_refl) Hlen)|].
    rewrite (doall_buckets_crash _ _ _ Hlen), Hcat.
    assert (Hnil : doall_order lh = [] <-> concat (b lh) = []).
    { unfold doall_order. rewrite <- !length_zero_iff_nil, length_fmap, <- Hcat. by rewrite concat_reverse. }
    destruct (decide (doall_order lh = [])) as [He|Hne]; [by rewrite (proj1 Hnil He)|].
    destruct (concat (b lh)); [by destruct Hne; apply Hnil|done].
  - destruct (flush_spec lh Hwf) as (lh' & -> & _ & Hm & _). exists (concat (b lh)), lh'.
    split_and!; [done|by rewrite Hdata|]. unfold lh_data. by rewrite Hm, map_to_list_empty.
Qed.
End wf.

(** ** Instances to evaluate on *)

(** Integers that are their own keys and hashes. *)
Definition int_laws : LhLaws Z (fun x : Z => x) (fun x y : Z => x - y).
Proof. apply (Build_LhLaws Z Z (fun x => x) (fun x y => x - y) (fun x => x)); intros x y; [lia|done]. Defined.

Definition int_ops (n : nat) : list (lh_op (D := Z)) := map (fun i => Insert true true (Z.of_nat i)) (seq 0 n).
Definition int_deletions (n : nat) : list (lh_op (D := Z)) := map (fun i => Delete true (Z.of_nat i)) (seq 0 n).
Definition int_table : option (OPENSSL_LHASH Z unit Z) :=
  new_table (hash0 := fun x : Z => x) (comp0 := fun x y : Z => x - y) true.

(** A down load of 0 does not stop a table from shrinking, although the
    documentation says that it disables contraction: when the last item is deleted
    the load is 0 too. *)
Example down_load_zero_contracts :
  match int_table with
  | Some lh =>
      match run_ops (int_ops 40 ++ [SetDownLoad 0] ++ int_deletions 39) lh, run_ops (int_ops 40 ++ [SetDownLoad 0] ++ int_deletions 40) lh with
      | Done (_, lh1), Done (_, lh2) => (num_nodes lh1, OPENSSL_LH_get_down_load lh1, num_nodes lh2) = (20, 0, 19)
      | _, _ => False
      end
  | None => False
  end.
Proof. vm_compute. reflexivity. Qed.

(** A flush leaves the error of an insertion before it in place, although the
    documentation says that OPENSSL_LH_error reports on the last operation. *)
Example flush_keeps_error :
  match int_table with
  | Some lh =>
      match run_ops [Insert true false 1; Flush] lh, run_ops [Insert true false 1; Retrieve 1] lh with
      | Done (_, lh1), Done (_, lh2) => (OPENSSL_LH_error lh1, OPENSSL_LH_error lh2) = (1, 0)
      | _, _ => False
      end
  | None => False
  end.
Proof. vm_compute. reflexivity. Qed.

Lemma lhash_refines_witness :
  exists lh0 rs lh, int_table = Some lh0 /\ run_ops (int_ops 40 ++ int_deletions 39) lh0 = Done (rs, lh) /\
    OPENSSL_LH_num_items (Some lh) = u32 (Z.of_nat (size (lh_map (L := int_laws) lh))).
Proof.
  destruct (lhash_refines (L := int_laws) (A := unit) (E := Z) true (int_ops 40 ++ int_deletions 39))
    as (lh0 & rs & lh & Hn & Hr & _ & Hs).
  exists lh0, rs, lh. split; [exact Hn|]. split; [exact Hr|exact Hs].
Defined.

Lemma lhash_bounds_witness :
  exists lh0 rs lh, int_table = Some lh0 /\ run_ops (int_ops 40) lh0 = Done (rs, lh) /\ num_nodes lh <= 8388609.
Proof.
  destruct (lhash_bounds (L := int_laws) (A := unit) (E := Z) true (int_ops 40))
    as (lh0 & rs & lh & Hn & Hr & _ & _ & Hb & _).
  exists lh0, rs, lh. split; [exact Hn|]. split; [exact Hr|exact Hb].
Defined.

Lemma lhash_doall_witness :
  exists lh0 rs lh ds, int_table = Some lh0 /\ run_ops (int_ops 5) lh0 = Done (rs, lh) /\
    ds ≡ₚ lh_data (L := int_laws) lh /\ OPENSSL_LH_doall tt (Some lh) (fun d => [d]) = Done (concat ((fun d => [d]) <$> ds)).
Proof.
  destruct (lhash_doall (L := int_laws) (A := unit) (E := Z) true (int_ops 5) tt (fun d => [d]) (fun d _ => [d]) tt)
    as (lh0 & rs & lh & Hn & Hr & (ds & Hp & Hd & _) & _).
  exists lh0, rs, lh, ds. split; [exact Hn|]. split; [exact Hr|]. split; [exact Hp|exact Hd].
Defined.
