(* ===== verification/LhStrings.v ===== *)
(** * Hash tables of strings (crypto/lhash/lhash.c, crypto/o_str.c, crypto/ctype.c)

    The two string hashes of the hash tables, the comparisons they go with, and
    the proof that each pair discharges the interface of [Lhash]. *)

From S2P Require Import Prelude CLib Words Lhash.

(** ** Characters and comparisons *)

Definition case_change : Z := 0x20.

Definition ossl_tolower (c : Z) : Z := if (0x41 <=? c) && (c <=? 0x5A) then Z.lxor c case_change else c.
Definition ossl_toupper (c : Z) : Z := if (0x61 <=? c) && (c <=? 0x7A) then Z.lxor c case_change else c.

(** A string is the bytes before its NUL; the NUL ends the loops. *)
Definition first (s : bytes) : Z := match s with [] => 0 | c :: _ => c end.

Fixpoint OPENSSL_strcasecmp (s1 s2 : bytes) : Z :=
  let t := ossl_tolower (schar (first s1)) - ossl_tolower (schar (first s2)) in
  if t =? 0 then
    match s1 with
    | [] => 0
    | c :: s1' => if c =? 0 then 0 else OPENSSL_strcasecmp s1' (tail s2)
    end
  else t.

Fixpoint OPENSSL_strncasecmp (s1 s2 : bytes) (n : nat) : Z :=
  match n with
  | O => 0
  | S n' =>
      let t := ossl_tolower (schar (first s1)) - ossl_tolower (schar (first s2)) in
      if negb (t =? 0) then t
      else if first s1 =? 0 then 0
      else OPENSSL_strncasecmp (tail s1) (tail s2) n'
  end.

(** strcmp of the C library: it compares unsigned characters. *)
Fixpoint strcmp (s1 s2 : bytes) : Z :=
  let t := first s1 - first s2 in
  if t =? 0 then
    match s1 with
    | [] => 0
    | c :: s1' => if c =? 0 then 0 else strcmp s1' (tail s2)
    end
  else t.

(** ** The hashes *)

(** One round, for the character as it is used and the counter [n]. *)
Definition hash_round (n c ret : Z) : Z :=
  let v := u32 (Z.lor n c) in
  let r := Z.land (Z.lxor (Z.shiftr v 2) v) 0x0f in
  let ret := Z.lor (u32 (Z.shiftl ret r)) (Z.shiftr ret (32 - r)) in
  let ret := Z.land ret 0xFFFFFFFF in
  Z.lxor ret (u32 (v * v)).

Fixpoint hash_loop (adjust : Z -> Z) (n ret : Z) (s : bytes) : Z :=
  match s with
  | [] => ret
  | c :: s' => if c =? 0 then ret else hash_loop adjust (n + 0x100) (hash_round n (adjust (schar c)) ret) s'
  end.

Definition OPENSSL_LH_strhash (c : option bytes) : Z :=
  match c with
  | None => 0
  | Some s =>
      if first s =? 0 then 0
      else let ret := hash_loop (fun c => c) 0x100 0 s in Z.lxor (Z.shiftr ret 16) ret
  end.

Definition case_adjust : Z := Z.lnot 0x20.

Definition ossl_lh_strcasehash (c : option bytes) : Z :=
  match c with
  | None => 0
  | Some s =>
      if first s =? 0 then 0
      else let ret := hash_loop (Z.land case_adjust) 0x100 0 s in Z.lxor (Z.shiftr ret 16) ret
  end.

(** ** What they have in common *)

Lemma until_nul_first s : first (until_nul s) = first s.
Proof. destruct s as [|c s]; [done|]. cbn [until_nul first]. by destruct (Z.eqb_spec c 0). Qed.

Lemma hash_loop_until_nul adjust n ret s : hash_loop adjust n ret (until_nul s) = hash_loop adjust n ret s.
Proof.
  revert n ret. induction s as [|c s IH]; intros n ret; [done|]. cbn [until_nul hash_loop].
  destruct (Z.eqb_spec c 0) as [->|Hne]; [done|]. cbn [hash_loop]. by rewrite (proj2 (Z.eqb_neq c 0) Hne), IH.
Qed.

(** The loop depends on the adjusted characters only. *)
Lemma hash_loop_adjusted adjust n ret s1 s2 :
  no_nul s1 -> no_nul s2 -> map (fun c => adjust (schar c)) s1 = map (fun c => adjust (schar c)) s2 ->
  hash_loop adjust n ret s1 = hash_loop adjust n ret s2.
Proof.
  intros H1. revert n ret s2. induction H1 as [|c s1 Hc _ IH]; intros n ret s2 H2 He.
  - by destruct s2.
  - destruct H2 as [|c2 s2 Hc2 H2]; [done|]. injection He as He Hs. cbn [hash_loop].
    rewrite !(proj2 (Z.eqb_neq _ _)) by done. rewrite He. by apply IH.
Qed.

Lemma hash_round_range n c ret : 0 <= hash_round n c ret < 4294967296.
Proof.
  unfold hash_round. set (x := Z.lor _ _). set (y := u32 _ * u32 _).
  assert (Hl : Z.land x 0xFFFFFFFF = u32 x) by (unfold u32, wrap; rewrite <- Z.land_ones by lia; done).
  rewrite Hl. apply (lxor_bound 32); [lia|apply (u32_range x)|apply (u32_range y)].
Qed.

Lemma hash_loop_range adjust n ret s : 0 <= ret < 4294967296 -> 0 <= hash_loop adjust n ret s < 4294967296.
Proof.
  revert n ret. induction s as [|c s IH]; intros n ret Hr; cbn [hash_loop]; [done|].
  destruct (c =? 0); [done|]. apply IH, hash_round_range.
Qed.

(** The last step of both hashes. *)
Lemma fold_range x : 0 <= x < 4294967296 -> 0 <= Z.lxor (Z.shiftr x 16) x < 4294967296.
Proof.
  intros Hx. apply (lxor_bound 32); [lia| |done]. rewrite Z.shiftr_div_pow2 by lia.
  split; [apply Z.div_pos; lia|]. apply Z.div_lt_upper_bound; lia.
Qed.

(** Equal adjusted characters, equal hashes. *)
Lemma hashes_equal adjust s1 s2 :
  map (fun c => adjust (schar c)) (until_nul s1) = map (fun c => adjust (schar c)) (until_nul s2) ->
  hash_loop adjust 0x100 0 s1 = hash_loop adjust 0x100 0 s2 /\ (first s1 =? 0) = (first s2 =? 0).
Proof.
  intros He. split.
  - rewrite <- (hash_loop_until_nul _ _ _ s1), <- (hash_loop_until_nul _ _ _ s2).
    apply hash_loop_adjusted; [apply until_nul_no_nul..|done].
  - rewrite <- (until_nul_first s1), <- (until_nul_first s2).
    pose proof (until_nul_no_nul s1) as H1. pose proof (until_nul_no_nul s2) as H2.
    destruct H1 as [|c1 r1 Hc1 _], H2 as [|c2 r2 Hc2 _]; try done. cbn [first].
    by rewrite !(proj2 (Z.eqb_neq _ _)) by done.
Qed.

(** A comparison that goes on while the images of the characters are equal. *)
Lemma compare_loop (f : Z -> Z) (cmp : bytes -> bytes -> Z) s1 s2 :
  (forall s1 s2, cmp s1 s2 =
    let t := f (first s1) - f (first s2) in
    if t =? 0 then match s1 with [] => 0 | c :: s1' => if c =? 0 then 0 else cmp s1' (tail s2) end else t) ->
  (forall c, byte_ok c -> f c = f 0 -> c = 0) -> bytes_ok s1 -> bytes_ok s2 ->
  cmp s1 s2 = 0 <-> map f (until_nul s1) = map f (until_nul s2).
Proof.
  intros Hcmp Hz Hok. revert s2. induction Hok as [|c s1 Hc Hok IH]; intros s2 Hok2; rewrite Hcmp; cbn zeta.
  - destruct Hok2 as [|d s2 Hd Hok2]; cbn [until_nul map first]; [by rewrite Z.sub_diag|].
    destruct (Z.eqb_spec d 0) as [->|Hne]; [by rewrite Z.sub_diag|].
    destruct (Z.eqb_spec (f 0 - f d) 0) as [He|Hfd]; [exfalso; apply Hne, Hz; [done|lia]|].
    split; [lia|done].
  - cbn [until_nul first]. destruct (Z.eqb_spec c 0) as [->|Hne].
    + destruct Hok2 as [|d s2 Hd Hok2]; cbn [until_nul map first]; [by rewrite Z.sub_diag|].
      destruct (Z.eqb_spec d 0) as [->|Hdn]; [by rewrite Z.sub_diag|].
      destruct (Z.eqb_spec (f 0 - f d) 0) as [He|Hfd]; [exfalso; apply Hdn, Hz; [done|lia]|]. split; [lia|done].
    + destruct Hok2 as [|d s2 Hd Hok2]; cbn [until_nul map first tail].
      { destruct (Z.eqb_spec (f c - f 0) 0) as [He|Hfd]; [exfalso; apply Hne, Hz; [done|lia]|]. split; [lia|done]. }
      destruct (Z.eqb_spec d 0) as [->|Hdn].
      { destruct (Z.eqb_spec (f c - f 0) 0) as [He|Hfd]; [exfalso; apply Hne, Hz; [done|lia]|]. split; [lia|done]. }
      cbn [map]. destruct (Z.eqb_spec (f c - f d) 0) as [He|Hfd].
      * rewrite (IH s2 Hok2). replace (f d) with (f c) by lia. split; [by intros ->|by intros [=]].
      * split; [lia|]. intros [= He _]. lia.
Qed.

(** Case folding *)

Lemma land_lxor_case x : Z.land case_adjust (Z.lxor x case_change) = Z.land case_adjust x.
Proof.
  apply Z.bits_inj'. intros i Hi. unfold case_adjust, case_change.
  rewrite !Z.land_spec, Z.lxor_spec, Z.lnot_spec by done.
  destruct (Z.testbit 0x20 i); cbn [negb andb]; [done|]. by rewrite xorb_false_r.
Qed.

Lemma adjust_tolower x : Z.land case_adjust (ossl_tolower x) = Z.land case_adjust x.
Proof. unfold ossl_tolower. destruct (_ && _); [apply land_lxor_case|done]. Qed.

Lemma tolower_zero c : byte_ok c -> ossl_tolower (schar c) = ossl_tolower (schar 0) -> c = 0.
Proof.
  intros Hc. change (ossl_tolower (schar 0)) with 0. unfold ossl_tolower, schar, byte_ok in *.
  destruct (Z.ltb_spec c 128); destruct (_ && _) eqn:Hu; try lia; intros Hx.
  apply Z.lxor_eq in Hx. unfold case_change in Hx. lia.
Qed.

Lemma strcasecmp_spec s1 s2 :
  bytes_ok s1 -> bytes_ok s2 ->
  OPENSSL_strcasecmp s1 s2 = 0 <->
    map (fun c => ossl_tolower (schar c)) (until_nul s1) = map (fun c => ossl_tolower (schar c)) (until_nul s2).
Proof. apply (compare_loop (fun c => ossl_tolower (schar c))); [intros [] ?; reflexivity|apply tolower_zero]. Qed.

Lemma strcmp_spec s1 s2 : bytes_ok s1 -> bytes_ok s2 -> strcmp s1 s2 = 0 <-> until_nul s1 = until_nul s2.
Proof.
  intros H1 H2. rewrite (compare_loop (fun c => c) strcmp); [by rewrite !map_id|by intros [] ?|by intros|done..].
Qed.

(** ** The two interfaces of tables of strings *)

Lemma bs_ok s : bytes_ok (bs s).
Proof.
  induction s as [|a s IH]; [constructor|]. constructor; [|done].
  unfold byte_ok. pose proof (Ascii.N_ascii_bounded a). lia.
Qed.

Definition str_hash (s : string) : Z := OPENSSL_LH_strhash (Some (bs s)).
Definition str_comp (s1 s2 : string) : Z := strcmp (bs s1) (bs s2).
Definition name_hash (s : string) : Z := ossl_lh_strcasehash (Some (bs s)).
Definition name_comp (s1 s2 : string) : Z := OPENSSL_strcasecmp (bs s1) (bs s2).

Definition str_key (s : string) : bytes := until_nul (bs s).
Definition name_key (s : string) : bytes := map (fun c => ossl_tolower (schar c)) (until_nul (bs s)).

Lemma strhash_key s1 s2 : str_key s1 = str_key s2 -> str_hash s1 = str_hash s2.
Proof.
  unfold str_key. intros He. unfold str_hash, OPENSSL_LH_strhash.
  destruct (hashes_equal (fun c => c) (bs s1) (bs s2)) as [-> ->]; [by rewrite He|done].
Qed.

Lemma strcasehash_key s1 s2 : name_key s1 = name_key s2 -> name_hash s1 = name_hash s2.
Proof.
  unfold name_key. intros He. unfold name_hash, ossl_lh_strcasehash.
  destruct (hashes_equal (Z.land case_adjust) (bs s1) (bs s2)) as [-> ->]; [|done].
  apply (f_equal (map (Z.land case_adjust))) in He. rewrite !map_map in He.
  assert (Hm : forall l, map (fun c => Z.land case_adjust (ossl_tolower (schar c))) l =
    map (fun c => Z.land case_adjust (schar c)) l); [|by rewrite !Hm in He].
  intros l. apply map_ext. intros c. apply adjust_tolower.
Qed.

Lemma hash_ranges s : 0 <= str_hash s < 4294967296 /\ 0 <= name_hash s < 4294967296.
Proof.
  unfold str_hash, name_hash, OPENSSL_LH_strhash, ossl_lh_strcasehash.
  destruct (first (bs s) =? 0); [lia|]. split; apply fold_range, hash_loop_range; lia.
Qed.

Definition str_laws : LhLaws bytes str_hash str_comp.
Proof.
  apply (Build_LhLaws _ _ str_hash str_comp str_key); [|apply strhash_key].
  intros x y. apply strcmp_spec; apply bs_ok.
Defined.

Definition name_laws : LhLaws bytes name_hash name_comp.
Proof.
  apply (Build_LhLaws _ _ name_hash name_comp name_key); [|apply strcasehash_key].
  intros x y. apply strcasecmp_spec; apply bs_ok.
Defined.

(** The string hashes go with their comparisons: strcmp answers 0 exactly on
    strings that are equal up to their first NUL, OPENSSL_strcasecmp exactly on
    those that are equal after case folding; strings that compare equal have equal
    hashes, so that tables of either kind are finite maps; hashes are 32-bit
    numbers. *)
Theorem string_hashes s1 s2 :
  (str_comp s1 s2 = 0 <-> until_nul (bs s1) = until_nul (bs s2)) /\
  (name_comp s1 s2 = 0 <->
    map (fun c => ossl_tolower (schar c)) (until_nul (bs s1)) = map (fun c => ossl_tolower (schar c)) (until_nul (bs s2))) /\
  (str_comp s1 s2 = 0 -> str_hash s1 = str_hash s2) /\
  (name_comp s1 s2 = 0 -> name_hash s1 = name_hash s2) /\
  0 <= str_hash s1 < 4294967296 /\ 0 <= name_hash s1 < 4294967296.
Proof.
  split; [apply strcmp_spec; apply bs_ok|]. split; [apply strcasecmp_spec; apply bs_ok|].
  split; [intros He; by apply strhash_key, strcmp_spec; [apply bs_ok..|]|].
  split; [intros He; by apply strcasehash_key, strcasecmp_spec; [apply bs_ok..|]|]. apply hash_ranges.
Qed.

Lemma string_hashes_witness :
  name_comp "SHA2-256" "sha2-256" = 0 /\ str_comp "SHA2-256" "sha2-256" <> 0 /\
  name_hash "SHA2-256" = name_hash "sha2-256".
Proof.
  split; [vm_compute; reflexivity|]. split; [vm_compute; discriminate|].
  apply (proj1 (proj2 (proj2 (proj2 (string_hashes "SHA2-256" "sha2-256"))))). vm_compute. reflexivity.
Defined.

(** A table of names in which case does not matter. *)
Example names_table :
  match new_table (A := unit) (E := unit) (hash0 := name_hash) (comp0 := name_comp) false with
  | Some lh =>
      match run_ops [Insert true true "AES-128-CBC"%string; Insert true true "aes-128-cbc"%string;
                     Retrieve "Aes-128-Cbc"%string; Delete true "AES"%string] lh with
      | Done (rs, lh) => (rs, num_items lh) = ([None; Some "AES-128-CBC"; Some "aes-128-cbc"; None], 1)%string
      | _ => False
      end
  | None => False
  end.
Proof. vm_compute. reflexivity. Qed.
