(* ===== verification/Poly1305.v ===== *)
(** * Poly1305 (crypto/poly1305/poly1305.c)

    The variant with 32-bit words and 64-bit products, which a 32-bit build
    compiles.  The accumulator has five words, of which the last holds what is
    above 2^128; it is reduced only partly after each block.  The tag is shown to
    be that of RFC 8439 whatever calls deliver the message. *)

From Stdlib Require Import Btauto.
From S2P Require Import Prelude Words.

Definition POLY1305_BLOCK_SIZE : nat := 16.

Definition U8TOU32 (p : bytes) : Z :=
  Z.lor (Z.lor (Z.lor (Z.land (nth 0 p 0) 0xff) (u32 (Z.shiftl (Z.land (nth 1 p 0) 0xff) 8)))
    (u32 (Z.shiftl (Z.land (nth 2 p 0) 0xff) 16))) (u32 (Z.shiftl (Z.land (nth 3 p 0) 0xff) 24)).

(** The bytes stored at [p]. *)
Definition U32TO8 (v : Z) : bytes :=
  [u8 (Z.land v 0xff); u8 (Z.land (Z.shiftr v 8) 0xff);
   u8 (Z.land (Z.shiftr v 16) 0xff); u8 (Z.land (Z.shiftr v 24) 0xff)].

Definition CONSTANT_TIME_CARRY (a b : Z) : Z :=
  Z.shiftr (a ⊕ Z.lor (a ⊕ b) (u32 (a - b) ⊕ b)) 31.

(** The words of h and of r. *)
Record words5 := W5 { h0 : Z; h1 : Z; h2 : Z; h3 : Z; h4 : Z }.
Record words4 := W4 { r0 : Z; r1 : Z; r2 : Z; r3 : Z }.
Record poly1305_internal := Internal { h : words5; r : words4 }.

Definition poly1305_init (key : bytes) : poly1305_internal :=
  Internal (W5 0 0 0 0 0)
    (W4 (Z.land (U8TOU32 key) 0x0fffffff) (Z.land (U8TOU32 (drop 4 key)) 0x0ffffffc)
        (Z.land (U8TOU32 (drop 8 key)) 0x0ffffffc) (Z.land (U8TOU32 (drop 12 key)) 0x0ffffffc)).

(** h += m[i] *)
Definition add_block (a : words5) (inp : bytes) (padbit : Z) : words5 :=
  let d0 := u64 (h0 a + U8TOU32 inp) in
  let d1 := u64 (h1 a + Z.shiftr d0 32 + U8TOU32 (drop 4 inp)) in
  let d2 := u64 (h2 a + Z.shiftr d1 32 + U8TOU32 (drop 8 inp)) in
  let d3 := u64 (h3 a + Z.shiftr d2 32 + U8TOU32 (drop 12 inp)) in
  W5 (u32 d0) (u32 d1) (u32 d2) (u32 d3) (u32 (h4 a + u32 (u32 (Z.shiftr d3 32) + padbit))).

(** h *= r, with 64-bit sums, and h4 * s in 32 bits. *)
Definition mul_words (a : words5) (k : words4) : words5 :=
  let s1 := u32 (r1 k + Z.shiftr (r1 k) 2) in
  let s2 := u32 (r2 k + Z.shiftr (r2 k) 2) in
  let s3 := u32 (r3 k + Z.shiftr (r3 k) 2) in
  W5 (u64 (h0 a * r0 k + h1 a * s3 + h2 a * s2 + h3 a * s1))
     (u64 (h0 a * r1 k + h1 a * r0 k + h2 a * s3 + h3 a * s2 + u32 (h4 a * s1)))
     (u64 (h0 a * r2 k + h1 a * r1 k + h2 a * r0 k + h3 a * s3 + u32 (h4 a * s2)))
     (u64 (h0 a * r3 k + h1 a * r2 k + h2 a * r1 k + h3 a * r0 k + u32 (h4 a * s3)))
     (u32 (h4 a * r0 k)).

(** a) h4:h0 = h4<<128 + d3<<96 + d2<<64 + d1<<32 + d0 *)
Definition carry_words (d : words5) : words5 :=
  let d0 := h0 d in
  let d1 := u64 (h1 d + Z.shiftr d0 32) in
  let d2 := u64 (h2 d + Z.shiftr d1 32) in
  let d3 := u64 (h3 d + Z.shiftr d2 32) in
  W5 (u32 d0) (u32 d1) (u32 d2) (u32 d3) (u32 (h4 d + u32 (Z.shiftr d3 32))).

(** b) (h4:h0 += (h4:h0>>130) * 5) %= 2^130 *)
Definition fold_words (a : words5) : words5 :=
  let c := u32 (Z.shiftr (h4 a) 2 + Z.land (h4 a) (u32 (Z.lnot 3))) in
  let a4 := Z.land (h4 a) 3 in
  let a0 := u32 (h0 a + c) in
  let c := CONSTANT_TIME_CARRY a0 c in
  let a1 := u32 (h1 a + c) in
  let c := CONSTANT_TIME_CARRY a1 c in
  let a2 := u32 (h2 a + c) in
  let c := CONSTANT_TIME_CARRY a2 c in
  let a3 := u32 (h3 a + c) in
  let c := CONSTANT_TIME_CARRY a3 c in
  W5 a0 a1 a2 a3 (u32 (a4 + c)).

(** The body of the loop. *)
Definition block_step (k : words4) (padbit : Z) (a : words5) (inp : bytes) : words5 :=
  fold_words (carry_words (mul_words (add_block a inp padbit) k)).

(** [n] blocks. *)
Fixpoint blocks_loop (n : nat) (k : words4) (padbit : Z) (a : words5) (inp : bytes) : words5 :=
  match n with
  | O => a
  | S n' => blocks_loop n' k padbit (block_step k padbit a inp) (drop POLY1305_BLOCK_SIZE inp)
  end.

(** [inp] is the [len] bytes to process. *)
Definition poly1305_blocks (st : poly1305_internal) (inp : bytes) (padbit : Z) : poly1305_internal :=
  Internal (blocks_loop (length inp / POLY1305_BLOCK_SIZE) (r st) padbit (h st) inp) (r st).

(** The comparison with the modulus: g = h + 5, and the mask. *)
Definition reduce_words (a : words5) : words4 :=
  let t0 := u64 (h0 a + 5) in
  let t1 := u64 (h1 a + Z.shiftr t0 32) in
  let t2 := u64 (h2 a + Z.shiftr t1 32) in
  let t3 := u64 (h3 a + Z.shiftr t2 32) in
  let g4 := u32 (h4 a + u32 (Z.shiftr t3 32)) in
  let mask := u32 (0 - Z.shiftr g4 2) in
  let pick h t := Z.lor (Z.land h (u32 (Z.lnot mask))) (Z.land (u32 t) mask) in
  W4 (pick (h0 a) t0) (pick (h1 a) t1) (pick (h2 a) t2) (pick (h3 a) t3).

(** mac = (h + nonce) % (2^128) *)
Definition add_nonce (a n : words4) : bytes :=
  let t0 := u64 (r0 a + r0 n) in
  let t1 := u64 (r1 a + Z.shiftr t0 32 + r1 n) in
  let t2 := u64 (r2 a + Z.shiftr t1 32 + r2 n) in
  let t3 := u64 (r3 a + Z.shiftr t2 32 + r3 n) in
  U32TO8 (u32 t0) ++ U32TO8 (u32 t1) ++ U32TO8 (u32 t2) ++ U32TO8 (u32 t3).

Definition poly1305_emit (st : poly1305_internal) (nonce : words4) : bytes := add_nonce (reduce_words (h st)) nonce.

(** [data] holds the bytes of an incomplete block, so that its length is the field num. *)
Record POLY1305 := Poly { opaque : poly1305_internal; nonce : words4; data : bytes }.

Definition Poly1305_Init (key : bytes) : POLY1305 :=
  Poly (poly1305_init key)
    (W4 (U8TOU32 (drop 16 key)) (U8TOU32 (drop 20 key)) (U8TOU32 (drop 24 key)) (U8TOU32 (drop 28 key))) [].

(** The part of the update behind the incomplete block. *)
Definition update_rest (ctx : POLY1305) (inp : bytes) : POLY1305 :=
  let rem := (length inp mod POLY1305_BLOCK_SIZE)%nat in
  let len := (length inp - rem)%nat in
  let st := if (POLY1305_BLOCK_SIZE <=? len)%nat then poly1305_blocks (opaque ctx) (take len inp) 1 else opaque ctx in
  Poly st (nonce ctx) (drop len inp).

Definition Poly1305_Update (ctx : POLY1305) (inp : bytes) : POLY1305 :=
  let num := length (data ctx) in
  if (num =? 0)%nat then update_rest ctx inp
  else
    let rem := (POLY1305_BLOCK_SIZE - num)%nat in
    if (rem <=? length inp)%nat then
      let st := poly1305_blocks (opaque ctx) (data ctx ++ take rem inp) 1 in
      update_rest (Poly st (nonce ctx) []) (drop rem inp)
    else Poly (opaque ctx) (nonce ctx) (data ctx ++ inp).

(** The tag; the context is erased afterwards. *)
Definition Poly1305_Final (ctx : POLY1305) : bytes :=
  let num := length (data ctx) in
  let st :=
    if (num =? 0)%nat then opaque ctx
    else poly1305_blocks (opaque ctx) (data ctx ++ [1] ++ replicate (POLY1305_BLOCK_SIZE - (num + 1)) 0) 0 in
  poly1305_emit st (nonce ctx).

(** ** The authenticator of RFC 8439 *)

Definition P1305 : Z := 2 ^ 130 - 5.

(** A block is the number of its bytes with a 1 behind them. *)
Definition rfc_block (r : Z) (acc : Z) (block : bytes) : Z :=
  ((acc + le_num (block ++ [1])) * r) mod P1305.

Definition rfc_clamp (r : Z) : Z := Z.land r 0x0ffffffc0ffffffc0ffffffc0fffffff.

Definition rfc_mac (key msg : bytes) : bytes :=
  let r := rfc_clamp (le_num (take 16 key)) in
  let s := le_num (take 16 (drop 16 key)) in
  let acc := fold_left (rfc_block r) (pieces (length msg) 16 msg) 0 in
  le_bytes 16 ((acc + s) mod 2 ^ 128).

(** The vector of section 2.5.2. *)
Definition rfc_key : bytes :=
  [0x85; 0xd6; 0xbe; 0x78; 0x57; 0x55; 0x6d; 0x33; 0x7f; 0x44; 0x52; 0xfe; 0x42; 0xd5; 0x06; 0xa8;
   0x01; 0x03; 0x80; 0x8a; 0xfb; 0x0d; 0xb2; 0xfd; 0x4a; 0xbf; 0xf6; 0xaf; 0x41; 0x49; 0xf5; 0x1b].
Definition rfc_tag : bytes :=
  [0xa8; 0x06; 0x1d; 0xc1; 0x30; 0x51; 0x36; 0xc6; 0xc2; 0x2b; 0x8b; 0xaf; 0x0c; 0x01; 0x27; 0xa9].

Example poly1305_vector :
  Poly1305_Final (Poly1305_Update (Poly1305_Init rfc_key) (bs "Cryptographic Forum Research Group")) = rfc_tag /\
  rfc_mac rfc_key (bs "Cryptographic Forum Research Group") = rfc_tag.
Proof. split; vm_compute; reflexivity. Qed.


(** ** Words and numbers *)

Lemma shiftr_32 x : Z.shiftr x 32 = x / 4294967296.
Proof. by rewrite Z.shiftr_div_pow2. Qed.

Lemma byte_land_255 b : byte_ok b -> Z.land b 0xff = b.
Proof. intros Hb. rewrite land_255. by apply Z.mod_small. Qed.

Lemma U8TOU32_num p : bytes_ok p -> (4 <= length p)%nat -> U8TOU32 p = le_num (take 4 p).
Proof.
  intros Hp Hl. destruct p as [|b0 [|b1 [|b2 [|b3 p]]]]; [cbn in Hl; lia..|].
  apply Forall_cons in Hp as [H0 Hp]. apply Forall_cons in Hp as [H1 Hp].
  apply Forall_cons in Hp as [H2 Hp]. apply Forall_cons in Hp as [H3 _].
  unfold U8TOU32. cbn [nth]. rewrite !byte_land_255 by done. rewrite lor4_num by done. cbn [take]. by rewrite take_0.
Qed.

(** The top bit of a word. *)
Lemma word_testbit_31 w : word w -> Z.testbit w 31 = (2147483648 <=? w).
Proof.
  intros Hw. rewrite Z.testbit_odd, Z.shiftr_div_pow2 by lia. change (2 ^ 31) with 2147483648. unfold word in Hw.
  destruct (Z.leb_spec 2147483648 w).
  - replace (w / 2147483648) with 1; [done|]. apply (Z.div_unique _ _ _ (w - 2147483648)); lia.
  - rewrite Z.div_small by lia. done.
Qed.

Lemma word_top w : word w -> Z.shiftr w 31 = Z.b2z (2147483648 <=? w).
Proof.
  intros Hw. rewrite Z.shiftr_div_pow2 by lia. change (2 ^ 31) with 2147483648. unfold word in Hw.
  destruct (Z.leb_spec 2147483648 w); cbn [Z.b2z]; Z.to_euclidean_division_equations; lia.
Qed.

Lemma word_lor a b : word a -> word b -> word (Z.lor a b).
Proof.
  intros Ha Hb. replace (Z.lor a b) with (Z.land (Z.lor a b) (Z.ones 32)).
  - rewrite Z.land_ones by lia. by apply Z.mod_pos_bound.
  - rewrite Z.land_lor_distr_l, !Z.land_ones by lia. by rewrite !Z.mod_small.
Qed.

Ltac solve_piece :=
  first [done | by apply Forall_drop | by apply Forall_take | rewrite ?length_drop, ?length_take; lia].

(** The carry without branches is the comparison of the sum with the addend. *)
Lemma constant_time_carry a b : word a -> word b -> CONSTANT_TIME_CARRY a b = Z.b2z (a <? b).
Proof.
  intros Ha Hb. unfold CONSTANT_TIME_CARRY. assert (Hd : word (u32 (a - b))) by apply u32_range.
  assert (Hx : word (a ⊕ Z.lor (a ⊕ b) (u32 (a - b) ⊕ b))).
  { apply word_lxor; [done|]. apply word_lor; by apply word_lxor. }
  rewrite word_top by done. f_equal. rewrite <- word_testbit_31 by done.
  rewrite Z.lxor_spec, Z.lor_spec, !Z.lxor_spec, !word_testbit_31 by done.
  assert (E : u32 (a - b) = if a <? b then a - b + 4294967296 else a - b).
  { unfold word in *. unfold u32, wrap. change (2 ^ 32) with 4294967296.
    destruct (Z.ltb_spec a b); [|by apply Z.mod_small; lia].
    symmetry. apply (Z.mod_unique _ _ (-1)); lia. }
  rewrite E. unfold word in *.
  destruct (Z.ltb_spec a b), (Z.leb_spec 2147483648 a), (Z.leb_spec 2147483648 b);
    match goal with |- context [2147483648 <=? ?x] => destruct (Z.leb_spec 2147483648 x) end; simpl; try done; lia.
Qed.

(** ** The loop body *)

Definition val5 (a : words5) : Z :=
  h0 a + h1 a * 2 ^ 32 + h2 a * 2 ^ 64 + h3 a * 2 ^ 96 + h4 a * 2 ^ 128.
Definition val4 (a : words4) : Z := r0 a + r1 a * 2 ^ 32 + r2 a * 2 ^ 64 + r3 a * 2 ^ 96.

(** The lower words are words, and the last is at most [m]. *)
Definition words5_ok (m : Z) (a : words5) : Prop :=
  word (h0 a) /\ word (h1 a) /\ word (h2 a) /\ word (h3 a) /\ 0 <= h4 a <= m.

(** What clamping makes of r. *)
Definition clamped (k : words4) : Prop :=
  0 <= r0 k < 268435456 /\
  (exists t, r1 k = 4 * t /\ 0 <= t < 67108864) /\
  (exists t, r2 k = 4 * t /\ 0 <= t < 67108864) /\
  (exists t, r3 k = 4 * t /\ 0 <= t < 67108864).

(** Powers of two as numbers. *)
Ltac num_pows :=
  unfold u64, u32, wrap, P1305 in *; change (2 ^ 32) with 4294967296 in *;
  change (2 ^ 64) with 18446744073709551616 in *; change (2 ^ 96) with 79228162514264337593543950336 in *;
  change (2 ^ 128) with 340282366920938463463374607431768211456 in *;
  change (2 ^ 130) with 1361129467683753853853498429727072845824 in *.

Ltac carry_arith :=
  rewrite ?shiftr_32 in *; num_pows; unfold word in *; Z.to_euclidean_division_equations; lia.

(** Sixteen bytes are four words. *)
Lemma le_num_words inp :
  bytes_ok inp -> (16 <= length inp)%nat ->
  le_num (take 16 inp) =
    U8TOU32 inp + U8TOU32 (drop 4 inp) * 2 ^ 32 + U8TOU32 (drop 8 inp) * 2 ^ 64 + U8TOU32 (drop 12 inp) * 2 ^ 96.
Proof.
  intros Hin Hl. rewrite !U8TOU32_num by solve_piece.
  do 16 (destruct inp as [|?b inp]; [cbn in Hl; lia|]). cbn [take drop le_num]. rewrite !take_0. cbn [le_num]. lia.
Qed.

Lemma U8TOU32_word n inp : bytes_ok inp -> (n + 4 <= length inp)%nat -> word (U8TOU32 (drop n inp)).
Proof.
  intros Hin Hl. rewrite U8TOU32_num by solve_piece.
  pose proof (le_num_range (take 4 (drop n inp)) ltac:(by apply Forall_take, Forall_drop)) as Hr.
  unfold zlen in Hr. rewrite length_take, length_drop, Nat.min_l in Hr by lia. exact Hr.
Qed.

Lemma add_block_spec a inp padbit :
  words5_ok 4 a -> bytes_ok inp -> (16 <= length inp)%nat -> 0 <= padbit <= 1 ->
  words5_ok 6 (add_block a inp padbit) /\
  val5 (add_block a inp padbit) = val5 a + le_num (take 16 inp) + padbit * 2 ^ 128.
Proof.
  intros (Ha0 & Ha1 & Ha2 & Ha3 & Ha4) Hin Hl Hp.
  assert (Hw : forall n, (n + 4 <= 16)%nat -> word (U8TOU32 (drop n inp))) by (intros n Hn; apply U8TOU32_word; [done|lia]).
  pose proof (Hw 0%nat ltac:(lia)) as W0. rewrite drop_0 in W0. pose proof (Hw 4%nat ltac:(lia)) as W1.
  pose proof (Hw 8%nat ltac:(lia)) as W2. pose proof (Hw 12%nat ltac:(lia)) as W3.
  rewrite le_num_words by done. unfold val5, add_block, words5_ok. cbn [h0 h1 h2 h3 h4].
  set (m0 := U8TOU32 inp) in *. set (m1 := U8TOU32 (drop 4 inp)) in *.
  set (m2 := U8TOU32 (drop 8 inp)) in *. set (m3 := U8TOU32 (drop 12 inp)) in *.
  clear Hw. clearbody m0 m1 m2 m3. destruct a as [a0 a1 a2 a3 a4]. cbn [h0 h1 h2 h3 h4] in *.
  split; [split_and!; try apply u32_range|]; carry_arith.
Qed.

(** The products of the words are below their bounds. *)
Lemma mul_bound x y m n : 0 <= x <= m -> 0 <= y <= n -> 0 <= x * y <= m * n.
Proof. nia. Qed.

Lemma sum_bound n x0 x1 x2 x3 y0 y1 y2 y3 :
  word x0 -> word x1 -> word x2 -> word x3 -> 0 <= y0 <= n -> 0 <= y1 <= n -> 0 <= y2 <= n -> 0 <= y3 <= n ->
  0 <= x0 * y0 + x1 * y1 + x2 * y2 + x3 * y3 <= 17179869180 * n.
Proof.
  unfold word. intros. pose proof (mul_bound x0 y0 4294967295 n). pose proof (mul_bound x1 y1 4294967295 n).
  pose proof (mul_bound x2 y2 4294967295 n). pose proof (mul_bound x3 y3 4294967295 n). lia.
Qed.

Lemma mul_words_spec a k :
  words5_ok 6 a -> clamped k ->
  (let d := mul_words a k in
   0 <= h0 d < 2 ^ 63 /\ 0 <= h1 d < 2 ^ 63 /\ 0 <= h2 d < 2 ^ 63 /\ 0 <= h3 d < 2 ^ 62 + 2 ^ 32 /\ 0 <= h4 d <= 1610612736) /\
  exists q, val5 (mul_words a k) = val5 a * val4 k - q * P1305.
Proof.
  intros (Ha0 & Ha1 & Ha2 & Ha3 & Ha4) (Hr0 & (t1 & E1 & Ht1) & (t2 & E2 & Ht2) & (t3 & E3 & Ht3)).
  destruct a as [a0 a1 a2 a3 a4], k as [k0 k1 k2 k3]. cbn [h0 h1 h2 h3 h4 r0 r1 r2 r3] in *. subst k1 k2 k3.
  unfold val5, val4, mul_words. cbn zeta. cbn [h0 h1 h2 h3 h4 r0 r1 r2 r3]. rewrite !Z.shiftr_div_pow2 by lia.
  change (2 ^ 2) with 4. rewrite !(Z.mul_comm 4), !Z.div_mul by lia. rewrite !(u32_small (_ * 4 + _)) by lia.
  set (s1 := t1 * 4 + t1). set (s2 := t2 * 4 + t2). set (s3 := t3 * 4 + t3).
  assert (Hs : 0 <= s1 <= 335544315 /\ 0 <= s2 <= 335544315 /\ 0 <= s3 <= 335544315) by (unfold s1, s2, s3; lia).
  destruct Hs as (Hs1 & Hs2 & Hs3).
  pose proof (mul_bound a4 s1 6 335544315 Ha4 Hs1) as B1. pose proof (mul_bound a4 s2 6 335544315 Ha4 Hs2) as B2.
  pose proof (mul_bound a4 s3 6 335544315 Ha4 Hs3) as B3. pose proof (mul_bound a4 k0 6 268435455 Ha4 ltac:(lia)) as B4.
  pose proof (sum_bound 335544315 a0 a1 a2 a3 k0 s3 s2 s1 Ha0 Ha1 Ha2 Ha3 ltac:(lia) Hs3 Hs2 Hs1) as D0.
  pose proof (sum_bound 335544315 a0 a1 a2 a3 (t1 * 4) k0 s3 s2 Ha0 Ha1 Ha2 Ha3 ltac:(lia) ltac:(lia) Hs3 Hs2) as D1.
  pose proof (sum_bound 335544315 a0 a1 a2 a3 (t2 * 4) (t1 * 4) k0 s3 Ha0 Ha1 Ha2 Ha3 ltac:(lia) ltac:(lia) ltac:(lia) Hs3) as D2.
  pose proof (sum_bound 268435455 a0 a1 a2 a3 (t3 * 4) (t2 * 4) (t1 * 4) k0 Ha0 Ha1 Ha2 Ha3
    ltac:(lia) ltac:(lia) ltac:(lia) ltac:(lia)) as D3.
  set (e0 := a0 * k0 + _ + _ + _) in *. set (e1 := a0 * (t1 * 4) + _ + _ + _) in *.
  set (e2 := a0 * (t2 * 4) + _ + _ + _) in *. set (e3 := a0 * (t3 * 4) + _ + _ + _) in *.
  set (c1 := a4 * s1) in *. set (c2 := a4 * s2) in *. set (c3 := a4 * s3) in *. set (c4 := a4 * k0) in *.
  assert (Ew : u32 c1 = c1 /\ u32 c2 = c2 /\ u32 c3 = c3 /\ u32 c4 = c4).
  { clear - B1 B2 B3 B4. clearbody c1 c2 c3 c4. split_and!; apply u32_small; lia. }
  destruct Ew as (-> & -> & -> & ->).
  assert (Ed : u64 e0 = e0 /\ u64 (e1 + c1) = e1 + c1 /\ u64 (e2 + c2) = e2 + c2 /\ u64 (e3 + c3) = e3 + c3).
  { clear - B1 B2 B3 B4 D0 D1 D2 D3. clearbody c1 c2 c3 c4 e0 e1 e2 e3. split_and!; apply u64_small; lia. }
  destruct Ed as (-> & -> & -> & ->). split.
  - clear - B1 B2 B3 B4 D0 D1 D2 D3. clearbody c1 c2 c3 c4 e0 e1 e2 e3.
    change (2 ^ 63) with 9223372036854775808. change (2 ^ 62) with 4611686018427387904. num_pows. lia.
  - exists (a1 * t3 + a2 * t2 + a3 * t1 + (a2 * t3 + a3 * t2 + a4 * t1) * 2 ^ 32 + (a3 * t3 + a4 * t2) * 2 ^ 64 + a4 * t3 * 2 ^ 96).
    unfold P1305, e0, e1, e2, e3, c1, c2, c3, c4, s1, s2, s3. ring.
Qed.

Lemma carry_words_spec d :
  0 <= h0 d < 2 ^ 63 -> 0 <= h1 d < 2 ^ 63 -> 0 <= h2 d < 2 ^ 63 -> 0 <= h3 d < 2 ^ 62 + 2 ^ 32 -> 0 <= h4 d <= 1610612736 ->
  words5_ok 2684354562 (carry_words d) /\ val5 (carry_words d) = val5 d.
Proof.
  destruct d as [d0 d1 d2 d3 d4]. unfold words5_ok, val5, carry_words. cbn [h0 h1 h2 h3 h4]. intros H0 H1 H2 H3 H4.
  change (2 ^ 63) with 9223372036854775808 in *. change (2 ^ 62) with 4611686018427387904 in *.
  split; [split_and!; try apply u32_range|]; carry_arith.
Qed.

Lemma land_not_3 x : word x -> Z.land x (u32 (Z.lnot 3)) = x / 4 * 4.
Proof.
  intros Hx. change (u32 (Z.lnot 3)) with (Z.shiftl (Z.ones 30) 2).
  change 4 with (2 ^ 2). rewrite <- Z.shiftl_mul_pow2, <- Z.shiftr_div_pow2 by lia.
  apply Z.bits_inj'. intros n Hn. rewrite Z.land_spec.
  destruct (Z.lt_ge_cases n 2); [by rewrite !Z.shiftl_spec_low, andb_false_r|].
  rewrite !Z.shiftl_spec_high, Z.shiftr_spec by lia. replace (n - 2 + 2) with n by lia.
  destruct (Z.lt_ge_cases n 32); [by rewrite Z.ones_spec_low, andb_true_r by lia|].
  replace x with (x mod 2 ^ 32) by (by apply Z.mod_small). by rewrite Z.mod_pow2_bits_high by lia.
Qed.

Lemma land_3 x : Z.land x 3 = x mod 4.
Proof. change 3 with (Z.ones 2). by rewrite Z.land_ones. Qed.

Lemma word_carry a c : word a -> word c ->
  Z.b2z (u32 (a + c) <? c) = (a + c) / 4294967296 /\ word (u32 (a + c)).
Proof.
  intros Ha Hc. split; [|apply u32_range]. unfold word in *. num_pows.
  destruct (Z.ltb_spec ((a + c) mod 4294967296) c); cbn [Z.b2z]; Z.to_euclidean_division_equations; lia.
Qed.

Lemma fold_words_spec a :
  words5_ok 2684354562 a ->
  words5_ok 4 (fold_words a) /\ exists q, val5 (fold_words a) = val5 a - q * P1305.
Proof.
  intros (Ha0 & Ha1 & Ha2 & Ha3 & Ha4). destruct a as [a0 a1 a2 a3 a4]. cbn [h0 h1 h2 h3 h4] in *.
  unfold fold_words. cbn [h0 h1 h2 h3 h4]. rewrite land_not_3, land_3 by (unfold word; lia).
  rewrite Z.shiftr_div_pow2 by lia. change (2 ^ 2) with 4. rewrite (u32_small (a4 / 4 + _)) by (Z.to_euclidean_division_equations; lia).
  set (c := a4 / 4 + a4 / 4 * 4). assert (Hc : word c) by (unfold c, word; Z.to_euclidean_division_equations; lia).
  destruct (word_carry a0 c Ha0 Hc) as [E0 W0]. rewrite constant_time_carry, E0 by done. set (c0 := (a0 + c) / _) in *.
  assert (Hc0 : 0 <= c0 <= 1) by (unfold c0, word in *; Z.to_euclidean_division_equations; lia).
  destruct (word_carry a1 c0 Ha1 ltac:(unfold word; lia)) as [E1 W1].
  rewrite constant_time_carry, E1 by (done || (unfold word; lia)). set (c1 := (a1 + c0) / _) in *.
  assert (Hc1 : 0 <= c1 <= 1) by (unfold c1, word in *; Z.to_euclidean_division_equations; lia).
  destruct (word_carry a2 c1 Ha2 ltac:(unfold word; lia)) as [E2 W2].
  rewrite constant_time_carry, E2 by (done || (unfold word; lia)). set (c2 := (a2 + c1) / _) in *.
  assert (Hc2 : 0 <= c2 <= 1) by (unfold c2, word in *; Z.to_euclidean_division_equations; lia).
  destruct (word_carry a3 c2 Ha3 ltac:(unfold word; lia)) as [E3 W3].
  rewrite constant_time_carry, E3 by (done || (unfold word; lia)). set (c3 := (a3 + c2) / _) in *.
  assert (Hc3 : 0 <= c3 <= 1) by (unfold c3, word in *; Z.to_euclidean_division_equations; lia).
  rewrite (u32_small (a4 mod 4 + c3)) by (Z.to_euclidean_division_equations; lia).
  split; [unfold words5_ok; cbn [h0 h1 h2 h3 h4]; split_and!; try done; Z.to_euclidean_division_equations; lia|].
  exists (a4 / 4). unfold val5. cbn [h0 h1 h2 h3 h4]. unfold c3, c2, c1, c0, c, word in *. clear E0 E1 E2 E3 W0 W1 W2 W3.
  carry_arith.
Qed.

Lemma clamped_val4 k : clamped k -> 0 <= val4 k.
Proof. intros (? & (? & ? & ?) & (? & ? & ?) & (? & ? & ?)). unfold val4. lia. Qed.

(** Multiples of the modulus added do not change the residue. *)
Lemma mod_P_add x q : (x - q * P1305) mod P1305 = x mod P1305.
Proof. replace (x - q * P1305) with (x + - q * P1305) by ring. by apply Z.mod_add. Qed.

(** One block: the words stay in their bounds, and their number modulo 2^130 - 5
    is the product that the standard asks for. *)
Lemma block_step_spec k padbit a inp :
  words5_ok 4 a -> clamped k -> bytes_ok inp -> (16 <= length inp)%nat -> 0 <= padbit <= 1 ->
  words5_ok 4 (block_step k padbit a inp) /\
  val5 (block_step k padbit a inp) mod P1305 =
    ((val5 a + le_num (take 16 inp) + padbit * 2 ^ 128) * val4 k) mod P1305.
Proof.
  intros Ha Hk Hin Hl Hp. unfold block_step.
  destruct (add_block_spec a inp padbit Ha Hin Hl Hp) as [H1 V1].
  destruct (mul_words_spec _ k H1 Hk) as [(B0 & B1 & B2 & B3 & B4) [q V2]].
  destruct (carry_words_spec _ B0 B1 B2 B3 B4) as [H3 V3].
  destruct (fold_words_spec _ H3) as [H4 [q' V4]]. split; [done|].
  by rewrite V4, mod_P_add, V3, V2, mod_P_add, V1.
Qed.

(** The accumulator of the standard for the words of the context. *)
Definition accumulates (acc : Z) (st : poly1305_internal) : Prop :=
  words5_ok 4 (h st) /\ clamped (r st) /\ val5 (h st) mod P1305 = acc.

Lemma rfc_block_mod r x b : rfc_block r (x mod P1305) b = rfc_block r x b.
Proof. unfold rfc_block. by rewrite Z.mul_mod, Z.add_mod_idemp_l, <- Z.mul_mod by done. Qed.

Lemma full_block b : length b = 16%nat -> le_num (b ++ [1]) = le_num b + 1 * 2 ^ 128.
Proof. intros Hl. rewrite le_num_app. unfold zlen. rewrite Hl. cbn [le_num]. lia. Qed.

Lemma blocks_loop_spec n k a inp :
  words5_ok 4 a -> clamped k -> bytes_ok inp -> length inp = (n * 16)%nat ->
  words5_ok 4 (blocks_loop n k 1 a inp) /\
  val5 (blocks_loop n k 1 a inp) mod P1305 = fold_left (rfc_block (val4 k)) (pieces n 16 inp) (val5 a mod P1305).
Proof.
  revert a inp. induction n as [|n IH]; intros a inp Ha Hk Hin Hl; [done|].
  cbn [blocks_loop pieces]. destruct (block_step_spec k 1 a inp Ha Hk Hin ltac:(lia) ltac:(lia)) as [Hs Hv].
  destruct (IH (block_step k 1 a inp) (drop POLY1305_BLOCK_SIZE inp) Hs Hk) as [Ho ->];
    [by apply Forall_drop|rewrite length_drop; unfold POLY1305_BLOCK_SIZE; lia|]. split; [done|].
  destruct inp as [|x inp]; [cbn in Hl; lia|]. cbn [fold_left]. f_equal. rewrite rfc_block_mod, Hv. unfold rfc_block.
  by rewrite full_block, Z.add_assoc by (rewrite length_take; lia).
Qed.

Lemma poly1305_blocks_full acc st n inp :
  accumulates acc st -> bytes_ok inp -> length inp = (n * 16)%nat ->
  accumulates (fold_left (rfc_block (val4 (r st))) (pieces n 16 inp) acc) (poly1305_blocks st inp 1) /\
  r (poly1305_blocks st inp 1) = r st.
Proof.
  intros (Hh & Hr & <-) Hin Hl. unfold poly1305_blocks, POLY1305_BLOCK_SIZE. rewrite Hl, Nat.div_mul by lia.
  split; [|done]. unfold accumulates. cbn [h r]. by destruct (blocks_loop_spec n (r st) (h st) inp Hh Hr Hin Hl).
Qed.

(** The last block, which the caller pads. *)
Lemma poly1305_blocks_last acc st b :
  accumulates acc st -> bytes_ok b -> (0 < length b < 16)%nat ->
  accumulates (rfc_block (val4 (r st)) acc b) (poly1305_blocks st (b ++ [1] ++ replicate (16 - (length b + 1)) 0) 0).
Proof.
  intros (Hh & Hr & <-) Hin Hl. set (p := b ++ [1] ++ replicate (16 - (length b + 1)) 0).
  assert (Hp : length p = 16%nat) by (unfold p; rewrite !length_app, length_replicate; cbn [length]; lia).
  assert (Hpok : bytes_ok p).
  { unfold p. apply Forall_app. split; [done|]. constructor; [by unfold byte_ok|]. apply Forall_replicate. by unfold byte_ok. }
  assert (Hn : le_num p = le_num (b ++ [1])).
  { unfold p. rewrite app_assoc, le_num_app, le_num_zeros. lia. }
  unfold poly1305_blocks. rewrite Hp. change (16 / POLY1305_BLOCK_SIZE)%nat with 1%nat. cbn [blocks_loop].
  destruct (block_step_spec (r st) 0 (h st) p Hh Hr Hpok ltac:(lia) ltac:(lia)) as [Hs Hv].
  unfold accumulates. cbn [h r]. split_and!; [done..|]. rewrite Hv, take_ge by lia. rewrite rfc_block_mod.
  unfold rfc_block. rewrite Hn. f_equal. lia.
Qed.

(** ** The tag *)

Lemma val5_range a : words5_ok 4 a -> 0 <= val5 a < 2 * P1305.
Proof. intros (H0 & H1 & H2 & H3 & H4). unfold val5, word in *. num_pows. lia. Qed.

Definition words4_ok (a : words4) : Prop := word (r0 a) /\ word (r1 a) /\ word (r2 a) /\ word (r3 a).

(** The selection without branches. *)
Lemma mask_pick (g : bool) x t :
  word x -> let mask := u32 (0 - Z.b2z g) in
  Z.lor (Z.land x (u32 (Z.lnot mask))) (Z.land (u32 t) mask) = if g then u32 t else x.
Proof.
  intros Hx. destruct g; cbn zeta; cbn [Z.b2z].
  - change (u32 (Z.lnot (u32 (0 - 1)))) with 0. rewrite Z.land_0_r, Z.lor_0_l.
    change (u32 (0 - 1)) with (Z.ones 32). rewrite Z.land_ones by lia. apply Z.mod_small, u32_range.
  - change (u32 (0 - 0)) with 0. rewrite Z.land_0_r, Z.lor_0_r. change (u32 (Z.lnot 0)) with (Z.ones 32).
    rewrite Z.land_ones by lia. by apply Z.mod_small.
Qed.

(** The sum with 5, whose bit 130 tells whether the number reaches the modulus. *)
Lemma plus_5_spec a :
  words5_ok 4 a ->
  let t0 := u64 (h0 a + 5) in let t1 := u64 (h1 a + Z.shiftr t0 32) in
  let t2 := u64 (h2 a + Z.shiftr t1 32) in let t3 := u64 (h3 a + Z.shiftr t2 32) in
  let g4 := u32 (h4 a + u32 (Z.shiftr t3 32)) in
  Z.shiftr g4 2 = Z.b2z (2 ^ 130 <=? val5 a + 5) /\
  val4 (W4 (u32 t0) (u32 t1) (u32 t2) (u32 t3)) = (val5 a + 5) mod 2 ^ 128.
Proof.
  intros (H0 & H1 & H2 & H3 & H4). destruct a as [a0 a1 a2 a3 a4]. cbn zeta. cbn [h0 h1 h2 h3 h4] in *.
  set (t0 := u64 (a0 + 5)). set (t1 := u64 (a1 + Z.shiftr t0 32)). set (t2 := u64 (a2 + Z.shiftr t1 32)).
  set (t3 := u64 (a3 + Z.shiftr t2 32)). set (g4 := u32 (a4 + u32 (Z.shiftr t3 32))).
  assert (E : val5 (W5 a0 a1 a2 a3 a4) + 5 = val4 (W4 (u32 t0) (u32 t1) (u32 t2) (u32 t3)) + g4 * 2 ^ 128 /\
    0 <= g4 <= 5 /\ 0 <= val4 (W4 (u32 t0) (u32 t1) (u32 t2) (u32 t3)) < 2 ^ 128).
  { unfold val5, val4. cbn [h0 h1 h2 h3 h4 r0 r1 r2 r3]. unfold g4, t3, t2, t1, t0. clear - H0 H1 H2 H3 H4. carry_arith. }
  destruct E as (E & Hg & Hv). rewrite E. split.
  - rewrite Z.shiftr_div_pow2 by lia. clearbody g4. clear E. num_pows.
    match goal with |- context [?b <=? ?v] => destruct (Z.leb_spec b v) end; cbn [Z.b2z];
      Z.to_euclidean_division_equations; lia.
  - rewrite Z.mod_add by done. by rewrite Z.mod_small.
Qed.

Lemma reduce_words_spec a :
  words5_ok 4 a -> words4_ok (reduce_words a) /\ val4 (reduce_words a) = (val5 a mod P1305) mod 2 ^ 128.
Proof.
  intros Ha. pose proof (plus_5_spec a Ha) as Hp. pose proof (val5_range a Ha) as Hr. pose proof Ha as (H0 & H1 & H2 & H3 & H4).
  unfold reduce_words. cbn zeta in *. destruct Hp as [-> Hg].
  rewrite !mask_pick by done. set (g := 2 ^ 130 <=? val5 a + 5) in *.
  assert (Hm : val5 a mod P1305 = if g then val5 a - P1305 else val5 a).
  { unfold g. destruct (Z.leb_spec (2 ^ 130) (val5 a + 5)); [|apply Z.mod_small; unfold P1305; lia].
    symmetry. apply (Z.mod_unique _ _ 1); unfold P1305 in *; lia. }
  rewrite Hm. destruct g.
  - split; [split_and!; apply u32_range|]. rewrite Hg.
    replace (val5 a - P1305) with (val5 a + 5 + -4 * 2 ^ 128) by (unfold P1305; change (2 ^ 130) with (4 * 2 ^ 128); ring).
    by rewrite Z.mod_add.
  - split; [by split_and!|]. unfold val4, val5. cbn [r0 r1 r2 r3]. rewrite Z.mod_add by done.
    symmetry. apply Z.mod_small. unfold word in *. num_pows. lia.
Qed.

Lemma U32TO8_bytes w : U32TO8 w = le_bytes 4 w.
Proof.
  rewrite le_bytes_4. unfold U32TO8, u8, wrap. change (2 ^ 8) with 256. rewrite !land_255, !Z.mod_mod by done. done.
Qed.

Lemma le_bytes_mod n x : le_bytes n (x mod 2 ^ (8 * Z.of_nat n)) = le_bytes n x.
Proof.
  rewrite Z.pow_mul_r by lia. change (2 ^ 8) with 256. revert x. induction n as [|n IH]; intros x; [done|].
  rewrite Nat2Z.inj_succ, Z.pow_succ_r by lia. cbn [le_bytes].
  rewrite Z.rem_mul_r by lia. rewrite (Z.mul_comm 256). rewrite Z.mod_add, Z.mod_mod by lia. f_equal.
  rewrite Z.div_add, (Z.div_small (x mod 256)) by (lia || (apply Z.mod_pos_bound; lia)). by rewrite Z.add_0_l, IH.
Qed.

Lemma le_bytes_words w0 w1 w2 w3 : word w0 -> word w1 -> word w2 ->
  le_bytes 4 w0 ++ le_bytes 4 w1 ++ le_bytes 4 w2 ++ le_bytes 4 w3 =
  le_bytes 16 (w0 + w1 * 2 ^ 32 + w2 * 2 ^ 64 + w3 * 2 ^ 96).
Proof.
  intros W0 W1 W2. rewrite <- (le_bytes_app 4 4 w3 w2) by exact W2.
  rewrite <- (le_bytes_app 8 4 _ w1) by exact W1. rewrite <- (le_bytes_app 12 4 _ w0) by exact W0. f_equal.
  change (8 * Z.of_nat 4) with 32. change (2 ^ 32) with 4294967296. num_pows. lia.
Qed.

Lemma add_nonce_spec a n :
  words4_ok a -> words4_ok n -> add_nonce a n = le_bytes 16 (val4 a + val4 n).
Proof.
  intros (A0 & A1 & A2 & A3) (N0 & N1 & N2 & N3). unfold add_nonce. cbn zeta. rewrite !U32TO8_bytes.
  rewrite le_bytes_words by apply u32_range. rewrite <- (le_bytes_mod 16 (val4 a + val4 n)). f_equal.
  destruct a as [a0 a1 a2 a3], n as [n0 n1 n2 n3]. unfold val4. cbn [r0 r1 r2 r3] in *.
  change (8 * Z.of_nat 16) with 128. carry_arith.
Qed.

(** ** The context *)

Lemma word_land a b : word a -> word (Z.land a b).
Proof.
  intros Ha. replace (Z.land a b) with (Z.land (Z.land b a) (Z.ones 32)).
  - rewrite Z.land_ones by lia. by apply Z.mod_pos_bound.
  - rewrite <- Z.land_assoc, (Z.land_ones a) by lia. rewrite (Z.mod_small a) by done. apply Z.land_comm.
Qed.

Lemma land_split hi lo mhi mlo : word lo -> word mlo ->
  Z.land (hi * 2 ^ 32 + lo) (mhi * 2 ^ 32 + mlo) = Z.land hi mhi * 2 ^ 32 + Z.land lo mlo.
Proof.
  intros Hl Hm. rewrite <- !lor_shiftl_low by (try done; by apply word_land).
  apply Z.bits_inj'. intros n Hn. rewrite !Z.land_spec, !Z.lor_spec, Z.land_spec.
  destruct (Z.lt_ge_cases n 32); [by rewrite !Z.shiftl_spec_low|].
  assert (Hz : forall w, word w -> Z.testbit w n = false).
  { intros w Hw. replace w with (w mod 2 ^ 32) by (by apply Z.mod_small). by rewrite Z.mod_pow2_bits_high by lia. }
  rewrite !Z.shiftl_spec, Z.land_spec by lia. by rewrite (Hz lo), (Hz mlo), !orb_false_r.
Qed.

Lemma clamp_word x : exists t, Z.land x 0x0ffffffc = 4 * t /\ 0 <= t < 67108864.
Proof.
  exists ((x / 4) mod 67108864). split; [|by apply Z.mod_pos_bound].
  change 67108864 with (2 ^ 26). rewrite <- Z.land_ones by lia. rewrite Z.mul_comm.
  change 4 with (2 ^ 2). rewrite <- Z.shiftl_mul_pow2, <- Z.shiftr_div_pow2 by lia.
  change 0x0ffffffc with (Z.shiftl (Z.ones 26) 2).
  apply Z.bits_inj'. intros n Hn. rewrite Z.land_spec.
  destruct (Z.lt_ge_cases n 2); [by rewrite !Z.shiftl_spec_low, andb_false_r|].
  rewrite !Z.shiftl_spec, Z.land_spec, Z.shiftr_spec by lia. by replace (n - 2 + 2) with n by lia.
Qed.

Lemma poly1305_init_spec key :
  bytes_ok key -> (16 <= length key)%nat ->
  accumulates 0 (poly1305_init key) /\ val4 (r (poly1305_init key)) = rfc_clamp (le_num (take 16 key)).
Proof.
  intros Hk Hl. pose proof (U8TOU32_word 0 key Hk ltac:(lia)) as W0. rewrite drop_0 in W0.
  pose proof (U8TOU32_word 4 key Hk ltac:(lia)) as W1. pose proof (U8TOU32_word 8 key Hk ltac:(lia)) as W2.
  pose proof (U8TOU32_word 12 key Hk ltac:(lia)) as W3. split.
  - unfold accumulates, words5_ok, clamped, poly1305_init. cbn [h r h0 h1 h2 h3 h4 r0 r1 r2 r3].
    split_and!; try (unfold word; lia); try done; try apply clamp_word.
    + change 268435455 with (Z.ones 28). rewrite Z.land_ones by lia. by apply Z.mod_pos_bound.
    + change 268435455 with (Z.ones 28). rewrite Z.land_ones by lia. by apply Z.mod_pos_bound.
  - unfold rfc_clamp. rewrite le_num_words by (done || lia). cbn [r poly1305_init]. unfold val4. cbn [r0 r1 r2 r3].
    set (w0 := U8TOU32 key) in *. set (w1 := U8TOU32 (drop 4 key)) in *. set (w2 := U8TOU32 (drop 8 key)) in *.
    set (w3 := U8TOU32 (drop 12 key)) in *. clearbody w0 w1 w2 w3.
    replace (w0 + w1 * 2 ^ 32 + w2 * 2 ^ 64 + w3 * 2 ^ 96) with (((w3 * 2 ^ 32 + w2) * 2 ^ 32 + w1) * 2 ^ 32 + w0) by ring.
    change 0x0ffffffc0ffffffc0ffffffc0fffffff with (((0x0ffffffc * 2 ^ 32 + 0x0ffffffc) * 2 ^ 32 + 0x0ffffffc) * 2 ^ 32 + 0x0fffffff).
    rewrite !land_split by (done || (unfold word; lia)). ring.
Qed.

(** What a context has absorbed, for the key words it was made with. *)
Definition absorbed (rr : Z) (n : words4) (msg : bytes) (ctx : POLY1305) : Prop :=
  (exists front k, msg = front ++ data ctx /\ length front = (k * 16)%nat /\
     accumulates (fold_left (rfc_block rr) (pieces k 16 front) 0) (opaque ctx)) /\
  val4 (r (opaque ctx)) = rr /\ nonce ctx = n /\ (length (data ctx) < 16)%nat /\ bytes_ok msg.

Lemma poly_init_absorbed key :
  bytes_ok key -> (16 <= length key)%nat ->
  absorbed (rfc_clamp (le_num (take 16 key))) (nonce (Poly1305_Init key)) [] (Poly1305_Init key).
Proof.
  intros Hk Hl. destruct (poly1305_init_spec key Hk Hl) as [Ha Hr].
  split; [by exists [], 0%nat|]. split_and!; try done; [cbn; lia|constructor].
Qed.

(** Full blocks behind a prefix of full blocks. *)
Lemma blocks_accumulate rr front k st inp m :
  length front = (k * 16)%nat -> accumulates (fold_left (rfc_block rr) (pieces k 16 front) 0) st ->
  val4 (r st) = rr -> bytes_ok inp -> length inp = (m * 16)%nat ->
  accumulates (fold_left (rfc_block rr) (pieces (k + m) 16 (front ++ inp)) 0) (poly1305_blocks st inp 1) /\
  r (poly1305_blocks st inp 1) = r st.
Proof.
  intros Hf Ha Hr Hin Hl. destruct (poly1305_blocks_full _ st m inp Ha Hin Hl) as [Hb Hk]. split; [|done].
  rewrite Hr in Hb. rewrite <- fold_left_app in Hb.
  rewrite (pieces_exact 16 m) in Hb by lia. rewrite <- (pieces_app 16 k front inp) in Hb by lia.
  by rewrite (pieces_exact 16 (k + m)) by (rewrite ?length_app; lia).
Qed.

Lemma update_rest_absorbed rr n msg ctx inp :
  absorbed rr n msg ctx -> data ctx = [] -> bytes_ok inp -> absorbed rr n (msg ++ inp) (update_rest ctx inp).
Proof.
  intros ((front & k & Em & Hf & Ha) & Hr & Hn & _ & Hm) Hd Hin. rewrite Hd, app_nil_r in Em. subst msg.
  unfold update_rest, POLY1305_BLOCK_SIZE. set (m := (length inp / 16)%nat).
  pose proof (Nat.div_mod_eq (length inp) 16) as Hdm. pose proof (Nat.mod_upper_bound (length inp) 16) as Hub.
  replace (length inp - length inp mod 16)%nat with (m * 16)%nat by lia.
  assert (Hlt : length (take (m * 16) inp) = (m * 16)%nat) by (rewrite length_take; lia).
  destruct (blocks_accumulate rr front k (opaque ctx) (take (m * 16) inp) m Hf Ha Hr ltac:(by apply Forall_take) Hlt) as [Hb Hk].
  assert (Hok : bytes_ok (front ++ inp)) by (by apply Forall_app).
  unfold absorbed. cbn [data opaque nonce]. destruct (Nat.leb_spec 16 (m * 16)).
  - split_and!; try done; [|rewrite length_drop; lia].
    exists (front ++ take (m * 16) inp), (k + m)%nat. split; [by rewrite <- app_assoc, take_drop|].
    split; [rewrite length_app; lia|done].
  - replace m with 0%nat by lia. split_and!; try done; [|rewrite length_drop; lia].
    exists front, k. by rewrite drop_0.
Qed.

Lemma poly_update_absorbed rr n msg ctx inp :
  absorbed rr n msg ctx -> bytes_ok inp -> absorbed rr n (msg ++ inp) (Poly1305_Update ctx inp).
Proof.
  intros Habs Hin. unfold Poly1305_Update. destruct (Nat.eqb_spec (length (data ctx)) 0) as [Hz|Hz].
  { apply update_rest_absorbed; [done| |done]. by apply nil_length_inv. }
  pose proof Habs as ((front & k & -> & Hf & Ha) & Hr & Hn & Hd & Hm). apply Forall_app in Hm as [Hfr Hda].
  unfold POLY1305_BLOCK_SIZE. destruct (Nat.leb_spec (16 - length (data ctx)) (length inp)) as [Hle|Hgt].
  - set (rem := (16 - length (data ctx))%nat) in *. set (b := data ctx ++ take rem inp).
    assert (Hb : length b = (1 * 16)%nat) by (unfold b; rewrite length_app, length_take; lia).
    assert (Hbok : bytes_ok b) by (apply Forall_app; split; [done|by apply Forall_take]).
    destruct (blocks_accumulate rr front k (opaque ctx) b 1 Hf Ha Hr Hbok Hb) as [Hacc Hk].
    replace ((front ++ data ctx) ++ inp) with ((front ++ b) ++ drop rem inp)
      by (unfold b; by rewrite <- !app_assoc, take_drop).
    apply update_rest_absorbed; [|done|by apply Forall_drop]. unfold absorbed. cbn [data opaque nonce].
    split_and!; try done; [|cbn; lia|by apply Forall_app].
    exists (front ++ b), (k + 1)%nat. rewrite app_nil_r. split; [done|]. split; [rewrite length_app; lia|done].
  - unfold absorbed. cbn [data opaque nonce]. split_and!; try done.
    + exists front, k. by rewrite <- app_assoc.
    + rewrite length_app. lia.
    + apply Forall_app. split; [by apply Forall_app|done].
Qed.

Lemma poly_updates_absorbed rr n msg ctx chunks :
  absorbed rr n msg ctx -> Forall bytes_ok chunks ->
  absorbed rr n (msg ++ concat chunks) (fold_left Poly1305_Update chunks ctx).
Proof.
  intros Hc Hs. revert msg ctx Hc. induction Hs as [|x chunks Hx _ IH]; intros msg ctx Hc; cbn [concat fold_left].
  - by rewrite app_nil_r.
  - rewrite app_assoc. apply IH. by apply poly_update_absorbed.
Qed.

Lemma emit_accumulates acc st n :
  accumulates acc st -> words4_ok n -> poly1305_emit st n = le_bytes 16 (acc + val4 n).
Proof.
  intros (Hh & _ & <-) Hn. unfold poly1305_emit. destruct (reduce_words_spec (h st) Hh) as [Hw Hv].
  rewrite add_nonce_spec, Hv by done. rewrite <- (le_bytes_mod 16), <- (le_bytes_mod 16 (_ mod P1305 + _)).
  change (8 * Z.of_nat 16) with 128. by rewrite Z.add_mod_idemp_l.
Qed.

Lemma poly_final_absorbed rr n msg ctx :
  absorbed rr n msg ctx -> words4_ok n ->
  Poly1305_Final ctx = le_bytes 16 (fold_left (rfc_block rr) (pieces (length msg) 16 msg) 0 + val4 n).
Proof.
  intros ((front & k & -> & Hf & Ha) & Hr & <- & Hd & Hm) Hn. unfold Poly1305_Final, POLY1305_BLOCK_SIZE.
  rewrite (pieces_app 16 k) by lia. rewrite fold_left_app.
  destruct (Nat.eqb_spec (length (data ctx)) 0) as [Hz|Hz].
  { rewrite (nil_length_inv _ Hz). by apply emit_accumulates. }
  apply Forall_app in Hm as [_ Hda].
  pose proof (poly1305_blocks_last _ (opaque ctx) (data ctx) Ha Hda ltac:(lia)) as Hl. rewrite Hr in Hl.
  rewrite (emit_accumulates _ _ _ Hl Hn). do 2 f_equal.
  destruct (data ctx) as [|x d] eqn:E; [done|]. cbn [length pieces].
  rewrite take_ge, drop_ge by lia. by destruct (length d).
Qed.

Lemma init_nonce key :
  bytes_ok key -> (32 <= length key)%nat ->
  words4_ok (nonce (Poly1305_Init key)) /\ val4 (nonce (Poly1305_Init key)) = le_num (take 16 (drop 16 key)).
Proof.
  intros Hk Hl. split; [split_and!; apply U8TOU32_word; (done || lia)|].
  rewrite le_num_words by (rewrite ?length_drop; (lia || by apply Forall_drop)). unfold val4. cbn [nonce Poly1305_Init r0 r1 r2 r3].
  by rewrite !drop_drop.
Qed.

(** C30: The tag is the one of RFC 8439, section 2.5, for every key and however the
    message is cut into calls: no sum or product of the loop overflows - also
    where h4 is multiplied in 32 bits -, the partly reduced accumulator stays below
    2^130 + 2^128 and is reduced exactly when the tag is written. *)
Theorem poly1305_standard key chunks :
  bytes_ok key -> (32 <= length key)%nat -> Forall bytes_ok chunks ->
  Poly1305_Final (fold_left Poly1305_Update chunks (Poly1305_Init key)) = rfc_mac key (concat chunks).
Proof.
  intros Hk Hl Hc. destruct (init_nonce key Hk Hl) as [Hn Hv].
  pose proof (poly_updates_absorbed _ _ [] _ chunks (poly_init_absorbed key Hk ltac:(lia)) Hc) as Ha.
  rewrite (poly_final_absorbed _ _ _ _ Ha Hn), Hv. unfold rfc_mac. by rewrite (le_bytes_mod 16).
Qed.

Lemma poly1305_standard_witness :
  Poly1305_Final (fold_left Poly1305_Update [bs "Cryptographic Forum"; bs " Research"; bs ""; bs " Group"] (Poly1305_Init rfc_key)) =
    rfc_mac rfc_key (bs "Cryptographic Forum Research Group").
Proof.
  apply (poly1305_standard rfc_key [bs "Cryptographic Forum"; bs " Research"; bs ""; bs " Group"]).
  - apply bytes_ok_checked. vm_compute. reflexivity.
  - cbn. lia.
  - do 4 (apply Forall_cons; split; [by apply bytes_ok_checked|]). constructor.
Defined.
