(* ===== verification/ChaCha.v ===== *)
(** * ChaCha20 (crypto/chacha/chacha_enc.c, cipher_chacha20_hw.c)

    The block function and the loop over a 32-bit counter, and the cipher of the
    default provider (providers/implementations/ciphers/), which keeps what is left
    of a block between calls and carries the counter into the next word.  However
    the data are cut into calls, the output is the data combined with one key
    stream, that of RFC 8439 over a 64-bit counter. *)

From S2P Require Import Prelude Words Modes.

Definition CHACHA_KEY_SIZE : nat := 32.
Definition CHACHA_CTR_SIZE : nat := 16.
Definition CHACHA_BLK_SIZE : nat := 64.

Definition ROTATE (v n : Z) : Z := Z.lor (u32 (Z.shiftl v n)) (Z.shiftr v (32 - n)).

Definition U32TO8_LITTLE (v : Z) : bytes :=
  [u8 (Z.shiftr v 0); u8 (Z.shiftr v 8); u8 (Z.shiftr v 16); u8 (Z.shiftr v 24)].

Definition CHACHA_U8TOU32 (p : bytes) : Z :=
  Z.lor (Z.lor (Z.lor (nth 0 p 0) (u32 (Z.shiftl (nth 1 p 0) 8))) (u32 (Z.shiftl (nth 2 p 0) 16)))
    (u32 (Z.shiftl (nth 3 p 0) 24)).

(** [x[a] += x[b], x[d] = ROTATE((x[d] ^ x[a]), n)]. *)
Definition half_step (a b d : nat) (n : Z) (x : list Z) : list Z :=
  let x := <[a := u32 (nth a x 0 + nth b x 0)]> x in
  <[d := ROTATE (nth d x 0 ⊕ nth a x 0) n]> x.

Definition QUARTERROUND (a b c d : nat) (x : list Z) : list Z :=
  half_step c d b 7 (half_step a b d 8 (half_step c d b 12 (half_step a b d 16 x))).

(** The body of [for (i = 20; i > 0; i -= 2)]. *)
Definition double_round (x : list Z) : list Z :=
  let x := QUARTERROUND 0 4 8 12 x in
  let x := QUARTERROUND 1 5 9 13 x in
  let x := QUARTERROUND 2 6 10 14 x in
  let x := QUARTERROUND 3 7 11 15 x in
  let x := QUARTERROUND 0 5 10 15 x in
  let x := QUARTERROUND 1 6 11 12 x in
  let x := QUARTERROUND 2 7 8 13 x in
  QUARTERROUND 3 4 9 14 x.

(** The 64 bytes of the output: the words of a little-endian machine are stored as
    the other branch stores them. *)
Definition chacha20_core (input : list Z) : bytes :=
  let x := Nat.iter 10 double_round input in
  concat (map U32TO8_LITTLE (zip_with (fun x i => u32 (x + i)) x input)).

(** "expand 32-byte k" *)
Definition sigma : list Z := [0x61707865; 0x3320646e; 0x79622d32; 0x6b206574].

(** The loop, over the [len] bytes of [inp]; [input[12]++]. *)
Fixpoint ctr32_loop (fuel : nat) (input : list Z) (inp : bytes) : bytes :=
  match fuel with
  | O => []
  | S fuel' =>
      match inp with
      | [] => []
      | _ =>
          let todo := Nat.min CHACHA_BLK_SIZE (length inp) in
          xor_bytes (take todo inp) (chacha20_core input) ++
          ctr32_loop fuel' (<[12%nat := u32 (nth 12 input 0 + 1)]> input) (drop todo inp)
      end
  end.

Definition ChaCha20_ctr32 (inp : bytes) (key counter : list Z) : bytes :=
  ctr32_loop (length inp) (sigma ++ key ++ counter) inp.

(** ** The cipher of the provider *)

Record PROV_CHACHA20_CTX := ChaCha {
  key : list Z;
  counter : list Z;
  buf : bytes;
  partial_len : nat
}.

(** A key or an initial value taken four bytes at a time. *)
Definition load_words (n : nat) (p : bytes) : list Z := map (fun i => CHACHA_U8TOU32 (drop (4 * i) p)) (seq 0 (n / 4)).

Definition chacha20_initkey (ctx : PROV_CHACHA20_CTX) (k : option bytes) : PROV_CHACHA20_CTX :=
  ChaCha (match k with Some k => load_words CHACHA_KEY_SIZE k | None => key ctx end) (counter ctx) (buf ctx) 0.

(** [oiv] is the vector of the base context, if one is set. *)
Definition chacha20_initiv (ctx : PROV_CHACHA20_CTX) (oiv : option bytes) : PROV_CHACHA20_CTX :=
  ChaCha (key ctx) (match oiv with Some iv => load_words CHACHA_CTR_SIZE iv | None => counter ctx end) (buf ctx) 0.

(** [while (inl > 0 && n < CHACHA_BLK_SIZE)]: the output, what is left of the input, n. *)
Fixpoint use_buffer (buf : bytes) (n : nat) (inp : bytes) : bytes * bytes * nat :=
  match inp with
  | [] => ([], [], n)
  | x :: inp' =>
      if (n <? CHACHA_BLK_SIZE)%nat then
        let '(out, rest, n') := use_buffer buf (S n) inp' in
        (x ⊕ nth n buf 0 :: out, rest, n')
      else ([], inp, n)
  end.

(** [ctx->counter[0] = c0; if (c0 == 0) ctx->counter[1]++;] *)
Definition set_counter (c0 : Z) (ctr : list Z) : list Z :=
  let ctr := <[0%nat := c0]> ctr in
  if c0 =? 0 then <[1%nat := u32 (nth 1 ctr 0 + 1)]> ctr else ctr.

(** [while (inl >= CHACHA_BLK_SIZE)]; with a size_t of 32 bits the number of blocks
    is below 2^28, so that the test for more has no effect. *)
Fixpoint cipher_blocks (fuel : nat) (k ctr : list Z) (ctr32 : Z) (inp : bytes) : bytes * list Z :=
  match fuel with
  | O => ([], ctr)
  | S fuel' =>
      if (CHACHA_BLK_SIZE <=? length inp)%nat then
        let blocks := zlen inp / 64 in
        let ctr32 := u32 (ctr32 + blocks) in
        let '(blocks, ctr32) := if ctr32 <? blocks then (blocks - ctr32, 0) else (blocks, ctr32) in
        let len := (CHACHA_BLK_SIZE * Z.to_nat blocks)%nat in
        let out := ChaCha20_ctr32 (take len inp) k ctr in
        let '(out', ctr) := cipher_blocks fuel' k (set_counter ctr32 ctr) ctr32 (drop len inp) in
        (out ++ out', ctr)
      else ([], ctr)
  end.

(** From [rem = inl % CHACHA_BLK_SIZE;] on. *)
Definition cipher_rest (ctx : PROV_CHACHA20_CTX) (inp : bytes) : bytes * PROV_CHACHA20_CTX :=
  let rem := (length inp mod CHACHA_BLK_SIZE)%nat in
  let inl := (length inp - rem)%nat in
  let '(out, ctr) := cipher_blocks inl (key ctx) (counter ctx) (nth 0 (counter ctx) 0) (take inl inp) in
  if (0 <? rem)%nat then
    let b := ChaCha20_ctr32 (replicate CHACHA_BLK_SIZE 0) (key ctx) ctr in
    (out ++ xor_bytes (drop inl inp) b, ChaCha (key ctx) ctr b rem)
  else (out, ChaCha (key ctx) ctr (buf ctx) (partial_len ctx)).

Definition chacha20_cipher (ctx : PROV_CHACHA20_CTX) (inp : bytes) : bytes * PROV_CHACHA20_CTX :=
  if (0 <? partial_len ctx)%nat then
    let '(out, rest, n) := use_buffer (buf ctx) (partial_len ctx) inp in
    match rest with
    | [] => (out, ChaCha (key ctx) (counter ctx) (buf ctx) n)
    | _ =>
        let ctx :=
          if (n =? CHACHA_BLK_SIZE)%nat then
            ChaCha (key ctx) (set_counter (u32 (nth 0 (counter ctx) 0 + 1)) (counter ctx)) (buf ctx) 0
          else ChaCha (key ctx) (counter ctx) (buf ctx) n in
        let '(out', ctx) := cipher_rest ctx rest in
        (out ++ out', ctx)
    end
  else cipher_rest ctx inp.

(** ** The block function of RFC 8439 *)

Definition add32 (x y : Z) : Z := (x + y) mod 2 ^ 32.
Definition rotl32 (x n : Z) : Z := (x * 2 ^ n) mod 2 ^ 32 + x / 2 ^ (32 - n).

(** The quarter round on four words. *)
Definition rfc_quarter (w : Z * Z * Z * Z) : Z * Z * Z * Z :=
  let '(a, b, c, d) := w in
  let a := add32 a b in let d := rotl32 (d ⊕ a) 16 in
  let c := add32 c d in let b := rotl32 (b ⊕ c) 12 in
  let a := add32 a b in let d := rotl32 (d ⊕ a) 8 in
  let c := add32 c d in let b := rotl32 (b ⊕ c) 7 in
  (a, b, c, d).

(** A state is the rows of a matrix; a round works on its columns, or on its
    diagonals, which are columns once row i is rotated by i places. *)
Definition row : Type := Z * Z * Z * Z.
Definition matrix : Type := row * row * row * row.

Definition transpose (m : matrix) : matrix :=
  let '((a0, a1, a2, a3), (b0, b1, b2, b3), (c0, c1, c2, c3), (d0, d1, d2, d3)) := m in
  ((a0, b0, c0, d0), (a1, b1, c1, d1), (a2, b2, c2, d2), (a3, b3, c3, d3)).

Definition column_round (q : row -> row) (m : matrix) : matrix :=
  let '(w, x, y, z) := transpose m in transpose (q w, q x, q y, q z).

Definition turn (r : row) : row := let '(a, b, c, d) := r in (b, c, d, a).

Definition diagonal_round (q : row -> row) (m : matrix) : matrix :=
  let '(a, b, c, d) := m in
  let '(a, b, c, d) := column_round q (a, turn b, turn (turn c), turn (turn (turn d))) in
  (a, turn (turn (turn b)), turn (turn c), turn d).

Definition to_matrix (x : list Z) : matrix :=
  let row i := (nth i x 0, nth (i + 1) x 0, nth (i + 2) x 0, nth (i + 3) x 0) in (row 0, row 4, row 8, row 12)%nat.
Definition of_row (r : row) : list Z := let '(a, b, c, d) := r in [a; b; c; d].
Definition of_matrix (m : matrix) : list Z := let '(a, b, c, d) := m in of_row a ++ of_row b ++ of_row c ++ of_row d.

(** Ten column and ten diagonal rounds, the original state added, little endian. *)
Definition rfc_chacha_block (state : list Z) : bytes :=
  let m := Nat.iter 10 (fun m => diagonal_round rfc_quarter (column_round rfc_quarter m)) (to_matrix state) in
  concat (map (le_bytes 4) (zip_with add32 (of_matrix m) state)).

(** The vector of section 2.4.2. *)
Definition rfc_stream_key : bytes := map Z.of_nat (seq 0 32).
Definition rfc_stream_iv : bytes := [1; 0; 0; 0; 0; 0; 0; 0; 0; 0; 0; 0x4a; 0; 0; 0; 0].
Definition sunscreen : bytes :=
  bs "Ladies and Gentlemen of the class of '99: If I could offer you only one tip for the future, sunscreen would be it.".
Definition fresh : PROV_CHACHA20_CTX := ChaCha [] [] [] 0.

Example chacha20_vector :
  take 16 (chacha20_cipher (chacha20_initiv (chacha20_initkey fresh (Some rfc_stream_key)) (Some rfc_stream_iv)) sunscreen).1 =
  [0x6e; 0x2e; 0x35; 0x9a; 0x25; 0x68; 0xf9; 0x80; 0x41; 0xba; 0x07; 0x28; 0xdd; 0x0d; 0x69; 0x81].
Proof. vm_compute. reflexivity. Qed.

(** ** The block function *)

Lemma ROTATE_rotl v n : word v -> 0 < n < 32 -> ROTATE v n = rotl32 v n /\ word (rotl32 v n).
Proof.
  intros Hv Hn. unfold ROTATE, rotl32, u32, wrap. rewrite Z.shiftl_mul_pow2, Z.shiftr_div_pow2 by lia.
  assert (Hp : 2 ^ 32 = 2 ^ (32 - n) * 2 ^ n) by (rewrite <- Z.pow_add_r by lia; f_equal; lia).
  assert (H1 : 0 < 2 ^ (32 - n)) by (apply Z.pow_pos_nonneg; lia). assert (H2 : 0 < 2 ^ n) by (apply Z.pow_pos_nonneg; lia).
  assert (Hq : 0 <= v / 2 ^ (32 - n) < 2 ^ n).
  { split; [apply Z.div_pos; unfold word in *; lia|]. apply Z.div_lt_upper_bound; [done|]. rewrite <- Hp. by destruct Hv. }
  rewrite Hp, Z.mul_mod_distr_r by lia.
  rewrite <- (Z.shiftl_mul_pow2 (v mod _)) by lia. rewrite lor_shiftl_low, Z.shiftl_mul_pow2 by lia. split; [done|].
  pose proof (Z.mod_pos_bound v (2 ^ (32 - n)) H1). unfold word. change 4294967296 with (2 ^ 32). rewrite Hp. nia.
Qed.

(** The quarter round with the operations of the code. *)
Definition code_quarter (w : row) : row :=
  let '(a, b, c, d) := w in
  let a := u32 (a + b) in let d := ROTATE (d ⊕ a) 16 in
  let c := u32 (c + d) in let b := ROTATE (b ⊕ c) 12 in
  let a := u32 (a + b) in let d := ROTATE (d ⊕ a) 8 in
  let c := u32 (c + d) in let b := ROTATE (b ⊕ c) 7 in
  (a, b, c, d).

Definition row_ok (r : row) : Prop := let '(a, b, c, d) := r in word a /\ word b /\ word c /\ word d.
Definition matrix_ok (m : matrix) : Prop := let '(a, b, c, d) := m in row_ok a /\ row_ok b /\ row_ok c /\ row_ok d.

Lemma code_quarter_rfc w : row_ok w -> code_quarter w = rfc_quarter w /\ row_ok (rfc_quarter w).
Proof.
  destruct w as [[[a b] c] d]. intros (Ha & Hb & Hc & Hd). unfold code_quarter, rfc_quarter. fold add32.
  assert (Hs : forall x y, word (add32 x y)) by (intros; apply u32_range).
  assert (Hr : forall x y n, word x -> word y -> 0 < n < 32 -> ROTATE (x ⊕ y) n = rotl32 (x ⊕ y) n /\ word (rotl32 (x ⊕ y) n)).
  { intros x y n Hx Hy Hn. apply ROTATE_rotl; [by apply word_lxor|done]. }
  change (u32 (a + b)) with (add32 a b).
  destruct (Hr d (add32 a b) 16 Hd (Hs a b) ltac:(lia)) as [-> W1]. set (d1 := rotl32 _ 16) in *.
  change (u32 (c + d1)) with (add32 c d1).
  destruct (Hr b (add32 c d1) 12 Hb (Hs c d1) ltac:(lia)) as [-> W2]. set (b1 := rotl32 _ 12) in *.
  change (u32 (add32 a b + b1)) with (add32 (add32 a b) b1).
  destruct (Hr d1 (add32 (add32 a b) b1) 8 W1 (Hs _ _) ltac:(lia)) as [-> W3]. set (d2 := rotl32 _ 8) in *.
  change (u32 (add32 c d1 + d2)) with (add32 (add32 c d1) d2).
  destruct (Hr b1 (add32 (add32 c d1) d2) 7 W2 (Hs _ _) ltac:(lia)) as [-> W4]. split; [done|]. by split_and!.
Qed.

Lemma column_round_rfc m :
  matrix_ok m -> column_round code_quarter m = column_round rfc_quarter m /\ matrix_ok (column_round rfc_quarter m).
Proof.
  intros Hm. unfold column_round. assert (Ht : matrix_ok (transpose m)).
  { destruct m as [[[[[[? ?] ?] ?] [[[? ?] ?] ?]] [[[? ?] ?] ?]] [[[? ?] ?] ?]]. cbn in *. tauto. }
  destruct (transpose m) as [[[w x] y] z]. destruct Ht as (Hw & Hx & Hy & Hz).
  destruct (code_quarter_rfc w Hw) as [-> Ww]. destruct (code_quarter_rfc x Hx) as [-> Wx].
  destruct (code_quarter_rfc y Hy) as [-> Wy]. destruct (code_quarter_rfc z Hz) as [-> Wz]. split; [done|].
  destruct (rfc_quarter w) as [[[? ?] ?] ?], (rfc_quarter x) as [[[? ?] ?] ?], (rfc_quarter y) as [[[? ?] ?] ?],
    (rfc_quarter z) as [[[? ?] ?] ?]. cbn in *. tauto.
Qed.

Lemma diagonal_round_rfc m :
  matrix_ok m -> diagonal_round code_quarter m = diagonal_round rfc_quarter m /\ matrix_ok (diagonal_round rfc_quarter m).
Proof.
  destruct m as [[[a b] c] d]. intros Hm. unfold diagonal_round.
  assert (Ht : matrix_ok (a, turn b, turn (turn c), turn (turn (turn d)))).
  { destruct b as [[[? ?] ?] ?], c as [[[? ?] ?] ?], d as [[[? ?] ?] ?]. cbn in *. tauto. }
  destruct (column_round_rfc _ Ht) as [-> Hc]. destruct (column_round rfc_quarter _) as [[[a' b'] c'] d']. split; [done|].
  destruct b' as [[[? ?] ?] ?], c' as [[[? ?] ?] ?], d' as [[[? ?] ?] ?]. cbn in *. tauto.
Qed.

(** The eight macros of the loop body are a column round and a diagonal round. *)
Lemma double_round_code x :
  length x = 16%nat -> double_round x = of_matrix (diagonal_round code_quarter (column_round code_quarter (to_matrix x))).
Proof.
  intros Hl. do 16 (destruct x as [|?w x]; [done|]). destruct x; [|done].
  with_strategy opaque [ROTATE u32 Z.add Z.lxor] reflexivity.
Qed.

Lemma to_of_matrix m : to_matrix (of_matrix m) = m.
Proof. by destruct m as [[[[[[? ?] ?] ?] [[[? ?] ?] ?]] [[[? ?] ?] ?]] [[[? ?] ?] ?]]. Qed.
Lemma length_of_matrix m : length (of_matrix m) = 16%nat.
Proof. by destruct m as [[[[[[? ?] ?] ?] [[[? ?] ?] ?]] [[[? ?] ?] ?]] [[[? ?] ?] ?]]. Qed.

Lemma of_to_matrix x : length x = 16%nat -> of_matrix (to_matrix x) = x.
Proof. intros Hl. do 16 (destruct x as [|? x]; [done|]). by destruct x. Qed.

Lemma to_matrix_ok x : length x = 16%nat -> Forall word x -> matrix_ok (to_matrix x).
Proof.
  intros Hl Hx. do 16 (destruct x as [|? x]; [done|]). rewrite !Forall_cons in Hx. cbn. tauto.
Qed.

(** Any number of double rounds. *)
Lemma double_rounds n x :
  length x = 16%nat -> Forall word x ->
  let m := Nat.iter n (fun m => diagonal_round rfc_quarter (column_round rfc_quarter m)) (to_matrix x) in
  Nat.iter n double_round x = of_matrix m /\ matrix_ok m.
Proof.
  intros Hl Hx. induction n as [|n [IH Hm]]; [split; [symmetry; by apply of_to_matrix|by apply to_matrix_ok]|].
  cbn [Nat.iter nat_rect]. unfold Nat.iter in *. rewrite IH, double_round_code by apply length_of_matrix.
  rewrite to_of_matrix. destruct (column_round_rfc _ Hm) as [-> Hc]. by destruct (diagonal_round_rfc _ Hc) as [-> Hd].
Qed.

Lemma U32TO8_LITTLE_bytes v : U32TO8_LITTLE v = le_bytes 4 v.
Proof.
  rewrite le_bytes_4. unfold U32TO8_LITTLE, u8, wrap. change (2 ^ 8) with 256. by rewrite !land_255.
Qed.

Lemma chacha20_core_rfc x : length x = 16%nat -> Forall word x -> chacha20_core x = rfc_chacha_block x.
Proof.
  intros Hl Hx. unfold chacha20_core, rfc_chacha_block. destruct (double_rounds 10 x Hl Hx) as [-> _].
  cbn zeta. f_equal. apply map_ext. apply U32TO8_LITTLE_bytes.
Qed.

(** ** The key stream *)

Section stream.
Context (k n : list Z).

(** The two counter words, as the code keeps them. *)
Definition counter_words (c : Z) : list Z := c mod 2 ^ 32 :: (c / 2 ^ 32) mod 2 ^ 32 :: n.

Definition stream_block (c : Z) : bytes := rfc_chacha_block (sigma ++ k ++ counter_words c).

(** Byte [i] of the stream that starts with block [c], and data combined with the
    stream from its byte [i] on. *)
Definition stream_byte (c : Z) (i : nat) : Z := nth (i mod 64) (stream_block (c + Z.of_nat (i / 64))) 0.

Fixpoint xor_stream (c : Z) (i : nat) (inp : bytes) : bytes :=
  match inp with
  | [] => []
  | x :: inp' => x ⊕ stream_byte c i :: xor_stream c (S i) inp'
  end.

Lemma xor_stream_app c i a b : xor_stream c i (a ++ b) = xor_stream c i a ++ xor_stream c (i + length a) b.
Proof.
  revert i. induction a as [|x a IH]; intros i; cbn [app xor_stream length]; [by rewrite Nat.add_0_r|].
  rewrite IH. do 3 f_equal. lia.
Qed.

Lemma length_xor_stream c i a : length (xor_stream c i a) = length a.
Proof. revert i. induction a as [|x a IH]; intros i; [done|]. simpl. by rewrite IH. Qed.

Lemma xor_stream_cancel c i a : xor_stream c i (xor_stream c i a) = a.
Proof.
  revert i. induction a as [|x a IH]; intros i; [done|]. cbn [xor_stream]. rewrite IH. f_equal.
  by rewrite Z.lxor_assoc, Z.lxor_nilpotent, Z.lxor_0_r.
Qed.

(** Whole blocks of position are added to the block number. *)
Lemma xor_stream_shift c j i a : xor_stream c (64 * j + i) a = xor_stream (c + Z.of_nat j) i a.
Proof.
  revert i. induction a as [|x a IH]; intros i; [done|]. cbn [xor_stream]. f_equal.
  - f_equal. unfold stream_byte. rewrite (Nat.mul_comm 64), Nat.add_comm, Nat.Div0.mod_add, Nat.div_add by lia.
    by replace (c + Z.of_nat (i / 64 + j)) with (c + Z.of_nat j + Z.of_nat (i / 64)) by lia.
  - rewrite <- IH. f_equal. lia.
Qed.

(** A key has 8 words, the rest of the initial value 2. *)
Context (Hk : length k = 8%nat) (Hn : length n = 2%nat) (Hkw : Forall word k) (Hnw : Forall word n).

Lemma state_words c : Forall word (sigma ++ k ++ counter_words c) /\ length (sigma ++ k ++ counter_words c) = 16%nat.
Proof.
  split; [|by rewrite !length_app, Hk; simpl; rewrite Hn].
  repeat apply Forall_app_2; [repeat (apply Forall_cons; split; [by unfold word|]); done|done|].
  apply Forall_cons; split; [by apply Z.mod_pos_bound|]. apply Forall_cons; split; [by apply Z.mod_pos_bound|done].
Qed.

Lemma core_block c : chacha20_core (sigma ++ k ++ counter_words c) = stream_block c.
Proof. destruct (state_words c) as [Hw Hl]. by apply chacha20_core_rfc. Qed.

Lemma length_stream_block c : length (stream_block c) = 64%nat.
Proof.
  unfold stream_block, rfc_chacha_block. destruct (state_words c) as [_ Hl].
  set (x := zip_with _ _ _).
  assert (Hx : length x = 16%nat) by (unfold x; by rewrite length_zip_with, length_of_matrix, Hl).
  clearbody x. do 16 (destruct x as [|? x]; [done|]). by destruct x.
Qed.

(** A part of a block is combined with that part of the stream. *)
Lemma xor_block c j a : (j + length a <= 64)%nat -> xor_bytes a (drop j (stream_block c)) = xor_stream c j a.
Proof.
  revert j. induction a as [|x a IH]; intros j Hj; [done|]. cbn [length] in Hj.
  pose proof (length_stream_block c) as Hl.
  assert (Hd : drop j (stream_block c) = nth j (stream_block c) 0 :: drop (S j) (stream_block c)).
  { destruct (lookup_lt_is_Some_2 (stream_block c) j) as [y Hy]; [lia|].
    rewrite (drop_S _ y) by done. f_equal. symmetry. rewrite nth_lookup. by rewrite Hy. }
  rewrite Hd. cbn [xor_bytes xor_stream]. rewrite IH by lia. f_equal. f_equal. unfold stream_byte.
  rewrite Nat.mod_small, Nat.div_small by lia. by replace (c + Z.of_nat 0) with c by lia.
Qed.

(** ** The loop with the 32-bit counter *)

Lemma next_state c : c mod 2 ^ 32 + 1 < 2 ^ 32 ->
  <[12%nat := u32 (nth 12 (sigma ++ k ++ counter_words c) 0 + 1)]> (sigma ++ k ++ counter_words c) =
  sigma ++ k ++ counter_words (c + 1).
Proof.
  intros Hc. destruct k as [|k0 [|k1 [|k2 [|k3 [|k4 [|k5 [|k6 [|k7 [|? ?]]]]]]]]]; try done.
  cbn [app nth sigma counter_words]. pose proof (Z.mod_pos_bound c (2 ^ 32) eq_refl).
  assert (E1 : u32 (c mod 2 ^ 32 + 1) = (c + 1) mod 2 ^ 32).
  { unfold u32, wrap. by rewrite Z.add_mod_idemp_l. }
  assert (E2 : c / 2 ^ 32 = (c + 1) / 2 ^ 32).
  { change (2 ^ 32) with 4294967296 in *. Z.to_euclidean_division_equations; lia. }
  unfold counter_words. rewrite <- E1, <- E2. reflexivity.
Qed.

Lemma ctr32_loop_stream fuel c inp :
  0 <= c -> (length inp <= fuel)%nat -> zlen inp <= 64 * (2 ^ 32 - c mod 2 ^ 32) ->
  ctr32_loop fuel (sigma ++ k ++ counter_words c) inp = xor_stream c 0 inp.
Proof.
  revert c inp. induction fuel as [|fuel IH]; intros c inp Hc Hf Hz; [by destruct inp; [|cbn in Hf; lia]|].
  destruct inp as [|x inp']; [done|]. cbn [ctr32_loop]. set (inp := x :: inp') in *.
  set (todo := Nat.min CHACHA_BLK_SIZE (length inp)). assert (Hpos : (0 < length inp)%nat) by (cbn; lia). clearbody inp.
  rewrite core_block, <- (drop_0 (stream_block c)), xor_block by (rewrite length_take; unfold todo, CHACHA_BLK_SIZE; lia).
  rewrite <- (take_drop todo inp) at 3. rewrite xor_stream_app. f_equal.
  destruct (Nat.le_gt_cases (length inp) 64) as [Hle|Hgt].
  { rewrite (drop_ge inp) by (unfold todo, CHACHA_BLK_SIZE; lia). by destruct fuel. }
  assert (Ht : todo = 64%nat) by (unfold todo, CHACHA_BLK_SIZE; lia). rewrite Ht.
  pose proof (Z.mod_pos_bound c (2 ^ 32) eq_refl) as Hm. unfold zlen in Hz.
  assert (Hnc : c mod 2 ^ 32 + 1 < 2 ^ 32) by (change (2 ^ 32) with 4294967296 in *; lia).
  rewrite next_state by done. rewrite IH; [|lia|rewrite length_drop; lia|].
  - rewrite length_take, Nat.min_l by lia. by rewrite (xor_stream_shift c 1 0).
  - unfold zlen. rewrite length_drop. assert (E : (c + 1) mod 2 ^ 32 = c mod 2 ^ 32 + 1).
    { symmetry. apply (Z.mod_unique _ _ (c / 2 ^ 32)); [lia|]. pose proof (Z.div_mod c (2 ^ 32) ltac:(done)). lia. }
    rewrite E. lia.
Qed.

Lemma ChaCha20_ctr32_stream c inp :
  0 <= c -> zlen inp <= 64 * (2 ^ 32 - c mod 2 ^ 32) ->
  ChaCha20_ctr32 inp k (counter_words c) = xor_stream c 0 inp.
Proof. intros. by apply ctr32_loop_stream. Qed.

(** A block of zeros becomes a block of the stream. *)
Lemma ChaCha20_ctr32_block c :
  0 <= c -> ChaCha20_ctr32 (replicate CHACHA_BLK_SIZE 0) k (counter_words c) = stream_block c.
Proof.
  intros Hc. rewrite ChaCha20_ctr32_stream by
    (try done; pose proof (Z.mod_pos_bound c (2 ^ 32) eq_refl); unfold zlen; rewrite length_replicate; unfold CHACHA_BLK_SIZE; lia).
  rewrite <- xor_block by (by rewrite length_replicate).
  rewrite drop_0. pose proof (length_stream_block c) as Hl. by apply xor_zeros.
Qed.
End stream.

(** ** The cipher *)

Lemma stream_block_ok k n c : bytes_ok (stream_block k n c).
Proof.
  unfold stream_block, rfc_chacha_block, bytes_ok. apply Forall_concat, Forall_map, Forall_forall. intros w _. apply le_bytes_ok.
Qed.

#[local] Opaque stream_block.

Section cipher.
Context (k : list Z) (n : list Z) (Hk : length k = 8%nat) (Hn : length n = 2%nat)
  (Hkw : Forall word k) (Hnw : Forall word n).

(** The blocks of a run end at the overflow of the counter word at the latest. *)
Lemma set_counter_words c b :
  0 < b -> c mod 2 ^ 32 + b <= 2 ^ 32 ->
  set_counter ((c + b) mod 2 ^ 32) (counter_words n c) = counter_words n (c + b).
Proof.
  intros Hb Hc. unfold set_counter, counter_words. cbn [insert list_insert nth].
  destruct (Z.eqb_spec ((c + b) mod 2 ^ 32) 0) as [Hz|Hz].
  - assert (E : (c + b) / 2 ^ 32 = c / 2 ^ 32 + 1).
    { change (2 ^ 32) with 4294967296 in *. Z.to_euclidean_division_equations; lia. }
    rewrite E. unfold u32, wrap. by rewrite Z.add_mod_idemp_l.
  - assert (E : (c + b) / 2 ^ 32 = c / 2 ^ 32).
    { change (2 ^ 32) with 4294967296 in *. Z.to_euclidean_division_equations; lia. }
    by rewrite E.
Qed.

Lemma blocks_limit c m :
  0 < m < 2 ^ 32 ->
  let ctr32 := u32 (c mod 2 ^ 32 + m) in
  exists b, (if ctr32 <? m then (m - ctr32, 0) else (m, ctr32)) = (b, (c + b) mod 2 ^ 32) /\
    0 < b <= m /\ c mod 2 ^ 32 + b <= 2 ^ 32.
Proof.
  intros Hm. unfold u32, wrap. cbn zeta. change (2 ^ 32) with 4294967296 in *.
  pose proof (Z.mod_pos_bound c 4294967296 eq_refl) as Hc.
  destruct (Z.ltb_spec ((c mod 4294967296 + m) mod 4294967296) m) as [Hl|Hl].
  - exists (m - (c mod 4294967296 + m) mod 4294967296). split; [f_equal|]; Z.to_euclidean_division_equations; lia.
  - exists m. split; [f_equal; by rewrite Z.add_mod_idemp_l|]. Z.to_euclidean_division_equations; lia.
Qed.

Lemma cipher_blocks_stream fuel c inp m :
  0 <= c -> length inp = (64 * m)%nat -> (length inp <= fuel)%nat -> zlen inp < 2 ^ 32 ->
  cipher_blocks fuel k (counter_words n c) (c mod 2 ^ 32) inp = (xor_stream k n c 0 inp, counter_words n (c + Z.of_nat m)).
Proof.
  revert c inp m. induction fuel as [|fuel IH]; intros c inp m Hc Hl Hf Hz.
  { assert (m = 0%nat) as -> by lia. apply nil_length_inv in Hl as ->. cbn. by rewrite Z.add_0_r. }
  cbn [cipher_blocks]. unfold CHACHA_BLK_SIZE at 1. destruct (Nat.leb_spec 64 (length inp)) as [Hle|Hgt].
  2: { assert (m = 0%nat) as -> by lia. apply nil_length_inv in Hl as ->. cbn [xor_stream]. by rewrite Z.add_0_r. }
  assert (Hb : zlen inp / 64 = Z.of_nat m) by (unfold zlen; rewrite Hl, Nat2Z.inj_mul, Z.mul_comm; by apply Z.div_mul).
  rewrite Hb. unfold zlen in Hz. destruct (blocks_limit c (Z.of_nat m) ltac:(lia)) as (b & -> & Hb1 & Hb2). cbn zeta in *.
  set (len := (CHACHA_BLK_SIZE * Z.to_nat b)%nat). assert (Hlen : len = (64 * Z.to_nat b)%nat) by done. clearbody len.
  rewrite set_counter_words by lia. rewrite (IH (c + b) (drop len inp) (m - Z.to_nat b)%nat);
    [|lia|rewrite length_drop; lia|rewrite length_drop; lia|unfold zlen; rewrite length_drop; lia].
  rewrite ChaCha20_ctr32_stream; [|done..|unfold zlen; rewrite length_take; lia].
  replace (c + b + Z.of_nat (m - Z.to_nat b)) with (c + Z.of_nat m) by lia. f_equal.
  rewrite <- (take_drop len inp) at 3. rewrite xor_stream_app, length_take, Nat.min_l by lia. f_equal.
  replace (0 + len)%nat with (64 * Z.to_nat b + 0)%nat by lia. rewrite xor_stream_shift. by replace (Z.of_nat (Z.to_nat b)) with b by lia.
Qed.

(** Where in the stream a context is: the bytes before [i] have been used. *)
Definition at_position (c0 : Z) (i : nat) (ctx : PROV_CHACHA20_CTX) : Prop :=
  key ctx = k /\ exists c, c0 <= c /\ counter ctx = counter_words n c /\
    c * 64 + Z.of_nat (partial_len ctx) = c0 * 64 + Z.of_nat i /\ (partial_len ctx <= 64)%nat /\
    ((0 < partial_len ctx)%nat -> buf ctx = stream_block k n c).

(** A position can be counted from the current block. *)
Lemma xor_stream_from c0 i c j a :
  c0 <= c -> c * 64 + Z.of_nat j = c0 * 64 + Z.of_nat i -> xor_stream k n c0 i a = xor_stream k n c j a.
Proof.
  intros Hc E. replace i with (64 * Z.to_nat (c - c0) + j)%nat by lia. rewrite xor_stream_shift.
  by replace (c0 + Z.of_nat (Z.to_nat (c - c0))) with c by lia.
Qed.

Lemma cipher_rest_stream c ctx inp :
  key ctx = k -> counter ctx = counter_words n c -> partial_len ctx = 0%nat -> 0 <= c -> zlen inp < 2 ^ 32 ->
  let '(out, ctx') := cipher_rest ctx inp in
  out = xor_stream k n c 0 inp /\ at_position c (length inp) ctx'.
Proof.
  intros Hkey Hctr Hp Hc Hz. unfold cipher_rest. rewrite Hkey, Hctr, Hp.
  change (nth 0 (counter_words n c) 0) with (c mod 2 ^ 32). unfold CHACHA_BLK_SIZE.
  pose proof (Nat.div_mod_eq (length inp) 64) as Hdm. pose proof (Nat.mod_upper_bound (length inp) 64) as Hub.
  set (rem := (length inp mod 64)%nat) in *. set (m := (length inp / 64)%nat) in *.
  replace (length inp - rem)%nat with (64 * m)%nat by lia. unfold zlen in Hz.
  rewrite (cipher_blocks_stream _ c _ m); [|done|rewrite length_take; lia|rewrite length_take; lia|unfold zlen; rewrite length_take; lia].
  assert (Hs : xor_stream k n c 0 inp =
    xor_stream k n c 0 (take (64 * m) inp) ++ xor_stream k n (c + Z.of_nat m) 0 (drop (64 * m) inp)).
  { rewrite <- (take_drop (64 * m) inp) at 1. rewrite xor_stream_app, length_take, Nat.min_l by lia. f_equal.
    by rewrite <- xor_stream_shift, Nat.add_0_r. }
  destruct (Nat.ltb_spec 0 rem) as [Hr|Hr].
  - assert (Hblk : ChaCha20_ctr32 (replicate 64 0) k (counter_words n (c + Z.of_nat m)) = stream_block k n (c + Z.of_nat m)).
    { apply ChaCha20_ctr32_block; [done..|lia]. }
    rewrite Hblk. split.
    + rewrite Hs. f_equal. rewrite <- (drop_0 (stream_block _ _ _)). apply xor_block; [done..|]. rewrite length_drop. lia.
    + split; [done|]. exists (c + Z.of_nat m). cbn [counter partial_len buf]. split_and!; [lia|done|lia|lia|done].
  - split; [rewrite Hs, (drop_ge inp) by lia; cbn [xor_stream]; by rewrite app_nil_r|].
    split; [done|]. exists (c + Z.of_nat m). cbn [counter partial_len buf]. split_and!; [lia|done|lia|lia|lia].
Qed.

Lemma use_buffer_stream c j inp :
  let '(out, rest, j') := use_buffer (stream_block k n c) j inp in
  exists used, inp = used ++ rest /\ out = xor_stream k n c j used /\ j' = (j + length used)%nat /\
    ((j <= 64)%nat -> (j' <= 64)%nat) /\ (rest <> [] -> (64 <= j')%nat).
Proof.
  revert j. induction inp as [|x inp IH]; intros j; cbn [use_buffer].
  { exists []. cbn. by rewrite Nat.add_0_r. }
  unfold CHACHA_BLK_SIZE. destruct (Nat.ltb_spec j 64) as [Hlt|Hge].
  - specialize (IH (S j)). destruct (use_buffer (stream_block k n c) (S j) inp) as [[out rest] j'].
    destruct IH as (used & -> & -> & -> & H64 & Hr). exists (x :: used). cbn [app length xor_stream]. split; [done|]. split.
    + unfold stream_byte. rewrite Nat.mod_small, Nat.div_small by lia. by replace (c + Z.of_nat 0) with c by lia.
    + split_and!; [lia|lia|done].
  - exists []. cbn [app length xor_stream]. rewrite Nat.add_0_r. split_and!; (done || lia).
Qed.

Lemma chacha20_cipher_stream c0 i ctx inp :
  0 <= c0 -> at_position c0 i ctx -> zlen inp < 2 ^ 32 ->
  let '(out, ctx') := chacha20_cipher ctx inp in
  out = xor_stream k n c0 i inp /\ at_position c0 (i + length inp) ctx'.
Proof.
  intros Hc0 (Hkey & c & Hc & Hctr & Hpos & Hle & Hbuf) Hz. unfold chacha20_cipher.
  assert (Hmove : forall c1 j l ctx', 0 <= c1 -> c0 <= c1 -> c1 * 64 + Z.of_nat j = c0 * 64 + Z.of_nat l ->
    at_position c1 j ctx' -> at_position c0 l ctx').
  { intros c1 j l ctx' _ Hle1 E (H1 & c2 & H2 & H3 & E2 & H4 & H5). split; [exact H1|]. exists c2.
    split_and!; [lia|exact H3|lia|exact H4|exact H5]. }
  destruct (Nat.ltb_spec 0 (partial_len ctx)) as [Hp|Hp].
  - rewrite (Hbuf Hp). pose proof (use_buffer_stream c (partial_len ctx) inp) as Hu.
    destruct (use_buffer (stream_block k n c) (partial_len ctx) inp) as [[out rest] j'].
    destruct Hu as (used & -> & -> & -> & H64 & Hr). rewrite xor_stream_app.
    rewrite <- (xor_stream_from c0 i c _ used Hc Hpos).
    destruct rest as [|y rest].
    + rewrite !app_nil_r. split; [done|]. split; [done|]. exists c. cbn [counter partial_len buf].
      split_and!; [exact Hc|exact Hctr|lia|lia|done].
    + assert (Hj : (partial_len ctx + length used = 64)%nat) by (specialize (Hr ltac:(done)); lia).
      rewrite Hj. cbn [Nat.eqb CHACHA_BLK_SIZE]. set (ctx1 := ChaCha _ _ _ _). unfold zlen in Hz. rewrite length_app in Hz.
      assert (Hctr1 : counter ctx1 = counter_words n (c + 1)).
      { unfold ctx1. cbn [counter]. rewrite Hctr. rewrite <- set_counter_words; [|lia|].
        - f_equal. change (nth 0 (counter_words n c) 0) with (c mod 2 ^ 32). unfold u32, wrap. by rewrite Z.add_mod_idemp_l.
        - pose proof (Z.mod_pos_bound c (2 ^ 32) eq_refl). lia. }
      pose proof (cipher_rest_stream (c + 1) ctx1 (y :: rest) Hkey Hctr1 eq_refl ltac:(lia) ltac:(unfold zlen; lia)) as Hrest.
      destruct (cipher_rest ctx1 (y :: rest)) as [out' ctx']. destruct Hrest as [-> Hat]. split.
      * f_equal. symmetry. apply xor_stream_from; lia.
      * apply (Hmove (c + 1) (length (y :: rest))); [lia..|rewrite length_app; lia|done].
  - pose proof (cipher_rest_stream c ctx inp Hkey Hctr ltac:(lia) ltac:(lia) Hz) as Hrest.
    destruct (cipher_rest ctx inp) as [out ctx']. destruct Hrest as [-> Hat]. split.
    + symmetry. apply xor_stream_from; lia.
    + apply (Hmove c (length inp)); [lia..|done].
Qed.
End cipher.

(** ** The theorem *)

Lemma CHACHA_U8TOU32_num p : bytes_ok p -> (4 <= length p)%nat -> CHACHA_U8TOU32 p = le_num (take 4 p).
Proof.
  intros Hp Hl. destruct p as [|b0 [|b1 [|b2 [|b3 p]]]]; [cbn in Hl; lia..|].
  unfold bytes_ok in Hp. rewrite !Forall_cons in Hp. destruct Hp as (H0 & H1 & H2 & H3 & _). unfold CHACHA_U8TOU32. cbn [nth].
  rewrite lor4_num by done. cbn [take]. by rewrite take_0.
Qed.

Lemma load_words_le n p : bytes_ok p -> length p = (4 * n)%nat -> load_words (4 * n) p = le_words n p.
Proof.
  intros Hp Hl. unfold load_words, le_words. rewrite (Nat.mul_comm 4 n), Nat.div_mul by lia.
  apply map_ext_in. intros i Hi%in_seq. apply CHACHA_U8TOU32_num; [by apply Forall_drop|rewrite length_drop; lia].
Qed.

(** The 64-bit counter of an initial value, and the words behind it. *)
Definition iv_counter (iv : bytes) : Z := le_num (take 8 iv).
Definition iv_nonce (iv : bytes) : list Z := drop 2 (le_words 4 iv).

Lemma iv_words iv : bytes_ok iv -> length iv = 16%nat -> le_words 4 iv = counter_words (iv_nonce iv) (iv_counter iv).
Proof.
  intros Hiv Hl. unfold iv_nonce, counter_words, le_words. cbn [seq map drop]. unfold iv_counter.
  pose proof (le_num_word iv 0 Hiv) as H0. pose proof (le_num_word iv 4 Hiv) as H1. rewrite drop_0 in H0. cbn [Nat.mul Nat.add].
  rewrite drop_0. replace (take 8 iv) with (take 4 iv ++ take 4 (drop 4 iv)).
  2: { rewrite <- (take_drop 4 (take 8 iv)). by rewrite take_take, skipn_firstn_comm. }
  rewrite le_num_app. unfold zlen. rewrite length_take, Nat.min_l by lia. change (2 ^ (8 * Z.of_nat 4)) with (2 ^ 32).
  unfold word in *. f_equal; [|f_equal]; change (2 ^ 32) with 4294967296; Z.to_euclidean_division_equations; lia.
Qed.

(** Calls of the cipher one after the other: the bytes they write, and the context. *)
Fixpoint cipher_calls (ctx : PROV_CHACHA20_CTX) (chunks : list bytes) : bytes * PROV_CHACHA20_CTX :=
  match chunks with
  | [] => ([], ctx)
  | inp :: chunks' =>
      let '(out, ctx) := chacha20_cipher ctx inp in
      let '(out', ctx) := cipher_calls ctx chunks' in
      (out ++ out', ctx)
  end.

Definition chacha20_start (ctx : PROV_CHACHA20_CTX) (k iv : bytes) : PROV_CHACHA20_CTX :=
  chacha20_initiv (chacha20_initkey ctx (Some k)) (Some iv).

Lemma start_position ctx k iv :
  bytes_ok k -> length k = 32%nat -> bytes_ok iv -> length iv = 16%nat ->
  at_position (le_words 8 k) (iv_nonce iv) (iv_counter iv) 0 (chacha20_start ctx k iv).
Proof.
  intros Hk Hkl Hiv Hivl. split; [apply (load_words_le 8); done|]. exists (iv_counter iv).
  split; [lia|]. split; [unfold chacha20_start, chacha20_initiv; cbn [counter]; rewrite <- iv_words by done; by apply (load_words_le 4)|].
  cbn [partial_len chacha20_start chacha20_initiv]. split_and!; lia.
Qed.

Lemma iv_nonce_ok iv : bytes_ok iv -> length iv = 16%nat -> Forall word (iv_nonce iv) /\ length (iv_nonce iv) = 2%nat.
Proof.
  intros Hiv Hl. destruct (le_words_ok 4 iv Hiv) as [Hw Hlw]. unfold iv_nonce.
  split; [by apply Forall_drop|]. rewrite length_drop. lia.
Qed.

Lemma cipher_calls_stream k n c0 i ctx chunks :
  length k = 8%nat -> length n = 2%nat -> Forall word k -> Forall word n -> 0 <= c0 ->
  at_position k n c0 i ctx -> Forall (fun x => zlen x < 2 ^ 32) chunks ->
  let '(out, ctx') := cipher_calls ctx chunks in
  out = xor_stream k n c0 i (concat chunks) /\ at_position k n c0 (i + length (concat chunks)) ctx'.
Proof.
  intros Hk Hn Hkw Hnw Hc0 Hat Hch. revert i ctx Hat. induction Hch as [|x chunks Hx _ IH]; intros i ctx Hat.
  { cbn [cipher_calls concat length]. by rewrite Nat.add_0_r. }
  cbn [cipher_calls concat]. pose proof (chacha20_cipher_stream k n Hk Hn Hkw Hnw c0 i ctx x Hc0 Hat Hx) as H1.
  destruct (chacha20_cipher ctx x) as [out ctx1]. destruct H1 as [-> Hat1]. specialize (IH _ _ Hat1).
  destruct (cipher_calls ctx1 chunks) as [out' ctx2]. destruct IH as [-> Hat2].
  rewrite xor_stream_app, length_app, Nat.add_assoc. by split.
Qed.

(** C31: ChaCha20 is one key stream: whatever the calls that deliver the data, the
    output is the data combined byte by byte with the blocks of RFC 8439 for the
    counters that follow the 64-bit number at the front of the initial value -
    across blocks kept between calls, across the overflow of the 32-bit counter
    inside a call, and at the ends of blocks -, so that deciphering the output, cut
    in any other way, returns the data. *)
Theorem chacha20_stream ctx1 ctx2 k iv chunks1 chunks2 :
  bytes_ok k -> length k = 32%nat -> bytes_ok iv -> length iv = 16%nat ->
  Forall (fun x => zlen x < 2 ^ 32) chunks1 -> Forall (fun x => zlen x < 2 ^ 32) chunks2 ->
  let out := (cipher_calls (chacha20_start ctx1 k iv) chunks1).1 in
  out = xor_stream (le_words 8 k) (iv_nonce iv) (iv_counter iv) 0 (concat chunks1) /\
  (concat chunks2 = out -> (cipher_calls (chacha20_start ctx2 k iv) chunks2).1 = concat chunks1).
Proof.
  intros Hk Hkl Hiv Hivl H1 H2. destruct (le_words_ok 8 k Hk) as [Hkw Hkn]. destruct (iv_nonce_ok iv Hiv Hivl) as [Hnw Hnn].
  assert (Hc : 0 <= iv_counter iv) by (apply le_num_range; by apply Forall_take).
  pose proof (cipher_calls_stream _ _ _ _ _ _ Hkn Hnn Hkw Hnw Hc (start_position ctx1 k iv Hk Hkl Hiv Hivl) H1) as S1.
  pose proof (cipher_calls_stream _ _ _ _ _ _ Hkn Hnn Hkw Hnw Hc (start_position ctx2 k iv Hk Hkl Hiv Hivl) H2) as S2.
  destruct (cipher_calls (chacha20_start ctx1 k iv) chunks1) as [out1 c1]. destruct S1 as [-> _].
  destruct (cipher_calls (chacha20_start ctx2 k iv) chunks2) as [out2 c2]. destruct S2 as [-> _].
  cbn [fst]. split; [done|]. intros ->. apply xor_stream_cancel.
Qed.

Lemma short_chunks chunks : forallb (fun x => zlen x <? 4294967296) chunks = true -> Forall (fun x : bytes => zlen x < 2 ^ 32) chunks.
Proof.
  intros H. apply Forall_forall. intros x Hx%list_elem_of_In. rewrite forallb_forall in H. specialize (H x Hx).
  by apply Z.ltb_lt in H.
Qed.

(** An initial value whose counter overflows both words. *)
Definition edge_counter : bytes := replicate 8 0xff ++ [0; 0x4a; 0; 0; 0; 0; 0; 0].

Lemma chacha20_stream_witness :
  let out := (cipher_calls (chacha20_start fresh rfc_stream_key edge_counter) [take 70 sunscreen; []; drop 70 sunscreen]).1 in
  (cipher_calls (chacha20_start fresh rfc_stream_key edge_counter) [take 64 out; drop 64 out]).1 = sunscreen.
Proof.
  destruct (chacha20_stream fresh fresh rfc_stream_key edge_counter [take 70 sunscreen; []; drop 70 sunscreen]
    (let out := (cipher_calls (chacha20_start fresh rfc_stream_key edge_counter) [take 70 sunscreen; []; drop 70 sunscreen]).1 in
     [take 64 out; drop 64 out])) as [_ Hd].
  - apply bytes_ok_checked. vm_compute. reflexivity.
  - reflexivity.
  - apply bytes_ok_checked. vm_compute. reflexivity.
  - reflexivity.
  - apply short_chunks. vm_compute. reflexivity.
  - apply short_chunks. vm_compute. reflexivity.
  - cbn zeta. etransitivity; [apply Hd; vm_compute; reflexivity|vm_compute; reflexivity].
Defined.

Lemma xor_stream_ok k n c i a : bytes_ok a -> bytes_ok (xor_stream k n c i a).
Proof.
  intros Ha. revert i. induction Ha as [|x a Hx _ IH]; intros i; [constructor|]. cbn [xor_stream]. constructor; [|apply IH].
  apply byte_lxor; [done|]. apply nth_byte, stream_block_ok.
Qed.
