(* ===== verification/ChachaPoly.v ===== *)
(** * ChaCha20-Poly1305 (cipher_chacha20_poly1305.c, cipher_chacha20_poly1305_hw.c)

    The authenticated cipher of the default provider: one context that deciphers or
    enciphers with ChaCha20 from block 1 on and authenticates, with Poly1305 under a
    key from block 0, the additional data and the cipher text, both padded, and
    their lengths; and the shorter path for a TLS record.  Both are shown to be the
    AEAD of RFC 8439, section 2.8. *)

From S2P Require Import Prelude CLib Words Modes KeyWrap Poly1305 ChaCha.

(** (size_t)-1 *)
Definition NO_TLS_PAYLOAD_LENGTH : Z := 4294967295.
Definition CHACHA20_POLY1305_IVLEN : Z := 12.
Definition CHACHA20_POLY1305_KEYLEN : Z := 32.
Definition EVP_AEAD_TLS1_AAD_LEN : Z := 13.

Record PROV_CHACHA20_POLY1305_CTX := Aead {
  enc : bool;
  oiv : bytes;
  chacha : PROV_CHACHA20_CTX;
  poly1305 : POLY1305;
  nonce : list Z;
  tag : bytes;
  tls_aad : bytes;
  len_aad : Z;
  len_text : Z;
  aad : bool;
  mac_inited : bool;
  tag_len : Z;
  tls_payload_length : Z;
  tls_aad_pad_sz : Z
}.

(** Assignments to fields. *)
Definition set_enc e c := Aead e (oiv c) (chacha c) (poly1305 c) (nonce c) (tag c) (tls_aad c) (len_aad c) (len_text c)
  (aad c) (mac_inited c) (tag_len c) (tls_payload_length c) (tls_aad_pad_sz c).
Definition set_oiv v c := Aead (enc c) v (chacha c) (poly1305 c) (nonce c) (tag c) (tls_aad c) (len_aad c) (len_text c)
  (aad c) (mac_inited c) (tag_len c) (tls_payload_length c) (tls_aad_pad_sz c).
Definition set_chacha x c := Aead (enc c) (oiv c) x (poly1305 c) (nonce c) (tag c) (tls_aad c) (len_aad c) (len_text c)
  (aad c) (mac_inited c) (tag_len c) (tls_payload_length c) (tls_aad_pad_sz c).
Definition set_poly p c := Aead (enc c) (oiv c) (chacha c) p (nonce c) (tag c) (tls_aad c) (len_aad c) (len_text c)
  (aad c) (mac_inited c) (tag_len c) (tls_payload_length c) (tls_aad_pad_sz c).
Definition set_nonce n c := Aead (enc c) (oiv c) (chacha c) (poly1305 c) n (tag c) (tls_aad c) (len_aad c) (len_text c)
  (aad c) (mac_inited c) (tag_len c) (tls_payload_length c) (tls_aad_pad_sz c).
Definition set_tag t c := Aead (enc c) (oiv c) (chacha c) (poly1305 c) (nonce c) t (tls_aad c) (len_aad c) (len_text c)
  (aad c) (mac_inited c) (tag_len c) (tls_payload_length c) (tls_aad_pad_sz c).
Definition set_tls_aad a c := Aead (enc c) (oiv c) (chacha c) (poly1305 c) (nonce c) (tag c) a (len_aad c) (len_text c)
  (aad c) (mac_inited c) (tag_len c) (tls_payload_length c) (tls_aad_pad_sz c).
Definition set_lens a t c := Aead (enc c) (oiv c) (chacha c) (poly1305 c) (nonce c) (tag c) (tls_aad c) a t
  (aad c) (mac_inited c) (tag_len c) (tls_payload_length c) (tls_aad_pad_sz c).
Definition set_aad b c := Aead (enc c) (oiv c) (chacha c) (poly1305 c) (nonce c) (tag c) (tls_aad c) (len_aad c) (len_text c)
  b (mac_inited c) (tag_len c) (tls_payload_length c) (tls_aad_pad_sz c).
Definition set_mac_inited b c := Aead (enc c) (oiv c) (chacha c) (poly1305 c) (nonce c) (tag c) (tls_aad c) (len_aad c)
  (len_text c) (aad c) b (tag_len c) (tls_payload_length c) (tls_aad_pad_sz c).
Definition set_tag_len n c := Aead (enc c) (oiv c) (chacha c) (poly1305 c) (nonce c) (tag c) (tls_aad c) (len_aad c)
  (len_text c) (aad c) (mac_inited c) n (tls_payload_length c) (tls_aad_pad_sz c).
Definition set_tls_len n c := Aead (enc c) (oiv c) (chacha c) (poly1305 c) (nonce c) (tag c) (tls_aad c) (len_aad c)
  (len_text c) (aad c) (mac_inited c) (tag_len c) n (tls_aad_pad_sz c).
Definition set_pad_sz n c := Aead (enc c) (oiv c) (chacha c) (poly1305 c) (nonce c) (tag c) (tls_aad c) (len_aad c)
  (len_text c) (aad c) (mac_inited c) (tag_len c) (tls_payload_length c) n.

(** A context of zeros, which is also what erasing one leaves. *)
Definition poly_erased : POLY1305 := Poly (Internal (W5 0 0 0 0 0) (W4 0 0 0 0)) (W4 0 0 0 0) [].
Definition chacha20_poly1305_newctx : PROV_CHACHA20_POLY1305_CTX :=
  {| enc := false; oiv := memset0 16;
     chacha := ChaCha (replicate 8 0) (replicate 4 0) (memset0 64) 0;
     poly1305 := poly_erased; nonce := [0; 0; 0]; tag := memset0 16; tls_aad := memset0 16;
     len_aad := 0; len_text := 0; aad := false; mac_inited := false; tag_len := 0;
     tls_payload_length := NO_TLS_PAYLOAD_LENGTH; tls_aad_pad_sz := 0 |}.

(** ** Initialisation *)

(** ossl_chacha20_einit and ossl_chacha20_dinit: whether it succeeded, and the context. *)
Definition ossl_chacha20_init (ctx : PROV_CHACHA20_CTX) (k iv : option bytes) : bool * PROV_CHACHA20_CTX :=
  match iv with
  | Some v => if negb (zlen v =? 16) then (false, ctx) else
      match k with
      | Some k => if negb (zlen k =? 32) then (false, ctx) else (true, chacha20_initiv (chacha20_initkey ctx (Some k)) (Some v))
      | None => (true, chacha20_initiv ctx (Some v))
      end
  | None =>
      match k with
      | Some k => if negb (zlen k =? 32) then (false, ctx) else (true, chacha20_initkey ctx (Some k))
      | None => (true, ctx)
      end
  end.

(** The assignments both initialisations start with. *)
Definition reset_fields (ctx : PROV_CHACHA20_POLY1305_CTX) : PROV_CHACHA20_POLY1305_CTX :=
  set_tls_len NO_TLS_PAYLOAD_LENGTH (set_mac_inited false (set_aad false (set_lens 0 0 ctx))).

Definition chacha20_poly1305_initkey (ctx : PROV_CHACHA20_POLY1305_CTX) (k : bytes) : bool * PROV_CHACHA20_POLY1305_CTX :=
  let ctx := reset_fields ctx in
  let '(ret, c) := ossl_chacha20_init (chacha ctx) (Some k) None in
  (ret, set_chacha c ctx).

Definition chacha20_poly1305_initiv (ctx : PROV_CHACHA20_POLY1305_CTX) : bool * PROV_CHACHA20_POLY1305_CTX :=
  let ctx := reset_fields ctx in
  let tempiv := memset0 4 ++ take 12 (oiv ctx) in
  let '(ret, c) := ossl_chacha20_init (chacha ctx) None (Some tempiv) in
  (ret, set_nonce (drop 1 (counter c)) (set_chacha c ctx)).

(** chacha20_poly1305_einit and chacha20_poly1305_dinit with the part of
    ciphercommon.c that they call; without parameters. *)
Definition chacha20_poly1305_init (e : bool) (ctx : PROV_CHACHA20_POLY1305_CTX) (k iv : option bytes)
  : bool * PROV_CHACHA20_POLY1305_CTX :=
  let ctx := set_enc e ctx in
  let '(ok, ctx) :=
    match iv with
    | Some v => if negb (zlen v =? CHACHA20_POLY1305_IVLEN) then (false, ctx) else (true, set_oiv (v ++ drop 12 (oiv ctx)) ctx)
    | None => (true, ctx)
    end in
  if negb ok then (false, ctx)
  else
    let '(ok, ctx) :=
      match k with
      | Some k => if negb (zlen k =? CHACHA20_POLY1305_KEYLEN) then (false, ctx) else chacha20_poly1305_initkey ctx k
      | None => (true, ctx)
      end in
    if negb ok then (false, ctx)
    else match iv with Some _ => (true, (chacha20_poly1305_initiv ctx).2) | None => (true, ctx) end.

(** The tag as a parameter, to be checked or to be read. *)
Definition set_ctx_tag (ctx : PROV_CHACHA20_POLY1305_CTX) (data : option bytes) (data_size : Z)
  : bool * PROV_CHACHA20_POLY1305_CTX :=
  if (data_size =? 0) || (16 <? data_size) then (false, ctx)
  else
    match data with
    | Some d =>
        if enc ctx then (false, ctx)
        else (true, set_tag_len data_size (set_tag (take (Z.to_nat data_size) d ++ drop (Z.to_nat data_size) (tag ctx)) ctx))
    | None => (true, set_tag_len data_size ctx)
    end.

Definition get_ctx_tag (ctx : PROV_CHACHA20_POLY1305_CTX) (data_size : Z) : option bytes :=
  if negb (enc ctx) then None
  else if (data_size =? 0) || (16 <? data_size) then None
  else Some (take (Z.to_nat data_size) (tag ctx)).

(** ** The stream of calls *)

(** if (!ctx->mac_inited): the key of the MAC is block 0. *)
Definition mac_start (ctx : PROV_CHACHA20_POLY1305_CTX) : PROV_CHACHA20_POLY1305_CTX :=
  let c := chacha ctx in
  let ctr := <[0%nat := 0]> (counter c) in
  let block := ChaCha20_ctr32 (memset0 CHACHA_BLK_SIZE) (key c) ctr in
  let ctx := set_chacha (ChaCha (key c) (<[0%nat := 1]> ctr) block 0) ctx in
  let ctx := set_mac_inited true (set_lens 0 0 (set_poly (Poly1305_Init block) ctx)) in
  if negb (tls_payload_length ctx =? NO_TLS_PAYLOAD_LENGTH) then
    set_aad true (set_lens EVP_AEAD_TLS1_AAD_LEN (len_text ctx)
      (set_poly (Poly1305_Update (poly1305 ctx) (take 13 (tls_aad ctx))) ctx))
  else ctx.

(** Zeros up to the next block. *)
Definition pad_mac (len : Z) (ctx : PROV_CHACHA20_POLY1305_CTX) : PROV_CHACHA20_POLY1305_CTX :=
  let rem := len mod 16 in
  if negb (rem =? 0) then set_poly (Poly1305_Update (poly1305 ctx) (memset0 (Z.to_nat (16 - rem)))) ctx else ctx.

(** if (ctx->aad) - wrap up aad *)
Definition wrap_up_aad (ctx : PROV_CHACHA20_POLY1305_CTX) : PROV_CHACHA20_POLY1305_CTX :=
  if aad ctx then set_aad false (pad_mac (len_aad ctx) ctx) else ctx.

(** (unsigned char * )&ctx->len *)
Definition len_bytes (ctx : PROV_CHACHA20_POLY1305_CTX) : bytes := le_bytes 8 (len_aad ctx) ++ le_bytes 8 (len_text ctx).

(** The explicit end: the tag computed. *)
Definition mac_finish (ctx : PROV_CHACHA20_POLY1305_CTX) : bytes * PROV_CHACHA20_POLY1305_CTX :=
  let ctx := wrap_up_aad ctx in
  let ctx := pad_mac (len_text ctx) ctx in
  let ctx := set_poly (Poly1305_Update (poly1305 ctx) (len_bytes ctx)) ctx in
  let temp := Poly1305_Final (poly1305 ctx) in
  (temp, set_mac_inited false (set_poly poly_erased (if enc ctx then set_tag temp ctx else ctx))).

(** Enciphering or deciphering of [inp], which is authenticated as cipher text. *)
Definition cipher_text (inp : bytes) (ctx : PROV_CHACHA20_POLY1305_CTX) : bytes * PROV_CHACHA20_POLY1305_CTX :=
  let '(out, c) := chacha20_cipher (chacha ctx) inp in
  let p := Poly1305_Update (poly1305 ctx) (if enc ctx then out else inp) in
  (out, set_lens (len_aad ctx) (u64 (len_text ctx + zlen inp)) (set_poly p (set_chacha c ctx))).

(** ** TLS records *)

(** The length of the tag, or 0. *)
Definition chacha_poly1305_tls_init (ctx : PROV_CHACHA20_POLY1305_CTX) (a : bytes) : Z * PROV_CHACHA20_POLY1305_CTX :=
  if negb (zlen a =? EVP_AEAD_TLS1_AAD_LEN) then (0, ctx)
  else
    let ctx := set_tls_aad (a ++ drop 13 (tls_aad ctx)) ctx in
    let len := Z.lor (Z.shiftl (nth 11 a 0) 8) (nth 12 a 0) in
    if negb (enc ctx) && (len <? 16) then (0, ctx)
    else
      let '(len, ctx) :=
        if negb (enc ctx) then
          let len := len - 16 in
          (len, set_tls_aad (<[12%nat := u8 len]> (<[11%nat := u8 (Z.shiftr len 8)]> (tls_aad ctx))) ctx)
        else (len, ctx) in
      let ctr := counter (chacha ctx) in
      let ctr := <[1%nat := nth 0 (nonce ctx) 0]> ctr in
      let ctr := <[2%nat := nth 1 (nonce ctx) 0 ⊕ CHACHA_U8TOU32 (tls_aad ctx)]> ctr in
      let ctr := <[3%nat := nth 2 (nonce ctx) 0 ⊕ CHACHA_U8TOU32 (drop 4 (tls_aad ctx))]> ctr in
      let c := chacha ctx in
      (16, set_mac_inited false (set_chacha (ChaCha (key c) ctr (buf c) (partial_len c)) (set_tls_len len ctx))).

Definition set_ctx_tls_aad (ctx : PROV_CHACHA20_POLY1305_CTX) (a : bytes) : bool * PROV_CHACHA20_POLY1305_CTX :=
  let '(len, ctx) := chacha_poly1305_tls_init ctx a in
  if len =? 0 then (false, ctx) else (true, set_pad_sz len ctx).

Definition chacha_poly1305_tls_iv_set_fixed (ctx : PROV_CHACHA20_POLY1305_CTX) (fixed : bytes)
  : bool * PROV_CHACHA20_POLY1305_CTX :=
  if negb (zlen fixed =? CHACHA20_POLY1305_IVLEN) then (false, ctx)
  else
    let n := [CHACHA_U8TOU32 fixed; CHACHA_U8TOU32 (drop 4 fixed); CHACHA_U8TOU32 (drop 8 fixed)] in
    let c := chacha ctx in
    (true, set_nonce n (set_chacha (ChaCha (key c) (take 1 (counter c) ++ n) (buf c) (partial_len c)) ctx)).

(** The array [storage] of [sizeof(zero) + 32] bytes, from [buf] on, which is aligned to
    16 bytes and so leaves 145 of them in the worst case.  What they hold at first does
    not matter: every byte is written before it is read. *)
Definition storage : bytes := memset0 145.

(** [buf], the offsets of [tohash] and [ctr] in it, [tohash_len] and [buf_len]. *)
Record scratch := Scratch { s_buf : bytes; s_tohash : nat; s_tohash_len : nat; s_ctr : nat; s_buf_len : nat }.

(** A record of at most a block: one call gives the key of the MAC and the key
    stream, and the data to authenticate are put together behind the key. *)
Definition tls_short (inp : bytes) (plen : nat) (ctx : PROV_CHACHA20_POLY1305_CTX)
  : outcome (bytes * scratch * PROV_CHACHA20_POLY1305_CTX) :=
  let c := chacha ctx in
  let counter := <[0%nat := 0]> (counter c) in
  buf ← write_at storage 0 (ChaCha20_ctr32 (memset0 128) (key c) counter);
  let ctx := set_poly (Poly1305_Init buf) (set_chacha (ChaCha (key c) counter (ChaCha.buf c) 0) ctx) in
  let ctr := CHACHA_BLK_SIZE in
  let tohash := (CHACHA_BLK_SIZE - 16)%nat in
  buf ← write_at buf (Z.of_nat tohash) (tls_aad ctx);
  let out := xor_bytes (take plen inp) (drop ctr buf) in
  buf ← write_at buf (Z.of_nat ctr) (if enc ctx then out else take plen inp);
  let tail := ((16 - plen mod 16) mod 16)%nat in
  buf ← write_at buf (Z.of_nat (ctr + plen)) (memset0 tail);
  Done (out, Scratch buf tohash (16 + (plen + tail)) (ctr + (plen + tail)) 128, ctx).

(** A longer record: block 0 for the key, the rest from block 1 on. *)
Definition tls_long (inp : bytes) (plen : nat) (ctx : PROV_CHACHA20_POLY1305_CTX)
  : outcome (bytes * scratch * PROV_CHACHA20_POLY1305_CTX) :=
  let c := chacha ctx in
  let ctr := <[0%nat := 0]> (counter c) in
  buf ← write_at storage 0 (ChaCha20_ctr32 (memset0 64) (key c) ctr);
  let ctr := <[0%nat := 1]> ctr in
  let p := Poly1305_Update (Poly1305_Init buf) (tls_aad ctx) in
  let out := ChaCha20_ctr32 (take plen inp) (key c) ctr in
  let p := Poly1305_Update p (if enc ctx then out else take plen inp) in
  let tail := ((16 - plen mod 16) mod 16)%nat in
  Done (out, Scratch buf CHACHA_BLK_SIZE 0 CHACHA_BLK_SIZE 64,
    set_poly (Poly1305_Update p (memset0 tail)) (set_chacha (ChaCha (key c) ctr (ChaCha.buf c) 0) ctx)).

(** What a call returns: the result, the length reported, the bytes written from
    the start of the output, the context. *)
Abbreviation answer := (bool * Z * bytes * PROV_CHACHA20_POLY1305_CTX)%type.

Definition chacha20_poly1305_tls_cipher (ctx : PROV_CHACHA20_POLY1305_CTX) (out_padlen : Z) (inp : bytes) : outcome answer :=
  let plen := Z.to_nat (tls_payload_length ctx) in
  let len := zlen inp in
  '(out, sc, ctx) ← (if (plen <=? CHACHA_BLK_SIZE)%nat then tls_short inp plen ctx else tls_long inp plen ctx);
  let ctx := set_lens EVP_AEAD_TLS1_AAD_LEN (Z.of_nat plen) ctx in
  buf ← write_at (s_buf sc) (Z.of_nat (s_ctr sc)) (len_bytes ctx);
  let tohash := take (s_tohash_len sc + 16) (drop (s_tohash sc) buf) in
  let mac := Poly1305_Final (Poly1305_Update (poly1305 ctx) tohash) in
  buf ← OPENSSL_cleanse buf 0 (Z.of_nat (s_buf_len sc));
  let ctx := set_tls_len NO_TLS_PAYLOAD_LENGTH (set_poly poly_erased ctx) in
  if enc ctx then Done (true, len, out ++ mac, set_tag mac ctx)
  else
    buf ← write_at buf (Z.of_nat (s_tohash sc)) mac;
    x ← CRYPTO_memcmp (drop (s_tohash sc) buf) (drop plen inp) 16;
    if negb (x =? 0) then
      Done (false, out_padlen, if 16 <? len then memset0 (Z.to_nat (len - 16)) ++ drop (Z.to_nat (len - 16)) out else out, ctx)
    else Done (true, len - 16, out, ctx).

(** ** A call *)

(** From "explicit final, or tls mode" on, after [out] has been written. *)
Definition aead_end (out : bytes) (inp : option bytes) (plen : Z) (ctx : PROV_CHACHA20_POLY1305_CTX) : outcome answer :=
  let inl := match inp with Some i => zlen i | None => 0 end in
  match inp with
  | Some i =>
      if inl =? plen then Done (true, inl, out, ctx)
      else
        let '(temp, ctx) := mac_finish ctx in
        if enc ctx then Done (true, inl, out ++ temp, ctx)
        else
          x ← CRYPTO_memcmp temp (drop (Z.to_nat plen) i) 16;
          if negb (x =? 0) then Done (false, 0, memset0 (Z.to_nat plen), ctx)
          else Done (true, u32 (inl - 16), out, ctx)
  | None =>
      let '(temp, ctx) := mac_finish ctx in
      if enc ctx then Done (true, 0, out, ctx)
      else
        x ← CRYPTO_memcmp temp (tag ctx) (tag_len ctx);
        Done (x =? 0, 0, out, ctx)
  end.

(** [out_null] tells whether [out] is a null pointer, [outl] is the value behind
    that pointer before the call. *)
Definition chacha20_poly1305_aead_cipher (ctx : PROV_CHACHA20_POLY1305_CTX) (out_null : bool) (outl : Z) (inp : option bytes)
  : outcome answer :=
  let plen := tls_payload_length ctx in
  let inl := match inp with Some i => zlen i | None => 0 end in
  let tls := negb (mac_inited ctx) && negb (plen =? NO_TLS_PAYLOAD_LENGTH) && negb out_null in
  if tls then
    match inp with
    | Some i => if negb (inl =? u32 (plen + 16)) then Done (false, outl, [], ctx) else chacha20_poly1305_tls_cipher ctx outl i
    | None => if negb (inl =? u32 (plen + 16)) then Done (false, outl, [], ctx) else Crash NullDereference
    end
  else
    let ctx := if mac_inited ctx then ctx else mac_start ctx in
    match inp with
    | Some i =>
        if out_null then
          Done (true, inl, [], set_aad true (set_lens (u64 (len_aad ctx + inl)) (len_text ctx)
            (set_poly (Poly1305_Update (poly1305 ctx) i) ctx)))
        else
          let ctx := set_tls_len NO_TLS_PAYLOAD_LENGTH (wrap_up_aad ctx) in
          if plen =? NO_TLS_PAYLOAD_LENGTH then
            let '(out, ctx) := cipher_text i ctx in aead_end out inp inl ctx
          else if negb (inl =? u32 (plen + 16)) then Done (false, 0, [], ctx)
          else let '(out, ctx) := cipher_text (take (Z.to_nat plen) i) ctx in aead_end out inp plen ctx
    | None => aead_end [] inp plen ctx
    end.

(** The functions of the dispatch table. *)
Definition chacha20_poly1305_cipher (ctx : PROV_CHACHA20_POLY1305_CTX) (out_null : bool) (outl outsize : Z) (inp : bytes)
  : outcome answer :=
  if zlen inp =? 0 then Done (true, 0, [], ctx)
  else if outsize <? zlen inp then Done (false, outl, [], ctx)
  else chacha20_poly1305_aead_cipher ctx out_null outl (Some inp).

Definition chacha20_poly1305_final (ctx : PROV_CHACHA20_POLY1305_CTX) (out_null : bool) (outl : Z) : outcome answer :=
  '(rv, outl, out, ctx) ← chacha20_poly1305_aead_cipher ctx out_null outl None;
  Done (rv, if rv : bool then 0 else outl, out, ctx).

(** A caller that passes the pieces of a message one by one. *)
Fixpoint update_calls (out_null : bool) (ctx : PROV_CHACHA20_POLY1305_CTX) (xs : list bytes)
  : outcome (bool * bytes * PROV_CHACHA20_POLY1305_CTX) :=
  match xs with
  | [] => Done (true, [], ctx)
  | x :: xs =>
      '(ok, _, out, ctx) ← chacha20_poly1305_cipher ctx out_null 0 (zlen x) x;
      if negb ok then Done (false, out, ctx)
      else '(ok, outs, ctx) ← update_calls out_null ctx xs; Done (ok, out ++ outs, ctx)
  end.

(** Additional data, text, the end. *)
Definition message_updates (ctx : PROV_CHACHA20_POLY1305_CTX) (aads texts : list bytes)
  : outcome (bool * bytes * PROV_CHACHA20_POLY1305_CTX) :=
  '(ok1, _, ctx) ← update_calls true ctx aads;
  '(ok2, out, ctx) ← update_calls false ctx texts;
  '(ok3, _, _, ctx) ← chacha20_poly1305_final ctx false 0;
  Done (ok1 && ok2 && ok3, out, ctx).

(** A whole message, with the tag to check when deciphering. *)
Definition message (e : bool) (ctx : PROV_CHACHA20_POLY1305_CTX) (k iv : bytes) (t : option bytes) (aads texts : list bytes)
  : outcome (bool * bytes * PROV_CHACHA20_POLY1305_CTX) :=
  let '(ok, ctx) := chacha20_poly1305_init e ctx (Some k) (Some iv) in
  if negb ok then Done (false, [], ctx)
  else
    let '(ok, ctx) := match t with Some t => set_ctx_tag ctx (Some t) (zlen t) | None => (true, ctx) end in
    if negb ok then Done (false, [], ctx) else message_updates ctx aads texts.

(** ** The AEAD of RFC 8439, section 2.8 *)

(** Byte [j] of the key stream that starts with block [c], and data combined with
    that stream (section 2.4.1). *)
Definition rfc_key_byte (k : bytes) (c : Z) (iv : bytes) (j : nat) : Z :=
  nth (j mod 64) (rfc_chacha_block (sigma ++ le_words 8 k ++ [c + Z.of_nat (j / 64)] ++ le_words 3 iv)) 0.

Definition rfc_chacha20 (k : bytes) (c : Z) (iv text : bytes) : bytes :=
  imap (fun j x => x ⊕ rfc_key_byte k c iv j) text.

Definition pad16 (b : bytes) : bytes := memset0 (Z.to_nat (- zlen b mod 16)).

Definition rfc_mac_data (a c : bytes) : bytes :=
  a ++ pad16 a ++ c ++ pad16 c ++ le_bytes 8 (zlen a) ++ le_bytes 8 (zlen c).

Definition rfc_tag_of (k iv a c : bytes) : bytes := rfc_mac (rfc_chacha20 k 0 iv (memset0 32)) (rfc_mac_data a c).

(** The vector of section 2.8.2. *)
Definition aead_key : bytes := map Z.of_nat (seq 0x80 32).
Definition aead_iv : bytes := [0x07; 0; 0; 0; 0x40; 0x41; 0x42; 0x43; 0x44; 0x45; 0x46; 0x47].
Definition aead_aad : bytes := [0x50; 0x51; 0x52; 0x53; 0xc0; 0xc1; 0xc2; 0xc3; 0xc4; 0xc5; 0xc6; 0xc7].

Definition aead_sealed : bytes :=
  [0xd3; 0x1a; 0x8d; 0x34; 0x64; 0x8e; 0x60; 0xdb; 0x7b; 0x86; 0xaf; 0xbc; 0x53; 0xef; 0x7e; 0xc2; 0xa4; 0xad; 0xed;
   0x51; 0x29; 0x6e; 0x08; 0xfe; 0xa9; 0xe2; 0xb5; 0xa7; 0x36; 0xee; 0x62; 0xd6; 0x3d; 0xbe; 0xa4; 0x5e; 0x8c; 0xa9;
   0x67; 0x12; 0x82; 0xfa; 0xfb; 0x69; 0xda; 0x92; 0x72; 0x8b; 0x1a; 0x71; 0xde; 0x0a; 0x9e; 0x06; 0x0b; 0x29; 0x05;
   0xd6; 0xa5; 0xb6; 0x7e; 0xcd; 0x3b; 0x36; 0x92; 0xdd; 0xbd; 0x7f; 0x2d; 0x77; 0x8b; 0x8c; 0x98; 0x03; 0xae; 0xe3;
   0x28; 0x09; 0x1b; 0x58; 0xfa; 0xb3; 0x24; 0xe4; 0xfa; 0xd6; 0x75; 0x94; 0x55; 0x85; 0x80; 0x8b; 0x48; 0x31; 0xd7;
   0xbc; 0x3f; 0xf4; 0xde; 0xf0; 0x8e; 0x4b; 0x7a; 0x9d; 0xe5; 0x76; 0xd2; 0x65; 0x86; 0xce; 0xc6; 0x4b; 0x61; 0x16].
Definition aead_tag : bytes :=
  [0x1a; 0xe1; 0x0b; 0x59; 0x4f; 0x09; 0xe2; 0x6a; 0x7e; 0x90; 0x2e; 0xcb; 0xd0; 0x60; 0x06; 0x91].

(** The code on the same vector. *)
Example aead_code_vector :
  let c0 := (chacha20_poly1305_init true chacha20_poly1305_newctx (Some aead_key) (Some aead_iv)).2 in
  match chacha20_poly1305_cipher c0 true 0 100 aead_aad with
  | Done (_, _, _, c1) =>
      match chacha20_poly1305_cipher c1 false 0 200 sunscreen with
      | Done (_, n, out, c2) =>
          match chacha20_poly1305_final c2 false 0 with
          | Done (ok, _, _, c3) =>
              (n, ok) = (114, true) /\ out = aead_sealed /\ get_ctx_tag c3 16 = Some aead_tag
          | _ => False
          end
      | _ => False
      end
  | _ => False
  end.
Proof. vm_compute. repeat split. Qed.

(** ** The key stream and the MAC of a message *)

Lemma stream_block_at kw n c : stream_block kw n c = rfc_chacha_block (sigma ++ kw ++ counter_words n c).
Proof. unfold stream_block. reflexivity. Qed.

Lemma xor_stream_nil kw n c i : xor_stream kw n c i [] = [].
Proof. cbn [xor_stream]. reflexivity. Qed.

Lemma xor_stream_cons kw n c i x a : xor_stream kw n c i (x :: a) = x ⊕ stream_byte kw n c i :: xor_stream kw n c (S i) a.
Proof. cbn [xor_stream]. reflexivity. Qed.

Lemma poly_init_prefix (a z : bytes) : (32 <= length a)%nat -> Poly1305_Init (a ++ z) = Poly1305_Init a.
Proof. intros Ha. do 32 (destruct a as [|? a]; [cbn in Ha; lia|]). reflexivity. Qed.

Lemma length_poly_final p : length (Poly1305_Final p) = 16%nat.
Proof. unfold Poly1305_Final, poly1305_emit. set (w := reduce_words _). by destruct w, (Poly1305.nonce p). Qed.

#[local] Opaque stream_block rfc_chacha_block xor_stream Poly1305_Init Poly1305_Update Poly1305_Final ChaCha20_ctr32 chacha20_cipher.

(** *** The scratch array of a record *)

(** The scratch array holds [data] from [tohash] to [ctr], with room for 16 bytes behind. *)
Definition scratch_holds (data : bytes) (sc : scratch) : Prop :=
  exists front back, s_buf sc = front ++ data ++ back /\ s_tohash sc = length front /\ s_tohash_len sc = length data /\
    s_ctr sc = (length front + length data)%nat /\ (16 <= length back)%nat /\ (s_buf_len sc <= length (s_buf sc))%nat.

Lemma write_next (front data back d : bytes) n : n = (length front + length data)%nat -> (length d <= length back)%nat ->
  write_at (front ++ data ++ back) (Z.of_nat n) d = Done (front ++ (data ++ d) ++ drop (length d) back).
Proof.
  intros -> Hd. rewrite write_at_inside by (rewrite !length_app; lia).
  rewrite !app_assoc, take_app_length' by (rewrite length_app; lia).
  rewrite <- drop_drop, drop_app_length' by (rewrite length_app; lia). done.
Qed.

Lemma xor_bytes_prefix (a b c : bytes) : (length a <= length b)%nat -> xor_bytes a (b ++ c) = xor_bytes a b.
Proof.
  revert b. induction a as [|x a IH]; intros [|y b] Hl; cbn in *; [done|done|lia|]. by rewrite IH by lia.
Qed.

Lemma length_zeros n : length (memset0 n) = n.
Proof. apply length_replicate. Qed.

(** The front of the array, after a call of ChaCha20_ctr32 for [b]. *)
Lemma storage_front b : (length b <= 145)%nat -> write_at storage 0 b = Done (b ++ memset0 (145 - length b)).
Proof.
  intros Hb. change storage with ([] ++ [] ++ storage : bytes). change 0 with (Z.of_nat 0).
  rewrite write_next by (done || (unfold storage; rewrite length_zeros; lia)). cbn [app]. do 2 f_equal.
  unfold storage, memset0. by rewrite drop_replicate.
Qed.

Lemma tail_room n : (n <= 64)%nat -> (n + (16 - n mod 16) mod 16 <= 64)%nat.
Proof. intros Hn. do 65 (destruct n as [|n]; [vm_compute; lia|]). lia. Qed.

Lemma split_at_offset (b z : bytes) n : b ++ z = take n b ++ [] ++ (drop n b ++ z).
Proof. cbn [app]. by rewrite app_assoc, take_drop. Qed.

Lemma tls_short_scratch inp plen ctx :
  let counter := <[0%nat := 0]> (counter (chacha ctx)) in
  let block := ChaCha20_ctr32 (memset0 128) (key (chacha ctx)) counter in
  let out := xor_bytes (take plen inp) (drop 64 block) in
  length block = 128%nat -> length (tls_aad ctx) = 16%nat -> (plen <= 64)%nat -> (plen <= length inp)%nat ->
  exists sc, tls_short inp plen ctx = Done (out, sc,
      set_poly (Poly1305_Init block) (set_chacha (ChaCha (key (chacha ctx)) counter (ChaCha.buf (chacha ctx)) 0) ctx)) /\
    scratch_holds (tls_aad ctx ++ (if enc ctx then out else take plen inp) ++ memset0 ((16 - plen mod 16) mod 16)) sc.
Proof.
  cbn zeta. intros Hb Ha Hp Hi. unfold tls_short, CHACHA_BLK_SIZE. cbn zeta.
  set (counter := <[0%nat := 0]> _) in *. set (block := ChaCha20_ctr32 _ _ _) in *. clearbody block.
  rewrite storage_front by lia. cbn [mbind outcome_bind tls_aad enc set_poly set_chacha]. rewrite poly_init_prefix, Hb by lia.
  change (145 - 128)%nat with 17%nat. pose proof (split_at_offset block (memset0 17) 48) as Hs.
  assert (Hf : length (take 48 block) = 48%nat) by (rewrite length_take; lia).
  assert (Hback : length (drop 48 block) = 80%nat) by (rewrite length_drop; lia).
  rewrite Hs, write_next by (rewrite ?Hf, ?length_app, ?length_zeros; cbn [length]; lia). cbn [mbind outcome_bind app].
  rewrite Ha. assert (Hd : drop 16 (drop 48 block ++ memset0 17) = drop 64 block ++ memset0 17).
  { rewrite drop_app_le by lia. by rewrite drop_drop. }
  rewrite Hd. clear Hd.
  set (stream := drop 64 block) in *. assert (Hsl : length stream = 64%nat) by (unfold stream; rewrite length_drop; lia).
  assert (Hout : drop 64 (take 48 block ++ tls_aad ctx ++ stream ++ memset0 17) = stream ++ memset0 17).
  { rewrite app_assoc. apply drop_app_length'. rewrite length_app, Hf, Ha. done. }
  rewrite Hout, xor_bytes_prefix by (rewrite length_take; lia). set (out := xor_bytes _ stream).
  set (text := if enc ctx then out else take plen inp).
  assert (Htl : length text = plen).
  { unfold text, out. destruct (enc ctx); rewrite ?xor_bytes_length, ?length_take; lia. }
  pose proof (tail_room plen Hp) as Htail.
  set (tail := ((16 - plen mod 16) mod 16)%nat) in *. clearbody tail text out.
  rewrite write_next by (rewrite ?Hf, ?Ha, ?Htl, ?length_app, ?length_zeros; lia). cbn [mbind outcome_bind].
  rewrite write_next by (rewrite ?length_drop, ?length_app, ?Hf, ?Ha, ?Htl, ?length_zeros; lia). cbn [mbind outcome_bind].
  eexists. split; [reflexivity|]. exists (take 48 block), (drop (length (memset0 tail)) (drop (length text) (stream ++ memset0 17))).
  cbn [s_buf s_tohash s_tohash_len s_ctr s_buf_len].
  split; [by rewrite <- !app_assoc|]. rewrite !length_app, !length_drop, !length_app, !length_zeros, Hf, Ha, Htl, Hsl.
  clear - Htail. split_and!; lia.
Qed.

Lemma tls_long_scratch inp plen ctx :
  let counter := <[0%nat := 0]> (counter (chacha ctx)) in
  let block := ChaCha20_ctr32 (memset0 64) (key (chacha ctx)) counter in
  let counter := <[0%nat := 1]> counter in
  let out := ChaCha20_ctr32 (take plen inp) (key (chacha ctx)) counter in
  length block = 64%nat ->
  exists sc, tls_long inp plen ctx = Done (out, sc,
      set_poly (Poly1305_Update (Poly1305_Update (Poly1305_Update (Poly1305_Init block) (tls_aad ctx))
        (if enc ctx then out else take plen inp)) (memset0 ((16 - plen mod 16) mod 16)))
        (set_chacha (ChaCha (key (chacha ctx)) counter (ChaCha.buf (chacha ctx)) 0) ctx)) /\
    scratch_holds [] sc.
Proof.
  cbn zeta. intros Hb. unfold tls_long, CHACHA_BLK_SIZE. cbn zeta. set (block := ChaCha20_ctr32 (memset0 64) _ _) in *. clearbody block.
  rewrite storage_front by lia. cbn [mbind outcome_bind]. rewrite poly_init_prefix, Hb by lia.
  eexists. split; [reflexivity|]. exists block, (memset0 81). cbn [s_buf s_tohash s_tohash_len s_ctr s_buf_len].
  rewrite length_app, length_zeros, Hb. cbn [length app]. split; [done|]. lia.
Qed.

(** The end of a record, for either way to put the data together. *)
Lemma tls_cipher_ends ctx outl inp out sc data ctx1 :
  let plen := Z.to_nat (tls_payload_length ctx) in
  let len := zlen inp in
  (if (plen <=? CHACHA_BLK_SIZE)%nat then tls_short inp plen ctx else tls_long inp plen ctx) = Done (out, sc, ctx1) ->
  scratch_holds data sc ->
  let ctx2 := set_lens EVP_AEAD_TLS1_AAD_LEN (Z.of_nat plen) ctx1 in
  let mac := Poly1305_Final (Poly1305_Update (poly1305 ctx2) (data ++ len_bytes ctx2)) in
  let ctx3 := set_tls_len NO_TLS_PAYLOAD_LENGTH (set_poly poly_erased ctx2) in
  chacha20_poly1305_tls_cipher ctx outl inp =
    if enc ctx3 then Done (true, len, out ++ mac, set_tag mac ctx3)
    else
      x ← CRYPTO_memcmp mac (drop plen inp) 16;
      if negb (x =? 0) then
        Done (false, outl, if 16 <? len then memset0 (Z.to_nat (len - 16)) ++ drop (Z.to_nat (len - 16)) out else out, ctx3)
      else Done (true, len - 16, out, ctx3).
Proof.
  cbn zeta. intros Hr (front & back & Hb & Hth & Htl & Hctr & Hback & Hbl).
  unfold chacha20_poly1305_tls_cipher. rewrite Hr. cbn [mbind outcome_bind]. rewrite Hb, Hctr, Hth, Htl in *.
  set (ctx2 := set_lens _ _ _). assert (Hll : length (len_bytes ctx2) = 16%nat) by reflexivity.
  rewrite write_next by lia. cbn [mbind outcome_bind].
  rewrite drop_app_length, take_app_length' by (rewrite length_app; lia).
  set (mac := Poly1305_Final _). assert (Hml : length mac = 16%nat) by apply length_poly_final. clearbody mac.
  set (buf := front ++ (data ++ len_bytes ctx2) ++ drop (length (len_bytes ctx2)) back).
  assert (Hlen : length buf = length (front ++ data ++ back)) by (unfold buf; rewrite !length_app, length_drop; lia).
  assert (Hroom : (length front + 16 <= length buf)%nat) by (rewrite Hlen, !length_app; lia). clearbody buf.
  unfold OPENSSL_cleanse. rewrite Nat2Z.id. change (write_at buf 0) with (write_at buf (Z.of_nat 0)).
  rewrite write_at_inside by (rewrite length_zeros; lia). cbn [mbind outcome_bind take app].
  rewrite ?take_0. cbn [app]. set (buf' := memset0 (s_buf_len sc) ++ _).
  assert (Hlen' : length buf' = length buf).
  { unfold buf'. rewrite length_app, length_drop, length_zeros. lia. } clearbody buf'.
  destruct (enc _); [reflexivity|]. rewrite write_at_inside by lia. cbn [mbind outcome_bind].
  rewrite drop_app_length' by (rewrite length_take; lia). unfold CRYPTO_memcmp.
  rewrite (read_at_start mac), (read_at_all mac) by (unfold zlen; lia). reflexivity.
Qed.

Lemma mac_of b x :
  bytes_ok b -> (32 <= length b)%nat -> bytes_ok x -> Poly1305_Final (Poly1305_Update (Poly1305_Init b) x) = rfc_mac b x.
Proof.
  intros Hb Hl Hx. destruct (init_nonce b Hb Hl) as [Hn Hv].
  pose proof (poly_update_absorbed _ _ _ _ x (poly_init_absorbed b Hb ltac:(lia)) Hx) as Ha.
  rewrite (poly_final_absorbed _ _ _ _ Ha Hn), Hv. unfold rfc_mac. by rewrite (le_bytes_mod 16).
Qed.

Lemma pad16_nat (c : bytes) : pad16 c = memset0 ((16 - length c mod 16) mod 16).
Proof.
  unfold pad16, zlen. apply (f_equal memset0). pose proof (Nat.mod_upper_bound (length c) 16 ltac:(lia)) as Hm.
  assert (Hd : Z.of_nat (length c) mod 16 = Z.of_nat (length c mod 16)) by (rewrite Nat2Z.inj_mod; reflexivity). destruct (Nat.eqb_spec (length c mod 16) 0) as [Hz|Hz].
  - rewrite Hz, Z.mod_opp_l_z; [done|lia|lia].
  - rewrite (Nat.mod_small (16 - _)) by lia. rewrite Z.mod_opp_l_nz; lia.
Qed.

Section message.
Context (k iv : bytes) (Hk : bytes_ok k) (Hkl : length k = 32%nat) (Hiv : bytes_ok iv) (Hivl : length iv = 12%nat).

(** The words of the key and of the initial value. *)
Definition key_words : list Z := le_words 8 k.
Definition iv_word : Z := le_num (take 4 iv).
Definition iv_rest : list Z := [le_num (take 4 (drop 4 iv)); le_num (take 4 (drop 8 iv))].

Lemma key_words_ok : Forall word key_words /\ length key_words = 8%nat.
Proof. by apply le_words_ok. Qed.

Lemma iv_rest_ok : Forall word iv_rest /\ length iv_rest = 2%nat.
Proof. split; [|done]. repeat (apply Forall_cons; split; [by apply le_num_word|]). done. Qed.

Lemma iv_word_ok : word iv_word.
Proof. pose proof (le_num_word iv 0 Hiv) as H. by rewrite drop_0 in H. Qed.

(** Block [c] of the standard has number [c + 2^32 * iv_word] here. *)
Definition block_number (c : Z) : Z := c + 2 ^ 32 * iv_word.

Lemma block_counter c : word c -> counter_words iv_rest (block_number c) = c :: iv_word :: iv_rest.
Proof.
  intros Hc. pose proof iv_word_ok as Hw. unfold counter_words, block_number, word in *.
  change (2 ^ 32) with 4294967296 in *. f_equal; [|f_equal]; Z.to_euclidean_division_equations; lia.
Qed.

(** The byte and the text of the standard in terms of the stream, as long as the
    standard's counter lasts. *)
Lemma rfc_key_byte_stream c i :
  0 <= c -> 64 * c + Z.of_nat i < 64 * 2 ^ 32 -> rfc_key_byte k c iv i = stream_byte key_words iv_rest (block_number c) i.
Proof.
  intros Hc Hi. unfold rfc_key_byte, stream_byte. rewrite stream_block_at.
  replace (block_number c + Z.of_nat (i / 64)) with (block_number (c + Z.of_nat (i / 64))) by (unfold block_number; lia).
  rewrite block_counter; [|unfold word; pose proof (Nat.Div0.div_mod i 64); change (2 ^ 32) with 4294967296 in *; lia].
  unfold key_words, iv_word, iv_rest, le_words at 2. cbn [seq map Nat.mul Nat.add app]. by rewrite drop_0.
Qed.

Lemma rfc_chacha20_stream c text :
  0 <= c -> 64 * c + zlen text <= 64 * 2 ^ 32 -> rfc_chacha20 k c iv text = xor_stream key_words iv_rest (block_number c) 0 text.
Proof.
  intros Hc. unfold rfc_chacha20. enough (Hi : forall i, 64 * c + Z.of_nat i + zlen text <= 64 * 2 ^ 32 ->
    imap (fun j x => x ⊕ rfc_key_byte k c iv (i + j)) text = xor_stream key_words iv_rest (block_number c) i text).
  { intros Hl. apply (Hi 0%nat). lia. }
  induction text as [|x text IH]; intros i Hl; [by rewrite xor_stream_nil|]. rewrite imap_cons, xor_stream_cons.
  unfold zlen in *. cbn [length] in Hl. rewrite Nat.add_0_r, rfc_key_byte_stream by lia.
  rewrite <- IH by lia. apply (f_equal (cons _)). apply imap_ext. intros j y _. cbn [compose].
  by replace (i + S j)%nat with (S i + j)%nat by lia.
Qed.

Lemma rfc_mac_ok key msg : bytes_ok (rfc_mac key msg) /\ length (rfc_mac key msg) = 16%nat.
Proof. split; [apply le_bytes_ok|apply length_le_bytes]. Qed.

(** The key of the MAC, with the part of block 0 that it does not use. *)
Definition mac_key : bytes := stream_block key_words iv_rest (block_number 0).

Lemma block_number_nonneg c : 0 <= c -> 0 <= block_number c.
Proof. pose proof iv_word_ok as Hw. unfold block_number, word in *. change (2 ^ 32) with 4294967296. lia. Qed.

Lemma length_mac_key : length mac_key = 64%nat.
Proof. destruct key_words_ok, iv_rest_ok. by apply length_stream_block. Qed.

Lemma mac_key_block : ChaCha20_ctr32 (memset0 CHACHA_BLK_SIZE) key_words (0 :: iv_word :: iv_rest) = mac_key.
Proof.
  destruct key_words_ok, iv_rest_ok. rewrite <- block_counter by done.
  apply ChaCha20_ctr32_block; [done..|]. by apply block_number_nonneg.
Qed.

Lemma xor_zeros_take n m : xor_bytes (replicate n 0) m = take n m.
Proof. revert m. induction n as [|n IH]; intros [|x m]; cbn [replicate xor_bytes take]; [done..|]. by rewrite IH. Qed.

Lemma rfc_mac_prefix b msg : rfc_mac (take 32 b) msg = rfc_mac b msg.
Proof. unfold rfc_mac. by rewrite take_take, skipn_firstn_comm, take_take. Qed.

Lemma rfc_mac_key msg : rfc_mac (rfc_chacha20 k 0 iv (memset0 32)) msg = rfc_mac mac_key msg.
Proof.
  rewrite rfc_chacha20_stream by (vm_compute; done). destruct key_words_ok as [Hkw Hkn], iv_rest_ok as [Hrw Hrn].
  rewrite <- xor_block by (done || (unfold memset0; rewrite length_replicate; lia)). rewrite drop_0. fold mac_key.
  unfold memset0. by rewrite xor_zeros_take, rfc_mac_prefix.
Qed.

(** What the MAC has absorbed. *)
Definition mac_at (msg : bytes) (p : POLY1305) : Prop :=
  absorbed (rfc_clamp (le_num (take 16 mac_key))) (Poly1305.nonce (Poly1305_Init mac_key)) msg p.

Lemma mac_at_init : mac_at [] (Poly1305_Init mac_key).
Proof. apply poly_init_absorbed; [apply stream_block_ok|rewrite length_mac_key; lia]. Qed.

Lemma mac_at_update msg p x : mac_at msg p -> bytes_ok x -> mac_at (msg ++ x) (Poly1305_Update p x).
Proof. apply poly_update_absorbed. Qed.

Lemma mac_at_final msg p : mac_at msg p -> Poly1305_Final p = rfc_mac (rfc_chacha20 k 0 iv (memset0 32)) msg.
Proof.
  intros Hm. rewrite rfc_mac_key. destruct (init_nonce mac_key) as [Hn Hv]; [apply stream_block_ok|rewrite length_mac_key; lia|].
  rewrite (poly_final_absorbed _ _ _ _ Hm Hn), Hv. unfold rfc_mac. by rewrite (le_bytes_mod 16).
Qed.
(** ** The phases of a message *)

Context (e : bool) (t : bytes) (tl : Z).

(** What no call but the last one changes. *)
Definition setup (ctx : PROV_CHACHA20_POLY1305_CTX) : Prop :=
  enc ctx = e /\ tag ctx = t /\ tag_len ctx = tl /\ tls_payload_length ctx = NO_TLS_PAYLOAD_LENGTH.

(** After the initialisation; while additional data arrive; while text arrives. *)
Definition ready (ctx : PROV_CHACHA20_POLY1305_CTX) : Prop :=
  key (chacha ctx) = key_words /\ (exists c0, counter (chacha ctx) = c0 :: iv_word :: iv_rest) /\
  mac_inited ctx = false /\ aad ctx = false.

Definition in_aad (a : bytes) (ctx : PROV_CHACHA20_POLY1305_CTX) : Prop :=
  mac_inited ctx = true /\ at_position key_words iv_rest (block_number 1) 0 (chacha ctx) /\
  mac_at a (poly1305 ctx) /\ len_aad ctx = u64 (zlen a) /\ len_text ctx = 0 /\ (aad ctx = true \/ a = []).

Definition in_text (a c : bytes) (ctx : PROV_CHACHA20_POLY1305_CTX) : Prop :=
  mac_inited ctx = true /\ at_position key_words iv_rest (block_number 1) (length c) (chacha ctx) /\
  mac_at (a ++ pad16 a ++ c) (poly1305 ctx) /\ len_aad ctx = u64 (zlen a) /\ len_text ctx = u64 (zlen c) /\ aad ctx = false.

Lemma mac_start_ready ctx : setup ctx -> ready ctx -> setup (mac_start ctx) /\ in_aad [] (mac_start ctx).
Proof.
  intros (He & Ht & Htl & Hno) (Hkey & [c0 Hctr] & Hmac & Haad). unfold mac_start. rewrite Hkey, Hctr. cbn [insert list_insert].
  rewrite mac_key_block. cbn [tls_payload_length set_mac_inited set_lens set_poly set_chacha]. rewrite Hno. cbn [Z.eqb NO_TLS_PAYLOAD_LENGTH Pos.eqb negb].
  split; [by split_and!|]. unfold in_aad. cbn [mac_inited chacha poly1305 len_aad len_text aad set_mac_inited set_lens set_poly set_chacha].
  split_and!; [done| |apply mac_at_init|done|done|by right].
  split; [done|]. exists (block_number 1). cbn [counter partial_len]. rewrite block_counter by done.
  split_and!; [lia|done|lia|lia|lia].
Qed.

Lemma pad_mac_at msg x ctx :
  mac_at msg (poly1305 ctx) ->
  exists p, pad_mac (u64 (zlen x)) ctx = set_poly p ctx /\ mac_at (msg ++ pad16 x) p.
Proof.
  intros Hm. unfold pad_mac, pad16.
  assert (Hr : u64 (zlen x) mod 16 = zlen x mod 16).
  { unfold u64, wrap. change (2 ^ 64) with (16 * 1152921504606846976). rewrite Z.rem_mul_r by lia.
    rewrite (Z.mul_comm 16), Z.mod_add by lia. by apply Z.mod_mod. }
  rewrite Hr. destruct (Z.eqb_spec (zlen x mod 16) 0) as [Hz|Hz].
  - exists (poly1305 ctx). split; [by destruct ctx|]. rewrite Z.mod_opp_l_z by (done || lia). by rewrite app_nil_r.
  - eexists. split; [done|]. rewrite Z.mod_opp_l_nz by (done || lia). apply mac_at_update; [done|].
    apply Forall_replicate. by unfold byte_ok.
Qed.

Lemma wrap_up_in_aad a ctx :
  setup ctx -> in_aad a ctx -> setup (wrap_up_aad ctx) /\ in_text a [] (wrap_up_aad ctx).
Proof.
  intros Hs (Hmac & Hpos & Hm & Hla & Hlt & Ha). unfold wrap_up_aad. destruct (aad ctx) eqn:Eaad.
  - rewrite Hla. destruct (pad_mac_at a a ctx Hm) as (p & -> & Hp). split; [done|].
    unfold in_text. cbn [mac_inited chacha poly1305 len_aad len_text aad set_poly set_aad]. rewrite app_nil_r. by split_and!.
  - destruct Ha as [ | -> ]; [done|]. split; [done|]. split_and!; done.
Qed.

Lemma wrap_up_in_text a c ctx : in_text a c ctx -> wrap_up_aad ctx = ctx.
Proof. intros (_ & _ & _ & _ & _ & Ha). unfold wrap_up_aad. by rewrite Ha. Qed.

(** Text enciphered or deciphered: the cipher text is the output or the input. *)
Definition text_out (i : nat) (x : bytes) : bytes := xor_stream key_words iv_rest (block_number 1) i x.
Definition text_mac (i : nat) (x : bytes) : bytes := if e then text_out i x else x.

Lemma cipher_text_in_text a c ctx x :
  setup ctx -> in_text a c ctx -> bytes_ok x -> zlen x < 2 ^ 32 ->
  exists ctx', cipher_text x ctx = (text_out (length c) x, ctx') /\ setup ctx' /\ in_text a (c ++ text_mac (length c) x) ctx'.
Proof.
  intros Hs (Hmac & Hpos & Hm & Hla & Hlt & Ha) Hx Hz. unfold cipher_text.
  destruct key_words_ok as [Hkw Hkn], iv_rest_ok as [Hrw Hrn].
  pose proof (chacha20_cipher_stream key_words iv_rest Hkn Hrn Hkw Hrw (block_number 1) (length c) (chacha ctx) x
    ltac:(by apply block_number_nonneg) Hpos Hz) as Hc.
  destruct (chacha20_cipher (chacha ctx) x) as [out ch]. destruct Hc as [-> Hpos']. fold (text_out (length c) x).
  eexists. split; [done|]. split; [done|]. destruct Hs as (He & _). unfold in_text.
  cbn [mac_inited chacha poly1305 len_aad len_text aad set_poly set_lens set_chacha].
  assert (Hl : length (text_mac (length c) x) = length x) by (unfold text_mac, text_out; destruct e; [apply length_xor_stream|done]).
  split_and!; [done| | |done| |done].
  - by rewrite length_app, Hl.
  - rewrite He. fold (text_mac (length c) x). rewrite !app_assoc, <- (app_assoc a). apply mac_at_update; [by rewrite app_assoc in *|].
    unfold text_mac, text_out. destruct e; [by apply xor_stream_ok|done].
  - rewrite Hlt, zlen_app. unfold zlen at 4. rewrite Hl. apply Zplus_mod_idemp_l.
Qed.
(** ** The calls *)

Definition before_text (a : bytes) (ctx : PROV_CHACHA20_POLY1305_CTX) : Prop := (ready ctx /\ a = []) \/ in_aad a ctx.
Definition before_end (a c : bytes) (ctx : PROV_CHACHA20_POLY1305_CTX) : Prop := (before_text a ctx /\ c = []) \/ in_text a c ctx.

(** Whatever came before, the MAC is started. *)
Lemma started a ctx :
  setup ctx -> before_text a ctx ->
  let ctx' := if mac_inited ctx then ctx else mac_start ctx in setup ctx' /\ in_aad a ctx'.
Proof.
  intros Hs [[Hr ->]|Ha]; cbn zeta.
  - pose proof Hr as (_ & _ & -> & _). by apply mac_start_ready.
  - pose proof Ha as (-> & _). by split.
Qed.

Lemma no_tls ctx out_null : setup ctx ->
  negb (mac_inited ctx) && negb (tls_payload_length ctx =? NO_TLS_PAYLOAD_LENGTH) && negb out_null = false.
Proof. intros (_ & _ & _ & ->). rewrite Z.eqb_refl. by rewrite andb_false_r. Qed.

Lemma aad_call a ctx x :
  setup ctx -> before_text a ctx -> bytes_ok x ->
  exists ctx' n, chacha20_poly1305_cipher ctx true 0 (zlen x) x = Done (true, n, [], ctx') /\
    setup ctx' /\ before_text (a ++ x) ctx'.
Proof.
  intros Hs Hb Hx. unfold chacha20_poly1305_cipher. destruct (Z.eqb_spec (zlen x) 0) as [Hz|Hz].
  { exists ctx, 0. assert (x = []) as -> by (by destruct x). by rewrite app_nil_r. }
  rewrite Z.ltb_irrefl. unfold chacha20_poly1305_aead_cipher. rewrite no_tls by done. cbn zeta.
  destruct (started a ctx Hs Hb) as [Hs' (Hmac & Hpos & Hm & Hla & Hlt & Ha)].
  set (ctx1 := if mac_inited ctx then ctx else mac_start ctx) in *. eexists _, _. split; [done|]. split; [done|].
  right. unfold in_aad. cbn [mac_inited chacha poly1305 len_aad len_text aad set_poly set_lens set_aad].
  split_and!; try done; [by apply mac_at_update| |by left].
  rewrite Hla, zlen_app. apply Zplus_mod_idemp_l.
Qed.

Lemma text_call a c ctx x :
  setup ctx -> before_end a c ctx -> bytes_ok x -> zlen x < 2 ^ 32 - 1 ->
  exists ctx' n, chacha20_poly1305_cipher ctx false 0 (zlen x) x = Done (true, n, text_out (length c) x, ctx') /\
    setup ctx' /\ before_end a (c ++ text_mac (length c) x) ctx'.
Proof.
  intros Hs Hb Hx Hlen. unfold chacha20_poly1305_cipher. destruct (Z.eqb_spec (zlen x) 0) as [Hz|Hz].
  { exists ctx, 0. assert (x = []) as -> by (by destruct x). unfold text_mac, text_out.
    replace (if e then _ else _) with ([] : bytes) by (by destruct e). by rewrite app_nil_r. }
  rewrite Z.ltb_irrefl. unfold chacha20_poly1305_aead_cipher. rewrite no_tls by done. cbn zeta.
  set (ctx1 := if mac_inited ctx then ctx else mac_start ctx).
  assert (Hw : setup (wrap_up_aad ctx1) /\ in_text a c (wrap_up_aad ctx1)).
  { destruct Hb as [[Hb ->]|Ht].
    - destruct (started a ctx Hs Hb) as [Hs1 Ha1]. by apply wrap_up_in_aad.
    - unfold ctx1. pose proof Ht as (-> & _). by rewrite (wrap_up_in_text _ _ _ Ht). }
  destruct Hw as [Hsw Htw]. rewrite (proj2 (proj2 (proj2 Hs))), Z.eqb_refl.
  assert (Hid : set_tls_len NO_TLS_PAYLOAD_LENGTH (wrap_up_aad ctx1) = wrap_up_aad ctx1).
  { destruct Hsw as (_ & _ & _ & Hno). destruct (wrap_up_aad ctx1). cbn in Hno. by subst. }
  rewrite Hid. destruct (cipher_text_in_text a c (wrap_up_aad ctx1) x Hsw Htw Hx ltac:(lia)) as (ctx' & -> & Hs' & Ht').
  unfold aead_end. rewrite Z.eqb_refl. exists ctx', (zlen x). split; [done|]. split; [done|]. by right.
Qed.

(** The end of the message. *)
Lemma mac_finish_tag a c ctx :
  setup ctx -> in_text a c (wrap_up_aad ctx) -> bytes_ok a -> bytes_ok c ->
  exists ctx', mac_finish ctx = (rfc_tag_of k iv a c, ctx') /\ enc ctx' = e /\ tag ctx' = (if e then rfc_tag_of k iv a c else t) /\
    tag_len ctx' = tl.
Proof.
  intros Hs (_ & _ & Hm & Hla & Hlt & _) Ha Hc. unfold mac_finish.
  assert (Hsw : setup (wrap_up_aad ctx)).
  { unfold wrap_up_aad, pad_mac. destruct (aad ctx); [|done]. by destruct (negb _). }
  set (ctx1 := wrap_up_aad ctx) in *. clearbody ctx1. rewrite Hlt. destruct (pad_mac_at _ c ctx1 Hm) as (p & -> & Hp).
  cbn [poly1305 set_poly len_bytes len_aad len_text enc]. unfold len_bytes. cbn [len_aad len_text set_poly]. rewrite Hla, Hlt.
  assert (Hu : forall x, le_bytes 8 (u64 x) = le_bytes 8 x) by apply (le_bytes_mod 8).
  rewrite !Hu. assert (Htag : Poly1305_Final (Poly1305_Update p (le_bytes 8 (zlen a) ++ le_bytes 8 (zlen c))) = rfc_tag_of k iv a c).
  { unfold rfc_tag_of, rfc_mac_data. apply mac_at_final.
    replace (a ++ pad16 a ++ c ++ pad16 c ++ le_bytes 8 (zlen a) ++ le_bytes 8 (zlen c)) with
      (((a ++ pad16 a ++ c) ++ pad16 c) ++ le_bytes 8 (zlen a) ++ le_bytes 8 (zlen c)) by (by rewrite <- !app_assoc).
    apply mac_at_update; [done|]. apply Forall_app. split; apply le_bytes_ok. }
  rewrite Htag. eexists. split; [done|]. destruct Hsw as (He & Ht & Htl & _). rewrite He.
  destruct e; by split_and!.
Qed.

Lemma wrap_up_before_end a c ctx :
  setup ctx -> before_end a c ctx ->
  let ctx' := if mac_inited ctx then ctx else mac_start ctx in setup ctx' /\ in_text a c (wrap_up_aad ctx').
Proof.
  intros Hs [[Hb ->]|Ht]; cbn zeta.
  - destruct (started a ctx Hs Hb) as [Hs1 Ha1]. split; [done|]. by apply wrap_up_in_aad.
  - pose proof Ht as (-> & _). by rewrite (wrap_up_in_text _ _ _ Ht).
Qed.
Lemma final_call a c ctx :
  setup ctx -> before_end a c ctx -> bytes_ok a -> bytes_ok c -> bytes_ok t -> length t = 16%nat -> 0 <= tl <= 16 ->
  exists ctx', chacha20_poly1305_final ctx false 0 =
      Done (e || bool_decide (take (Z.to_nat tl) (rfc_tag_of k iv a c) = take (Z.to_nat tl) t), 0, [], ctx') /\
    enc ctx' = e /\ tag ctx' = (if e then rfc_tag_of k iv a c else t) /\ tag_len ctx' = tl.
Proof.
  intros Hs Hb Ha Hc Ht Htlen Htl. unfold chacha20_poly1305_final, chacha20_poly1305_aead_cipher. rewrite no_tls by done.
  cbn zeta. destruct (wrap_up_before_end a c ctx Hs Hb) as [Hs1 Ht1].
  set (ctx1 := if mac_inited ctx then ctx else mac_start ctx) in *. clearbody ctx1. unfold aead_end.
  destruct (mac_finish_tag a c ctx1 Hs1 Ht1 Ha Hc) as (ctx' & -> & He & Htag & Htl'). rewrite He.
  pose proof (rfc_mac_ok (rfc_chacha20 k 0 iv (memset0 32)) (rfc_mac_data a c)) as [Hmok Hml].
  fold (rfc_tag_of k iv a c) in Hmok, Hml. set (m := rfc_tag_of k iv a c) in *. clearbody m.
  assert (Ee : e = true \/ e = false) by (destruct e; tauto).
  destruct Ee as [-> | ->].
  - exists ctx'. by split_and!.
  - rewrite Htag, Htl'. set (n := Z.to_nat tl).
    destruct (memcmp_spec (take n m) (drop n m) (take n t) (drop n t) tl) as (x & Hx & Heq);
      [by apply Forall_take|by apply Forall_take|unfold zlen; rewrite length_take; lia|unfold zlen; rewrite length_take; lia|].
    rewrite !take_drop in Hx. rewrite Hx. cbn [mbind outcome_bind]. exists ctx'. split; [|by split_and!].
    cbn [orb]. assert (Hbx : (x =? 0) = bool_decide (take n m = take n t)).
    { apply Bool.eq_iff_eq_true. by rewrite bool_decide_eq_true, Z.eqb_eq. }
    rewrite Hbx. by destruct (bool_decide _).
Qed.
(** ** Sequences of calls *)

Lemma text_mac_app i x y : text_mac i (x ++ y) = text_mac i x ++ text_mac (i + length x) y.
Proof. unfold text_mac, text_out. destruct e; [apply xor_stream_app|done]. Qed.

Lemma length_text_mac i x : length (text_mac i x) = length x.
Proof. unfold text_mac, text_out. destruct e; [apply length_xor_stream|done]. Qed.

Lemma aad_calls xs a ctx :
  setup ctx -> before_text a ctx -> Forall bytes_ok xs ->
  exists ctx', update_calls true ctx xs = Done (true, [], ctx') /\ setup ctx' /\ before_text (a ++ concat xs) ctx'.
Proof.
  intros Hs Hb Hxs. revert a ctx Hs Hb. induction Hxs as [|x xs Hx _ IH]; intros a ctx Hs Hb; cbn [update_calls concat].
  { exists ctx. by rewrite app_nil_r. }
  destruct (aad_call a ctx x Hs Hb Hx) as (ctx1 & n & -> & Hs1 & Hb1). cbn [mbind outcome_bind negb].
  destruct (IH _ _ Hs1 Hb1) as (ctx' & -> & Hs' & Hb'). cbn [outcome_bind]. exists ctx'. by rewrite app_assoc.
Qed.

Lemma text_calls xs a c ctx :
  setup ctx -> before_end a c ctx -> Forall bytes_ok xs -> Forall (fun x => zlen x < 2 ^ 32 - 1) xs ->
  exists ctx', update_calls false ctx xs = Done (true, text_out (length c) (concat xs), ctx') /\ setup ctx' /\
    before_end a (c ++ text_mac (length c) (concat xs)) ctx'.
Proof.
  intros Hs Hb Hxs Hlen. revert c ctx Hs Hb Hlen. induction Hxs as [|x xs Hx _ IH]; intros c ctx Hs Hb Hlen; cbn [update_calls concat].
  { exists ctx. unfold text_mac, text_out. rewrite xor_stream_nil. replace (if e then _ else _) with ([] : bytes) by (by destruct e).
    by rewrite app_nil_r. }
  apply Forall_cons in Hlen as [Hlx Hlen].
  destruct (text_call a c ctx x Hs Hb Hx Hlx) as (ctx1 & n & -> & Hs1 & Hb1). cbn [mbind outcome_bind negb].
  destruct (IH _ _ Hs1 Hb1 Hlen) as (ctx' & -> & Hs' & Hb'). cbn [outcome_bind].
  rewrite length_app, length_text_mac in *. exists ctx'. rewrite text_mac_app, app_assoc. split; [|by split].
  unfold text_out. by rewrite xor_stream_app.
Qed.

Lemma message_calls aads texts ctx :
  setup ctx -> ready ctx -> Forall bytes_ok aads -> Forall bytes_ok texts -> Forall (fun x => zlen x < 2 ^ 32 - 1) texts ->
  bytes_ok t -> length t = 16%nat -> 0 <= tl <= 16 -> zlen (concat texts) <= 64 * (2 ^ 32 - 1) ->
  let out := rfc_chacha20 k 1 iv (concat texts) in
  let m := rfc_tag_of k iv (concat aads) (if e then out else concat texts) in
  exists ctx', message_updates ctx aads texts =
      Done (e || bool_decide (take (Z.to_nat tl) m = take (Z.to_nat tl) t), out, ctx') /\
    enc ctx' = e /\ tag ctx' = (if e then m else t) /\ tag_len ctx' = tl /\ length m = 16%nat /\ bytes_ok m.
Proof.
  intros Hs Hr Haok Hxok Hlen Ht Htlen Htl Hmax. cbn zeta. rewrite rfc_chacha20_stream by lia. fold (text_out 0 (concat texts)).
  change (if e then text_out 0 (concat texts) else concat texts) with (text_mac 0 (concat texts)).
  destruct (aad_calls aads [] ctx Hs ltac:(by left) Haok) as (ctx1 & Hc1 & Hs1 & Hb1). cbn [app] in Hb1.
  destruct (text_calls texts (concat aads) [] ctx1 Hs1 ltac:(by left) Hxok Hlen) as (ctx2 & Hc2 & Hs2 & Hb2). cbn [app length] in *.
  assert (Htok : bytes_ok (text_mac 0 (concat texts))).
  { unfold text_mac, text_out. destruct e; [apply xor_stream_ok|]; by apply Forall_concat. }
  destruct (final_call _ _ ctx2 Hs2 Hb2 ltac:(by apply Forall_concat) Htok Ht Htlen Htl) as (ctx' & Hf & He & Htag & Htl').
  unfold message_updates. rewrite Hc1. cbn [mbind outcome_bind]. rewrite Hc2. cbn [mbind outcome_bind].
  rewrite Hf. cbn [mbind outcome_bind andb].
  exists ctx'. do 4 (split; [done|]). unfold rfc_tag_of.
  pose proof (rfc_mac_ok (rfc_chacha20 k 0 iv (memset0 32)) (rfc_mac_data (concat aads) (text_mac 0 (concat texts)))) as [H1 H2]. by split.
Qed.

(** ** A TLS record *)

(** What the two ways to process a record have in common. *)
Definition record_done (a text : bytes) (ctx : PROV_CHACHA20_POLY1305_CTX) (r : outcome (bytes * scratch * PROV_CHACHA20_POLY1305_CTX)) : Prop :=
  let c := text_mac 0 text in
  exists out sc tohash ctx', r = Done (out, sc, ctx') /\ scratch_holds tohash sc /\
  out = text_out 0 text /\ enc ctx' = e /\ tag ctx' = tag ctx /\ tag_len ctx' = tag_len ctx /\ tls_aad ctx' = tls_aad ctx /\
  forall l, bytes_ok l ->
    Poly1305_Final (Poly1305_Update (poly1305 ctx') (tohash ++ l)) =
    rfc_mac (rfc_chacha20 k 0 iv (memset0 32)) (a ++ pad16 a ++ c ++ pad16 c ++ l).

Definition record_start (a : bytes) (ctx : PROV_CHACHA20_POLY1305_CTX) : Prop :=
  enc ctx = e /\ key (chacha ctx) = key_words /\ (exists c0, counter (chacha ctx) = c0 :: iv_word :: iv_rest) /\
  tls_aad ctx = a ++ pad16 a /\ bytes_ok a.

Lemma text_mac_ok i x : bytes_ok x -> bytes_ok (text_mac i x).
Proof. intros Hx. unfold text_mac, text_out. destruct e; [by apply xor_stream_ok|done]. Qed.

Lemma block_mod c : word c -> block_number c mod 2 ^ 32 = c.
Proof. intros Hc. pose proof (block_counter c Hc) as H. by injection H. Qed.

(** Two blocks of the stream: the key of the MAC and the front of the stream. *)
Lemma two_blocks :
  let buf := ChaCha20_ctr32 (memset0 128) key_words (0 :: iv_word :: iv_rest) in
  take 64 buf = mac_key /\ drop 64 buf = stream_block key_words iv_rest (block_number 1).
Proof.
  cbn zeta. destruct key_words_ok as [Hkw Hkn], iv_rest_ok as [Hrw Hrn]. rewrite <- (block_counter 0) by done.
  rewrite ChaCha20_ctr32_stream by
    (first [done|by apply block_number_nonneg|rewrite block_mod by done; vm_compute; discriminate]).
  change (memset0 128) with (memset0 64 ++ memset0 64). rewrite xor_stream_app.
  replace (0 + length (memset0 64))%nat with (64 * 1 + 0)%nat by reflexivity. rewrite xor_stream_shift.
  replace (block_number 0 + Z.of_nat 1) with (block_number 1) by (unfold block_number; lia).
  rewrite <- !xor_block by (done || (unfold memset0; rewrite length_replicate; lia)). rewrite !drop_0. unfold memset0.
  rewrite !xor_zeros_take.
  assert (Hl : forall c, length (stream_block key_words iv_rest c) = 64%nat) by (intros c; by apply length_stream_block).
  rewrite !(take_ge (stream_block _ _ _)) by (rewrite Hl; lia).
  split; [by apply take_app_length'|by apply drop_app_length'].
Qed.

Lemma tls_short_done a text rest ctx :
  record_start a ctx -> length a = 13%nat -> bytes_ok text -> (length text <= 64)%nat ->
  record_done a text ctx (tls_short (text ++ rest) (length text) ctx).
Proof.
  intros (He & Hkey & [c0 Hctr] & Haad & Ha) Hla Hx Hl. pose proof (tls_short_scratch (text ++ rest) (length text) ctx) as Hs.
  cbn zeta in Hs. rewrite Hkey, Hctr in Hs. cbn [insert list_insert] in Hs.
  rewrite take_app_length in Hs. destruct two_blocks as [Hb0 Hb1]. set (buf := ChaCha20_ctr32 _ _ _) in *.
  destruct key_words_ok as [Hkw Hkn], iv_rest_ok as [Hrw Hrn].
  rewrite Hb1 in Hs. pose proof (xor_block key_words iv_rest Hkn Hrn Hkw Hrw (block_number 1) 0 text ltac:(lia)) as Hout. rewrite drop_0 in Hout.
  rewrite Hout in Hs. fold (text_out 0 text) in Hs. rewrite He, Haad in Hs. fold (text_mac 0 text) in Hs.
  clearbody buf. pose proof length_mac_key as Hlk. pose proof (take_drop 64 buf) as Hbuf. rewrite Hb0, Hb1 in Hbuf.
  destruct Hs as (sc & Hs & Hsc).
  { rewrite <- Hbuf, length_app, Hlk. by rewrite length_stream_block. }
  { rewrite length_app, pad16_nat, length_zeros, Hla. reflexivity. }
  { exact Hl. }
  { rewrite length_app. lia. }
  eexists _, sc, _, _. split; [exact Hs|]. split; [exact Hsc|].
  cbn [enc tag tag_len tls_aad poly1305 set_poly set_chacha]. do 5 (split; [done|]).
  intros l Hlok. rewrite rfc_mac_key, <- (length_text_mac 0 text), <- pad16_nat.
  assert (Hpad : forall x, bytes_ok (pad16 x)) by (intros x; apply memset0_ok).
  rewrite mac_of.
  - rewrite <- !app_assoc, <- (rfc_mac_prefix buf), <- (rfc_mac_prefix mac_key), <- Hbuf. by rewrite take_app_le by lia.
  - rewrite <- Hbuf. apply Forall_app. split; apply stream_block_ok.
  - rewrite <- Hbuf, length_app. lia.
  - apply Forall_app. split; [apply Forall_app; split|exact Hlok].
    + apply Forall_app. split; [exact Ha|apply Hpad].
    + apply Forall_app. split; [apply text_mac_ok; exact Hx|apply Hpad].
Qed.

Lemma tls_long_done a text rest ctx :
  record_start a ctx -> bytes_ok text -> zlen text < 65536 ->
  record_done a text ctx (tls_long (text ++ rest) (length text) ctx).
Proof.
  intros (He & Hkey & [c0 Hctr] & Haad & Ha) Hx Hl. pose proof (tls_long_scratch (text ++ rest) (length text) ctx) as Hs.
  cbn zeta in Hs. rewrite Hkey, Hctr, Haad in Hs. cbn [insert list_insert] in Hs.
  rewrite take_app_length in Hs. destruct key_words_ok as [Hkw Hkn], iv_rest_ok as [Hrw Hrn].
  change (memset0 64) with (memset0 CHACHA_BLK_SIZE) in Hs. rewrite mac_key_block, <- (block_counter 1) in Hs by done.
  rewrite ChaCha20_ctr32_stream in Hs by (try done; try (by apply block_number_nonneg); rewrite block_mod by done; lia).
  fold (text_out 0 text) in Hs. rewrite He in Hs. fold (text_mac 0 text) in Hs. destruct (Hs length_mac_key) as (sc & Hs' & Hsc).
  eexists _, sc, _, _. split; [exact Hs'|]. split; [exact Hsc|].
  cbn [enc tag tag_len tls_aad poly1305 set_poly set_chacha app]. do 5 (split; [done|]).
  intros l Hlok. rewrite <- (length_text_mac 0 text), <- pad16_nat.
  assert (Hpad : forall x, bytes_ok (pad16 x)) by (intros x; apply memset0_ok).
  pose proof (mac_at_update _ _ (a ++ pad16 a) mac_at_init ltac:(apply Forall_app; split; [exact Ha|apply Hpad])) as H1.
  apply (mac_at_update _ _ (text_mac 0 text)) in H1; [|apply text_mac_ok; exact Hx].
  apply (mac_at_update _ _ (pad16 (text_mac 0 text))) in H1; [|apply Hpad]. apply (mac_at_update _ _ l) in H1; [|exact Hlok].
  rewrite (mac_at_final _ _ H1). by rewrite <- !app_assoc.
Qed.

Lemma tls_cipher_record a text rest ctx outl :
  record_start a ctx -> length a = 13%nat -> bytes_ok text -> zlen text < 65536 -> tls_payload_length ctx = zlen text ->
  bytes_ok rest -> length rest = 16%nat ->
  let m := rfc_tag_of k iv a (text_mac 0 text) in
  exists n ctx', chacha20_poly1305_tls_cipher ctx outl (text ++ rest) =
    (if e then Done (true, n, text_out 0 text ++ m, ctx')
     else if bool_decide (m = rest) then Done (true, n, text_out 0 text, ctx')
     else Done (false, n, memset0 (length text), ctx')).
Proof.
  intros Hst Hla Hx Hz Hpl Hrest Hrl. cbn zeta.
  assert (Hzn : Z.to_nat (zlen text) = length text) by (unfold zlen; lia).
  assert (Hd : record_done a text ctx (if (length text <=? CHACHA_BLK_SIZE)%nat then tls_short (text ++ rest) (length text) ctx
    else tls_long (text ++ rest) (length text) ctx)).
  { destruct (Nat.leb_spec (length text) CHACHA_BLK_SIZE); [by apply tls_short_done|by apply tls_long_done]. }
  destruct Hd as (out & sc & tohash & ctx1 & Hr & Hsc & -> & He & Ht & Htl & Haad & Hmac).
  rewrite <- Hzn, <- Hpl in Hr. rewrite (tls_cipher_ends _ outl _ _ _ _ _ Hr Hsc). rewrite Hpl, !Hzn.
  cbn [poly1305 set_lens]. unfold len_bytes. cbn [len_aad len_text set_lens].
  rewrite Hmac by (apply Forall_app; split; apply le_bytes_ok).
  assert (Hm : rfc_mac (rfc_chacha20 k 0 iv (memset0 32)) (a ++ pad16 a ++ text_mac 0 text ++ pad16 (text_mac 0 text) ++
    le_bytes 8 EVP_AEAD_TLS1_AAD_LEN ++ le_bytes 8 (Z.of_nat (length text))) = rfc_tag_of k iv a (text_mac 0 text)).
  { unfold rfc_tag_of, rfc_mac_data, zlen. by rewrite Hla, length_text_mac. }
  rewrite Hm. pose proof (rfc_mac_ok (rfc_chacha20 k 0 iv (memset0 32)) (rfc_mac_data a (text_mac 0 text))) as [Hmok Hml].
  fold (rfc_tag_of k iv a (text_mac 0 text)) in Hmok, Hml. set (m := rfc_tag_of k iv a (text_mac 0 text)) in *. clearbody m.
  cbn [enc set_tls_len set_poly set_lens]. rewrite He. destruct e; [by eexists _, _|].
  rewrite drop_app_length. destruct (memcmp_whole m rest 16) as (x & -> & Heq); [done|done|unfold zlen; lia|unfold zlen; lia|].
  cbn [mbind outcome_bind]. destruct (Z.eqb_spec x 0) as [Hx0|Hx0]; cbn [negb].
  - rewrite bool_decide_eq_true_2 by (by apply Heq). by eexists _, _.
  - rewrite bool_decide_eq_false_2 by (by intros Hc%Heq). eexists _, _.
    assert (Hlen : zlen (text ++ rest) = zlen text + 16) by (rewrite zlen_app; unfold zlen; lia). rewrite Hlen, Z.add_simpl_r, Hzn.
    assert (Hout : drop (length text) (text_out 0 text) = []) by (apply drop_ge; unfold text_out; rewrite length_xor_stream; lia).
    rewrite Hout, app_nil_r. destruct (Z.ltb_spec 16 (zlen text + 16)) as [Hlt|Hlt]; [reflexivity|].
    assert (text = []) as -> by (apply nil_length_inv; unfold zlen in Hlt; lia). unfold text_out. rewrite xor_stream_nil. reflexivity.
Qed.
End message.

(** ** Whole messages *)

(** The tag of a context, whatever the context was used for before. *)
Definition tag_ok (ctx : PROV_CHACHA20_POLY1305_CTX) : Prop :=
  bytes_ok (tag ctx) /\ length (tag ctx) = 16%nat /\ 0 <= tag_len ctx <= 16.

Lemma newctx_ok : tag_ok chacha20_poly1305_newctx.
Proof. split_and!; [apply memset0_ok|done|cbn; lia|cbn; lia]. Qed.

Lemma init_counter iv rest : bytes_ok iv -> length iv = 12%nat ->
  load_words CHACHA_CTR_SIZE (memset0 4 ++ take 12 (iv ++ rest)) = 0 :: iv_word iv :: iv_rest iv.
Proof.
  intros Hiv Hl. rewrite take_app_le, take_ge by lia. rewrite (load_words_le 4); [|apply Forall_app; split; [apply memset0_ok|done]|].
  2: { rewrite length_app. unfold memset0. rewrite length_replicate. lia. }
  unfold le_words, iv_word, iv_rest. cbn [seq map Nat.mul Nat.add drop app memset0 replicate].
  by rewrite drop_0.
Qed.

Lemma init_ready e ctx k iv :
  bytes_ok k -> length k = 32%nat -> bytes_ok iv -> length iv = 12%nat ->
  exists ctx', chacha20_poly1305_init e ctx (Some k) (Some iv) = (true, ctx') /\ ready k iv ctx' /\
    setup e (tag ctx) (tag_len ctx) ctx' /\ nonce ctx' = iv_word iv :: iv_rest iv.
Proof.
  intros Hk Hkl Hiv Hivl. unfold chacha20_poly1305_init, zlen. rewrite Hivl. cbn [Z.eqb negb].
  rewrite Hkl. unfold chacha20_poly1305_initkey, ossl_chacha20_init, zlen. rewrite Hkl. change (Z.of_nat 32 =? 32) with true.
  change (Z.of_nat 12 =? CHACHA20_POLY1305_IVLEN) with true. change (Z.of_nat 32 =? CHACHA20_POLY1305_KEYLEN) with true.
  cbn [negb]. unfold chacha20_poly1305_initiv, ossl_chacha20_init, reset_fields.
  cbn [oiv set_tls_len set_mac_inited set_aad set_lens set_chacha set_oiv set_enc chacha].
  assert (Hz : zlen (memset0 4 ++ take 12 (iv ++ drop 12 (oiv ctx))) =? 16 = true).
  { rewrite take_app_le, take_ge by lia. unfold zlen. by rewrite length_app, Hivl. }
  rewrite Hz. cbn [negb snd]. eexists. split; [done|]. unfold chacha20_initiv, chacha20_initkey. rewrite init_counter by done.
  split; [|split; done]. split; [by apply (load_words_le 8)|]. split; [|done]. by eexists.
Qed.

Lemma set_tag_ready ctx k iv e (t old : bytes) tl :
  ready k iv ctx -> setup e old tl ctx -> e = false -> 0 < zlen t <= 16 ->
  exists ctx', set_ctx_tag ctx (Some t) (zlen t) = (true, ctx') /\ ready k iv ctx' /\
    setup e (t ++ drop (length t) old) (zlen t) ctx'.
Proof.
  intros Hr (He & Ht & Htl & Hno) -> Hz. unfold set_ctx_tag. destruct (Z.eqb_spec (zlen t) 0); [lia|].
  destruct (Z.ltb_spec 16 (zlen t)); [lia|]. cbn [orb]. rewrite He. eexists. split; [done|]. split; [done|].
  unfold setup. cbn [enc tag tag_len tls_payload_length set_tag set_tag_len]. rewrite Ht. unfold zlen. rewrite Nat2Z.id, take_ge by lia.
  by split_and!.
Qed.

(** The data of a message that the standard allows and that fit in the calls. *)
Definition message_ok (k iv : bytes) (aads texts : list bytes) : Prop :=
  bytes_ok k /\ length k = 32%nat /\ bytes_ok iv /\ length iv = 12%nat /\ Forall bytes_ok aads /\ Forall bytes_ok texts /\
  Forall (fun x => zlen x < 2 ^ 32 - 1) texts /\ zlen (concat texts) <= 64 * (2 ^ 32 - 1).

Lemma message_ok_calls e ctx k iv t tl aads texts :
  message_ok k iv aads texts -> bytes_ok t -> length t = 16%nat -> 0 <= tl <= 16 -> setup e t tl ctx -> ready k iv ctx ->
  let out := rfc_chacha20 k 1 iv (concat texts) in
  let m := rfc_tag_of k iv (concat aads) (if e then out else concat texts) in
  exists ctx', message_updates ctx aads texts =
      Done (e || bool_decide (take (Z.to_nat tl) m = take (Z.to_nat tl) t), out, ctx') /\
    enc ctx' = e /\ tag ctx' = (if e then m else t) /\ tag_len ctx' = tl /\ length m = 16%nat /\ bytes_ok m.
Proof. intros (Hk & Hkl & Hiv & Hivl & Haok & Hxok & Hlen & Hmax) Ht Htl Htn Hs Hr. by apply message_calls. Qed.

Lemma message_encrypts ctx k iv aads texts :
  tag_ok ctx -> message_ok k iv aads texts ->
  let c := rfc_chacha20 k 1 iv (concat texts) in
  exists ctx', message true ctx k iv None aads texts = Done (true, c, ctx') /\ tag_ok ctx' /\
    enc ctx' = true /\ tag ctx' = rfc_tag_of k iv (concat aads) c.
Proof.
  intros (Hto & Htl & Htn) Hok. cbn zeta. unfold message. pose proof Hok as (Hk & Hkl & Hiv & Hivl & _).
  destruct (init_ready true ctx k iv) as (ctx1 & -> & Hr & Hs & _); [done..|]. cbn [negb].
  destruct (message_ok_calls _ ctx1 _ _ _ _ aads texts Hok Hto Htl Htn Hs Hr) as (ctx' & Hm & He & Htag & Htl' & Hml & Hmok).
  exists ctx'. split; [exact Hm|]. unfold tag_ok. rewrite Htag, Htl'. split; [split; [exact Hmok|split; [exact Hml|exact Htn]]|by split].
Qed.

Lemma message_decrypts ctx k iv t aads texts :
  tag_ok ctx -> message_ok k iv aads texts -> bytes_ok t -> 0 < zlen t <= 16 ->
  let m := rfc_tag_of k iv (concat aads) (concat texts) in
  exists ctx', message false ctx k iv (Some t) aads texts =
    Done (bool_decide (take (length t) m = t), rfc_chacha20 k 1 iv (concat texts), ctx') /\ tag_ok ctx'.
Proof.
  intros (Hto & Htol & Htn) Hok Ht Hz. cbn zeta. unfold message. pose proof Hok as (Hk & Hkl & Hiv & Hivl & _).
  destruct (init_ready false ctx k iv) as (ctx1 & -> & Hr & Hs & _); [done..|]. cbn [negb].
  destruct (set_tag_ready _ _ _ _ t _ _ Hr Hs eq_refl Hz) as (ctx2 & -> & Hr2 & Hs2). cbn [negb].
  assert (Hzn : 0 <= zlen t <= 16) by lia.
  assert (Hto' : bytes_ok (t ++ drop (length t) (tag ctx))) by (apply Forall_app; split; [exact Ht|by apply Forall_drop]).
  assert (Htl' : length (t ++ drop (length t) (tag ctx)) = 16%nat) by (rewrite length_app, length_drop; unfold zlen in Hz; lia).
  destruct (message_ok_calls _ ctx2 _ _ _ _ aads texts Hok Hto' Htl' Hzn Hs2 Hr2) as (ctx' & Hm & He & Htag & Hn & _).
  exists ctx'. split.
  - rewrite Hm. unfold zlen. by rewrite Nat2Z.id, take_app_length.
  - unfold tag_ok. rewrite Htag, Hn. split; [exact Hto'|]. split; [exact Htl'|lia].
Qed.

Lemma get_tag_front ctx n : enc ctx = true -> 0 < n <= 16 -> get_ctx_tag ctx n = Some (take (Z.to_nat n) (tag ctx)).
Proof. intros He Hn. unfold get_ctx_tag. rewrite He. destruct (Z.eqb_spec n 0); [lia|]. by destruct (Z.ltb_spec 16 n); [lia|]. Qed.

(** C32: Enciphering with ChaCha20-Poly1305 is the AEAD of RFC 8439: with a key of 32
    and an initial value of 12 bytes, whatever the context was used for before and
    however the additional data and the text are cut into calls, the bytes written
    are the text combined with the key stream from block 1 on, and the tag that can
    be read afterwards is the front of the Poly1305 value - under the key of block 0 -
    of the padded data, the padded cipher text and the two lengths. *)
Theorem aead_encrypt_standard ctx k iv aads texts n :
  tag_ok ctx -> message_ok k iv aads texts -> 0 < n <= 16 ->
  let c := rfc_chacha20 k 1 iv (concat texts) in
  exists ctx', message true ctx k iv None aads texts = Done (true, c, ctx') /\ tag_ok ctx' /\
    get_ctx_tag ctx' n = Some (take (Z.to_nat n) (rfc_tag_of k iv (concat aads) c)).
Proof.
  intros Hto Hok Hn. cbn zeta. destruct (message_encrypts ctx k iv aads texts Hto Hok) as (ctx' & Hm & Hto' & He & Htag).
  exists ctx'. split; [exact Hm|]. split; [exact Hto'|]. by rewrite get_tag_front, Htag.
Qed.

(** The standard by whole blocks, to evaluate it. *)
Lemma rfc_chacha20_blocks k iv text :
  bytes_ok k -> length k = 32%nat -> bytes_ok iv -> length iv = 12%nat -> zlen text <= 64 * 4294967295 ->
  rfc_chacha20 k 1 iv text = ChaCha20_ctr32 text (key_words k) (1 :: iv_word iv :: iv_rest iv).
Proof.
  intros Hk Hkl Hiv Hivl Hl. destruct (key_words_ok k Hk) as [Hkw Hkn], (iv_rest_ok iv Hiv) as [Hrw Hrn].
  assert (H1 : word 1) by (unfold word; lia). rewrite (rfc_chacha20_stream k iv) by (assumption || lia).
  rewrite <- (block_counter k iv) by assumption. symmetry. apply ChaCha20_ctr32_stream; try assumption.
  - apply (block_number_nonneg k iv); (assumption || lia).
  - rewrite (block_mod k iv) by assumption. change (2 ^ 32) with 4294967296. lia.
Qed.

Lemma rfc_tag_block k iv a c :
  bytes_ok k -> length k = 32%nat -> bytes_ok iv -> length iv = 12%nat ->
  rfc_tag_of k iv a c = rfc_mac (ChaCha20_ctr32 (memset0 CHACHA_BLK_SIZE) (key_words k) (0 :: iv_word iv :: iv_rest iv)) (rfc_mac_data a c).
Proof. intros. unfold rfc_tag_of. rewrite rfc_mac_key, mac_key_block by assumption. reflexivity. Qed.

Lemma aead_params : bytes_ok aead_key /\ length aead_key = 32%nat /\ bytes_ok aead_iv /\ length aead_iv = 12%nat.
Proof. split_and!; first [reflexivity|apply bytes_ok_checked; vm_compute; reflexivity]. Qed.

(** The vector of the standard. *)
Lemma aead_vector : rfc_chacha20 aead_key 1 aead_iv sunscreen = aead_sealed /\ rfc_tag_of aead_key aead_iv aead_aad aead_sealed = aead_tag.
Proof.
  destruct aead_params as (Hk & Hkl & Hiv & Hivl). rewrite rfc_chacha20_blocks by (assumption || (vm_compute; discriminate)).
  rewrite rfc_tag_block by assumption. split; vm_compute; reflexivity.
Qed.

Definition aead_aads : list bytes := [take 5 aead_aad; []; drop 5 aead_aad].
Definition aead_texts : list bytes := [take 70 sunscreen; drop 70 sunscreen].

Lemma list_bytes_ok_checked (xs : list bytes) :
  forallb (fun x => forallb (fun b => (0 <=? b) && (b <? 256)) x && (zlen x <? 4294967295)) xs = true ->
  Forall bytes_ok xs /\ Forall (fun x => zlen x < 2 ^ 32 - 1) xs.
Proof.
  intros H. rewrite forallb_forall in H. split; apply Forall_forall; intros x Hx%list_elem_of_In;
    apply H, andb_prop in Hx as [H1 H2].
  - rewrite forallb_forall in H1. apply Forall_forall. intros b Hb%list_elem_of_In. apply H1 in Hb. unfold byte_ok. lia.
  - apply Z.ltb_lt in H2. exact H2.
Qed.

Lemma message_ok_aead xs :
  forallb (fun x => forallb (fun b => (0 <=? b) && (b <? 256)) x && (zlen x <? 4294967295)) xs = true ->
  zlen (concat xs) <= 64 * 4294967295 -> message_ok aead_key aead_iv aead_aads xs.
Proof.
  intros Hxs Hmax. apply list_bytes_ok_checked in Hxs as [H1 H2].
  split; [apply bytes_ok_checked; vm_compute; reflexivity|]. split; [reflexivity|].
  split; [apply bytes_ok_checked; vm_compute; reflexivity|]. split; [reflexivity|].
  split; [apply list_bytes_ok_checked; vm_compute; reflexivity|]. split; [exact H1|]. split; [exact H2|exact Hmax].
Qed.

Lemma concat_one (b : bytes) : concat [b] = b.
Proof. apply app_nil_r. Qed.

Lemma aead_calls_concat : concat aead_texts = sunscreen /\ concat aead_aads = aead_aad.
Proof. split; vm_compute; reflexivity. Qed.

Lemma aead_texts_ok : message_ok aead_key aead_iv aead_aads aead_texts.
Proof. apply message_ok_aead; vm_compute; [reflexivity|discriminate]. Qed.

Lemma aead_sealed_ok : message_ok aead_key aead_iv aead_aads [aead_sealed].
Proof. apply message_ok_aead; vm_compute; [reflexivity|discriminate]. Qed.

Lemma aead_encrypt_standard_witness :
  exists ctx', message true chacha20_poly1305_newctx aead_key aead_iv None aead_aads aead_texts =
      Done (true, aead_sealed, ctx') /\ tag_ok ctx' /\ get_ctx_tag ctx' 4 = Some [0x1a; 0xe1; 0x0b; 0x59].
Proof.
  destruct (aead_encrypt_standard chacha20_poly1305_newctx aead_key aead_iv aead_aads aead_texts 4) as (ctx' & Hm & Hok & Ht).
  - exact newctx_ok.
  - exact aead_texts_ok.
  - lia.
  - destruct aead_calls_concat as [Ec Ea], aead_vector as [Es Et]. rewrite Ec, Es in Hm. rewrite Ec, Es, Ea, Et in Ht.
    exists ctx'. split; [exact Hm|]. split; [exact Hok|exact Ht].
Defined.

Lemma rfc_chacha20_cancel k c iv text : rfc_chacha20 k c iv (rfc_chacha20 k c iv text) = text.
Proof.
  apply list_eq. intros i. unfold rfc_chacha20. rewrite !list_lookup_imap. destruct (text !! i) as [x|]; [|done].
  cbn [fmap option_fmap option_map]. by rewrite Z.lxor_assoc, Z.lxor_nilpotent, Z.lxor_0_r.
Qed.

(** C33: Deciphering gives the text combined with the key stream from block 1 on, and
    is accepted exactly when the tag set before, of 1 to 16 bytes, is the front of
    the RFC's tag of the additional data and the cipher text received; a new context
    in which no tag was set accepts every message. *)
Theorem aead_decrypt_checks ctx k iv t aads texts :
  tag_ok ctx -> message_ok k iv aads texts -> bytes_ok t -> 0 < zlen t <= 16 ->
  let out := rfc_chacha20 k 1 iv (concat texts) in
  let m := rfc_tag_of k iv (concat aads) (concat texts) in
  (exists ctx', message false ctx k iv (Some t) aads texts = Done (bool_decide (take (length t) m = t), out, ctx') /\ tag_ok ctx') /\
  (exists ctx', message false chacha20_poly1305_newctx k iv None aads texts = Done (true, out, ctx')).
Proof.
  intros Hto Hok Ht Hz. cbn zeta. split; [by apply message_decrypts|]. unfold message.
  pose proof Hok as (Hk & Hkl & Hiv & Hivl & _).
  destruct (init_ready false chacha20_poly1305_newctx k iv) as (ctx1 & -> & Hr & Hs & _); [done..|]. cbn [negb].
  destruct newctx_ok as (Hno & Hnl & Hnz).
  destruct (message_ok_calls _ ctx1 _ _ _ _ aads texts Hok Hno Hnl Hnz Hs Hr) as (ctx' & Hm & _).
  exists ctx'. exact Hm.
Qed.

Lemma aead_decrypt_checks_witness :
  (exists ctx', message false chacha20_poly1305_newctx aead_key aead_iv (Some [0x1a; 0xe1; 0x0b; 0x58]) aead_aads
     [aead_sealed] = Done (false, sunscreen, ctx')) /\
  (exists ctx', message false chacha20_poly1305_newctx aead_key aead_iv None aead_aads [aead_sealed] = Done (true, sunscreen, ctx')).
Proof.
  destruct (aead_decrypt_checks chacha20_poly1305_newctx aead_key aead_iv [0x1a; 0xe1; 0x0b; 0x58] aead_aads
    [aead_sealed]) as ((c1 & Hm1 & _) & (c2 & Hm2)).
  - exact newctx_ok.
  - exact aead_sealed_ok.
  - apply bytes_ok_checked. reflexivity.
  - split; vm_compute; [reflexivity|discriminate].
  - destruct aead_calls_concat as [_ Ea], aead_vector as [Es Et]. rewrite concat_one, Ea, Et in Hm1. rewrite concat_one in Hm2.
    rewrite <- Es, rfc_chacha20_cancel, Es in Hm1, Hm2. split; [exists c1; exact Hm1|exists c2; exact Hm2].
Defined.

(** What one context enciphers another one with the same key and initial value
    deciphers and accepts, with the tag of any length read from the first, however
    the two sides cut the additional data and the text into calls. *)
Theorem aead_roundtrip ctx1 ctx2 k iv aads1 aads2 texts1 texts2 n c ctx' t :
  tag_ok ctx1 -> tag_ok ctx2 -> message_ok k iv aads1 texts1 -> message_ok k iv aads2 texts2 -> 0 < n <= 16 ->
  message true ctx1 k iv None aads1 texts1 = Done (true, c, ctx') -> get_ctx_tag ctx' n = Some t ->
  concat aads2 = concat aads1 -> concat texts2 = c ->
  exists ctx'', message false ctx2 k iv (Some t) aads2 texts2 = Done (true, concat texts1, ctx'').
Proof.
  intros Hto1 Hto2 Hok1 Hok2 Hn Hm1 Ht Ha Hc.
  destruct (message_encrypts ctx1 k iv aads1 texts1 Hto1 Hok1) as (ctx1' & Hm & (Htok & Htl & _) & He & Htag).
  rewrite Hm in Hm1. injection Hm1 as Hc' <-. rewrite get_tag_front in Ht by done. injection Ht as <-.
  assert (Hlen : length (take (Z.to_nat n) (tag ctx1')) = Z.to_nat n) by (rewrite length_take; lia).
  destruct (message_decrypts ctx2 k iv (take (Z.to_nat n) (tag ctx1')) aads2 texts2 Hto2 Hok2) as (ctx'' & Hd & _);
    [by apply Forall_take|unfold zlen; lia|].
  exists ctx''. rewrite Hd, Hlen, Hc, <- Hc', Ha, <- Htag, rfc_chacha20_cancel. by rewrite bool_decide_eq_true_2.
Qed.

Lemma aead_roundtrip_witness :
  exists ctx'', message false chacha20_poly1305_newctx aead_key aead_iv (Some [0x1a; 0xe1; 0x0b; 0x59; 0x4f]) aead_aads
    [aead_sealed] = Done (true, sunscreen, ctx'').
Proof.
  destruct aead_calls_concat as [Ec Ea], aead_vector as [Es Et].
  destruct (message_encrypts chacha20_poly1305_newctx _ _ _ _ newctx_ok aead_texts_ok) as (ctx' & Hm & _ & He & Htag).
  rewrite Ec, Es in Hm, Htag. rewrite Ea, Et in Htag.
  destruct (aead_roundtrip chacha20_poly1305_newctx chacha20_poly1305_newctx aead_key aead_iv aead_aads aead_aads aead_texts
    [aead_sealed] 5 aead_sealed ctx' [0x1a; 0xe1; 0x0b; 0x59; 0x4f] newctx_ok newctx_ok aead_texts_ok aead_sealed_ok) as (ctx'' & Hd).
  - split; reflexivity || discriminate.
  - exact Hm.
  - rewrite get_tag_front; [|exact He|split; reflexivity || discriminate]. rewrite Htag. reflexivity.
  - reflexivity.
  - apply concat_one.
  - rewrite Ec in Hd. exists ctx''. exact Hd.
Defined.

(** ** TLS records *)

Definition be16 (n : Z) : bytes := [n / 256; n mod 256].

(** The nonce of a record: the initial value with the sequence number, the first
    eight bytes of the header, in its low bytes (RFC 7905, section 2). *)
Definition record_nonce (iv hdr : bytes) : bytes := xor_bytes iv (memset0 4 ++ take 8 hdr).

Lemma le_num_xor a b :
  bytes_ok a -> bytes_ok b -> length a = length b -> le_num (xor_bytes a b) = le_num a ⊕ le_num b.
Proof.
  intros Ha. revert b. induction Ha as [|x a Hx Ha IH]; intros b Hb Hl; destruct Hb as [|y b Hy Hb]; try done.
  cbn [xor_bytes le_num]. rewrite (IH b Hb) by (cbn [length] in Hl; lia).
  pose proof (le_num_range a Ha) as [Hra _]. pose proof (le_num_range b Hb) as [Hrb _].
  pose proof (byte_lxor x y Hx Hy) as Hxy. unfold byte_ok in *.
  assert (Hs : forall u v, 0 <= u < 256 -> u + 256 * v = Z.lor (Z.shiftl v 8) u).
  { intros u v Hu. rewrite lor_shiftl_low by lia. lia. }
  rewrite !Hs by lia. apply Z.bits_inj'. intros n Hn. rewrite Z.lxor_spec, !Z.lor_spec, !Z.shiftl_spec, !Z.lxor_spec by lia.
  destruct (Z.ltb_spec n 8) as [H8|H8].
  - by rewrite !(Z.testbit_neg_r _ (n - 8)) by lia.
  - rewrite !(byte_testbit x), !(byte_testbit y) by (done || lia). by rewrite !orb_false_r.
Qed.

Lemma bytes4_ok b0 b1 b2 b3 : byte_ok b0 -> byte_ok b1 -> byte_ok b2 -> byte_ok b3 -> bytes_ok [b0; b1; b2; b3].
Proof. intros. repeat (apply Forall_cons; split; [assumption|]). by apply Forall_nil. Qed.

Lemma record_words iv h0 h1 h2 h3 h4 h5 h6 h7 hdr :
  bytes_ok iv -> length iv = 12%nat -> bytes_ok [h0; h1; h2; h3] -> bytes_ok [h4; h5; h6; h7] ->
  let n := record_nonce iv (h0 :: h1 :: h2 :: h3 :: h4 :: h5 :: h6 :: h7 :: hdr) in
  bytes_ok n /\ length n = 12%nat /\ iv_word n = iv_word iv /\
  iv_rest n = [nth 0 (iv_rest iv) 0 ⊕ le_num [h0; h1; h2; h3]; nth 1 (iv_rest iv) 0 ⊕ le_num [h4; h5; h6; h7]].
Proof.
  intros Hiv Hl Ha Hb. cbn zeta. unfold record_nonce, iv_word, iv_rest. cbn [nth memset0 replicate app take].
  do 12 (destruct iv as [|? iv]; [done|]). destruct iv; [|done]. cbn [xor_bytes take drop length].
  unfold bytes_ok in *. rewrite !Forall_cons in Hiv. rewrite !Forall_cons in Ha. rewrite !Forall_cons in Hb. rewrite !Z.lxor_0_r.
  destruct_and!. split; [repeat (apply Forall_cons; split; [first [assumption|by apply byte_lxor]|]); by apply Forall_nil|]. split; [done|]. split; [done|].
  by rewrite <- !le_num_xor by (done || (unfold bytes_ok; rewrite !Forall_cons; by split_and!)).
Qed.

Lemma u16_bytes n : 0 <= n < 65536 ->
  u8 (Z.shiftr n 8) = n / 256 /\ u8 n = n mod 256 /\ bytes_ok (be16 n) /\ Z.lor (Z.shiftl (n / 256) 8) (n mod 256) = n.
Proof.
  intros Hn. pose proof (Z.mod_pos_bound n 256 eq_refl) as Hm. pose proof (Z.div_mod n 256 ltac:(lia)) as Hd.
  split_and!.
  - unfold u8, wrap. rewrite Z.shiftr_div_pow2 by lia. change (2 ^ 8) with 256. rewrite Z.mod_small; lia.
  - done.
  - unfold be16, bytes_ok, byte_ok. rewrite !Forall_cons. split_and!; try lia. constructor.
  - rewrite lor_shiftl_low by lia. lia.
Qed.

Lemma be16_bytes n : be16 n = [n / 256; n mod 256].
Proof. reflexivity. Qed.

Lemma tls_init_record e ctx k iv hdr n t tl :
  ready k iv ctx -> setup e t tl ctx -> nonce ctx = iv_word iv :: iv_rest iv -> bytes_ok iv -> length iv = 12%nat ->
  bytes_ok hdr -> length hdr = 11%nat -> drop 13 (tls_aad ctx) = [0; 0; 0] -> 0 <= n < 65536 - 16 ->
  exists ctx', set_ctx_tls_aad ctx (hdr ++ be16 (n + (if e then 0 else 16))) = (true, ctx') /\
    record_start k (record_nonce iv hdr) e (hdr ++ be16 n) ctx' /\ tls_payload_length ctx' = n /\ mac_inited ctx' = false.
Proof.
  intros (Hkey & [c0 Hctr] & _ & _) (He & _) Hno Hiv Hivl Hh Hhl Hpad Hn.
  pose proof (u16_bytes n ltac:(lia)) as (Hs8 & Hu8 & Hbok & _).
  pose proof (u16_bytes (n + (if e then 0 else 16)) ltac:(destruct e; lia)) as (_ & _ & _ & Hlor).
  assert (Hpad16 : pad16 (hdr ++ be16 n) = [0; 0; 0]).
  { rewrite pad16_nat, length_app, Hhl. done. }
  assert (Ha : bytes_ok (hdr ++ be16 n)) by (by apply Forall_app).
  do 11 (destruct hdr as [|? hdr]; [done|]). destruct hdr; [|done].
  unfold bytes_ok in Hh. rewrite !Forall_cons in Hh. destruct_and!.
  destruct (record_words iv z z0 z1 z2 z3 z4 z5 z6 [z7; z8; z9]) as (_ & _ & Hw & Hr); [done|done|by apply bytes4_ok..|].
  assert (Hu : forall b0 b1 b2 b3 l, byte_ok b0 -> byte_ok b1 -> byte_ok b2 -> byte_ok b3 ->
    CHACHA_U8TOU32 (b0 :: b1 :: b2 :: b3 :: l) = le_num [b0; b1; b2; b3]).
  { intros b0 b1 b2 b3 l B0 B1 B2 B3. exact (CHACHA_U8TOU32_num [b0; b1; b2; b3] (bytes4_ok b0 b1 b2 b3 B0 B1 B2 B3) ltac:(done)). }
  unfold set_ctx_tls_aad, chacha_poly1305_tls_init. rewrite (be16_bytes (n + _)). cbn [app nth].
  change (zlen _ =? EVP_AEAD_TLS1_AAD_LEN) with true. cbn [negb]. rewrite Hlor. cbn [enc set_tls_aad]. rewrite He.
  cbn [tls_aad set_tls_aad]. rewrite Hpad. cbn [app] in *. destruct e; cbn [negb andb].
  - rewrite Z.add_0_r. cbn [nonce chacha counter key tls_aad set_tls_aad]. rewrite Hno, Hctr, Hkey.
    cbn [nth insert list_insert drop]. rewrite !Hu by assumption. eexists. split; [reflexivity|].
    split; [|split; reflexivity]. split; [exact He|]. split; [reflexivity|]. split; [exists c0; by rewrite Hw, Hr|].
    split; [|exact Ha]. rewrite Hpad16. reflexivity.
  - destruct (Z.ltb_spec (n + 16) 16) as [Hlt|_]; [lia|]. rewrite Z.add_simpl_r, Hs8, Hu8.
    cbn [nonce chacha counter key tls_aad set_tls_aad]. rewrite Hno, Hctr, Hkey.
    cbn [nth insert list_insert drop]. rewrite !Hu by assumption. eexists. split; [reflexivity|].
    split; [|split; reflexivity]. split; [exact He|]. split; [reflexivity|]. split; [exists c0; by rewrite Hw, Hr|].
    split; [|exact Ha]. rewrite Hpad16. reflexivity.
Qed.

(** A record with header [hdr] - sequence number, type, version -: the buffer holds
    the payload of [n] bytes and the place of the tag, the length in the header
    given to the cipher is the one on the wire when deciphering. *)
Definition tls_record (e : bool) (ctx : PROV_CHACHA20_POLY1305_CTX) (k iv hdr : bytes) (n : Z) (buffer : bytes)
  : outcome (bool * bytes) :=
  let '(ok, ctx) := chacha20_poly1305_init e ctx (Some k) (Some iv) in
  if negb ok then Done (false, [])
  else
    let '(ok, ctx) := set_ctx_tls_aad ctx (hdr ++ be16 (n + (if e then 0 else 16))) in
    if negb ok then Done (false, [])
    else '(ok, _, out, ctx) ← chacha20_poly1305_cipher ctx false 0 (zlen buffer) buffer; Done (ok, out).

Definition record_ok (ctx : PROV_CHACHA20_POLY1305_CTX) (k iv hdr text room : bytes) : Prop :=
  drop 13 (tls_aad ctx) = [0; 0; 0] /\ bytes_ok k /\ length k = 32%nat /\ bytes_ok iv /\ length iv = 12%nat /\
  bytes_ok hdr /\ length hdr = 11%nat /\ bytes_ok text /\ zlen text < 65536 - 16 /\ bytes_ok room /\ length room = 16%nat.

Lemma init_keeps_tls_aad e ctx k iv : tls_aad (chacha20_poly1305_init e ctx (Some k) (Some iv)).2 = tls_aad ctx.
Proof.
  unfold chacha20_poly1305_init. destruct (negb (zlen iv =? _)); [done|]. cbn [negb]. destruct (negb (zlen k =? _)); [done|].
  unfold chacha20_poly1305_initkey, ossl_chacha20_init. destruct (negb (zlen k =? 32)); [done|]. cbn [negb].
  unfold chacha20_poly1305_initiv, ossl_chacha20_init. by destruct (negb _).
Qed.

Lemma record_outcome (e : bool) ctx k iv hdr text room :
  record_ok ctx k iv hdr text room ->
  let out := rfc_chacha20 k 1 (record_nonce iv hdr) text in
  let m := rfc_tag_of k (record_nonce iv hdr) (hdr ++ be16 (zlen text)) (if e then out else text) in
  tls_record e ctx k iv hdr (zlen text) (text ++ room) =
    Done (if e then (true, out ++ m) else if bool_decide (m = room) then (true, out) else (false, memset0 (length text))).
Proof.
  intros (Hpad & Hk & Hkl & Hiv & Hivl & Hh & Hhl & Hx & Hz & Hr & Hrl). cbn zeta. unfold tls_record.
  pose proof (init_keeps_tls_aad e ctx k iv) as Hkeep.
  destruct (init_ready e ctx k iv) as (ctx1 & Hinit & Hrd & Hs & Hno); [done..|]. rewrite Hinit in *. cbn [snd negb] in *.
  assert (Hn : 0 <= zlen text < 65536 - 16) by (unfold zlen in *; lia).
  assert (Hpad1 : drop 13 (tls_aad ctx1) = [0; 0; 0]) by (by rewrite Hkeep).
  destruct (tls_init_record _ _ _ _ hdr (zlen text) _ _ Hrd Hs Hno Hiv Hivl Hh Hhl Hpad1 Hn) as (ctx2 & -> & Hst & Hpl & Hmac).
  cbn [negb]. assert (Hlen : zlen (text ++ room) = zlen text + 16) by (rewrite zlen_app; unfold zlen; lia).
  assert (Hnl : length (record_nonce iv hdr) = 12%nat /\ bytes_ok (record_nonce iv hdr)).
  { do 8 (destruct hdr as [|? hdr]; [done|]). unfold bytes_ok in Hh. rewrite !Forall_cons in Hh. destruct_and!.
    destruct (record_words iv z z0 z1 z2 z3 z4 z5 z6 hdr) as (H1' & H2' & _); [done|done|by apply bytes4_ok..|]. by split. }
  destruct Hnl as [Hnl Hnok].
  unfold chacha20_poly1305_cipher, chacha20_poly1305_aead_cipher. rewrite Hlen, Hpl, Hmac.
  destruct (Z.eqb_spec (zlen text + 16) 0) as [|_]; [lia|]. rewrite Z.ltb_irrefl.
  destruct (Z.eqb_spec (zlen text) NO_TLS_PAYLOAD_LENGTH) as [Hbad|_]; [unfold NO_TLS_PAYLOAD_LENGTH in Hbad; lia|]. cbn [negb andb].
  assert (Hu : u32 (zlen text + 16) = zlen text + 16) by (apply Z.mod_small; change (2 ^ 32) with 4294967296; lia).
  rewrite Hu, Z.eqb_refl. cbn [negb].
  destruct (tls_cipher_record k (record_nonce iv hdr) Hk Hkl Hnok Hnl e (hdr ++ be16 (zlen text)) text room ctx2 0 Hst)
    as (n & ctx' & ->); [by rewrite length_app, Hhl|exact Hx|lia|exact Hpl|exact Hr|exact Hrl|].
  rewrite (rfc_chacha20_stream k (record_nonce iv hdr) Hkl Hnok Hnl 1 text) by (change (2 ^ 32) with 4294967296; lia).
  change (text_mac k (record_nonce iv hdr) e 0 text) with (if e then text_out k (record_nonce iv hdr) 0 text else text).
  fold (text_out k (record_nonce iv hdr) 0 text). destruct e; [reflexivity|]. by destruct (bool_decide _).
Qed.

(** C34: A TLS record, short or long, is protected as RFC 7905 says: the bytes written
    over a payload are the AEAD of RFC 8439 under the initial value combined with
    the sequence number - the cipher text and behind it the tag of the header, with
    the length of the payload, and the cipher text; a received record is accepted
    exactly when the tag at its end is that one, and its payload is then the text
    with the key stream, otherwise zeros. *)
Theorem aead_tls_record ctx1 ctx2 k iv hdr text room c t :
  record_ok ctx1 k iv hdr text room -> record_ok ctx2 k iv hdr c t ->
  let nonce := record_nonce iv hdr in
  let sealed := rfc_chacha20 k 1 nonce text in
  tls_record true ctx1 k iv hdr (zlen text) (text ++ room) =
    Done (true, sealed ++ rfc_tag_of k nonce (hdr ++ be16 (zlen text)) sealed) /\
  tls_record false ctx2 k iv hdr (zlen c) (c ++ t) =
    Done (if bool_decide (rfc_tag_of k nonce (hdr ++ be16 (zlen c)) c = t)
          then (true, rfc_chacha20 k 1 nonce c) else (false, memset0 (length c))).
Proof. intros H1 H2. split; [exact (record_outcome true _ _ _ _ _ _ H1)|exact (record_outcome false _ _ _ _ _ _ H2)]. Qed.

(** A record of 114 bytes, and one of 12 whose tag was altered. *)
Definition record_hdr : bytes := [0; 0; 0; 0; 0; 0; 0; 1; 23; 3; 3].

Lemma aead_tls_record_witness :
  let nonce := record_nonce aead_iv record_hdr in
  let sealed := rfc_chacha20 aead_key 1 nonce sunscreen in
  tls_record true chacha20_poly1305_newctx aead_key aead_iv record_hdr 114 (sunscreen ++ memset0 16) =
    Done (true, sealed ++ rfc_tag_of aead_key nonce (record_hdr ++ be16 114) sealed) /\
  tls_record false chacha20_poly1305_newctx aead_key aead_iv record_hdr 12 (aead_aad ++ memset0 16) = Done (false, memset0 12).
Proof.
  destruct (aead_tls_record chacha20_poly1305_newctx chacha20_poly1305_newctx aead_key aead_iv record_hdr sunscreen (memset0 16)
    aead_aad (memset0 16)) as [H1 H2].
  - repeat split; first [apply bytes_ok_checked; vm_compute; reflexivity|reflexivity].
  - repeat split; first [apply bytes_ok_checked; vm_compute; reflexivity|reflexivity].
  - split; [exact H1|]. etransitivity; [exact H2|]. vm_compute. reflexivity.
Defined.
