(* ===== verification/Fe25519.v ===== *)
(** * Arithmetic modulo 2^255 - 19 (crypto/ec/curve25519.c)

    The variant for a build without 128-bit integers: an element is ten signed words,
    alternately of 26 and 25 bits, and sums and products are left unreduced as long as
    they fit.  Every operation on a signed type is checked for overflow, which is
    undefined behaviour; the lemmas show, under the bounds that the comments of the
    source claim, that none occurs, what the value modulo the prime is and that the
    claimed bounds of the result hold. *)

From S2P Require Import Prelude CLib Words.

(** ** Elements *)

(** typedef int32_t fe[10] *)
Record fe := Fe { l0 : Z; l1 : Z; l2 : Z; l3 : Z; l4 : Z; l5 : Z; l6 : Z; l7 : Z; l8 : Z; l9 : Z }.

Definition kBottom25Bits : Z := 0x1ffffff.
Definition kBottom26Bits : Z := 0x3ffffff.
Definition kTop39Bits : Z := i64 0xfffffffffe000000.
Definition kTop38Bits : Z := i64 0xfffffffffc000000.

(** The loops over the ten words. *)
Definition fe_each (op : Z -> Z -> outcome Z) (f g : fe) : outcome fe :=
  h0 ← op (l0 f) (l0 g); h1 ← op (l1 f) (l1 g); h2 ← op (l2 f) (l2 g); h3 ← op (l3 f) (l3 g); h4 ← op (l4 f) (l4 g);
  h5 ← op (l5 f) (l5 g); h6 ← op (l6 f) (l6 g); h7 ← op (l7 f) (l7 g); h8 ← op (l8 f) (l8 g); h9 ← op (l9 f) (l9 g);
  Done (Fe h0 h1 h2 h3 h4 h5 h6 h7 h8 h9).

Definition fe_0 : fe := Fe 0 0 0 0 0 0 0 0 0 0.
Definition fe_1 : fe := Fe 1 0 0 0 0 0 0 0 0 0.
Definition fe_add (f g : fe) : outcome fe := fe_each (fun x y => int32 (x + y)) f g.
Definition fe_sub (f g : fe) : outcome fe := fe_each (fun x y => int32 (x - y)) f g.

(** ** Carries *)

(** carry = lo + (1 << 25); hi += carry >> 26; lo -= carry & kTop38Bits; *)
Definition carry26 (lo hi : Z) : outcome (Z * Z) :=
  carry ← int64 (lo + Z.shiftl 1 25);
  hi ← int64 (hi + Z.shiftr carry 26);
  lo ← int64 (lo - Z.land carry kTop38Bits);
  Done (lo, hi).

Definition carry25 (lo hi : Z) : outcome (Z * Z) :=
  carry ← int64 (lo + Z.shiftl 1 24);
  hi ← int64 (hi + Z.shiftr carry 25);
  lo ← int64 (lo - Z.land carry kTop39Bits);
  Done (lo, hi).

(** The carry out of the top word comes back times 19. *)
Definition carry_top (h9 h0 : Z) : outcome (Z * Z) :=
  carry ← int64 (h9 + Z.shiftl 1 24);
  c ← int64 (Z.shiftr carry 25 * 19);
  h0 ← int64 (h0 + c);
  h9 ← int64 (h9 - Z.land carry kTop39Bits);
  Done (h9, h0).

Definition store (h0 h1 h2 h3 h4 h5 h6 h7 h8 h9 : Z) : fe :=
  Fe (i32 h0) (i32 h1) (i32 h2) (i32 h3) (i32 h4) (i32 h5) (i32 h6) (i32 h7) (i32 h8) (i32 h9).

(** The twelve carries after a product. *)
Definition carry_product (h0 h1 h2 h3 h4 h5 h6 h7 h8 h9 : Z) : outcome fe :=
  '(h0, h1) ← carry26 h0 h1; '(h4, h5) ← carry26 h4 h5;
  '(h1, h2) ← carry25 h1 h2; '(h5, h6) ← carry25 h5 h6;
  '(h2, h3) ← carry26 h2 h3; '(h6, h7) ← carry26 h6 h7;
  '(h3, h4) ← carry25 h3 h4; '(h7, h8) ← carry25 h7 h8;
  '(h4, h5) ← carry26 h4 h5; '(h8, h9) ← carry26 h8 h9;
  '(h9, h0) ← carry_top h9 h0;
  '(h0, h1) ← carry26 h0 h1;
  Done (store h0 h1 h2 h3 h4 h5 h6 h7 h8 h9).

(** The ten carries after a load or the product with a small number. *)
Definition carry_once (h0 h1 h2 h3 h4 h5 h6 h7 h8 h9 : Z) : outcome fe :=
  '(h9, h0) ← carry_top h9 h0; '(h1, h2) ← carry25 h1 h2; '(h3, h4) ← carry25 h3 h4;
  '(h5, h6) ← carry25 h5 h6; '(h7, h8) ← carry25 h7 h8;
  '(h0, h1) ← carry26 h0 h1; '(h2, h3) ← carry26 h2 h3; '(h4, h5) ← carry26 h4 h5;
  '(h6, h7) ← carry26 h6 h7; '(h8, h9) ← carry26 h8 h9;
  Done (store h0 h1 h2 h3 h4 h5 h6 h7 h8 h9).

(** ** Products *)

(** A sum of products of words, each product and each partial sum in 64 bits. *)
Fixpoint dot_from (s : Z) (l : list (Z * Z)) : outcome Z :=
  match l with
  | [] => Done s
  | (a, b) :: l => p ← int64 (a * b); s ← int64 (s + p); dot_from s l
  end.

Definition dot64 (l : list (Z * Z)) : outcome Z := dot_from 0 l.

Definition fe_mul (f g : fe) : outcome fe :=
  let '(Fe f0 f1 f2 f3 f4 f5 f6 f7 f8 f9) := f in
  let '(Fe g0 g1 g2 g3 g4 g5 g6 g7 g8 g9) := g in
  g1_19 ← int32 (19 * g1); g2_19 ← int32 (19 * g2); g3_19 ← int32 (19 * g3); g4_19 ← int32 (19 * g4);
  g5_19 ← int32 (19 * g5); g6_19 ← int32 (19 * g6); g7_19 ← int32 (19 * g7); g8_19 ← int32 (19 * g8);
  g9_19 ← int32 (19 * g9); f1_2 ← int32 (2 * f1); f3_2 ← int32 (2 * f3); f5_2 ← int32 (2 * f5);
  f7_2 ← int32 (2 * f7); f9_2 ← int32 (2 * f9);
  h0 ← dot64 [(f0, g0); (f1_2, g9_19); (f2, g8_19); (f3_2, g7_19); (f4, g6_19); (f5_2, g5_19); (f6, g4_19);
    (f7_2, g3_19); (f8, g2_19); (f9_2, g1_19)];
  h1 ← dot64 [(f0, g1); (f1, g0); (f2, g9_19); (f3, g8_19); (f4, g7_19); (f5, g6_19); (f6, g5_19);
    (f7, g4_19); (f8, g3_19); (f9, g2_19)];
  h2 ← dot64 [(f0, g2); (f1_2, g1); (f2, g0); (f3_2, g9_19); (f4, g8_19); (f5_2, g7_19); (f6, g6_19);
    (f7_2, g5_19); (f8, g4_19); (f9_2, g3_19)];
  h3 ← dot64 [(f0, g3); (f1, g2); (f2, g1); (f3, g0); (f4, g9_19); (f5, g8_19); (f6, g7_19); (f7, g6_19);
    (f8, g5_19); (f9, g4_19)];
  h4 ← dot64 [(f0, g4); (f1_2, g3); (f2, g2); (f3_2, g1); (f4, g0); (f5_2, g9_19); (f6, g8_19);
    (f7_2, g7_19); (f8, g6_19); (f9_2, g5_19)];
  h5 ← dot64 [(f0, g5); (f1, g4); (f2, g3); (f3, g2); (f4, g1); (f5, g0); (f6, g9_19); (f7, g8_19);
    (f8, g7_19); (f9, g6_19)];
  h6 ← dot64 [(f0, g6); (f1_2, g5); (f2, g4); (f3_2, g3); (f4, g2); (f5_2, g1); (f6, g0); (f7_2, g9_19);
    (f8, g8_19); (f9_2, g7_19)];
  h7 ← dot64 [(f0, g7); (f1, g6); (f2, g5); (f3, g4); (f4, g3); (f5, g2); (f6, g1); (f7, g0); (f8, g9_19); (f9, g8_19)];
  h8 ← dot64 [(f0, g8); (f1_2, g7); (f2, g6); (f3_2, g5); (f4, g4); (f5_2, g3); (f6, g2); (f7_2, g1);
    (f8, g0); (f9_2, g9_19)];
  h9 ← dot64 [(f0, g9); (f1, g8); (f2, g7); (f3, g6); (f4, g5); (f5, g4); (f6, g3); (f7, g2); (f8, g1); (f9, g0)];
  carry_product h0 h1 h2 h3 h4 h5 h6 h7 h8 h9.

Definition fe_sq (f : fe) : outcome fe :=
  let '(Fe f0 f1 f2 f3 f4 f5 f6 f7 f8 f9) := f in
  f0_2 ← int32 (2 * f0); f1_2 ← int32 (2 * f1); f2_2 ← int32 (2 * f2); f3_2 ← int32 (2 * f3);
  f4_2 ← int32 (2 * f4); f5_2 ← int32 (2 * f5); f6_2 ← int32 (2 * f6); f7_2 ← int32 (2 * f7);
  f5_38 ← int32 (38 * f5); f6_19 ← int32 (19 * f6); f7_38 ← int32 (38 * f7); f8_19 ← int32 (19 * f8);
  f9_38 ← int32 (38 * f9);
  h0 ← dot64 [(f0, f0); (f1_2, f9_38); (f2_2, f8_19); (f3_2, f7_38); (f4_2, f6_19); (f5, f5_38)];
  h1 ← dot64 [(f0_2, f1); (f2, f9_38); (f3_2, f8_19); (f4, f7_38); (f5_2, f6_19)];
  h2 ← dot64 [(f0_2, f2); (f1_2, f1); (f3_2, f9_38); (f4_2, f8_19); (f5_2, f7_38); (f6, f6_19)];
  h3 ← dot64 [(f0_2, f3); (f1_2, f2); (f4, f9_38); (f5_2, f8_19); (f6, f7_38)];
  h4 ← dot64 [(f0_2, f4); (f1_2, f3_2); (f2, f2); (f5_2, f9_38); (f6_2, f8_19); (f7, f7_38)];
  h5 ← dot64 [(f0_2, f5); (f1_2, f4); (f2_2, f3); (f6, f9_38); (f7_2, f8_19)];
  h6 ← dot64 [(f0_2, f6); (f1_2, f5_2); (f2_2, f4); (f3_2, f3); (f7_2, f9_38); (f8, f8_19)];
  h7 ← dot64 [(f0_2, f7); (f1_2, f6); (f2_2, f5); (f3_2, f4); (f8, f9_38)];
  h8 ← dot64 [(f0_2, f8); (f1_2, f7_2); (f2_2, f6); (f3_2, f5_2); (f4, f4); (f9, f9_38)];
  h9 ← dot64 [(f0_2, f9); (f1_2, f8); (f2_2, f7); (f3_2, f6); (f4_2, f5)];
  carry_product h0 h1 h2 h3 h4 h5 h6 h7 h8 h9.

Definition fe_mul121666 (f : fe) : outcome fe :=
  let '(Fe f0 f1 f2 f3 f4 f5 f6 f7 f8 f9) := f in
  h0 ← int64 (f0 * 121666); h1 ← int64 (f1 * 121666); h2 ← int64 (f2 * 121666); h3 ← int64 (f3 * 121666); h4 ← int64 (f4 * 121666);
  h5 ← int64 (f5 * 121666); h6 ← int64 (f6 * 121666); h7 ← int64 (f7 * 121666); h8 ← int64 (f8 * 121666); h9 ← int64 (f9 * 121666);
  carry_once h0 h1 h2 h3 h4 h5 h6 h7 h8 h9.

(** ** Bytes *)

Definition load_3 (s : bytes) : Z := Z.lor (Z.lor (nth 0 s 0) (Z.shiftl (nth 1 s 0) 8)) (Z.shiftl (nth 2 s 0) 16).
Definition load_4 (s : bytes) : Z := Z.lor (load_3 s) (Z.shiftl (nth 3 s 0) 24).

Definition fe_frombytes (s : bytes) : outcome fe :=
  let h0 := load_4 s in
  let h1 := u64 (Z.shiftl (load_3 (drop 4 s)) 6) in
  let h2 := u64 (Z.shiftl (load_3 (drop 7 s)) 5) in
  let h3 := u64 (Z.shiftl (load_3 (drop 10 s)) 3) in
  let h4 := u64 (Z.shiftl (load_3 (drop 13 s)) 2) in
  let h5 := load_4 (drop 16 s) in
  let h6 := u64 (Z.shiftl (load_3 (drop 20 s)) 7) in
  let h7 := u64 (Z.shiftl (load_3 (drop 23 s)) 5) in
  let h8 := u64 (Z.shiftl (load_3 (drop 26 s)) 4) in
  let h9 := u64 (Z.shiftl (Z.land (load_3 (drop 29 s)) 0x7fffff) 2) in
  carry_once (i64 h0) (i64 h1) (i64 h2) (i64 h3) (i64 h4) (i64 h5) (i64 h6) (i64 h7) (i64 h8) (i64 h9).

(** q = (h + q) >> n *)
Definition quotient_step (h q n : Z) : outcome Z := t ← int32 (h + q); Done (Z.shiftr t n).

(** h' += h >> n; h &= mask *)
Definition full_carry (h h' n mask : Z) : outcome (Z * Z) := h' ← int32 (h' + Z.shiftr h n); Done (i32 (Z.land h mask), h').

(** The bytes of ten words without overlaps. *)
Definition fe_store (h0 h1 h2 h3 h4 h5 h6 h7 h8 h9 : Z) : bytes :=
  [u8 (Z.shiftr h0 0); u8 (Z.shiftr h0 8); u8 (Z.shiftr h0 16);
   u8 (Z.lor (u32 (Z.shiftr h0 24)) (u32 (Z.shiftl (u32 h1) 2)));
   u8 (Z.shiftr h1 6); u8 (Z.shiftr h1 14);
   u8 (Z.lor (u32 (Z.shiftr h1 22)) (u32 (Z.shiftl (u32 h2) 3)));
   u8 (Z.shiftr h2 5); u8 (Z.shiftr h2 13);
   u8 (Z.lor (u32 (Z.shiftr h2 21)) (u32 (Z.shiftl (u32 h3) 5)));
   u8 (Z.shiftr h3 3); u8 (Z.shiftr h3 11);
   u8 (Z.lor (u32 (Z.shiftr h3 19)) (u32 (Z.shiftl (u32 h4) 6)));
   u8 (Z.shiftr h4 2); u8 (Z.shiftr h4 10); u8 (Z.shiftr h4 18);
   u8 (Z.shiftr h5 0); u8 (Z.shiftr h5 8); u8 (Z.shiftr h5 16);
   u8 (Z.lor (u32 (Z.shiftr h5 24)) (u32 (Z.shiftl (u32 h6) 1)));
   u8 (Z.shiftr h6 7); u8 (Z.shiftr h6 15);
   u8 (Z.lor (u32 (Z.shiftr h6 23)) (u32 (Z.shiftl (u32 h7) 3)));
   u8 (Z.shiftr h7 5); u8 (Z.shiftr h7 13);
   u8 (Z.lor (u32 (Z.shiftr h7 21)) (u32 (Z.shiftl (u32 h8) 4)));
   u8 (Z.shiftr h8 4); u8 (Z.shiftr h8 12);
   u8 (Z.lor (u32 (Z.shiftr h8 20)) (u32 (Z.shiftl (u32 h9) 6)));
   u8 (Z.shiftr h9 2); u8 (Z.shiftr h9 10); u8 (Z.shiftr h9 18)].

Definition fe_quotient (h : fe) : outcome Z :=
  n ← int32 (19 * l9 h);
  t ← int32 (n + Z.shiftl 1 24);
  let q := Z.shiftr t 25 in
  q ← quotient_step (l0 h) q 26; q ← quotient_step (l1 h) q 25; q ← quotient_step (l2 h) q 26;
  q ← quotient_step (l3 h) q 25; q ← quotient_step (l4 h) q 26; q ← quotient_step (l5 h) q 25;
  q ← quotient_step (l6 h) q 26; q ← quotient_step (l7 h) q 25; q ← quotient_step (l8 h) q 26;
  quotient_step (l9 h) q 25.

Definition fe_tobytes (h : fe) : outcome bytes :=
  q ← fe_quotient h;
  t ← int32 (19 * q);
  h0 ← int32 (l0 h + t);
  '(h0, h1) ← full_carry h0 (l1 h) 26 kBottom26Bits; '(h1, h2) ← full_carry h1 (l2 h) 25 kBottom25Bits;
  '(h2, h3) ← full_carry h2 (l3 h) 26 kBottom26Bits; '(h3, h4) ← full_carry h3 (l4 h) 25 kBottom25Bits;
  '(h4, h5) ← full_carry h4 (l5 h) 26 kBottom26Bits; '(h5, h6) ← full_carry h5 (l6 h) 25 kBottom25Bits;
  '(h6, h7) ← full_carry h6 (l7 h) 26 kBottom26Bits; '(h7, h8) ← full_carry h7 (l8 h) 25 kBottom25Bits;
  '(h8, h9) ← full_carry h8 (l9 h) 26 kBottom26Bits;
  let h9 := i32 (Z.land h9 kBottom25Bits) in
  Done (fe_store h0 h1 h2 h3 h4 h5 h6 h7 h8 h9).

(** ** Inversion and the constant-time swap *)

(** for (i = 0; i < n; ++i) fe_sq(t, t); *)
Fixpoint fe_sq_times (n : nat) (t : fe) : outcome fe :=
  match n with
  | O => Done t
  | S n => t ← fe_sq t; fe_sq_times n t
  end.

Definition fe_invert (z : fe) : outcome fe :=
  t0 ← fe_sq z;
  t1 ← fe_sq t0;
  t1 ← fe_sq t1;
  t1 ← fe_mul z t1;
  t0 ← fe_mul t0 t1;
  t2 ← fe_sq t0;
  t1 ← fe_mul t1 t2;
  t2 ← fe_sq t1; t2 ← fe_sq_times 4 t2;
  t1 ← fe_mul t2 t1;
  t2 ← fe_sq t1; t2 ← fe_sq_times 9 t2;
  t2 ← fe_mul t2 t1;
  t3 ← fe_sq t2; t3 ← fe_sq_times 19 t3;
  t2 ← fe_mul t3 t2;
  t2 ← fe_sq_times 10 t2;
  t1 ← fe_mul t2 t1;
  t2 ← fe_sq t1; t2 ← fe_sq_times 49 t2;
  t2 ← fe_mul t2 t1;
  t3 ← fe_sq t2; t3 ← fe_sq_times 99 t3;
  t2 ← fe_mul t3 t2;
  t2 ← fe_sq t2; t2 ← fe_sq_times 49 t2;
  t1 ← fe_mul t2 t1;
  t1 ← fe_sq t1; t1 ← fe_sq_times 4 t1;
  fe_mul t1 t0.

(** The words of both sides differ in [x], which the mask [0 - b] keeps or clears. *)
Definition swap_word (b f g : Z) : Z * Z :=
  let x := Z.lxor f g in
  let x := i32 (Z.land (u32 x) (u32 (0 - b))) in
  (Z.lxor f x, Z.lxor g x).

Definition fe_cswap (f g : fe) (b : Z) : fe * fe :=
  let p0 := swap_word b (l0 f) (l0 g) in let p1 := swap_word b (l1 f) (l1 g) in let p2 := swap_word b (l2 f) (l2 g) in
  let p3 := swap_word b (l3 f) (l3 g) in let p4 := swap_word b (l4 f) (l4 g) in let p5 := swap_word b (l5 f) (l5 g) in
  let p6 := swap_word b (l6 f) (l6 g) in let p7 := swap_word b (l7 f) (l7 g) in let p8 := swap_word b (l8 f) (l8 g) in
  let p9 := swap_word b (l9 f) (l9 g) in
  (Fe p0.1 p1.1 p2.1 p3.1 p4.1 p5.1 p6.1 p7.1 p8.1 p9.1, Fe p0.2 p1.2 p2.2 p3.2 p4.2 p5.2 p6.2 p7.2 p8.2 p9.2).

(** ** The value of an element *)

Definition p25519 : Z := 2 ^ 255 - 19.

Definition fe_sum (h0 h1 h2 h3 h4 h5 h6 h7 h8 h9 : Z) : Z :=
  h0 + 2 ^ 26 * h1 + 2 ^ 51 * h2 + 2 ^ 77 * h3 + 2 ^ 102 * h4 + 2 ^ 128 * h5 + 2 ^ 153 * h6 + 2 ^ 179 * h7 + 2 ^ 204 * h8 +
  2 ^ 230 * h9.

Definition fe_val (f : fe) : Z := fe_sum (l0 f) (l1 f) (l2 f) (l3 f) (l4 f) (l5 f) (l6 f) (l7 f) (l8 f) (l9 f).

(** Words of an even and of an odd number below two bounds. *)
Definition bounded (even odd : Z) (f : fe) : Prop :=
  (Z.abs (l0 f) <= even /\ Z.abs (l2 f) <= even /\ Z.abs (l4 f) <= even /\ Z.abs (l6 f) <= even /\ Z.abs (l8 f) <= even) /\
  (Z.abs (l1 f) <= odd /\ Z.abs (l3 f) <= odd /\ Z.abs (l5 f) <= odd /\ Z.abs (l7 f) <= odd /\ Z.abs (l9 f) <= odd).

(** The bounds of the comments: 1.01 * 2^25, 1.1 * 2^25, twice as much, 1.65 * 2^26. *)
Definition reduced : fe -> Prop := bounded 33889976 16944988.
Definition tight : fe -> Prop := bounded 36909875 18454937.
Definition loose : fe -> Prop := bounded 73819750 36909874.
Definition factor : fe -> Prop := bounded 110729625 55364812.

Lemma bounded_mono e o e' o' f : bounded e o f -> e <= e' -> o <= o' -> bounded e' o' f.
Proof. intros [H1 H2] He Ho. destruct_and!. split; split_and!; eapply Z.le_trans; eassumption. Qed.

Lemma reduced_tight f : reduced f -> tight f.
Proof. intros H. by eapply bounded_mono. Qed.

Lemma tight_loose f : tight f -> loose f.
Proof. intros H. by eapply bounded_mono. Qed.

Lemma loose_factor f : loose f -> factor f.
Proof. intros H. by eapply bounded_mono. Qed.

#[local] Hint Resolve reduced_tight tight_loose loose_factor : core.

(** ** Steps *)

(** The rest of a computation after a step that succeeds. *)
Lemma int64_step {T} x (k : Z -> outcome T) (Q : outcome T -> Prop) :
  Z.abs x <= 9223372036854775807 -> Q (k x) -> Q (x ← int64 x; k x).
Proof. intros Hx Hk. by rewrite int64_done by lia. Qed.

Lemma int32_step {T} x (k : Z -> outcome T) (Q : outcome T -> Prop) :
  Z.abs x <= 2147483647 -> Q (k x) -> Q (x ← int32 x; k x).
Proof. intros Hx Hk. by rewrite int32_done by lia. Qed.

Lemma land_top26 x : Z.land x kTop38Bits = 67108864 * Z.shiftr x 26.
Proof.
  change kTop38Bits with (Z.lnot (Z.ones 26)). rewrite <- Z.ldiff_land, Z.ldiff_ones_r by lia.
  rewrite Z.shiftl_mul_pow2 by lia. change (2 ^ 26) with 67108864. lia.
Qed.

Lemma land_top25 x : Z.land x kTop39Bits = 33554432 * Z.shiftr x 25.
Proof.
  change kTop39Bits with (Z.lnot (Z.ones 25)). rewrite <- Z.ldiff_land, Z.ldiff_ones_r by lia.
  rewrite Z.shiftl_mul_pow2 by lia. change (2 ^ 25) with 33554432. lia.
Qed.

Lemma carry26_step {T} lo hi L H (k : Z * Z -> outcome T) (Q : outcome T -> Prop) :
  Z.abs lo <= L -> Z.abs hi <= H -> L <= 9223372036821221375 -> H + (L + 33554432) / 67108864 <= 9223372036854775807 ->
  (forall q, Z.abs (lo - 67108864 * q) <= 33554432 -> Z.abs (hi + q) <= H + (L + 33554432) / 67108864 ->
    Q (k (lo - 67108864 * q, hi + q))) ->
  Q (carry26 lo hi ≫= k).
Proof.
  intros Hlo Hhi HL HH Hk. unfold carry26. change (Z.shiftl 1 25) with 33554432. rewrite int64_done by lia. cbn [mbind outcome_bind].
  rewrite land_top26, Z.shiftr_div_pow2 by lia. change (2 ^ 26) with 67108864.
  set (q := (lo + 33554432) / 67108864).
  assert (Hq : Z.abs q <= (L + 33554432) / 67108864).
  { unfold q. Z.to_euclidean_division_equations. lia. }
  assert (Hl : Z.abs (lo - 67108864 * q) <= 33554432) by (unfold q; Z.to_euclidean_division_equations; lia).
  rewrite int64_done by lia. cbn [outcome_bind]. rewrite int64_done by lia. cbn [outcome_bind]. apply Hk; lia.
Qed.

Lemma carry25_step {T} lo hi L H (k : Z * Z -> outcome T) (Q : outcome T -> Prop) :
  Z.abs lo <= L -> Z.abs hi <= H -> L <= 9223372036837998591 -> H + (L + 16777216) / 33554432 <= 9223372036854775807 ->
  (forall q, Z.abs (lo - 33554432 * q) <= 16777216 -> Z.abs (hi + q) <= H + (L + 16777216) / 33554432 ->
    Q (k (lo - 33554432 * q, hi + q))) ->
  Q (carry25 lo hi ≫= k).
Proof.
  intros Hlo Hhi HL HH Hk. unfold carry25. change (Z.shiftl 1 24) with 16777216. rewrite int64_done by lia. cbn [mbind outcome_bind].
  rewrite land_top25, Z.shiftr_div_pow2 by lia. change (2 ^ 25) with 33554432.
  set (q := (lo + 16777216) / 33554432).
  assert (Hq : Z.abs q <= (L + 16777216) / 33554432).
  { unfold q. Z.to_euclidean_division_equations. lia. }
  assert (Hl : Z.abs (lo - 33554432 * q) <= 16777216) by (unfold q; Z.to_euclidean_division_equations; lia).
  rewrite int64_done by lia. cbn [outcome_bind]. rewrite int64_done by lia. cbn [outcome_bind]. apply Hk; lia.
Qed.

Lemma carry_top_step {T} h9 h0 L H (k : Z * Z -> outcome T) (Q : outcome T -> Prop) :
  Z.abs h9 <= L -> Z.abs h0 <= H -> L <= 9223372036837998591 -> H + 19 * ((L + 16777216) / 33554432) <= 9223372036854775807 ->
  (forall q, Z.abs (h9 - 33554432 * q) <= 16777216 -> Z.abs (h0 + 19 * q) <= H + 19 * ((L + 16777216) / 33554432) ->
    Q (k (h9 - 33554432 * q, h0 + 19 * q))) ->
  Q (carry_top h9 h0 ≫= k).
Proof.
  intros Hlo Hhi HL HH Hk. unfold carry_top. change (Z.shiftl 1 24) with 16777216. rewrite int64_done by lia. cbn [mbind outcome_bind].
  rewrite land_top25, Z.shiftr_div_pow2 by lia. change (2 ^ 25) with 33554432.
  set (q := (h9 + 16777216) / 33554432).
  assert (Hq : Z.abs q <= (L + 16777216) / 33554432).
  { unfold q. Z.to_euclidean_division_equations. lia. }
  assert (Hl : Z.abs (h9 - 33554432 * q) <= 16777216) by (unfold q; Z.to_euclidean_division_equations; lia).
  rewrite (Z.mul_comm q). rewrite !int64_done by lia. cbn [mbind outcome_bind].
  rewrite int64_done by lia. cbn [outcome_bind]. apply Hk; lia.
Qed.

(** The value of a bound that is known. *)
Ltac eval_bound H :=
  let T := type of H in
  match T with Z.abs ?x <= ?b => let c := eval vm_compute in b in change (Z.abs x <= c) in H end.

(** One carry, with bounds taken from the context; the new words are abstracted
    and remembered by equations. *)
Ltac carry_with lemma :=
  eapply lemma; [eassumption|eassumption|lia|vm_compute; discriminate|];
  let q := fresh "q" in let Hl := fresh "Hl" in let Hh := fresh "Hh" in
  intros q Hl Hh; eval_bound Hh; cbn beta iota;
  match type of Hl with Z.abs ?x <= _ => match type of Hh with Z.abs ?y <= _ =>
    let x' := fresh "x" in let y' := fresh "y" in let Ex := fresh "Ex" in let Ey := fresh "Ey" in
    remember x as x' eqn:Ex in Hl |- *; remember y as y' eqn:Ey in Hh |- * end end.

Lemma store_done h0 h1 h2 h3 h4 h5 h6 h7 h8 h9 e o :
  bounded e o (Fe h0 h1 h2 h3 h4 h5 h6 h7 h8 h9) -> e <= 2147483647 -> o <= 2147483647 ->
  store h0 h1 h2 h3 h4 h5 h6 h7 h8 h9 = Fe h0 h1 h2 h3 h4 h5 h6 h7 h8 h9.
Proof. intros [Ha Hb] He Ho. cbn [l0 l1 l2 l3 l4 l5 l6 l7 l8 l9] in *. destruct_and!. unfold store. by rewrite !i32_small by lia. Qed.

(** Equality of sums of words, with the equations of the carries. *)
Ltac sums := unfold fe_val, fe_sum, p25519; cbn [l0 l1 l2 l3 l4 l5 l6 l7 l8 l9]; subst; ring.

Ltac word_bound := eapply Z.le_trans; [eassumption|lia].

Lemma carry_product_spec h0 h1 h2 h3 h4 h5 h6 h7 h8 h9 :
  (Z.abs h0 <= 1614180000000000000 /\ Z.abs h2 <= 1614180000000000000 /\ Z.abs h4 <= 1614180000000000000 /\
   Z.abs h6 <= 1614180000000000000 /\ Z.abs h8 <= 1614180000000000000) ->
  (Z.abs h1 <= 979993000000000000 /\ Z.abs h3 <= 979993000000000000 /\ Z.abs h5 <= 979993000000000000 /\
   Z.abs h7 <= 979993000000000000 /\ Z.abs h9 <= 979993000000000000) ->
  exists f, carry_product h0 h1 h2 h3 h4 h5 h6 h7 h8 h9 = Done f /\ reduced f /\
    exists c, fe_val f = fe_sum h0 h1 h2 h3 h4 h5 h6 h7 h8 h9 - p25519 * c.
Proof.
  intros (H0 & H2 & H4 & H6 & H8) (H1 & H3 & H5 & H7 & H9). unfold carry_product.
  do 2 carry_with @carry26_step. do 2 carry_with @carry25_step. do 2 carry_with @carry26_step.
  do 2 carry_with @carry25_step. do 2 carry_with @carry26_step. carry_with @carry_top_step. carry_with @carry26_step.
  assert (Hr : reduced (Fe x10 y10 x3 x5 x7 y7 x4 x6 x8 x9)) by (split; split_and!; word_bound).
  rewrite (store_done _ _ _ _ _ _ _ _ _ _ _ _ Hr) by lia. eexists. split; [done|]. split; [done|]. exists q9. sums.
Qed.

Lemma carry_once_spec h0 h1 h2 h3 h4 h5 h6 h7 h8 h9 :
  (Z.abs h0 <= 9000000000000 /\ Z.abs h2 <= 9000000000000 /\ Z.abs h4 <= 9000000000000 /\
   Z.abs h6 <= 9000000000000 /\ Z.abs h8 <= 9000000000000) ->
  (Z.abs h1 <= 4500000000000 /\ Z.abs h3 <= 4500000000000 /\ Z.abs h5 <= 4500000000000 /\
   Z.abs h7 <= 4500000000000 /\ Z.abs h9 <= 4500000000000) ->
  exists f, carry_once h0 h1 h2 h3 h4 h5 h6 h7 h8 h9 = Done f /\ reduced f /\
    exists c, fe_val f = fe_sum h0 h1 h2 h3 h4 h5 h6 h7 h8 h9 - p25519 * c.
Proof.
  intros (H0 & H2 & H4 & H6 & H8) (H1 & H3 & H5 & H7 & H9). unfold carry_once.
  carry_with @carry_top_step. do 4 carry_with @carry25_step. do 5 carry_with @carry26_step.
  assert (Hr : reduced (Fe x4 y4 x5 y5 x6 y6 x7 y7 x8 y8)) by (split; split_and!; word_bound).
  rewrite (store_done _ _ _ _ _ _ _ _ _ _ _ _ Hr) by lia. eexists. split; [done|]. split; [done|]. exists q. sums.
Qed.

(** ** Products *)

Fixpoint dot (l : list (Z * Z)) : Z := match l with [] => 0 | (a, b) :: l => a * b + dot l end.

(** A bound of a sum of products from bounds of the factors. *)
Definition within (p q : Z * Z) : Prop := Z.abs p.1 <= q.1 /\ Z.abs p.2 <= q.2.

Lemma within_cons a b A B l bs :
  Z.abs a <= A -> Z.abs b <= B -> Forall2 within l bs -> Forall2 within ((a, b) :: l) ((A, B) :: bs).
Proof. intros Ha Hb Hl. constructor; [by split|done]. Qed.

Lemma dot_bound_nonneg l bs : Forall2 within l bs -> 0 <= dot bs.
Proof. induction 1 as [|[x y] [X Y] l bs [Hx Hy] _ IH]; cbn [dot fst snd] in *; [lia|nia]. Qed.

Lemma dot_from_done s l B bs :
  Z.abs s <= B -> Forall2 within l bs -> B + dot bs <= 9223372036854775807 ->
  dot_from s l = Done (s + dot l) /\ Z.abs (s + dot l) <= B + dot bs.
Proof.
  intros Hs Hl. revert s B Hs. induction Hl as [|[a b] [A B'] l bs [Ha Hb] Hl IH]; intros s B Hs Hmax; cbn [dot_from dot].
  { rewrite Z.add_0_r. split; [done|]. cbn [dot]. lia. }
  cbn [fst snd] in *. cbn [dot] in Hmax. pose proof (dot_bound_nonneg _ _ Hl) as Hnn.
  assert (Hab : Z.abs (a * b) <= A * B') by (rewrite Z.abs_mul; apply Z.mul_le_mono_nonneg; lia).
  rewrite int64_done by lia. cbn [mbind outcome_bind]. rewrite int64_done by lia. cbn [mbind outcome_bind].
  destruct (IH (s + a * b) (B + A * B')) as [H1 H2]; [lia|lia|]. rewrite H1.
  rewrite Z.add_assoc. split; [done|]. cbn [dot]. lia.
Qed.

Lemma dot64_step {T} l bs (k : Z -> outcome T) (Q : outcome T -> Prop) :
  Forall2 within l bs -> dot bs <= 9223372036854775807 -> (Z.abs (dot l) <= dot bs -> Q (k (dot l))) -> Q (dot64 l ≫= k).
Proof.
  intros Hl Hb Hk. unfold dot64. destruct (dot_from_done 0 l 0 bs) as [H1 H2]; [done|done|lia|].
  rewrite H1. rewrite Z.add_0_l in *. by apply Hk.
Qed.

(** The multiples of words that are computed before. *)
Lemma multiple_step {T} c g B (k : Z -> outcome T) (Q : outcome T -> Prop) :
  Z.abs g <= B -> 0 <= c -> c * B <= 2147483647 -> (Z.abs (c * g) <= c * B -> Q (k (c * g))) -> Q (int32 (c * g) ≫= k).
Proof.
  intros Hg Hc HB Hk. assert (Hcg : Z.abs (c * g) <= c * B) by (rewrite Z.abs_mul, Z.abs_eq by done; by apply Z.mul_le_mono_nonneg_l).
  rewrite int32_done by lia. by apply Hk.
Qed.

Ltac multiple :=
  eapply multiple_step; [eassumption|lia|lia|]; let H := fresh "Hm" in intros H; eval_bound H; cbn beta.

Ltac sum_of_products :=
  eapply dot64_step; [repeat (eapply within_cons; [eassumption|eassumption|]); constructor|vm_compute; discriminate|];
  let H := fresh "Hd" in intros H; eval_bound H; cbn beta;
  match type of H with Z.abs ?x <= _ => let h := fresh "h" in let E := fresh "Eh" in remember x as h eqn:E in H |- * end.

Lemma fe_mul_spec f g :
  factor f -> factor g ->
  exists h, fe_mul f g = Done h /\ reduced h /\ exists c, fe_val h = fe_val f * fe_val g - p25519 * c.
Proof.
  destruct f as [f0 f1 f2 f3 f4 f5 f6 f7 f8 f9], g as [g0 g1 g2 g3 g4 g5 g6 g7 g8 g9].
  intros [Hfe Hfo] [Hge Hgo]. cbn [l0 l1 l2 l3 l4 l5 l6 l7 l8 l9] in *. destruct_and!. unfold fe_mul.
  do 14 multiple. do 10 sum_of_products.
  edestruct carry_product_spec as (h' & Hc & Hr & c & Hv);
    [| |exists h'; split; [exact Hc|]; split; [exact Hr|]].
  1-2: split_and!; word_bound.
  exists (c +
    (2 * (f1 * g9) + 1 * (f2 * g8) + 2 * (f3 * g7) + 1 * (f4 * g6) + 2 * (f5 * g5) + 1 * (f6 * g4) + 2 * (f7 * g3) + 1
    * (f8 * g2) + 2 * (f9 * g1) + 67108864 * (f2 * g9) + 67108864 * (f3 * g8) + 67108864 * (f4 * g7) + 67108864 * (f5
    * g6) + 67108864 * (f6 * g5) + 67108864 * (f7 * g4) + 67108864 * (f8 * g3) + 67108864 * (f9 * g2) +
    4503599627370496 * (f3 * g9) + 2251799813685248 * (f4 * g8) + 4503599627370496 * (f5 * g7) + 2251799813685248 *
    (f6 * g6) + 4503599627370496 * (f7 * g5) + 2251799813685248 * (f8 * g4) + 4503599627370496 * (f9 * g3) +
    151115727451828646838272 * (f4 * g9) + 151115727451828646838272 * (f5 * g8) + 151115727451828646838272 * (f6 * g7)
    + 151115727451828646838272 * (f7 * g6) + 151115727451828646838272 * (f8 * g5) + 151115727451828646838272 * (f9 *
    g4) + 10141204801825835211973625643008 * (f5 * g9) + 5070602400912917605986812821504 * (f6 * g8) +
    10141204801825835211973625643008 * (f7 * g7) + 5070602400912917605986812821504 * (f8 * g6) +
    10141204801825835211973625643008 * (f9 * g5) + 340282366920938463463374607431768211456 * (f6 * g9) +
    340282366920938463463374607431768211456 * (f7 * g8) + 340282366920938463463374607431768211456 * (f8 * g7) +
    340282366920938463463374607431768211456 * (f9 * g6) + 22835963083295358096932575511191922182123945984 * (f7 * g9)
    + 11417981541647679048466287755595961091061972992 * (f8 * g8) + 22835963083295358096932575511191922182123945984 *
    (f9 * g7) + 766247770432944429179173513575154591809369561091801088 * (f8 * g9) +
    766247770432944429179173513575154591809369561091801088 * (f9 * g8) +
    51422017416287688817342786954917203280710495801049370729644032 * (f9 * g9))).
  rewrite Hv. unfold fe_val, fe_sum, p25519. cbn [l0 l1 l2 l3 l4 l5 l6 l7 l8 l9]. subst. cbn [dot]. ring.
Qed.

Lemma fe_sq_spec f :
  factor f -> exists h, fe_sq f = Done h /\ reduced h /\ exists c, fe_val h = fe_val f * fe_val f - p25519 * c.
Proof.
  destruct f as [f0 f1 f2 f3 f4 f5 f6 f7 f8 f9].
  intros [Hfe Hfo]. cbn [l0 l1 l2 l3 l4 l5 l6 l7 l8 l9] in *. destruct_and!. unfold fe_sq.
  do 13 multiple. do 10 sum_of_products.
  edestruct carry_product_spec as (h' & Hc & Hr & c & Hv);
    [| |exists h'; split; [exact Hc|]; split; [exact Hr|]].
  1-2: split_and!; word_bound.
  exists (c +
    (4 * (f1 * f9) + 2 * (f2 * f8) + 4 * (f3 * f7) + 2 * (f4 * f6) + 2 * (f5 * f5) + 134217728 * (f2 * f9) + 134217728
    * (f3 * f8) + 134217728 * (f4 * f7) + 134217728 * (f5 * f6) + 9007199254740992 * (f3 * f9) + 4503599627370496 *
    (f4 * f8) + 9007199254740992 * (f5 * f7) + 2251799813685248 * (f6 * f6) + 302231454903657293676544 * (f4 * f9) +
    302231454903657293676544 * (f5 * f8) + 302231454903657293676544 * (f6 * f7) + 20282409603651670423947251286016 *
    (f5 * f9) + 10141204801825835211973625643008 * (f6 * f8) + 10141204801825835211973625643008 * (f7 * f7) +
    680564733841876926926749214863536422912 * (f6 * f9) + 680564733841876926926749214863536422912 * (f7 * f8) +
    45671926166590716193865151022383844364247891968 * (f7 * f9) + 11417981541647679048466287755595961091061972992 *
    (f8 * f8) + 1532495540865888858358347027150309183618739122183602176 * (f8 * f9) +
    51422017416287688817342786954917203280710495801049370729644032 * (f9 * f9))).
  rewrite Hv. unfold fe_val, fe_sum, p25519. cbn [l0 l1 l2 l3 l4 l5 l6 l7 l8 l9]. subst. cbn [dot]. ring.
Qed.

Lemma fe_mul121666_spec f :
  loose f -> exists h, fe_mul121666 f = Done h /\ reduced h /\ exists c, fe_val h = 121666 * fe_val f - p25519 * c.
Proof.
  destruct f as [f0 f1 f2 f3 f4 f5 f6 f7 f8 f9].
  intros [Hfe Hfo]. cbn [l0 l1 l2 l3 l4 l5 l6 l7 l8 l9] in *. destruct_and!. unfold fe_mul121666.
  rewrite !int64_done by lia. cbn [mbind outcome_bind].
  edestruct carry_once_spec as (h' & Hc & Hr & c & Hv); [| |exists h'; split; [exact Hc|]; split; [exact Hr|]].
  1-2: split_and!; lia.
  exists c. rewrite Hv. unfold fe_val, fe_sum, p25519. cbn [l0 l1 l2 l3 l4 l5 l6 l7 l8 l9]. ring.
Qed.

Lemma fe_each_spec op f g :
  (forall x y, Z.abs x <= 36909875 -> Z.abs y <= 36909875 -> int32 (op x y) = Done (op x y)) ->
  (forall x y, Z.abs (op x y) <= Z.abs x + Z.abs y) -> tight f -> tight g ->
  exists h, fe_each (fun x y => int32 (op x y)) f g = Done h /\ loose h /\
    h = Fe (op (l0 f) (l0 g)) (op (l1 f) (l1 g)) (op (l2 f) (l2 g)) (op (l3 f) (l3 g)) (op (l4 f) (l4 g))
      (op (l5 f) (l5 g)) (op (l6 f) (l6 g)) (op (l7 f) (l7 g)) (op (l8 f) (l8 g)) (op (l9 f) (l9 g)).
Proof.
  intros Hop Habs [Hfe Hfo] [Hge Hgo]. destruct_and!. eexists. split; [|split; [|reflexivity]].
  - unfold fe_each. rewrite !Hop by lia. cbn [mbind outcome_bind]. reflexivity.
  - assert (Hb : forall x y b, Z.abs x <= b -> Z.abs y <= b -> Z.abs (op x y) <= 2 * b).
    { clear - Habs. intros x y b Hx Hy. specialize (Habs x y). lia. }
    split; split_and!; cbn [l0 l1 l2 l3 l4 l5 l6 l7 l8 l9];
      (etransitivity; [eapply Hb; eassumption|vm_compute; discriminate]).
Qed.

Lemma fe_add_spec f g : tight f -> tight g -> exists h, fe_add f g = Done h /\ loose h /\ fe_val h = fe_val f + fe_val g.
Proof.
  intros Hf Hg. destruct (fe_each_spec Z.add f g) as (h & Hh & Hl & ->); [|intros; lia|done|done|].
  { intros x y Hx Hy. apply int32_done. lia. }
  eexists. split; [exact Hh|]. split; [exact Hl|]. unfold fe_val, fe_sum. cbn [l0 l1 l2 l3 l4 l5 l6 l7 l8 l9]. ring.
Qed.

Lemma fe_sub_spec f g : tight f -> tight g -> exists h, fe_sub f g = Done h /\ loose h /\ fe_val h = fe_val f - fe_val g.
Proof.
  intros Hf Hg. destruct (fe_each_spec Z.sub f g) as (h & Hh & Hl & ->); [|intros; lia|done|done|].
  { intros x y Hx Hy. apply int32_done. lia. }
  eexists. split; [exact Hh|]. split; [exact Hl|]. unfold fe_val, fe_sum. cbn [l0 l1 l2 l3 l4 l5 l6 l7 l8 l9]. ring.
Qed.

(** ** The swap *)

Lemma signed_lxor x y :
  -2147483648 <= x <= 2147483647 -> -2147483648 <= y <= 2147483647 -> -2147483648 <= Z.lxor x y <= 2147483647.
Proof.
  assert (Hs : forall z, -2147483648 <= z <= 2147483647 <-> Z.shiftr z 31 = 0 \/ Z.shiftr z 31 = -1).
  { intros z. rewrite Z.shiftr_div_pow2 by lia. change (2 ^ 31) with 2147483648. Z.to_euclidean_division_equations. lia. }
  rewrite !Hs, Z.shiftr_lxor. by intros [-> | ->] [-> | ->]; [left|right|right|left].
Qed.

Lemma i32_u32 x : -2147483648 <= x <= 2147483647 -> i32 (u32 x) = x.
Proof.
  intros Hx. unfold i32, u32, wrap. change (2 ^ 32) with 4294967296. rewrite Zplus_mod_idemp_l.
  change ((x + 2147483648) mod 4294967296 - 2147483648) with (i32 x). by apply i32_small.
Qed.

Lemma swap_word_spec (b : bool) f g :
  Z.abs f <= 2147483647 -> Z.abs g <= 2147483647 -> swap_word (Z.b2z b) f g = if b then (g, f) else (f, g).
Proof.
  intros Hf Hg. unfold swap_word. destruct b; cbn [Z.b2z].
  - change (u32 (0 - 1)) with (Z.ones 32). rewrite Z.land_ones by lia. rewrite (Z.mod_small (u32 _)) by apply u32_range.
    rewrite i32_u32 by (apply signed_lxor; lia).
    assert (Hc : forall a b, Z.lxor a (Z.lxor a b) = b) by (intros a b; by rewrite <- Z.lxor_assoc, Z.lxor_nilpotent, Z.lxor_0_l).
    by rewrite Hc, (Z.lxor_comm f g), Hc.
  - change (u32 (0 - 0)) with 0. rewrite Z.land_0_r. change (i32 0) with 0. by rewrite !Z.lxor_0_r.
Qed.

Lemma fe_cswap_spec (b : bool) f g : loose f -> loose g -> fe_cswap f g (Z.b2z b) = if b then (g, f) else (f, g).
Proof.
  intros [Hfe Hfo] [Hge Hgo]. destruct_and!. unfold fe_cswap. cbn zeta. rewrite !swap_word_spec by (eapply Z.le_trans; [eassumption|lia]).
  by destruct f, g, b.
Qed.

(** ** Loading *)

Lemma load_3_num a b c l : byte_ok a -> byte_ok b -> byte_ok c -> load_3 (a :: b :: c :: l) = a + 256 * b + 65536 * c.
Proof.
  unfold byte_ok, load_3. cbn [nth]. intros Ha Hb Hc.
  rewrite (Z.lor_comm a), lor_shiftl_low by lia. rewrite Z.lor_comm, lor_shiftl_low by lia. lia.
Qed.

Lemma load_4_num a b c d l :
  byte_ok a -> byte_ok b -> byte_ok c -> byte_ok d -> load_4 (a :: b :: c :: d :: l) = a + 256 * b + 65536 * c + 16777216 * d.
Proof.
  intros Ha Hb Hc Hd. unfold load_4. rewrite load_3_num by done. unfold byte_ok in *. cbn [nth].
  rewrite Z.lor_comm, lor_shiftl_low by lia. lia.
Qed.

Lemma three_range a b c : byte_ok a -> byte_ok b -> byte_ok c -> 0 <= a + 256 * b + 65536 * c < 16777216.
Proof. unfold byte_ok. lia. Qed.

Lemma four_range a b c d : byte_ok a -> byte_ok b -> byte_ok c -> byte_ok d ->
  0 <= a + 256 * b + 65536 * c + 16777216 * d < 4294967296.
Proof. unfold byte_ok. lia. Qed.

Lemma shifted x n : 0 <= x < 16777216 -> 0 <= n <= 7 -> i64 (u64 (Z.shiftl x n)) = x * 2 ^ n.
Proof.
  intros Hx Hn. rewrite Z.shiftl_mul_pow2 by lia. assert (2 ^ n <= 2 ^ 7) by (apply Z.pow_le_mono_r; lia).
  change (2 ^ 7) with 128 in *. pose proof (Z.pow_pos_nonneg 2 n ltac:(lia) ltac:(lia)).
  rewrite u64_small by nia. apply i64_small. nia.
Qed.

Lemma i64_load_4 a b c d l :
  byte_ok a -> byte_ok b -> byte_ok c -> byte_ok d ->
  i64 (load_4 (a :: b :: c :: d :: l)) = a + 256 * b + 65536 * c + 16777216 * d.
Proof. intros Ha Hb Hc Hd. rewrite load_4_num by done. pose proof (four_range a b c d Ha Hb Hc Hd). apply i64_small. lia. Qed.

(** The number of 32 bytes without its top bit. *)
Definition u_num (s : bytes) : Z := le_num (<[31%nat := Z.land (nth 31 s 0) 127]> s).

Lemma fe_frombytes_spec s :
  bytes_ok s -> length s = 32%nat -> exists f, fe_frombytes s = Done f /\ reduced f /\ exists c, fe_val f = u_num s - p25519 * c.
Proof.
  intros Hs Hl. do 32 (destruct s as [|? s]; [done|]). destruct s; [|done]. unfold bytes_ok in Hs. rewrite !Forall_cons in Hs. destruct_and!.
  unfold fe_frombytes, u_num. cbn [drop nth insert list_insert].
  rewrite !i64_load_4, !load_3_num by assumption.
  change 8388607 with (Z.ones 23). change 127 with (Z.ones 7). rewrite !Z.land_ones by lia.
  match goal with |- context [(?a + 256 * ?b + 65536 * ?c) mod 2 ^ 23] =>
    assert (Htop : (a + 256 * b + 65536 * c) mod 2 ^ 23 = a + 256 * b + 65536 * (c mod 2 ^ 7));
    [|assert (Hbyte : byte_ok (c mod 2 ^ 7))]; [| |rewrite Htop; clear Htop; set (t := c mod 2 ^ 7) in *; clearbody t] end.
  { unfold byte_ok in *. change (2 ^ 23) with 8388608. change (2 ^ 7) with 128.
    clear - H28 H29 H30. Z.to_euclidean_division_equations. lia. }
  { unfold byte_ok. change (2 ^ 7) with 128. clear. Z.to_euclidean_division_equations. lia. }
  rewrite !shifted by first [lia|by apply three_range].
  edestruct carry_once_spec as (h' & Hc & Hr & c & Hv); [| |exists h'; split; [exact Hc|]; split; [exact Hr|]].
  1-2: unfold byte_ok in *; split_and!; lia.
  exists c. rewrite Hv. unfold fe_sum. cbn [le_num]. ring.
Qed.

(** ** Storing *)

Lemma quotient_step_spec {T} h q n B (k : Z -> outcome T) (Q : outcome T -> Prop) :
  Z.abs h <= B -> B <= 100000000 -> Z.abs q <= 64 -> 25 <= n <= 26 ->
  (forall q' r, h + q = 2 ^ n * q' + r -> 0 <= r < 2 ^ n -> Z.abs q' <= 64 -> Q (k q')) -> Q (quotient_step h q n ≫= k).
Proof.
  intros Hh HB Hq Hn Hk. unfold quotient_step. rewrite int32_done by lia. cbn [mbind outcome_bind].
  rewrite Z.shiftr_div_pow2 by lia. assert (Hp : 2 ^ n = 33554432 \/ 2 ^ n = 67108864).
  { assert (n = 25 \/ n = 26) as [-> | ->] by lia; [by left|by right]. }
  apply (Hk _ ((h + q) mod 2 ^ n)).
  - apply Z.div_mod. lia.
  - apply Z.mod_pos_bound. lia.
  - destruct Hp as [-> | ->]; Z.to_euclidean_division_equations; lia.
Qed.

Lemma full_carry_spec {T} h h' n mask B (k : Z * Z -> outcome T) (Q : outcome T -> Prop) :
  Z.abs h <= 100000000 -> Z.abs h' <= B -> B <= 90000000 -> 25 <= n <= 26 -> mask = Z.ones n ->
  (forall c r, h = 2 ^ n * c + r -> 0 <= r < 2 ^ n -> Z.abs (h' + c) <= 100000000 -> Q (k (r, h' + c))) ->
  Q (full_carry h h' n mask ≫= k).
Proof.
  intros Hh Hh' HB Hn -> Hk. unfold full_carry. rewrite Z.land_ones, Z.shiftr_div_pow2 by lia.
  assert (Hp : 2 ^ n = 33554432 \/ 2 ^ n = 67108864).
  { assert (n = 25 \/ n = 26) as [-> | ->] by lia; [by left|by right]. }
  assert (Hc : Z.abs (h / 2 ^ n) <= 64) by (destruct Hp as [-> | ->]; Z.to_euclidean_division_equations; lia).
  pose proof (Z.mod_pos_bound h (2 ^ n) ltac:(lia)) as Hr.
  rewrite int32_done by lia. cbn [mbind outcome_bind]. rewrite i32_small by lia. apply Hk; [apply Z.div_mod; lia|lia|lia].
Qed.

(** The range of a sum of words without overlaps. *)
Lemma fe_sum_range r0 r1 r2 r3 r4 r5 r6 r7 r8 r9 :
  0 <= r0 < 2 ^ 26 -> 0 <= r1 < 2 ^ 25 -> 0 <= r2 < 2 ^ 26 -> 0 <= r3 < 2 ^ 25 -> 0 <= r4 < 2 ^ 26 ->
  0 <= r5 < 2 ^ 25 -> 0 <= r6 < 2 ^ 26 -> 0 <= r7 < 2 ^ 25 -> 0 <= r8 < 2 ^ 26 -> 0 <= r9 < 2 ^ 25 ->
  0 <= fe_sum r0 r1 r2 r3 r4 r5 r6 r7 r8 r9 < 2 ^ 255.
Proof. unfold fe_sum. lia. Qed.

Lemma bind_done_r {A} (m : outcome A) : (m ≫= Done) = m.
Proof. by destruct m. Qed.

(** The argument of the comment before fe_tobytes. *)
Lemma quotient_exact h9 w q0 s q r :
  Z.abs w < 2 ^ 231 -> 19 * h9 + 2 ^ 24 = 2 ^ 25 * q0 + s -> 0 <= s < 2 ^ 25 ->
  2 ^ 230 * h9 + w + q0 = 2 ^ 255 * q + r -> 0 <= r < 2 ^ 255 -> Z.abs q <= 64 -> 0 <= 2 ^ 230 * h9 + w - p25519 * q < p25519.
Proof.
  intros Hw Hs Hsr Hq Hr Hqb. set (x := 2 ^ 230 * h9 + w - p25519 * q).
  assert (Hx : (2 ^ 255 + 19) * x = 2 ^ 255 * r - 2 ^ 254 + 2 ^ 230 * s + 19 * w + 361 * q) by (unfold x, p25519; lia).
  clearbody x. unfold p25519. lia.
Qed.

Ltac clear_bounds :=
  repeat match goal with H : Z.abs _ <= _ |- _ => clear H | H : _ <= _ < _ |- _ => clear H end.

Lemma fe_quotient_spec h :
  loose h -> exists q, fe_quotient h = Done q /\ Z.abs q <= 64 /\ 0 <= fe_val h - p25519 * q < p25519.
Proof.
  destruct h as [h0 h1 h2 h3 h4 h5 h6 h7 h8 h9]. intros [He Ho]. cbn [l0 l1 l2 l3 l4 l5 l6 l7 l8 l9] in *. destruct_and!.
  unfold fe_quotient. cbn [l0 l1 l2 l3 l4 l5 l6 l7 l8 l9]. change (Z.shiftl 1 24) with 16777216.
  do 2 (rewrite int32_done by lia; cbn [mbind outcome_bind]).
  rewrite Z.shiftr_div_pow2 by lia. set (q := (19 * h9 + 16777216) / 2 ^ 25).
  assert (Hq : exists s, 19 * h9 + 16777216 = 33554432 * q + s /\ 0 <= s < 33554432 /\ Z.abs q <= 64).
  { exists ((19 * h9 + 16777216) mod 2 ^ 25). unfold q. change (2 ^ 25) with 33554432. clear - H4. Z.to_euclidean_division_equations. lia. }
  destruct Hq as (s & Hs & Hsr & Hqb). clearbody q.
  do 9 (eapply quotient_step_spec; [eassumption|lia|eassumption|lia|]; intros ? ? ? ? ?).
  rewrite <- (bind_done_r (quotient_step _ _ _)). eapply quotient_step_spec; [eassumption|lia|eassumption|lia|].
  intros qq r9 Hq' Hr9 Hqb'. exists qq. split; [done|]. split; [done|].
  set (w := fe_sum h0 h1 h2 h3 h4 h5 h6 h7 h8 0).
  replace (fe_val _) with (2 ^ 230 * h9 + w) by (unfold w, fe_val, fe_sum; cbn [l0 l1 l2 l3 l4 l5 l6 l7 l8 l9]; ring).
  eapply (quotient_exact h9 w q s qq (fe_sum r r0 r1 r2 r3 r4 r5 r6 r7 r9)); [|exact Hs|exact Hsr| |apply fe_sum_range; assumption|exact Hqb'].
  - rewrite !Z.abs_le in *. unfold w, fe_sum. lia.
  - unfold w, fe_sum. clear_bounds. lia.
Qed.

(** The words without overlaps that fe_tobytes stores. *)
Lemma limb_bytes h a b c : 0 <= a -> b = a + 8 -> c = a + 16 ->
  h = h mod 2 ^ a + 2 ^ a * u8 (Z.shiftr h a) + 2 ^ b * u8 (Z.shiftr h b) + 2 ^ c * Z.shiftr h c.
Proof.
  intros Ha -> ->. rewrite !Z.shiftr_div_pow2 by lia. rewrite !Z.pow_add_r by lia. unfold u8, wrap.
  pose proof (Z.pow_pos_nonneg 2 a ltac:(lia) ltac:(lia)) as Hp. rewrite <- !Z.div_div by lia.
  rewrite (Z.div_mod h (2 ^ a)) at 1 by lia. set (x := h / 2 ^ a). change (2 ^ 16) with 65536. change (2 ^ 8) with 256.
  assert (Hx : x = x mod 256 + 256 * ((x / 256) mod 256) + 65536 * (x / 65536)) by (Z.to_euclidean_division_equations; lia).
  rewrite Hx at 1. ring.
Qed.

Lemma joint_byte k t h : 0 <= k <= 7 -> 0 <= t < 2 ^ k -> 0 <= h -> h * 2 ^ k < 2 ^ 32 ->
  u8 (Z.lor (u32 t) (u32 (Z.shiftl (u32 h) k))) = t + 2 ^ k * (h mod 2 ^ (8 - k)).
Proof.
  intros Hk Ht Hh Hlt. pose proof (Z.pow_pos_nonneg 2 k ltac:(lia) ltac:(lia)) as Hp.
  assert (Hk7 : 2 ^ k <= 2 ^ 7) by (apply Z.pow_le_mono_r; lia). change (2 ^ 7) with 128 in *. change (2 ^ 32) with 4294967296 in *.
  rewrite (u32_small h) by nia. rewrite Z.shiftl_mul_pow2 by lia. rewrite !u32_small by nia.
  rewrite <- Z.shiftl_mul_pow2, Z.lor_comm, lor_shiftl_low by lia. unfold u8, wrap.
  replace (2 ^ 8) with (2 ^ k * 2 ^ (8 - k)) by (rewrite <- Z.pow_add_r by lia; f_equal; lia).
  rewrite Z.add_comm, (Z.mul_comm h). pose proof (Z.pow_pos_nonneg 2 (8 - k) ltac:(lia) ltac:(lia)) as Hp'.
  rewrite Z.rem_mul_r by lia. rewrite (Z.mul_comm (2 ^ k) h), Z.mod_add, Z.mod_small, Z.div_add, Z.div_small by lia. by rewrite Z.add_0_l.
Qed.

Lemma fe_store_bytes h0 h1 h2 h3 h4 h5 h6 h7 h8 h9 :
  0 <= h0 < 2 ^ 26 -> 0 <= h1 < 2 ^ 25 -> 0 <= h2 < 2 ^ 26 -> 0 <= h3 < 2 ^ 25 -> 0 <= h4 < 2 ^ 26 ->
  0 <= h5 < 2 ^ 25 -> 0 <= h6 < 2 ^ 26 -> 0 <= h7 < 2 ^ 25 -> 0 <= h8 < 2 ^ 26 -> 0 <= h9 < 2 ^ 25 ->
  fe_store h0 h1 h2 h3 h4 h5 h6 h7 h8 h9 = le_bytes 32 (fe_sum h0 h1 h2 h3 h4 h5 h6 h7 h8 h9).
Proof.
  intros. unfold fe_store.
  match goal with |- ?l = _ => assert (Hok : bytes_ok l); [|rewrite <- (le_bytes_num l Hok)] end.
  { repeat (apply Forall_cons; split; [apply (wrap_range 8); lia|]). by apply Forall_nil. }
  apply (f_equal (le_bytes 32)). cbn [le_num]. clear Hok.
  rewrite !joint_byte by first [lia|rewrite Z.shiftr_div_pow2 by lia; Z.to_euclidean_division_equations; lia].
  assert (H18 : forall h, 0 <= h < 2 ^ 26 -> u8 (Z.shiftr h 18) = Z.shiftr h 18).
  { intros h Hh. apply Z.mod_small. rewrite Z.shiftr_div_pow2 by lia. change (2 ^ 26) with 67108864 in Hh. change (2 ^ 18) with 262144.
    change (2 ^ 8) with 256. Z.to_euclidean_division_equations. lia. }
  rewrite !H18 by lia.
  pose proof (limb_bytes h0 8 16 24 ltac:(lia) eq_refl eq_refl) as E0.
  pose proof (limb_bytes h1 6 14 22 ltac:(lia) eq_refl eq_refl) as E1.
  pose proof (limb_bytes h2 5 13 21 ltac:(lia) eq_refl eq_refl) as E2.
  pose proof (limb_bytes h3 3 11 19 ltac:(lia) eq_refl eq_refl) as E3.
  pose proof (limb_bytes h4 2 10 18 ltac:(lia) eq_refl eq_refl) as E4.
  pose proof (limb_bytes h5 8 16 24 ltac:(lia) eq_refl eq_refl) as E5.
  pose proof (limb_bytes h6 7 15 23 ltac:(lia) eq_refl eq_refl) as E6.
  pose proof (limb_bytes h7 5 13 21 ltac:(lia) eq_refl eq_refl) as E7.
  pose proof (limb_bytes h8 4 12 20 ltac:(lia) eq_refl eq_refl) as E8.
  pose proof (limb_bytes h9 2 10 18 ltac:(lia) eq_refl eq_refl) as E9.
  rewrite !Z.shiftr_0_r. unfold u8 at 1, wrap at 1. unfold fe_sum.
  change (8 - 1) with 7. change (8 - 2) with 6. change (8 - 3) with 5. change (8 - 4) with 4. change (8 - 5) with 3.
  change (8 - 6) with 2. change (u8 h5) with (h5 mod 2 ^ 8).
  clear_bounds. clear H18. lia.
Qed.

Lemma fe_tobytes_spec h : loose h -> fe_tobytes h = Done (le_bytes 32 (fe_val h mod p25519)).
Proof.
  intros Hl. destruct (fe_quotient_spec h Hl) as (q & Hq & Hqb & Hex). unfold fe_tobytes. rewrite Hq. cbn [mbind outcome_bind].
  destruct h as [h0 h1 h2 h3 h4 h5 h6 h7 h8 h9]. destruct Hl as [He Ho]. cbn [l0 l1 l2 l3 l4 l5 l6 l7 l8 l9] in *.
  revert Hex. destruct_and!. intros Hex. do 2 (rewrite int32_done by lia; cbn [mbind outcome_bind]).
  assert (H0' : Z.abs (h0 + 19 * q) <= 100000000) by lia.
  do 9 (eapply full_carry_spec; [eassumption|eassumption|lia|lia|reflexivity|]; intros ? ? ? ? ?; cbn beta iota).
  unfold kBottom25Bits.
  change 0x1ffffff with (Z.ones 25). rewrite Z.land_ones by lia.
  match goal with |- context [?x mod 2 ^ 25] => pose proof (Z.div_mod x (2 ^ 25) ltac:(lia)) as Hd;
    pose proof (Z.mod_pos_bound x (2 ^ 25) ltac:(lia)) as Hr; set (d := x / 2 ^ 25) in *; set (r9 := x mod 2 ^ 25) in *; clearbody d r9 end.
  rewrite i32_small by (clear - Hr; lia). set (total := fe_sum r r0 r1 r2 r3 r4 r5 r6 r7 r9).
  assert (Hrange : 0 <= total < 2 ^ 255) by (apply fe_sum_range; assumption).
  set (v := fe_val _) in *. assert (Hsum : v + 19 * q = 2 ^ 255 * d + total).
  { unfold v, fe_val, total, fe_sum. cbn [l0 l1 l2 l3 l4 l5 l6 l7 l8 l9]. clear_bounds. lia. }
  rewrite fe_store_bytes by assumption. fold total. clearbody v total.
  assert (v mod p25519 = total) as ->; [|done]. assert (Hd' : d = q) by (unfold p25519 in Hex; clear - Hex Hsum Hrange; lia). subst d.
  symmetry. apply (Z.mod_unique_pos v p25519 q); unfold p25519 in *; clear - Hex Hsum Hrange; lia.
Qed.

(** ** Inversion *)

(** An element that is a power of another one, modulo the prime. *)
Definition is_pow (z : fe) (n : Z) (t : fe) : Prop := reduced t /\ fe_val t mod p25519 = fe_val z ^ n mod p25519.

Lemma sub_multiple_mod a c : (a - p25519 * c) mod p25519 = a mod p25519.
Proof. unfold Z.sub. rewrite <- Z.mul_opp_r, Z.mul_comm. apply Z.mod_add. done. Qed.

Lemma is_pow_mul z a b s t :
  is_pow z a s -> is_pow z b t -> 0 <= a -> 0 <= b -> exists h, fe_mul s t = Done h /\ is_pow z (a + b) h.
Proof.
  intros [Hs Ha] [Ht Hb] Ha0 Hb0. destruct (fe_mul_spec s t) as (h & Hh & Hr & c & Hv); [auto..|].
  exists h. split; [exact Hh|]. split; [exact Hr|].
  rewrite Hv, sub_multiple_mod, Z.pow_add_r by done. rewrite (Z.mul_mod (fe_val s)), Ha, Hb by done. by rewrite <- Z.mul_mod.
Qed.

Lemma is_pow_sq z a t : is_pow z a t -> 0 <= a -> exists h, fe_sq t = Done h /\ is_pow z (2 * a) h.
Proof.
  intros [Ht Ha] Ha0. destruct (fe_sq_spec t) as (h & Hh & Hr & c & Hv); [auto..|].
  exists h. split; [exact Hh|]. split; [exact Hr|].
  rewrite Hv, sub_multiple_mod. replace (2 * a) with (a + a) by lia. rewrite Z.pow_add_r by done.
  rewrite (Z.mul_mod (fe_val t)), Ha by done. by rewrite <- Z.mul_mod.
Qed.

Lemma is_pow_sq_times n z a t :
  is_pow z a t -> 0 <= a -> exists h, fe_sq_times n t = Done h /\ is_pow z (2 ^ Z.of_nat n * a) h.
Proof.
  revert a t. induction n as [|n IH]; intros a t Ht Ha; cbn [fe_sq_times].
  - exists t. split; [done|]. by rewrite Z.mul_1_l.
  - destruct (is_pow_sq z a t Ht Ha) as (t' & -> & Ht'). cbn [mbind outcome_bind].
    destruct (IH (2 * a) t' Ht' ltac:(lia)) as (h & Hh & Hp). exists h. split; [exact Hh|].
    rewrite Nat2Z.inj_succ, Z.pow_succ_r by lia. by replace (2 * 2 ^ Z.of_nat n * a) with (2 ^ Z.of_nat n * (2 * a)) by lia.
Qed.

(** One step of the addition chain. *)
Lemma step_done {A T} (m : outcome A) (R : A -> Prop) (k : A -> outcome T) (Q : outcome T -> Prop) :
  (exists h, m = Done h /\ R h) -> (forall h, R h -> Q (k h)) -> Q (m ≫= k).
Proof. intros (h & -> & Hh) Hk. by apply Hk. Qed.

Ltac eval_pow H :=
  let T := type of H in
  match T with is_pow ?z ?n ?t => let m := eval vm_compute in n in change (is_pow z m t) in H end.

Ltac chain_step :=
  eapply step_done;
    [first [eapply is_pow_mul; [eassumption|eassumption|lia|lia]|eapply is_pow_sq; [eassumption|lia]
           |eapply is_pow_sq_times; [eassumption|lia]]|];
  let h := fresh "h" in let H := fresh "Hp" in intros h H; eval_pow H.

Lemma fe_invert_spec z : reduced z -> exists h, fe_invert z = Done h /\ is_pow z (p25519 - 2) h.
Proof.
  intros Hz. assert (H1 : is_pow z 1 z) by (split; [done|by rewrite Z.pow_1_r]). unfold fe_invert.
  do 29 chain_step.
  edestruct is_pow_mul as (h' & Hh & Hp'); [eassumption|exact Hp3|lia|lia|]. exists h'. split; [exact Hh|].
  eval_pow Hp'. exact Hp'.
Qed.

(** ** The operations on values modulo the prime *)

Definition fe_is (v : Z) (f : fe) : Prop := reduced f /\ fe_val f mod p25519 = v.
Definition fe_is_loose (v : Z) (f : fe) : Prop := loose f /\ fe_val f mod p25519 = v.

Lemma fe_is_weaken v f : fe_is v f -> fe_is_loose v f.
Proof. intros [Hr Hv]. split; auto. Qed.

Lemma fe_add_is a b f g : fe_is a f -> fe_is b g -> exists h, fe_add f g = Done h /\ fe_is_loose ((a + b) mod p25519) h.
Proof.
  intros [Hf <-] [Hg <-]. destruct (fe_add_spec f g) as (h & Hh & Hl & Hv); [auto..|].
  exists h. split; [exact Hh|]. split; [exact Hl|]. by rewrite Hv, <- Zplus_mod.
Qed.

Lemma fe_sub_is a b f g : fe_is a f -> fe_is b g -> exists h, fe_sub f g = Done h /\ fe_is_loose ((a - b) mod p25519) h.
Proof.
  intros [Hf <-] [Hg <-]. destruct (fe_sub_spec f g) as (h & Hh & Hl & Hv); [auto..|].
  exists h. split; [exact Hh|]. split; [exact Hl|]. by rewrite Hv, <- Zminus_mod.
Qed.

Lemma fe_mul_is a b f g : fe_is_loose a f -> fe_is_loose b g -> exists h, fe_mul f g = Done h /\ fe_is ((a * b) mod p25519) h.
Proof.
  intros [Hf <-] [Hg <-]. destruct (fe_mul_spec f g) as (h & Hh & Hr & c & Hv); [auto..|].
  exists h. split; [exact Hh|]. split; [exact Hr|]. by rewrite Hv, sub_multiple_mod, <- Zmult_mod.
Qed.

Lemma fe_sq_is a f : fe_is_loose a f -> exists h, fe_sq f = Done h /\ fe_is ((a * a) mod p25519) h.
Proof.
  intros [Hf <-]. destruct (fe_sq_spec f) as (h & Hh & Hr & c & Hv); [auto..|].
  exists h. split; [exact Hh|]. split; [exact Hr|]. by rewrite Hv, sub_multiple_mod, <- Zmult_mod.
Qed.

Lemma fe_mul121666_is a f : fe_is_loose a f -> exists h, fe_mul121666 f = Done h /\ fe_is ((121666 * a) mod p25519) h.
Proof.
  intros [Hf <-]. destruct (fe_mul121666_spec f Hf) as (h & Hh & Hr & c & Hv).
  exists h. split; [exact Hh|]. split; [exact Hr|]. by rewrite Hv, sub_multiple_mod, Zmult_mod_idemp_r.
Qed.

Lemma fe_1_is : fe_is 1 fe_1.
Proof. split; [split; vm_compute; intuition discriminate|done]. Qed.

Lemma fe_0_is : fe_is 0 fe_0.
Proof. split; [split; vm_compute; intuition discriminate|done]. Qed.

(** ** Products within the documented bounds *)

(** C40: Products and squares of elements whose words are within 1.65 * 2^26 and
    1.65 * 2^25 never overflow a signed 32- or 64-bit integer, their words are within
    1.01 * 2^25 and 1.01 * 2^24, and the bytes they are stored as are the little-endian
    residues of the products; just beyond, at words of 2^27, the code runs into undefined behaviour. *)
Theorem fe_products f g :
  factor f -> factor g ->
  (exists h, fe_mul f g = Done h /\ reduced h /\ fe_tobytes h = Done (le_bytes 32 ((fe_val f * fe_val g) mod p25519))) /\
  (exists h, fe_sq f = Done h /\ reduced h /\ fe_tobytes h = Done (le_bytes 32 (fe_val f ^ 2 mod p25519))) /\
  (let big := Fe 134217728 0 0 0 0 0 0 0 134217728 0 in
   fe_mul big big = Crash SignedOverflow /\ fe_sq big = Crash SignedOverflow).
Proof.
  intros Hf Hg. split; [|split; [|split; reflexivity]].
  - destruct (fe_mul_spec f g Hf Hg) as (h & Hh & Hr & c & Hv). exists h. split; [exact Hh|]. split; [exact Hr|].
    rewrite fe_tobytes_spec by auto. by rewrite Hv, sub_multiple_mod.
  - destruct (fe_sq_spec f Hf) as (h & Hh & Hr & c & Hv). exists h. split; [exact Hh|]. split; [exact Hr|].
    rewrite fe_tobytes_spec by auto. by rewrite Hv, sub_multiple_mod, Z.pow_2_r.
Qed.

(** All words at the bounds. *)
Definition extreme : fe :=
  Fe 110729625 (-55364812) 110729625 (-55364812) 110729625 (-55364812) 110729625 (-55364812) 110729625 (-55364812).

Lemma fe_products_witness :
  exists h, fe_sq extreme = Done h /\ reduced h /\ fe_tobytes h = Done (le_bytes 32 (fe_val extreme ^ 2 mod p25519)).
Proof.
  destruct (fe_products extreme extreme) as (_ & H & _); [| |exact H];
    (split; [split; [|split; [|split; [|split]]]|split; [|split; [|split; [|split]]]]); vm_compute; discriminate.
Defined.
