(* ===== verification/X25519.v ===== *)
(** * X25519 (crypto/ec/curve25519.c)

    The Montgomery ladder of x25519_scalar_mult_generic and the check of
    ossl_x25519, with the function of RFC 7748, section 5, that they compute. *)

From S2P Require Import Prelude CLib Words KeyWrap Fe25519.

(** e[0] &= 248; e[31] &= 127; e[31] |= 64; *)
Definition clamp (scalar : bytes) : bytes :=
  let e := take 32 scalar in
  let e := <[0%nat := Z.land (nth 0 e 0) 248]> e in
  let e := <[31%nat := Z.land (nth 31 e 0) 127]> e in
  <[31%nat := Z.lor (nth 31 e 0) 64]> e.

(** The variables of the loop. *)
Record ladder := Ladder { x2 : fe; z2 : fe; x3 : fe; z3 : fe; swap : Z }.

(** 1 & (e[pos / 8] >> (pos & 7)) *)
Definition scalar_bit (e : bytes) (pos : nat) : Z := Z.land 1 (Z.shiftr (nth (pos / 8) e 0) (Z.land (Z.of_nat pos) 7)).

Definition ladder_step (e : bytes) (x1 : fe) (pos : nat) (s : ladder) : outcome ladder :=
  let b := scalar_bit e pos in
  let sw := Z.lxor (swap s) b in
  let '(x2, x3) := fe_cswap (x2 s) (x3 s) sw in
  let '(z2, z3) := fe_cswap (z2 s) (z3 s) sw in
  let sw := b in
  tmp0 ← fe_sub x3 z3;
  tmp1 ← fe_sub x2 z2;
  x2 ← fe_add x2 z2;
  z2 ← fe_add x3 z3;
  z3 ← fe_mul tmp0 x2;
  z2 ← fe_mul z2 tmp1;
  tmp0 ← fe_sq tmp1;
  tmp1 ← fe_sq x2;
  x3 ← fe_add z3 z2;
  z2 ← fe_sub z3 z2;
  x2 ← fe_mul tmp1 tmp0;
  tmp1 ← fe_sub tmp1 tmp0;
  z2 ← fe_sq z2;
  z3 ← fe_mul121666 tmp1;
  x3 ← fe_sq x3;
  tmp0 ← fe_add tmp0 z3;
  z3 ← fe_mul x1 z2;
  z2 ← fe_mul tmp1 tmp0;
  Done (Ladder x2 z2 x3 z3 sw).

(** for (pos = n - 1; pos >= 0; --pos) *)
Fixpoint ladder_loop (e : bytes) (x1 : fe) (n : nat) (s : ladder) : outcome ladder :=
  match n with
  | O => Done s
  | S pos => s ← ladder_step e x1 pos s; ladder_loop e x1 pos s
  end.

Definition x25519_scalar_mult_generic (scalar point : bytes) : outcome bytes :=
  let e := clamp scalar in
  x1 ← fe_frombytes point;
  s ← ladder_loop e x1 255 (Ladder fe_1 fe_0 x1 fe_1 0);
  z ← fe_invert (z2 s);
  x ← fe_mul (x2 s) z;
  fe_tobytes x.

(** The shared key, and whether it is not the one of a point of small order. *)
Definition ossl_x25519 (private_key peer_public_value : bytes) : outcome (bytes * bool) :=
  out ← x25519_scalar_mult_generic private_key peer_public_value;
  r ← CRYPTO_memcmp (memset0 32) out 32;
  Done (out, negb (r =? 0)).

(** ** RFC 7748, section 5 *)

Definition a24 : Z := 121665.

(** decodeScalar25519 and decodeUCoordinate *)
Definition rfc_scalar (k : bytes) : Z :=
  let e := <[31%nat := Z.lor (Z.land (nth 31 k 0) 127) 64]> (<[0%nat := Z.land (nth 0 k 0) 248]> k) in le_num e.
Definition rfc_u (u : bytes) : Z := le_num (<[31%nat := Z.land (nth 31 u 0) 127]> u) mod p25519.

(** cswap, of integers *)
Definition rfc_cswap (swap : bool) (x y : Z) : Z * Z := if swap then (y, x) else (x, y).

Definition rfc_step (u k : Z) (t : Z) (st : Z * Z * Z * Z * bool) : Z * Z * Z * Z * bool :=
  let '(x2, z2, x3, z3, swap) := st in
  let k_t := Z.testbit k t in
  let '(x2, x3) := rfc_cswap (xorb swap k_t) x2 x3 in
  let '(z2, z3) := rfc_cswap (xorb swap k_t) z2 z3 in
  let A := (x2 + z2) mod p25519 in
  let AA := (A * A) mod p25519 in
  let B := (x2 - z2) mod p25519 in
  let BB := (B * B) mod p25519 in
  let E := (AA - BB) mod p25519 in
  let C := (x3 + z3) mod p25519 in
  let D := (x3 - z3) mod p25519 in
  let DA := (D * A) mod p25519 in
  let CB := (C * B) mod p25519 in
  let x3 := (DA + CB) ^ 2 mod p25519 in
  let z3 := (u * (DA - CB) ^ 2) mod p25519 in
  let x2 := (AA * BB) mod p25519 in
  let z2 := (E * (AA + a24 * E)) mod p25519 in
  (x2, z2, x3, z3, k_t).

Fixpoint rfc_ladder (u k : Z) (n : nat) (st : Z * Z * Z * Z * bool) : Z * Z * Z * Z * bool :=
  match n with
  | O => st
  | S t => rfc_ladder u k t (rfc_step u k (Z.of_nat t) st)
  end.

(** a^e mod p by squaring, so that the function can be evaluated. *)
Fixpoint pow_mod (a : Z) (e : positive) : Z :=
  match e with
  | xH => a mod p25519
  | xO e => let r := pow_mod a e in (r * r) mod p25519
  | xI e => let r := pow_mod a e in (a * (r * r mod p25519)) mod p25519
  end.

Definition rfc_x25519 (k u : bytes) : bytes :=
  let '(x2, z2, x3, z3, swap) := rfc_ladder (rfc_u u) (rfc_scalar k) 255 (1, 0, rfc_u u, 1, false) in
  let '(x2, x3) := rfc_cswap swap x2 x3 in
  let '(z2, z3) := rfc_cswap swap z2 z3 in
  le_bytes 32 ((x2 * pow_mod z2 (Z.to_pos (p25519 - 2))) mod p25519).

(** The second vector of section 5.2: the output of one iteration from the base point. *)
Definition base_point : bytes := 9 :: memset0 31.

Example x25519_vector :
  ossl_x25519 base_point base_point =
    Done ([0x42; 0x2c; 0x8e; 0x7a; 0x62; 0x27; 0xd7; 0xbc; 0xa1; 0x35; 0x0b; 0x3e; 0x2b; 0xb7; 0x27; 0x9f;
           0x78; 0x97; 0xb8; 0x7b; 0xb6; 0x85; 0x4b; 0x78; 0x3c; 0x60; 0xe8; 0x03; 0x11; 0xae; 0x30; 0x79], true).
Proof. vm_compute. reflexivity. Qed.

(** ** The ladder *)

#[local] Opaque fe_add fe_sub fe_mul fe_sq fe_mul121666 fe_cswap fe_invert fe_frombytes fe_tobytes p25519.

(** The state of the code stands for the integers of the standard. *)
Definition ladder_is (s : ladder) (st : Z * Z * Z * Z * bool) : Prop :=
  let '(X2, Z2, X3, Z3, sw) := st in
  fe_is X2 (x2 s) /\ fe_is Z2 (z2 s) /\ fe_is X3 (x3 s) /\ fe_is Z3 (z3 s) /\ swap s = Z.b2z sw.

Lemma cswap_is b A B f g : fe_is A f -> fe_is B g ->
  let '(f', g') := fe_cswap f g (Z.b2z b) in let '(A', B') := rfc_cswap b A B in fe_is A' f' /\ fe_is B' g'.
Proof.
  intros Hf Hg. rewrite fe_cswap_spec by (by apply fe_is_weaken in Hf as [? _], Hg as [? _]). by destruct b.
Qed.

Create HintDb fe.
#[local] Hint Resolve fe_is_weaken fe_add_is fe_sub_is fe_mul_is fe_sq_is fe_mul121666_is : fe.

Ltac fe_step :=
  eapply step_done;
    [first [eapply fe_add_is; eassumption|eapply fe_sub_is; eassumption|eapply fe_mul_is; eauto using fe_is_weaken
           |eapply fe_sq_is; eauto using fe_is_weaken|eapply fe_mul121666_is; eauto using fe_is_weaken]|];
  let h := fresh "h" in let H := fresh "H" in intros h H.

Lemma square_mod x : ((x mod p25519) * (x mod p25519)) mod p25519 = x ^ 2 mod p25519.
Proof. by rewrite <- Zmult_mod, Z.pow_2_r. Qed.

(** 121666 with BB on the one side, 121665 with AA on the other. *)
Lemma ladder_z AA BB :
  let E := (AA - BB) mod p25519 in
  (E * ((BB + (121666 * E) mod p25519) mod p25519)) mod p25519 = (E * (AA + a24 * E)) mod p25519.
Proof.
  cbn zeta. set (E := (AA - BB) mod p25519). rewrite Zmult_mod_idemp_r, (Zmult_mod E), (Zmult_mod E (AA + _)).
  do 2 f_equal. rewrite Zplus_mod_idemp_r. unfold a24. replace (BB + 121666 * E) with (BB + E + 121665 * E) by ring.
  rewrite (Zplus_mod (BB + E)), (Zplus_mod AA). do 2 f_equal. unfold E. rewrite Zplus_mod_idemp_r. by replace (BB + (AA - BB)) with AA by ring.
Qed.

Lemma ladder_step_is e x1 u k pos s st :
  fe_is u x1 -> scalar_bit e pos = Z.b2z (Z.testbit k (Z.of_nat pos)) -> ladder_is s st ->
  exists s', ladder_step e x1 pos s = Done s' /\ ladder_is s' (rfc_step u k (Z.of_nat pos) st).
Proof.
  intros Hx1 Hbit. destruct st as [[[[X2 Z2] X3] Z3] sw]. intros (H2 & Hz2 & H3 & Hz3 & Hsw). unfold ladder_step, rfc_step.
  rewrite Hbit, Hsw. set (b := Z.testbit k (Z.of_nat pos)).
  assert (Hx : Z.lxor (Z.b2z sw) (Z.b2z b) = Z.b2z (xorb sw b)) by (by destruct sw, b). rewrite Hx.
  pose proof (cswap_is (xorb sw b) _ _ _ _ H2 H3) as Hc. destruct (fe_cswap (x2 s) (x3 s) _) as [a2 a3].
  destruct (rfc_cswap (xorb sw b) X2 X3) as [A2 A3]. destruct Hc as [Ha2 Ha3].
  pose proof (cswap_is (xorb sw b) _ _ _ _ Hz2 Hz3) as Hc. destruct (fe_cswap (z2 s) (z3 s) _) as [b2 b3].
  destruct (rfc_cswap (xorb sw b) Z2 Z3) as [B2 B3]. destruct Hc as [Hb2 Hb3]. clear H2 Hz2 H3 Hz3.
  do 18 fe_step. eexists. split; [reflexivity|]. cbn [ladder_is x2 z2 x3 z3 swap].
  rewrite square_mod in H13. rewrite square_mod, Zmult_mod_idemp_r in H15. rewrite ladder_z in H16. by split_and!.
Qed.

Lemma ladder_loop_is e x1 u k n s st :
  fe_is u x1 -> (forall pos, (pos < n)%nat -> scalar_bit e pos = Z.b2z (Z.testbit k (Z.of_nat pos))) -> ladder_is s st ->
  exists s', ladder_loop e x1 n s = Done s' /\ ladder_is s' (rfc_ladder u k n st).
Proof.
  intros Hx1. revert s st. induction n as [|n IH]; intros s st Hbit Hs; cbn [ladder_loop rfc_ladder].
  - by exists s.
  - destruct (ladder_step_is e x1 u k n s st Hx1 ltac:(apply Hbit; lia) Hs) as (s1 & -> & Hs1).
    cbn [mbind outcome_bind]. apply IH; [|done]. intros pos Hpos. apply Hbit. lia.
Qed.

(** ** The scalar and the inverse *)

Lemma le_num_testbit b n : bytes_ok b -> (n / 8 < length b)%nat ->
  Z.testbit (le_num b) (Z.of_nat n) = Z.testbit (nth (n / 8) b 0) (Z.of_nat (n mod 8)).
Proof.
  intros Hb. revert n. induction Hb as [|x b Hx Hb IH]; intros n Hn; [cbn [length] in Hn; lia|]. cbn [le_num].
  pose proof (le_num_range b Hb) as [Hr _]. unfold byte_ok in Hx.
  replace (x + 256 * le_num b) with (Z.lor (Z.shiftl (le_num b) 8) x) by (rewrite lor_shiftl_low by lia; lia).
  rewrite Z.lor_spec, Z.shiftl_spec by lia. destruct (Nat.lt_ge_cases n 8) as [H8|H8].
  - rewrite Nat.div_small, Nat.mod_small, (Z.testbit_neg_r _ (_ - 8)) by lia. done.
  - assert (Hd : (n / 8 = S ((n - 8) / 8))%nat).
    { replace n with ((n - 8) + 1 * 8)%nat at 1 by lia. rewrite Nat.div_add by lia. lia. }
    assert (Hm : (n mod 8 = (n - 8) mod 8)%nat) by (replace n with ((n - 8) + 1 * 8)%nat at 1 by lia; apply Nat.Div0.mod_add).
    rewrite Hd, Hm. cbn [nth length] in *. rewrite <- IH by lia. rewrite (byte_testbit x) by (done || lia).
    rewrite orb_false_r. f_equal. lia.
Qed.

Lemma scalar_bit_num e pos : bytes_ok e -> (pos / 8 < length e)%nat -> scalar_bit e pos = Z.b2z (Z.testbit (le_num e) (Z.of_nat pos)).
Proof.
  intros He Hl. rewrite le_num_testbit by done. unfold scalar_bit. change 7 with (Z.ones 3). rewrite Z.land_ones by lia.
  change (2 ^ 3) with (Z.of_nat 8). rewrite <- Nat2Z.inj_mod. rewrite Z.land_comm. change 1 with (Z.ones 1). rewrite Z.land_ones by lia.
  change (2 ^ 1) with 2. rewrite <- Z.bit0_mod, Z.shiftr_spec by lia. done.
Qed.

Lemma clamp_scalar k : length k = 32%nat -> le_num (clamp k) = rfc_scalar k.
Proof.
  intros Hl. unfold clamp, rfc_scalar. rewrite take_ge by lia. do 32 (destruct k as [|? k]; [done|]). by destruct k.
Qed.

Lemma byte_fixed x : byte_ok x <-> Z.land x 255 = x.
Proof.
  rewrite land_255. unfold byte_ok. split; [apply Z.mod_small|]. intros <-. by apply Z.mod_pos_bound.
Qed.

Lemma byte_land x m : byte_ok x -> byte_ok (Z.land x m).
Proof. rewrite !byte_fixed. intros Hx. by rewrite <- Z.land_assoc, (Z.land_comm m), Z.land_assoc, Hx. Qed.

Lemma byte_lor x m : byte_ok x -> byte_ok m -> byte_ok (Z.lor x m).
Proof. rewrite !byte_fixed. intros Hx Hm. by rewrite Z.land_lor_distr_l, Hx, Hm. Qed.

Lemma clamp_ok k : bytes_ok k -> length k = 32%nat -> bytes_ok (clamp k) /\ length (clamp k) = 32%nat.
Proof.
  intros Hk Hl. unfold clamp. rewrite take_ge, !length_insert by lia. split; [|done].
  assert (Hset : forall i x b, bytes_ok b -> byte_ok x -> bytes_ok (<[i := x]> b)) by (intros i x b Hb Hx; by apply Forall_insert).
  apply Hset; [|apply byte_lor; [|done]].
  - apply Hset; [apply Hset; [done|]|]; apply byte_land; [by apply nth_byte|]. apply nth_byte, Hset; [done|]. by apply byte_land, nth_byte.
  - apply nth_byte, Hset; [apply Hset; [done|]|]; apply byte_land; [by apply nth_byte|]. apply nth_byte, Hset; [done|]. by apply byte_land, nth_byte.
Qed.

Lemma pow_mod_spec a e : pow_mod a e = a ^ Z.pos e mod p25519.
Proof.
  induction e as [e IH|e IH|]; cbn [pow_mod].
  - rewrite IH, <- Zmult_mod, Zmult_mod_idemp_r. rewrite Pos2Z.inj_xI, Z.pow_add_r, Z.pow_mul_r, Z.pow_1_r, Z.pow_2_r by lia.
    by rewrite Z.mul_comm, Z.pow_mul_l.
  - rewrite IH, <- Zmult_mod. by rewrite Pos2Z.inj_xO, Z.pow_mul_r, Z.pow_2_r, Z.pow_mul_l by lia.
  - by rewrite Z.pow_1_r.
Qed.

Lemma u_value u : length u = 32%nat -> rfc_u u = u_num u mod p25519.
Proof. done. Qed.

Lemma fe_frombytes_is u : bytes_ok u -> length u = 32%nat -> exists f, fe_frombytes u = Done f /\ fe_is (rfc_u u) f.
Proof.
  intros Hu Hl. destruct (fe_frombytes_spec u Hu Hl) as (f & Hf & Hr & c & Hv). exists f. split; [exact Hf|]. split; [exact Hr|].
  rewrite Hv, sub_multiple_mod. done.
Qed.

Lemma rfc_scalar_even k : length k = 32%nat -> bytes_ok k -> Z.testbit (rfc_scalar k) 0 = false.
Proof.
  intros Hl Hk. rewrite <- clamp_scalar by done. destruct (clamp_ok k Hk Hl) as [Hc Hcl].
  change 0 with (Z.of_nat 0). rewrite le_num_testbit by (done || (rewrite Hcl; cbn; lia)).
  unfold clamp. rewrite take_ge by lia. destruct k as [|x k]; [done|]. cbn [insert list_insert Nat.div Nat.divmod fst snd nth Nat.modulo Z.of_nat].
  rewrite Z.land_spec. by rewrite andb_false_r.
Qed.

(** The swap flag after the last step is the lowest bit of the scalar. *)
Lemma ladder_swap u k n st : (rfc_ladder u k (S n) st).2 = Z.testbit k 0.
Proof.
  revert st. induction n as [|n IH]; intros st.
  - cbn [rfc_ladder]. unfold rfc_step. destruct st as [[[[X2 Z2] X3] Z3] sw].
    by destruct (rfc_cswap _ X2 X3), (rfc_cswap _ Z2 Z3).
  - change (rfc_ladder u k (S (S n)) st) with (rfc_ladder u k (S n) (rfc_step u k (Z.of_nat (S n)) st)). apply IH.
Qed.

Lemma fe_invert_is v z : fe_is v z -> exists h, fe_invert z = Done h /\ fe_is (pow_mod v (Z.to_pos (p25519 - 2))) h.
Proof.
  intros [Hr <-]. destruct (fe_invert_spec z Hr) as (h & Hh & Hhr & Hp). exists h. split; [exact Hh|]. split; [exact Hhr|].
  rewrite Hp, pow_mod_spec, Z2Pos.id by reflexivity. by rewrite Z.mod_pow_l.
Qed.

Lemma fe_tobytes_is v f : fe_is v f -> fe_tobytes f = Done (le_bytes 32 v).
Proof. intros [Hr <-]. apply fe_tobytes_spec. auto using reduced_tight, tight_loose. Qed.

Lemma scalar_mult_rfc k u :
  bytes_ok k -> length k = 32%nat -> bytes_ok u -> length u = 32%nat ->
  x25519_scalar_mult_generic k u = Done (rfc_x25519 k u).
Proof.
  intros Hk Hkl Hu Hul. unfold x25519_scalar_mult_generic. destruct (fe_frombytes_is u Hu Hul) as (x1 & -> & Hx1).
  cbn [mbind outcome_bind]. destruct (clamp_ok k Hk Hkl) as [Hc Hcl].
  destruct (ladder_loop_is (clamp k) x1 (rfc_u u) (rfc_scalar k) 255 (Ladder fe_1 fe_0 x1 fe_1 0) (1, 0, rfc_u u, 1, false))
    as (s & -> & Hs).
  { exact Hx1. }
  { intros pos Hpos. rewrite scalar_bit_num, clamp_scalar by (done || (rewrite Hcl; apply Nat.Div0.div_lt_upper_bound; lia)). done. }
  { split_and!; [apply fe_1_is|apply fe_0_is|exact Hx1|apply fe_1_is|done]. }
  cbn [mbind outcome_bind]. unfold rfc_x25519. pose proof (ladder_swap (rfc_u u) (rfc_scalar k) 254 (1, 0, rfc_u u, 1, false)) as Hsw.
  change (S 254) with 255%nat in Hsw. rewrite rfc_scalar_even in Hsw by done.
  destruct (rfc_ladder _ _ _ _) as [[[[X2 Z2] X3] Z3] sw]. cbn [snd] in Hsw. subst sw. destruct Hs as (H2 & Hz2 & _).
  cbn [rfc_cswap]. destruct (fe_invert_is _ _ Hz2) as (z & -> & Hz). cbn [mbind outcome_bind].
  destruct (fe_mul_is _ _ _ _ (fe_is_weaken _ _ H2) (fe_is_weaken _ _ Hz)) as (x & -> & Hx). cbn [mbind outcome_bind].
  exact (fe_tobytes_is _ _ Hx).
Qed.

Lemma le_bytes_zero n : le_bytes n 0 = memset0 n.
Proof. induction n as [|n IH]; [done|]. change (le_bytes (S n) 0) with (0 :: le_bytes n 0). by rewrite IH. Qed.

Lemma ossl_x25519_spec k u :
  bytes_ok k -> length k = 32%nat -> bytes_ok u -> length u = 32%nat ->
  ossl_x25519 k u = Done (rfc_x25519 k u, negb (bool_decide (rfc_x25519 k u = memset0 32))).
Proof.
  intros Hk Hkl Hu Hul. unfold ossl_x25519. rewrite scalar_mult_rfc by done. cbn [mbind outcome_bind].
  assert (Hout : bytes_ok (rfc_x25519 k u) /\ length (rfc_x25519 k u) = 32%nat).
  { unfold rfc_x25519. destruct (rfc_ladder _ _ _ _) as [[[[X2 Z2] X3] Z3] sw]. destruct (rfc_cswap sw X2 X3), (rfc_cswap sw Z2 Z3).
    split; [apply le_bytes_ok|apply length_le_bytes]. }
  destruct Hout as [Hok Hl]. destruct (memcmp_whole (memset0 32) (rfc_x25519 k u) 32) as (x & -> & Heq);
    [apply memset0_ok|exact Hok|done|unfold zlen; lia|]. cbn [mbind outcome_bind]. do 3 f_equal. apply Bool.eq_iff_eq_true.
  rewrite bool_decide_eq_true, Z.eqb_eq, Heq. split; congruence.
Qed.

(** C39: The shared key is the function X25519 of RFC 7748, section 5, of the private
    key and the value of the peer, for all strings of 32 bytes - scalars that are not
    clamped, values with the top bit set or not below the prime included -, computed
    without an overflow of a signed type; the result tells whether it is not zero. *)
Theorem x25519_standard private_key peer_public_value :
  bytes_ok private_key -> length private_key = 32%nat -> bytes_ok peer_public_value -> length peer_public_value = 32%nat ->
  let shared := rfc_x25519 private_key peer_public_value in
  ossl_x25519 private_key peer_public_value = Done (shared, negb (bool_decide (shared = memset0 32))).
Proof. apply ossl_x25519_spec. Qed.

Lemma x25519_standard_witness :
  let k := 200 :: replicate 31 255 in let u := replicate 32 255 in
  ossl_x25519 k u = Done (rfc_x25519 k u, negb (bool_decide (rfc_x25519 k u = memset0 32))).
Proof.
  apply (x25519_standard (200 :: replicate 31 255) (replicate 32 255));
    first [apply bytes_ok_checked; vm_compute; reflexivity|reflexivity].
Defined.

(** ** The point zero *)

#[local] Transparent p25519.

(** From the second step on both denominators are zero. *)
Lemma ladder_zero k n X2 X3 sw :
  let '(_, Z2, _, Z3, _) := rfc_ladder 0 k n (X2, 0, X3, 0, sw) in Z2 = 0 /\ Z3 = 0.
Proof.
  revert X2 X3 sw. induction n as [|n IH]; intros X2 X3 sw; [done|]. cbn [rfc_ladder]. unfold rfc_step.
  assert (Hz : rfc_cswap (xorb sw (Z.testbit k (Z.of_nat n))) 0 0 = (0, 0)) by (by destruct (xorb _ _)). rewrite Hz.
  destruct (rfc_cswap _ X2 X3) as [A2 A3]. rewrite !Z.add_0_r, !Z.sub_0_r, Z.sub_diag.
  change (0 mod p25519) with 0. rewrite !Z.mul_0_l. change (0 mod p25519) with 0. apply IH.
Qed.

Lemma ladder_from_zero k n :
  let '(_, Z2, _, _, _) := rfc_ladder 0 k (S n) (1, 0, 0, 1, false) in Z2 = 0.
Proof.
  cbn [rfc_ladder]. unfold rfc_step at 1. cbn [xorb].
  destruct (Z.testbit k (Z.of_nat n)); cbn [rfc_cswap];
    match goal with |- context [rfc_ladder 0 k n ?st] => let v := eval vm_compute in st in change st with v end.
  - pose proof (ladder_zero k n 1 0 true) as H. by destruct (rfc_ladder _ _ _ _) as [[[[X2 Z2] X3] Z3] sw], H.
  - pose proof (ladder_zero k n 1 0 false) as H. by destruct (rfc_ladder _ _ _ _) as [[[[X2 Z2] X3] Z3] sw], H.
Qed.

Lemma rfc_zero_point k u : bytes_ok k -> length k = 32%nat -> rfc_u u = 0 -> rfc_x25519 k u = memset0 32.
Proof.
  intros Hk Hkl Hu. unfold rfc_x25519. rewrite Hu. pose proof (ladder_from_zero (rfc_scalar k) 254) as Hz.
  pose proof (ladder_swap 0 (rfc_scalar k) 254 (1, 0, 0, 1, false)) as Hsw. rewrite rfc_scalar_even in Hsw by done.
  change (S 254) with 255%nat in *. destruct (rfc_ladder _ _ _ _) as [[[[X2 Z2] X3] Z3] sw]. cbn [snd] in Hsw. subst sw Z2.
  cbn [rfc_cswap]. rewrite pow_mod_spec, Z.pow_0_l by done. change (0 mod p25519) with 0. rewrite Z.mul_0_r. apply le_bytes_zero.
Qed.

(** Whatever the private key, the point zero - given as 0 or as the prime, with
    or without the top bit - leads to the key of zeros, and this is reported. *)
Theorem x25519_zero_point private_key peer_public_value :
  bytes_ok private_key -> length private_key = 32%nat -> bytes_ok peer_public_value -> length peer_public_value = 32%nat ->
  u_num peer_public_value = 0 \/ u_num peer_public_value = p25519 ->
  ossl_x25519 private_key peer_public_value = Done (memset0 32, false).
Proof.
  intros Hk Hkl Hu Hul Hz. rewrite ossl_x25519_spec by done. rewrite rfc_zero_point; [|done|done|].
  - by rewrite bool_decide_eq_true_2.
  - rewrite u_value by done. by destruct Hz as [-> | ->].
Qed.

(** The prime with the top bit set. *)
Lemma x25519_zero_point_witness :
  ossl_x25519 (replicate 32 77) (237 :: replicate 31 255) = Done (memset0 32, false).
Proof.
  apply (x25519_zero_point (replicate 32 77) (237 :: replicate 31 255));
    first [apply bytes_ok_checked; vm_compute; reflexivity|reflexivity|right; vm_compute; reflexivity].
Defined.
