(* ===== verification/AeadState.v ===== *)
(** * Every sequence of calls of ChaCha20-Poly1305

    ChachaPoly shows what the calls of one message, or of one record, compute.  Here
    the functions of the dispatch table that change a context, with their parameters,
    are called in any order and with any arguments - additional data after text,
    a record announced in the middle of a message, calls without a key -: the type of
    a context, the sizes of its arrays and the ranges of its words and lengths, is
    kept, no call has undefined behaviour, and no call writes more than its output
    has room for. *)

From S2P Require Import Prelude CLib Words Modes KeyWrap Poly1305 ChaCha ChachaPoly.

(** ** The type of a context *)

Record chacha_typed (c : PROV_CHACHA20_CTX) : Prop := {
  typed_key : Forall word (key c) /\ length (key c) = 8%nat;
  typed_counter : Forall word (counter c) /\ length (counter c) = 4%nat;
  typed_buf : bytes_ok (buf c) /\ length (buf c) = 64%nat;
  typed_partial : (partial_len c <= 64)%nat }.

Record typed (ctx : PROV_CHACHA20_POLY1305_CTX) : Prop := {
  typed_chacha : chacha_typed (chacha ctx);
  typed_poly : (length (data (poly1305 ctx)) < 16)%nat;
  typed_nonce : Forall word (nonce ctx) /\ length (nonce ctx) = 3%nat;
  typed_oiv : bytes_ok (oiv ctx) /\ length (oiv ctx) = 16%nat;
  typed_tag : bytes_ok (tag ctx) /\ length (tag ctx) = 16%nat;
  typed_tls_aad : bytes_ok (tls_aad ctx) /\ length (tls_aad ctx) = 16%nat;
  typed_tag_len : 0 <= tag_len ctx <= 16;
  typed_tls_len : tls_payload_length ctx = NO_TLS_PAYLOAD_LENGTH \/ 0 <= tls_payload_length ctx < 65536 }.

(** ** The functions with parameters *)

(** What the array of parameters holds: the tag is its data, if any, and its size. *)
Record ctx_params := Params {
  p_keylen : option Z;
  p_ivlen : option Z;
  p_tag : option (option bytes * Z);
  p_tls_aad : option bytes;
  p_tls_iv_fixed : option bytes }.

Definition no_params : ctx_params := Params None None None None None.

Definition differs (p : option Z) (n : Z) : bool := match p with Some x => negb (x =? n) | None => false end.

(** Parameters before one that is refused are set all the same. *)
Definition chacha20_poly1305_set_ctx_params (ctx : PROV_CHACHA20_POLY1305_CTX) (p : ctx_params) : bool * PROV_CHACHA20_POLY1305_CTX :=
  if differs (p_keylen p) CHACHA20_POLY1305_KEYLEN then (false, ctx)
  else if differs (p_ivlen p) CHACHA20_POLY1305_IVLEN then (false, ctx)
  else
    let '(ok, ctx) := match p_tag p with Some (d, n) => set_ctx_tag ctx d n | None => (true, ctx) end in
    if negb ok then (false, ctx)
    else
      let '(ok, ctx) := match p_tls_aad p with Some a => set_ctx_tls_aad ctx a | None => (true, ctx) end in
      if negb ok then (false, ctx)
      else match p_tls_iv_fixed p with Some v => chacha_poly1305_tls_iv_set_fixed ctx v | None => (true, ctx) end.

(** chacha20_poly1305_einit and chacha20_poly1305_dinit. *)
Definition init_with_params (e : bool) (ctx : PROV_CHACHA20_POLY1305_CTX) (k iv : option bytes) (p : ctx_params)
  : bool * PROV_CHACHA20_POLY1305_CTX :=
  let '(ret, ctx) := chacha20_poly1305_init e ctx k iv in
  if ret then chacha20_poly1305_set_ctx_params ctx p else (false, ctx).

(** ** A call *)

Inductive call :=
  | Init (e : bool) (k iv : option bytes) (p : ctx_params)
  | SetParams (p : ctx_params)
  | Cipher (out_null : bool) (outsize : Z) (inp : bytes)
  | Final.

(** What a call returns and writes, and the context behind it. *)
Definition run_call (x : call) (ctx : PROV_CHACHA20_POLY1305_CTX) : outcome (bool * bytes * PROV_CHACHA20_POLY1305_CTX) :=
  match x with
  | Init e k iv p => let '(ok, ctx) := init_with_params e ctx k iv p in Done (ok, [], ctx)
  | SetParams p => let '(ok, ctx) := chacha20_poly1305_set_ctx_params ctx p in Done (ok, [], ctx)
  | Cipher out_null outsize inp =>
      '(ok, _, out, ctx) ← chacha20_poly1305_cipher ctx out_null 0 outsize inp; Done (ok, out, ctx)
  | Final => '(ok, _, out, ctx) ← chacha20_poly1305_final ctx false 0; Done (ok, out, ctx)
  end.

(** The arguments are arrays of bytes with lengths that a size_t can hold. *)
Definition option_ok (b : option bytes) : Prop := match b with Some b => bytes_ok b | None => True end.
Definition tag_param_ok (d : option bytes) (n : Z) : Prop := 0 <= n /\ match d with Some b => bytes_ok b /\ zlen b = n | None => True end.

Definition params_ok (p : ctx_params) : Prop :=
  match p_tag p with Some (d, n) => tag_param_ok d n | None => True end /\ option_ok (p_tls_aad p) /\ option_ok (p_tls_iv_fixed p).

Definition call_ok (x : call) : Prop :=
  match x with
  | Init _ k iv p => option_ok k /\ option_ok iv /\ params_ok p
  | SetParams p => params_ok p
  | Cipher _ outsize inp => bytes_ok inp /\ zlen inp < 2 ^ 32 /\ 0 <= outsize
  | Final => True
  end.

(** Room for the output: none for additional data. *)
Definition room (x : call) : Z := match x with Cipher false outsize _ => outsize | _ => 0 end.

Fixpoint run_calls (xs : list call) (ctx : PROV_CHACHA20_POLY1305_CTX) : outcome (list (bool * bytes) * PROV_CHACHA20_POLY1305_CTX) :=
  match xs with
  | [] => Done ([], ctx)
  | x :: xs =>
      '(ok, out, ctx) ← run_call x ctx;
      '(rest, ctx) ← run_calls xs ctx;
      Done ((ok, out) :: rest, ctx)
  end.

(** ** The parts *)

Lemma poly_update_typed p x : (length (data p) < 16)%nat -> (length (data (Poly1305_Update p x)) < 16)%nat.
Proof.
  assert (Hrest : forall q y, (length (data (update_rest q y)) < 16)%nat).
  { intros q y. unfold update_rest, POLY1305_BLOCK_SIZE. cbn [data]. rewrite length_drop.
    pose proof (Nat.mod_upper_bound (length y) 16 ltac:(lia)). pose proof (Nat.Div0.mod_le (length y) 16). lia. }
  intros Hp. unfold Poly1305_Update. destruct (Nat.eqb_spec (length (data p)) 0) as [_|_]; [apply Hrest|].
  unfold POLY1305_BLOCK_SIZE. destruct (Nat.leb_spec (16 - length (data p)) (length x)) as [_|Hlt]; [apply Hrest|].
  cbn [data]. rewrite length_app. lia.
Qed.

Lemma poly_final_typed p : bytes_ok (Poly1305_Final p) /\ length (Poly1305_Final p) = 16%nat.
Proof.
  unfold Poly1305_Final, poly1305_emit. set (w := reduce_words _). set (n := Poly1305.nonce p). clearbody w n. unfold add_nonce, U32TO8.
  destruct w, n. cbn [app]. split; [|done]. repeat (apply Forall_cons; split; [apply (wrap_range 8); lia|]). by apply Forall_nil.
Qed.

Lemma poly_init_typed k : (length (data (Poly1305_Init k)) < 16)%nat.
Proof. cbn. lia. Qed.

#[local] Opaque stream_block rfc_chacha_block xor_stream Poly1305_Init Poly1305_Update Poly1305_Final ChaCha20_ctr32 chacha20_cipher.

Lemma counter_as_words ctr : Forall word ctr -> length ctr = 4%nat ->
  exists c n, ctr = counter_words n c /\ 0 <= c /\ Forall word n /\ length n = 2%nat.
Proof.
  intros Hw Hl. destruct ctr as [|w0 [|w1 [|w2 [|w3 [|]]]]]; try done. rewrite !Forall_cons in Hw. destruct Hw as (H0 & H1 & H2 & H3 & _).
  exists (w0 + 2 ^ 32 * w1), [w2; w3]. unfold counter_words. unfold word in H0, H1. change (2 ^ 32) with 4294967296.
  split; [|split; [lia|split; [repeat (apply Forall_cons; split; [assumption|]); by apply Forall_nil|done]]].
  f_equal; [|f_equal]; Z.to_euclidean_division_equations; lia.
Qed.

Lemma counter_words_typed n c : Forall word n -> length n = 2%nat -> Forall word (counter_words n c) /\ length (counter_words n c) = 4%nat.
Proof.
  intros Hn Hl. unfold counter_words. split; [|cbn [length]; lia]. repeat (apply Forall_cons; split; [apply (wrap_range 32); lia|]). done.
Qed.

(** A block of zeros enciphered, and data after the buffer is empty. *)
Lemma block_typed k ctr n : Forall word k -> length k = 8%nat -> Forall word ctr -> length ctr = 4%nat ->
  n = 64%nat -> bytes_ok (ChaCha20_ctr32 (memset0 n) k ctr) /\ length (ChaCha20_ctr32 (memset0 n) k ctr) = 64%nat.
Proof.
  intros Hk Hkl Hc Hcl ->. destruct (counter_as_words ctr Hc Hcl) as (c & m & -> & Hc0 & Hm & Hml).
  rewrite (ChaCha20_ctr32_block k m) by done. split; [apply stream_block_ok|by apply length_stream_block].
Qed.

Lemma cipher_rest_buf ctx inp : partial_len (cipher_rest ctx inp).2 = 0%nat -> buf (cipher_rest ctx inp).2 = buf ctx.
Proof.
  unfold cipher_rest. destruct (cipher_blocks _ _ _ _ _) as [out ctr].
  destruct (Nat.ltb_spec 0 (length inp mod CHACHA_BLK_SIZE)) as [H|H]; [|done]. cbn [partial_len snd]. lia.
Qed.

Lemma cipher_rest_typed ctx inp :
  chacha_typed ctx -> partial_len ctx = 0%nat -> bytes_ok inp -> zlen inp < 2 ^ 32 ->
  let '(out, ctx') := cipher_rest ctx inp in chacha_typed ctx' /\ bytes_ok out /\ length out = length inp.
Proof.
  intros [[Hk Hkl] [Hc Hcl] [Hb Hbl] _] Hp Hi Hz. destruct (counter_as_words _ Hc Hcl) as (c & n & Hctr & Hc0 & Hn & Hnl).
  pose proof (cipher_rest_stream (key ctx) n Hkl Hnl Hk Hn c ctx inp eq_refl Hctr Hp Hc0 Hz) as Hs.
  pose proof (cipher_rest_buf ctx inp) as Hbuf. destruct (cipher_rest ctx inp) as [out ctx'].
  destruct Hs as [-> (Hkey & c' & _ & Hctr' & _ & H64 & Hb')]. cbn [snd] in Hbuf.
  split; [|split; [by apply xor_stream_ok|apply length_xor_stream]]. constructor.
  - rewrite Hkey. split; assumption.
  - rewrite Hctr'. by apply counter_words_typed.
  - destruct (Nat.eq_dec (partial_len ctx') 0%nat) as [E|E]; [rewrite Hbuf by exact E; split; assumption|].
    rewrite Hb' by lia. split; [apply stream_block_ok|apply length_stream_block; assumption].
  - exact H64.
Qed.

Lemma use_buffer_typed b n inp :
  bytes_ok b -> bytes_ok inp -> (n <= 64)%nat ->
  let '(out, rest, n') := use_buffer b n inp in
  bytes_ok out /\ bytes_ok rest /\ (length out + length rest = length inp)%nat /\ (n' <= 64)%nat /\ (rest <> [] -> n' = 64%nat).
Proof.
  intros Hb Hi. revert n. induction Hi as [|x inp Hx Hi IH]; intros n Hn; cbn [use_buffer].
  { split_and!; [constructor|constructor|done|done|done]. }
  unfold CHACHA_BLK_SIZE. destruct (Nat.ltb_spec n 64) as [Hlt|Hge].
  - specialize (IH (S n) ltac:(lia)). destruct (use_buffer b (S n) inp) as [[out rest] n'].
    destruct IH as (H1 & H2 & H3 & H4 & H5). split_and!; [|done|cbn [length]; lia|done|done]. constructor; [|done].
    by apply byte_lxor, nth_byte.
  - split_and!; [constructor|by constructor|done|done|lia].
Qed.

Lemma set_counter_typed c ctr :
  word c -> Forall word ctr -> length ctr = 4%nat -> Forall word (set_counter c ctr) /\ length (set_counter c ctr) = 4%nat.
Proof.
  intros Hc Hw Hl. unfold set_counter. destruct (c =? 0); rewrite ?length_insert.
  - split; [|done]. apply Forall_insert; [by apply Forall_insert|]. apply (wrap_range 32). lia.
  - split; [by apply Forall_insert|done].
Qed.

#[local] Transparent chacha20_cipher.
Lemma chacha20_cipher_typed ctx inp :
  chacha_typed ctx -> bytes_ok inp -> zlen inp < 2 ^ 32 ->
  let '(out, ctx') := chacha20_cipher ctx inp in chacha_typed ctx' /\ bytes_ok out /\ length out = length inp.
Proof.
  intros Ht Hi Hz. unfold chacha20_cipher. destruct (Nat.ltb_spec 0 (partial_len ctx)) as [Hp|Hp].
  2: { apply cipher_rest_typed; [done|lia|done|done]. }
  destruct Ht as [[Hk Hkl] [Hc Hcl] [Hb Hbl] H64].
  pose proof (use_buffer_typed (buf ctx) (partial_len ctx) inp Hb Hi H64) as Hu.
  destruct (use_buffer _ _ _) as [[out rest] n]. destruct Hu as (Ho & Hr & Hl & Hn & Hfull). destruct rest as [|y rest].
  - cbn [length] in Hl. split; [|split; [done|lia]]. by constructor.
  - rewrite Hfull by done. cbn [Nat.eqb CHACHA_BLK_SIZE]. set (ctx1 := ChaCha _ _ _ _).
    assert (Ht1 : chacha_typed ctx1).
    { unfold ctx1. constructor; cbn [key counter buf partial_len]; [done| |done|lia]. apply set_counter_typed; [apply (wrap_range 32); lia|done|done]. }
    pose proof (cipher_rest_typed ctx1 (y :: rest) Ht1 eq_refl Hr) as Hrest.
    destruct (cipher_rest ctx1 (y :: rest)) as [out' ctx']. destruct Hrest as (Ht' & Ho' & Hl'); [unfold zlen in *; lia|].
    split; [done|]. split; [by apply Forall_app|]. rewrite length_app. lia.
Qed.
#[local] Opaque chacha20_cipher.

(** Enciphering from block 0 or block 1 on, no further than a record goes. *)
Lemma ctr32_typed k ctr c inp :
  Forall word k -> length k = 8%nat -> Forall word ctr -> length ctr = 4%nat -> bytes_ok inp -> 0 <= c <= 1 -> zlen inp <= 65536 ->
  bytes_ok (ChaCha20_ctr32 inp k (<[0%nat := c]> ctr)) /\ length (ChaCha20_ctr32 inp k (<[0%nat := c]> ctr)) = length inp.
Proof.
  intros Hk Hkl Hc Hcl Hi Hr Hz.
  assert (Hw : Forall word (<[0%nat := c]> ctr)) by (apply Forall_insert; [assumption|unfold word; lia]).
  assert (Hl : length (<[0%nat := c]> ctr) = 4%nat) by (rewrite length_insert; assumption).
  assert (Hn : nth 0 (<[0%nat := c]> ctr) 0 = c) by (by destruct ctr).
  destruct (counter_as_words _ Hw Hl) as (c' & n & He & Hc0 & Hn' & Hnl). rewrite He in Hn |- *. cbn [nth counter_words] in Hn.
  rewrite (ChaCha20_ctr32_stream k n) by (assumption || (rewrite Hn; change (2 ^ 32) with 4294967296; lia)).
  split; [by apply xor_stream_ok|apply length_xor_stream].
Qed.

(** ** Assignments keep the type *)

Ltac fields :=
  cbn [enc oiv chacha poly1305 nonce tag tls_aad len_aad len_text aad mac_inited tag_len tls_payload_length tls_aad_pad_sz
    set_enc set_oiv set_chacha set_poly set_nonce set_tag set_tls_aad set_lens set_aad set_mac_inited set_tag_len set_tls_len set_pad_sz].
Ltac retype H := destruct H; constructor; fields; try assumption.

Lemma set_enc_typed b ctx : typed ctx -> typed (set_enc b ctx).
Proof. intros H. retype H. Qed.
Lemma set_lens_typed a t ctx : typed ctx -> typed (set_lens a t ctx).
Proof. intros H. retype H. Qed.
Lemma set_aad_typed b ctx : typed ctx -> typed (set_aad b ctx).
Proof. intros H. retype H. Qed.
Lemma set_mac_inited_typed b ctx : typed ctx -> typed (set_mac_inited b ctx).
Proof. intros H. retype H. Qed.
Lemma set_pad_sz_typed n ctx : typed ctx -> typed (set_pad_sz n ctx).
Proof. intros H. retype H. Qed.
Lemma no_tls_typed ctx : typed ctx -> typed (set_tls_len NO_TLS_PAYLOAD_LENGTH ctx).
Proof. intros H. retype H. by left. Qed.
Lemma set_tls_len_typed n ctx : typed ctx -> 0 <= n < 65536 -> typed (set_tls_len n ctx).
Proof. intros H Hn. retype H. by right. Qed.
Lemma set_tag_len_typed n ctx : typed ctx -> 0 <= n <= 16 -> typed (set_tag_len n ctx).
Proof. intros H Hn. retype H. Qed.
Lemma set_tag_typed t ctx : typed ctx -> bytes_ok t /\ length t = 16%nat -> typed (set_tag t ctx).
Proof. intros H Ht. retype H. Qed.
Lemma set_oiv_typed v ctx : typed ctx -> bytes_ok v /\ length v = 16%nat -> typed (set_oiv v ctx).
Proof. intros H Ht. retype H. Qed.
Lemma set_tls_aad_typed a ctx : typed ctx -> bytes_ok a /\ length a = 16%nat -> typed (set_tls_aad a ctx).
Proof. intros H Ht. retype H. Qed.
Lemma set_nonce_typed n ctx : typed ctx -> Forall word n /\ length n = 3%nat -> typed (set_nonce n ctx).
Proof. intros H Ht. retype H. Qed.
Lemma set_chacha_typed c ctx : typed ctx -> chacha_typed c -> typed (set_chacha c ctx).
Proof. intros H Ht. retype H. Qed.
Lemma set_poly_typed p ctx : typed ctx -> (length (data p) < 16)%nat -> typed (set_poly p ctx).
Proof. intros H Ht. retype H. Qed.
Lemma mac_update_typed x ctx : typed ctx -> typed (set_poly (Poly1305_Update (poly1305 ctx) x) ctx).
Proof. intros H. apply set_poly_typed; [exact H|apply poly_update_typed; by destruct H]. Qed.
Lemma erase_typed ctx : typed ctx -> typed (set_poly poly_erased ctx).
Proof. intros H. apply set_poly_typed; [exact H|cbn; lia]. Qed.

Create HintDb aead_typed discriminated.
#[local] Hint Resolve set_enc_typed set_lens_typed set_aad_typed set_mac_inited_typed set_pad_sz_typed no_tls_typed set_tls_len_typed
  set_tag_len_typed set_tag_typed set_oiv_typed set_tls_aad_typed set_nonce_typed set_chacha_typed set_poly_typed mac_update_typed
  erase_typed poly_final_typed poly_init_typed poly_update_typed typed_chacha : aead_typed.

(** ** Initialisation *)

Lemma newctx_typed : typed chacha20_poly1305_newctx.
Proof.
  constructor; cbn [chacha20_poly1305_newctx chacha poly1305 nonce oiv tag tls_aad tag_len tls_payload_length];
    try (split; [apply memset0_ok|reflexivity]).
  - constructor; cbn [key counter buf partial_len]; try (split; [|reflexivity]); try lia; try apply memset0_ok;
      (apply Forall_replicate; unfold word; lia).
  - cbn. lia.
  - split; [|reflexivity]. repeat (apply Forall_cons; split; [unfold word; lia|]). by apply Forall_nil.
  - lia.
  - by left.
Qed.

Lemma load_words_typed n p : bytes_ok p -> length p = (4 * n)%nat -> Forall word (load_words (4 * n) p) /\ length (load_words (4 * n) p) = n.
Proof. intros Hp Hl. rewrite load_words_le by assumption. by apply le_words_ok. Qed.

Lemma zlen_length {A} (l : list A) n : zlen l = Z.of_nat n -> length l = n.
Proof. unfold zlen. lia. Qed.

Lemma initkey_typed c k : chacha_typed c -> bytes_ok k -> zlen k = 32 -> chacha_typed (chacha20_initkey c (Some k)).
Proof.
  intros [] Hk Hl. constructor; cbn [chacha20_initkey key counter buf partial_len]; try assumption; [|lia].
  apply (load_words_typed 8); [exact Hk|by apply (zlen_length k 32)].
Qed.

Lemma initiv_typed c v : chacha_typed c -> bytes_ok v -> zlen v = 16 -> chacha_typed (chacha20_initiv c (Some v)).
Proof.
  intros [] Hk Hl. constructor; cbn [chacha20_initiv key counter buf partial_len]; try assumption; [|lia].
  apply (load_words_typed 4); [exact Hk|by apply (zlen_length v 16)].
Qed.

Lemma reset_fields_typed ctx : typed ctx -> typed (reset_fields ctx).
Proof. intros H. unfold reset_fields. auto with aead_typed. Qed.

Lemma initkey_aead_typed ctx k : typed ctx -> bytes_ok k -> typed (chacha20_poly1305_initkey ctx k).2.
Proof.
  intros H%reset_fields_typed Hk. unfold chacha20_poly1305_initkey, ossl_chacha20_init. cbn zeta.
  destruct (Z.eqb_spec (zlen k) 32) as [E|_]; cbn [negb snd]; auto using initkey_typed with aead_typed.
Qed.

Lemma initiv_aead_typed ctx : typed ctx -> typed (chacha20_poly1305_initiv ctx).2.
Proof.
  intros H%reset_fields_typed. unfold chacha20_poly1305_initiv, ossl_chacha20_init. cbn zeta. set (c := reset_fields ctx) in *.
  destruct (typed_oiv c H) as [Hv Hvl]. set (v := memset0 4 ++ take 12 (oiv c)).
  assert (Hvo : bytes_ok v) by (apply Forall_app; split; [apply memset0_ok|by apply Forall_take]).
  assert (Hz : zlen v = 16) by (unfold zlen, v; rewrite length_app, length_take, Hvl; reflexivity).
  rewrite Hz. cbn [Z.eqb Pos.eqb negb snd]. pose proof (initiv_typed (chacha c) v (typed_chacha c H) Hvo Hz) as Hc.
  apply set_nonce_typed; [by apply set_chacha_typed|]. destruct (typed_counter _ Hc) as [Hw Hl].
  split; [by apply Forall_drop|rewrite length_drop, Hl; reflexivity].
Qed.

Lemma init_typed e ctx k iv : typed ctx -> option_ok k -> option_ok iv -> typed (chacha20_poly1305_init e ctx k iv).2.
Proof.
  intros H%(set_enc_typed e) Hk Hiv. unfold chacha20_poly1305_init. cbn zeta. set (c := set_enc e ctx) in *. clearbody c. clear ctx.
  assert (Hset : forall c1, typed c1 -> typed (match k with
    | Some k => if negb (zlen k =? CHACHA20_POLY1305_KEYLEN) then (false, c1) else chacha20_poly1305_initkey c1 k
    | None => (true, c1) end).2).
  { intros c1 H1. destruct k as [k|]; [|exact H1]. destruct (negb _); [exact H1|]. by apply initkey_aead_typed. }
  destruct iv as [v|].
  - destruct (Z.eqb_spec (zlen v) CHACHA20_POLY1305_IVLEN) as [E|_]; cbn [negb snd]; [|exact H].
    destruct (typed_oiv c H) as [Hv Hvl].
    specialize (Hset (set_oiv (v ++ drop 12 (oiv c)) c)). match goal with |- context [let '(_, _) := ?m in _] => destruct m as [ok c2] end.
    cbn [snd] in Hset. assert (H2 : typed c2).
    { apply Hset, set_oiv_typed; [exact H|]. split; [apply Forall_app; split; [exact Hiv|by apply Forall_drop]|].
      rewrite length_app, length_drop, Hvl, (zlen_length v 12 E). reflexivity. }
    destruct ok; cbn [negb snd]; [by apply initiv_aead_typed|exact H2].
  - cbn [negb]. specialize (Hset c H). match goal with |- context [let '(_, _) := ?m in _] => destruct m as [ok c2] end. by destruct ok.
Qed.

(** ** Parameters *)

Lemma overwrite_typed (d old : bytes) n : bytes_ok d -> length d = n -> (n <= 16)%nat -> bytes_ok old /\ length old = 16%nat ->
  bytes_ok (d ++ drop n old) /\ length (d ++ drop n old) = 16%nat.
Proof.
  intros Hd Hn H16 [Ho Hl]. split; [apply Forall_app; split; [exact Hd|by apply Forall_drop]|]. rewrite length_app, length_drop. lia.
Qed.

Lemma set_ctx_tag_typed ctx d n :
  typed ctx -> tag_param_ok d n -> typed (set_ctx_tag ctx d n).2.
Proof.
  intros H [Hn Hd]. unfold set_ctx_tag. destruct (Z.eqb_spec n 0) as [_|_]; [exact H|].
  destruct (Z.ltb_spec 16 n) as [_|H16]; cbn [orb]; [exact H|].
  destruct d as [b|]; cbn [snd]; [|by apply set_tag_len_typed]. destruct (enc ctx); cbn [snd]; [exact H|]. destruct Hd as [Hb Hl].
  apply set_tag_len_typed; [|done]. apply set_tag_typed; [exact H|]. unfold zlen in Hl.
  apply overwrite_typed; [by apply Forall_take|rewrite length_take; lia|lia|by destruct H].
Qed.

Lemma u8tou32_typed p n : bytes_ok p -> (n + 4 <= length p)%nat -> word (CHACHA_U8TOU32 (drop n p)).
Proof.
  intros Hp Hl. rewrite CHACHA_U8TOU32_num; [by apply le_num_word|by apply Forall_drop|rewrite length_drop; lia].
Qed.

Lemma u16_typed a b : byte_ok a -> byte_ok b -> 0 <= Z.lor (Z.shiftl a 8) b < 65536.
Proof.
  intros Ha Hb. unfold byte_ok in *.
  rewrite lor_shiftl_low by (lia || (change (2 ^ 8) with 256; lia)). change (2 ^ 8) with 256. lia.
Qed.

Lemma set_ctr_typed c ctr : chacha_typed c -> Forall word ctr /\ length ctr = 4%nat -> chacha_typed (ChaCha (key c) ctr (buf c) (partial_len c)).
Proof. intros [] H. by constructor. Qed.

Lemma insert_word_typed (ctr : list Z) i w : Forall word ctr /\ length ctr = 4%nat -> word w -> Forall word (<[i := w]> ctr) /\ length (<[i := w]> ctr) = 4%nat.
Proof. intros [Hc Hl] Hw. split; [by apply Forall_insert|by rewrite length_insert]. Qed.

Lemma insert_byte_typed (b : bytes) i x : bytes_ok b /\ length b = 16%nat -> byte_ok x -> bytes_ok (<[i := x]> b) /\ length (<[i := x]> b) = 16%nat.
Proof. intros [Hb Hl] Hx. split; [by apply Forall_insert|by rewrite length_insert]. Qed.

Lemma record_counter_typed ctx : typed ctx ->
  let ctr := <[1%nat := nth 0 (nonce ctx) 0]> (counter (chacha ctx)) in
  let ctr := <[2%nat := nth 1 (nonce ctx) 0 ⊕ CHACHA_U8TOU32 (tls_aad ctx)]> ctr in
  let ctr := <[3%nat := nth 2 (nonce ctx) 0 ⊕ CHACHA_U8TOU32 (drop 4 (tls_aad ctx))]> ctr in
  Forall word ctr /\ length ctr = 4%nat.
Proof.
  intros []. destruct typed_nonce0 as [Hn _], typed_tls_aad0 as [Ha Hal].
  repeat apply insert_word_typed; [by destruct typed_chacha0|by apply nth_word| |]; (apply word_lxor; [by apply nth_word|]).
  - apply (u8tou32_typed (tls_aad ctx) 0); [exact Ha|lia].
  - apply u8tou32_typed; [exact Ha|lia].
Qed.

Lemma tls_init_typed ctx a : typed ctx -> bytes_ok a -> typed (chacha_poly1305_tls_init ctx a).2.
Proof.
  intros H Ha. unfold chacha_poly1305_tls_init. destruct (Z.eqb_spec (zlen a) EVP_AEAD_TLS1_AAD_LEN) as [E|_]; cbn [negb]; [|exact H].
  apply (zlen_length a 13) in E. set (c := set_tls_aad (a ++ drop 13 (tls_aad ctx)) ctx).
  assert (Hc : typed c) by (apply set_tls_aad_typed; [exact H|apply overwrite_typed; [exact Ha|exact E|lia|by destruct H]]).
  pose proof (u16_typed (nth 11 a 0) (nth 12 a 0) ltac:(by apply nth_byte) ltac:(by apply nth_byte)) as Hr.
  cbn zeta. set (len := Z.lor _ _) in *. clearbody len c. clear H E.
  assert (Hend : forall c n, typed c -> 0 <= n < 65536 ->
    typed (let ctr := <[1%nat := nth 0 (nonce c) 0]> (counter (chacha c)) in
           let ctr := <[2%nat := nth 1 (nonce c) 0 ⊕ CHACHA_U8TOU32 (tls_aad c)]> ctr in
           let ctr := <[3%nat := nth 2 (nonce c) 0 ⊕ CHACHA_U8TOU32 (drop 4 (tls_aad c))]> ctr in
           set_mac_inited false (set_chacha (ChaCha (key (chacha c)) ctr (buf (chacha c)) (partial_len (chacha c))) (set_tls_len n c)))).
  { intros c1 n H1 Hn. cbn zeta. apply set_mac_inited_typed, set_chacha_typed; [by apply set_tls_len_typed|].
    apply set_ctr_typed; [by destruct H1|]. by apply record_counter_typed. }
  destruct (enc c); cbn [negb andb]; [apply (Hend c len); assumption|].
  destruct (Z.ltb_spec len 16) as [_|H16]; [exact Hc|]. apply (Hend _ (len - 16)); [|lia].
  apply set_tls_aad_typed; [exact Hc|]. repeat apply insert_byte_typed; try apply (wrap_range 8); try lia. by destruct Hc.
Qed.

Lemma set_ctx_tls_aad_typed ctx a : typed ctx -> bytes_ok a -> typed (set_ctx_tls_aad ctx a).2.
Proof.
  intros H Ha. pose proof (tls_init_typed ctx a H Ha) as Ht. unfold set_ctx_tls_aad. destruct (chacha_poly1305_tls_init ctx a) as [n c].
  cbn [snd] in Ht. destruct (n =? 0); cbn [snd]; auto with aead_typed.
Qed.

Lemma tls_iv_set_fixed_typed ctx v : typed ctx -> bytes_ok v -> typed (chacha_poly1305_tls_iv_set_fixed ctx v).2.
Proof.
  intros H Hv. unfold chacha_poly1305_tls_iv_set_fixed. destruct (Z.eqb_spec (zlen v) CHACHA20_POLY1305_IVLEN) as [E|_]; cbn [negb snd]; [|exact H].
  apply (zlen_length v 12) in E. cbn zeta. set (n := [_; _; _]).
  assert (Hn : Forall word n).
  { unfold n. repeat (apply Forall_cons; split; [|]); [apply (u8tou32_typed v 0)|apply u8tou32_typed|apply u8tou32_typed|by apply Forall_nil]; (exact Hv || lia). }
  apply set_nonce_typed; [|by split]. apply set_chacha_typed; [exact H|]. apply set_ctr_typed; [by destruct H|].
  destruct H as [[_ [Hc Hcl] _ _] _ _ _ _ _ _ _]. split; [apply Forall_app; split; [by apply Forall_take|exact Hn]|].
  rewrite length_app, length_take, Hcl. reflexivity.
Qed.

Lemma set_ctx_params_typed ctx p : typed ctx -> params_ok p -> typed (chacha20_poly1305_set_ctx_params ctx p).2.
Proof.
  intros H (Ht & Ha & Hv). unfold chacha20_poly1305_set_ctx_params.
  destruct (differs _ _); [exact H|]. destruct (differs _ _); [exact H|].
  assert (H1 : typed (match p_tag p with Some (d, n) => set_ctx_tag ctx d n | None => (true, ctx) end).2).
  { destruct (p_tag p) as [[d n]|]; [by apply set_ctx_tag_typed|exact H]. }
  destruct (match p_tag p with Some _ => _ | None => _ end) as [ok1 c1]. cbn [snd] in H1. destruct ok1; cbn [negb snd]; [|exact H1].
  assert (H2 : typed (match p_tls_aad p with Some a => set_ctx_tls_aad c1 a | None => (true, c1) end).2).
  { destruct (p_tls_aad p) as [a|]; [by apply set_ctx_tls_aad_typed|exact H1]. }
  destruct (match p_tls_aad p with Some _ => _ | None => _ end) as [ok2 c2]. cbn [snd] in H2. destruct ok2; cbn [negb snd]; [|exact H2].
  destruct (p_tls_iv_fixed p) as [v|]; [by apply tls_iv_set_fixed_typed|exact H2].
Qed.

Lemma init_with_params_typed e ctx k iv p :
  typed ctx -> option_ok k -> option_ok iv -> params_ok p -> typed (init_with_params e ctx k iv p).2.
Proof.
  intros H Hk Hiv Hp. pose proof (init_typed e ctx k iv H Hk Hiv) as Hi. unfold init_with_params.
  destruct (chacha20_poly1305_init e ctx k iv) as [ret c]. cbn [snd] in Hi. destruct ret; [by apply set_ctx_params_typed|exact Hi].
Qed.

(** ** The stream of calls *)

Lemma insert_counter_typed c i w b :
  chacha_typed c -> word w -> bytes_ok b /\ length b = 64%nat -> chacha_typed (ChaCha (key c) (<[i := w]> (counter c)) b 0).
Proof. intros [] Hw Hb. constructor; cbn [key counter buf partial_len]; try assumption; [by apply insert_word_typed|lia]. Qed.

Lemma mac_start_typed ctx : typed ctx -> typed (mac_start ctx).
Proof.
  intros H. unfold mac_start. cbn zeta. pose proof (typed_chacha ctx H) as Hc.
  assert (Hb : forall ctr, Forall word ctr /\ length ctr = 4%nat ->
    bytes_ok (ChaCha20_ctr32 (memset0 CHACHA_BLK_SIZE) (key (chacha ctx)) ctr) /\
    length (ChaCha20_ctr32 (memset0 CHACHA_BLK_SIZE) (key (chacha ctx)) ctr) = 64%nat).
  { intros ctr []. destruct (typed_key _ Hc). by apply block_typed. }
  specialize (Hb (<[0%nat := 0]> (counter (chacha ctx)))). set (block := ChaCha20_ctr32 _ _ _) in *. clearbody block.
  assert (Hctr : Forall word (<[0%nat := 0]> (counter (chacha ctx))) /\ length (<[0%nat := 0]> (counter (chacha ctx))) = 4%nat).
  { apply insert_word_typed; [by destruct Hc|unfold word; lia]. }
  specialize (Hb Hctr).
  assert (H1 : typed (set_mac_inited true (set_lens 0 0 (set_poly (Poly1305_Init block)
    (set_chacha (ChaCha (key (chacha ctx)) (<[0%nat := 1]> (<[0%nat := 0]> (counter (chacha ctx)))) block 0) ctx))))).
  { apply set_mac_inited_typed, set_lens_typed, set_poly_typed; [|apply poly_init_typed]. apply set_chacha_typed; [exact H|].
    destruct Hc. constructor; cbn [key counter buf partial_len]; try assumption; [|lia]. apply insert_word_typed; [assumption|unfold word; lia]. }
  match goal with |- context [if negb ?b then _ else _] => destruct b end; cbn [negb]; [exact H1|].
  by apply set_aad_typed, set_lens_typed, mac_update_typed.
Qed.

Lemma pad_mac_typed n ctx : typed ctx -> typed (pad_mac n ctx).
Proof. intros H. unfold pad_mac. cbn zeta. destruct (negb _); auto with aead_typed. Qed.

Lemma wrap_up_typed ctx : typed ctx -> typed (wrap_up_aad ctx).
Proof. intros H. unfold wrap_up_aad. destruct (aad ctx); auto using pad_mac_typed with aead_typed. Qed.

Lemma mac_finish_typed ctx : typed ctx ->
  let '(temp, ctx') := mac_finish ctx in typed ctx' /\ bytes_ok temp /\ length temp = 16%nat.
Proof.
  intros H%wrap_up_typed. unfold mac_finish. cbn zeta. set (c := wrap_up_aad ctx) in *. clearbody c.
  apply (pad_mac_typed (len_text c)) in H. set (d := pad_mac (len_text c) c) in *. clearbody d.
  apply (mac_update_typed (len_bytes d)) in H. set (f := set_poly _ d) in *. clearbody f.
  pose proof (poly_final_typed (poly1305 f)) as Ht. split; [|exact Ht].
  apply set_mac_inited_typed, erase_typed. destruct (enc f); [by apply set_tag_typed|exact H].
Qed.

Lemma cipher_text_typed inp ctx : typed ctx -> bytes_ok inp -> zlen inp < 2 ^ 32 ->
  let '(out, ctx') := cipher_text inp ctx in typed ctx' /\ bytes_ok out /\ length out = length inp.
Proof.
  intros H Hi Hz. unfold cipher_text. pose proof (chacha20_cipher_typed (chacha ctx) inp (typed_chacha _ H) Hi Hz) as Ht.
  destruct (chacha20_cipher (chacha ctx) inp) as [out c]. destruct Ht as (Hc & Ho). cbn zeta. split; [|exact Ho].
  apply set_lens_typed, set_poly_typed; [by apply set_chacha_typed|apply poly_update_typed; by destruct H].
Qed.

Lemma aead_cipher_enc ctx inp : enc (cipher_text inp ctx).2 = enc ctx.
Proof. unfold cipher_text. by destruct (chacha20_cipher (chacha ctx) inp). Qed.

(** ** Records *)

Definition fits (n : Z) (out : bytes) : Prop := bytes_ok out /\ zlen out <= n.

Lemma fits_app n m (a b : bytes) : fits n a -> fits m b -> fits (n + m) (a ++ b).
Proof. intros [Ha Hla] [Hb Hlb]. split; [by apply Forall_app|rewrite zlen_app; lia]. Qed.

Lemma fits_nil n : 0 <= n -> fits n [].
Proof. intros Hn. split; [constructor|]. exact Hn. Qed.

Lemma fits_zeros n m : 0 <= n <= m -> fits m (memset0 (Z.to_nat n)).
Proof. intros Hn. split; [apply memset0_ok|rewrite zlen_memset0; lia]. Qed.

(** What either way to put a record together gives. *)
Definition record_parts (plen : nat) (r : outcome (bytes * scratch * PROV_CHACHA20_POLY1305_CTX)) : Prop :=
  exists out sc tohash ctx', r = Done (out, sc, ctx') /\ scratch_holds tohash sc /\ typed ctx' /\ fits (Z.of_nat plen) out.

Lemma tls_short_typed inp plen ctx : typed ctx -> bytes_ok inp -> (plen <= 64)%nat -> (plen <= length inp)%nat ->
  record_parts plen (tls_short inp plen ctx).
Proof.
  intros H Hi Hp Hl. pose proof (tls_short_scratch inp plen ctx) as Hs. cbn zeta in Hs.
  pose proof (typed_chacha ctx H) as Hc. destruct (typed_key _ Hc) as [Hk Hkl], (typed_counter _ Hc) as [Hw Hwl].
  destruct (ctr32_typed (key (chacha ctx)) (counter (chacha ctx)) 0 (memset0 128)) as [Hb Hbl];
    [assumption..|apply memset0_ok|lia|vm_compute; discriminate|].
  set (block := ChaCha20_ctr32 (memset0 128) _ _) in *. clearbody block.
  destruct Hs as (sc & Hs & Hsc); [exact Hbl|by apply typed_tls_aad|exact Hp|exact Hl|].
  eexists _, sc, _, _. split; [exact Hs|]. split; [exact Hsc|]. split.
  - apply set_poly_typed; [|apply poly_init_typed]. apply set_chacha_typed; [exact H|].
    apply insert_counter_typed; [exact Hc|unfold word; lia|by destruct Hc].
  - split; [apply xor_bytes_ok; [by apply Forall_take|by apply Forall_drop]|]. unfold zlen. rewrite xor_bytes_length, length_take. lia.
Qed.

Lemma tls_long_typed inp plen ctx : typed ctx -> bytes_ok inp -> (plen <= length inp)%nat -> Z.of_nat plen < 65536 ->
  record_parts plen (tls_long inp plen ctx).
Proof.
  intros H Hi Hl Hp. pose proof (tls_long_scratch inp plen ctx) as Hs. cbn zeta in Hs.
  pose proof (typed_chacha ctx H) as Hc. destruct (typed_key _ Hc) as [Hk Hkl], (typed_counter _ Hc) as [Hw Hwl].
  destruct (ctr32_typed (key (chacha ctx)) (counter (chacha ctx)) 0 (memset0 64)) as [_ Hkb];
    [assumption..|apply memset0_ok|lia|vm_compute; discriminate|].
  destruct (Hs Hkb) as (sc & Hs' & Hsc). clear Hs. eexists _, sc, _, _. split; [exact Hs'|]. split; [exact Hsc|]. clear Hs' Hsc.
  destruct (ctr32_typed (key (chacha ctx)) (<[0%nat := 0]> (counter (chacha ctx))) 1 (take plen inp)) as [Hb Hbl];
    [assumption|assumption|apply insert_word_typed; [by split|unfold word; lia]|by rewrite length_insert|by apply Forall_take|lia|
     unfold zlen; rewrite length_take; lia|].
  set (out := ChaCha20_ctr32 (take plen inp) _ _) in *. clearbody out. split.
  - apply set_poly_typed; [|repeat apply poly_update_typed; apply poly_init_typed]. apply set_chacha_typed; [exact H|].
    destruct Hc. constructor; cbn [key counter buf partial_len]; try assumption; [|lia].
    apply insert_word_typed; [apply insert_word_typed; [by split|unfold word; lia]|unfold word; lia].
  - split; [exact Hb|]. unfold zlen. rewrite Hbl, length_take. lia.
Qed.

Lemma tag_compare a b n : bytes_ok a -> bytes_ok b -> 0 <= n <= zlen a -> n <= zlen b -> exists x, CRYPTO_memcmp a b n = Done x.
Proof.
  intros Ha Hb Hn Hn'. unfold CRYPTO_memcmp, read_at. destruct (Z.leb_spec 0 0); [|lia]. cbn [andb].
  destruct (Z.leb_spec (0 + n) (zlen a)); [|lia]. destruct (Z.leb_spec (0 + n) (zlen b)); [|lia]. by eexists.
Qed.

(** What a call gives: an answer, a typed context, an output with room. *)
Definition answers (n : Z) (r : outcome answer) : Prop :=
  exists ok len out ctx, r = Done (ok, len, out, ctx) /\ typed ctx /\ fits n out.

Lemma answers_done n ok len out ctx : typed ctx -> fits n out -> answers n (Done (ok, len, out, ctx)).
Proof. intros H Ho. by exists ok, len, out, ctx. Qed.

Lemma fits_le n m out : fits n out -> n <= m -> fits m out.
Proof. intros [Ho Hl] Hn. split; [exact Ho|lia]. Qed.

Lemma tls_cipher_answers ctx outl inp :
  typed ctx -> bytes_ok inp -> 0 <= tls_payload_length ctx < 65536 -> zlen inp = tls_payload_length ctx + 16 ->
  answers (zlen inp) (chacha20_poly1305_tls_cipher ctx outl inp).
Proof.
  intros H Hi Hp Hz. set (plen := Z.to_nat (tls_payload_length ctx)).
  assert (Hpl : Z.of_nat plen = tls_payload_length ctx) by (unfold plen; lia).
  assert (Hle : (plen <= length inp)%nat) by (unfold zlen in Hz; lia).
  assert (Hr : record_parts plen (if (plen <=? CHACHA_BLK_SIZE)%nat then tls_short inp plen ctx else tls_long inp plen ctx)).
  { destruct (Nat.leb_spec plen CHACHA_BLK_SIZE); [by apply tls_short_typed|apply tls_long_typed; (assumption || lia)]. }
  destruct Hr as (out & sc & tohash & c & Hr & Hsc & Hc & Ho). rewrite (tls_cipher_ends _ outl _ _ _ _ _ Hr Hsc). fold plen.
  set (mac := Poly1305_Final _). destruct (poly_final_typed (Poly1305_Update (poly1305 (set_lens EVP_AEAD_TLS1_AAD_LEN (Z.of_nat plen) c))
    (tohash ++ len_bytes (set_lens EVP_AEAD_TLS1_AAD_LEN (Z.of_nat plen) c)))) as [Hm Hml]. fold mac in Hm, Hml. clearbody mac.
  set (d := set_tls_len NO_TLS_PAYLOAD_LENGTH (set_poly poly_erased (set_lens EVP_AEAD_TLS1_AAD_LEN (Z.of_nat plen) c))).
  assert (Hd : typed d) by (unfold d; auto with aead_typed). clearbody d.
  destruct (enc d).
  - apply answers_done; [by apply set_tag_typed|]. rewrite Hz, <- Hpl. apply fits_app; [exact Ho|]. split; [exact Hm|unfold zlen; lia].
  - destruct (tag_compare mac (drop plen inp) 16) as [x ->];
      [exact Hm|by apply Forall_drop|unfold zlen; lia|unfold zlen in *; rewrite length_drop; lia|]. cbn [mbind outcome_bind].
    destruct (x =? 0); cbn [negb]; apply answers_done; try exact Hd; [apply (fits_le _ _ _ Ho); lia|].
    destruct (Z.ltb_spec 16 (zlen inp)); [|apply (fits_le _ _ _ Ho); lia].
    rewrite drop_ge, app_nil_r by (destruct Ho; unfold zlen in *; lia). apply fits_zeros. lia.
Qed.

(** ** A call *)

(** The end of a call on [plen] bytes, or on the whole input. *)
Lemma aead_end_answers out i plen ctx :
  typed ctx -> bytes_ok i -> fits plen out -> zlen i = plen \/ zlen i = plen + 16 -> 0 <= plen ->
  answers (zlen i) (aead_end out (Some i) plen ctx).
Proof.
  intros H Hi Ho Hl Hp. unfold aead_end. cbn zeta. destruct (Z.eqb_spec (zlen i) plen) as [E|E]; [apply answers_done; [exact H|by rewrite E]|].
  pose proof (mac_finish_typed ctx H) as Hm. destruct (mac_finish ctx) as [temp c]. destruct Hm as (Hc & Ht & Htl).
  assert (Hz : zlen i = plen + 16) by (destruct Hl; [contradiction|assumption]). clear Hl E. rewrite Hz.
  destruct (enc c); [apply answers_done; [exact Hc|apply fits_app; [exact Ho|split; [exact Ht|unfold zlen; lia]]]|].
  destruct (tag_compare temp (drop (Z.to_nat plen) i) 16) as [x ->];
    [exact Ht|by apply Forall_drop|unfold zlen; lia|unfold zlen in *; rewrite length_drop; lia|]. cbn [mbind outcome_bind].
  destruct (x =? 0); cbn [negb]; apply answers_done; try exact Hc; [apply (fits_le _ _ _ Ho); lia|apply fits_zeros; lia].
Qed.

Lemma aead_end_final plen ctx : typed ctx -> answers 0 (aead_end [] None plen ctx).
Proof.
  intros H. unfold aead_end. cbn zeta. pose proof (mac_finish_typed ctx H) as Hm. destruct (mac_finish ctx) as [temp c].
  destruct Hm as (Hc & Ht & Htl). destruct (enc c); [apply answers_done; [exact Hc|by apply fits_nil]|].
  pose proof (typed_tag_len c Hc) as Hn. destruct (typed_tag c Hc) as [Hg Hgl].
  destruct (tag_compare temp (tag c) (tag_len c)) as [x ->]; [assumption|assumption|unfold zlen; lia|unfold zlen; lia|].
  cbn [mbind outcome_bind]. apply answers_done; [exact Hc|by apply fits_nil].
Qed.

(** The first call behind an initialisation starts the MAC. *)
Lemma started_typed ctx : typed ctx -> typed (if mac_inited ctx then ctx else mac_start ctx).
Proof. intros H. destruct (mac_inited ctx); [exact H|by apply mac_start_typed]. Qed.

Lemma record_length ctx : typed ctx -> tls_payload_length ctx <> NO_TLS_PAYLOAD_LENGTH ->
  0 <= tls_payload_length ctx < 65536 /\ u32 (tls_payload_length ctx + 16) = tls_payload_length ctx + 16.
Proof.
  intros H Hn. destruct (typed_tls_len ctx H) as [E|Hr]; [contradiction|]. split; [exact Hr|].
  unfold u32, wrap. rewrite Z.mod_small; [reflexivity|]. change (2 ^ 32) with 4294967296. lia.
Qed.

Lemma aead_update_answers ctx (out_null : bool) outl i :
  typed ctx -> bytes_ok i -> zlen i < 2 ^ 32 ->
  answers (if out_null then 0 else zlen i) (chacha20_poly1305_aead_cipher ctx out_null outl (Some i)).
Proof.
  intros H Hi Hz. pose proof (zlen_nonneg i) as H0. unfold chacha20_poly1305_aead_cipher. cbn zeta.
  destruct (negb (mac_inited ctx) && negb (tls_payload_length ctx =? NO_TLS_PAYLOAD_LENGTH) && negb out_null) eqn:E.
  - apply andb_prop in E as [[_ En]%andb_prop Eo]. destruct out_null; [discriminate|].
    apply negb_true_iff, Z.eqb_neq in En. destruct (record_length ctx H En) as [Hr ->].
    destruct (Z.eqb_spec (zlen i) (tls_payload_length ctx + 16)) as [El|_]; cbn [negb]; [by apply tls_cipher_answers|].
    apply answers_done; [exact H|by apply fits_nil].
  - clear E. pose proof (started_typed ctx H) as Hs. set (c := if mac_inited ctx then ctx else mac_start ctx) in *. clearbody c.
    destruct out_null.
    { apply answers_done; [|by apply fits_nil]. by apply set_aad_typed, set_lens_typed, mac_update_typed. }
    apply wrap_up_typed, no_tls_typed in Hs. set (d := set_tls_len NO_TLS_PAYLOAD_LENGTH (wrap_up_aad c)) in *. clearbody d.
    destruct (Z.eqb_spec (tls_payload_length ctx) NO_TLS_PAYLOAD_LENGTH) as [_|En].
    + pose proof (cipher_text_typed i d Hs Hi Hz) as Ht. destruct (cipher_text i d) as [out f]. destruct Ht as (Hf & Ho & Hl).
      apply aead_end_answers; [exact Hf|exact Hi| |by left|exact H0]. split; [exact Ho|unfold zlen; lia].
    + destruct (record_length ctx H En) as [Hr ->].
      destruct (Z.eqb_spec (zlen i) (tls_payload_length ctx + 16)) as [El|_]; cbn [negb]; [|apply answers_done; [exact Hs|by apply fits_nil]].
      set (x := take _ i). assert (Hx : bytes_ok x) by (by apply Forall_take).
      assert (Hxl : zlen x = tls_payload_length ctx) by (unfold zlen, x in *; rewrite length_take; lia).
      pose proof (cipher_text_typed x d Hs Hx ltac:(lia)) as Ht. destruct (cipher_text x d) as [out f]. destruct Ht as (Hf & Ho & Hl).
      apply aead_end_answers; [exact Hf|exact Hi| |by right|lia]. split; [exact Ho|unfold zlen in *; lia].
Qed.

Lemma aead_final_answers ctx outl : typed ctx -> answers 0 (chacha20_poly1305_final ctx false outl).
Proof.
  intros H. unfold chacha20_poly1305_final, chacha20_poly1305_aead_cipher. cbn zeta.
  destruct (negb (mac_inited ctx) && negb (tls_payload_length ctx =? NO_TLS_PAYLOAD_LENGTH) && negb false) eqn:E.
  - apply andb_prop in E as [[_ En]%andb_prop _]. apply negb_true_iff, Z.eqb_neq in En. destruct (record_length ctx H En) as [Hr ->].
    destruct (Z.eqb_spec 0 (tls_payload_length ctx + 16)) as [El|_]; [lia|]. cbn [negb mbind outcome_bind].
    apply answers_done; [exact H|by apply fits_nil].
  - destruct (aead_end_final (tls_payload_length ctx) _ (started_typed ctx H)) as (ok & n & out & c & -> & Hc & Ho).
    cbn [mbind outcome_bind]. by apply answers_done.
Qed.

(** ** All of them *)

Lemma run_call_typed x ctx : typed ctx -> call_ok x ->
  exists ok out ctx', run_call x ctx = Done (ok, out, ctx') /\ typed ctx' /\ fits (room x) out.
Proof.
  intros H Hx.
  assert (Hdone : forall r : bool * PROV_CHACHA20_POLY1305_CTX, typed r.2 -> exists ok out ctx',
    (let '(ok, ctx) := r in Done (ok, [], ctx)) = Done (ok, out, ctx') /\ typed ctx' /\ fits 0 out).
  { intros [ok c] Hc. exists ok, [], c. split; [reflexivity|]. split; [exact Hc|by apply fits_nil]. }
  destruct x as [e k iv p|p|out_null outsize inp|]; cbn [call_ok] in Hx; cbn [run_call room].
  - apply Hdone. destruct Hx as (Hk & Hiv & Hp). by apply init_with_params_typed.
  - apply Hdone. by apply set_ctx_params_typed.
  - destruct Hx as (Hi & Hz & Hs). unfold chacha20_poly1305_cipher.
    assert (Hr : 0 <= if out_null then 0 else outsize) by (destruct out_null; lia).
    destruct (Z.eqb_spec (zlen inp) 0) as [_|_]; [|destruct (Z.ltb_spec outsize (zlen inp)) as [_|Hle]].
    + exists true, [], ctx. split; [reflexivity|]. split; [exact H|by apply fits_nil].
    + exists false, [], ctx. split; [reflexivity|]. split; [exact H|by apply fits_nil].
    + destruct (aead_update_answers ctx out_null 0 inp H Hi Hz) as (ok & n & out & c & -> & Hc & Ho). exists ok, out, c.
      split; [reflexivity|]. split; [exact Hc|]. apply (fits_le _ _ _ Ho). destruct out_null; lia.
  - destruct (aead_final_answers ctx 0 H) as (ok & n & out & c & -> & Hc & Ho). by exists ok, out, c.
Qed.

(** C35: Whatever calls are made on a context of ChaCha20-Poly1305, in whatever order
    - initialisations with or without a key and an initial value of any lengths,
    parameters (tags and their lengths, headers of records, fixed parts of initial
    values), additional data and text of any sizes, ends -, beginning with a new
    context: every call returns without undefined behaviour, writes bytes and no more
    of them than its output has room for (none at all when the output is a null
    pointer and none for the end), and leaves a context of the same type behind:
    arrays of their sizes filled with bytes and words, a partial block of at most 64
    bytes, less than a block waiting in the MAC, a length of the tag of at most 16,
    and a record that is either not announced or shorter than 64 KB. *)
Theorem aead_calls_typed xs :
  Forall call_ok xs ->
  exists outs ctx', run_calls xs chacha20_poly1305_newctx = Done (outs, ctx') /\ typed ctx' /\
    Forall2 (fun x out => fits (room x) out.2) xs outs.
Proof.
  intros Hxs. generalize chacha20_poly1305_newctx, newctx_typed. induction Hxs as [|x xs Hx _ IH]; intros ctx H; cbn [run_calls].
  { exists [], ctx. split; [reflexivity|]. split; [exact H|constructor]. }
  destruct (run_call_typed x ctx H Hx) as (ok & out & c & -> & Hc & Ho). cbn [mbind outcome_bind].
  destruct (IH c Hc) as (outs & c' & -> & Hc' & Hos). cbn [mbind outcome_bind]. exists ((ok, out) :: outs), c'.
  split; [reflexivity|]. split; [exact Hc'|]. constructor; [exact Ho|exact Hos].
Qed.

(** Text before a key, a record announced twice and its text too short, a tag that is
    too long, additional data after text, two ends. *)
Definition tag_param d n : ctx_params := Params None None (Some (d, n)) None None.
Definition record_param a : ctx_params := Params (Some 32) None None (Some a) None.
Definition iv_param v : ctx_params := Params None (Some 12) None None (Some v).

Definition odd_calls : list call :=
  [Cipher false 200 sunscreen; Init false None (Some aead_iv) no_params; SetParams (iv_param aead_iv);
   SetParams (record_param (memset0 13)); SetParams (record_param (replicate 13 255)); Cipher false 12 aead_aad; Final;
   SetParams (tag_param (Some (memset0 17)) 17); SetParams (tag_param None 5); Cipher true 12 aead_aad; Cipher false 12 aead_aad;
   Cipher false 12 aead_aad; Final; Init true (Some aead_key) (Some (memset0 3)) no_params;
   Init true (Some aead_key) (Some aead_iv) (tag_param None 4); Cipher false 3 aead_aad; Cipher false 12 aead_aad;
   Cipher true 12 aead_aad; Final; Final].

Lemma odd_calls_ok : Forall call_ok odd_calls.
Proof.
  unfold odd_calls. repeat (apply Forall_cons; split; [|]); try apply Forall_nil; cbn [call_ok option_ok];
    unfold params_ok, tag_param_ok; cbn [p_tag p_tls_aad p_tls_iv_fixed no_params tag_param record_param iv_param option_ok];
    repeat match goal with |- _ /\ _ => split end;
    first [exact I|lia|apply bytes_ok_checked; vm_compute; reflexivity|reflexivity].
Qed.

Lemma aead_calls_typed_witness :
  exists outs ctx', run_calls odd_calls chacha20_poly1305_newctx = Done (outs, ctx') /\ typed ctx' /\
    Forall2 (fun x out => fits (room x) out.2) odd_calls outs.
Proof. apply (aead_calls_typed odd_calls). exact odd_calls_ok. Defined.

(** What these calls return. *)
Example odd_calls_return :
  match run_calls odd_calls chacha20_poly1305_newctx with
  | Done (outs, _) => map (fun o => (o.1, length o.2)) outs
  | _ => []
  end = [(true, 114); (true, 0); (true, 0); (false, 0); (true, 0); (false, 0); (false, 0); (false, 0); (true, 0); (true, 0);
         (false, 0); (true, 12); (false, 0); (false, 0); (true, 0); (false, 0); (true, 12); (true, 0); (true, 0); (true, 0)]%nat.
Proof. vm_compute. reflexivity. Qed.
