(* ===== verification/Ghash.v ===== *)
(** * The hash of GCM (crypto/modes/gcm128.c)

    Multiplication by a fixed element H of the field with 2^128 elements, four bits
    at a time with a table of sixteen multiples of H and a table for the bits that are
    shifted out ("Shoup's" tables); and the hash that multiplies block by block.
    Both are shown to be those of SP 800-38D, sections 6.3 and 6.4, which work bit by
    bit.  Without assembler, with a size_t of 32 bits. *)

From S2P Require Import Prelude CLib Words Modes Cfb Ctr32.

Record u128 := U128 { hi : Z; lo : Z }.

Definition xor128 (a b : u128) : u128 := U128 (hi a ⊕ hi b) (lo a ⊕ lo b).

(** ** The tables *)

Definition PACK (s : Z) : Z := u32 (Z.shiftl s 16).

Definition REDUCE1BIT (V : u128) : u128 :=
  let T := Z.land 0xe1000000 (u32 (0 - u32 (Z.land (lo V) 1))) in
  U128 (Z.shiftr (hi V) 1 ⊕ u64 (Z.shiftl T 32)) (Z.lor (u64 (Z.shiftl (hi V) 63)) (Z.shiftr (lo V) 1)).

Definition gcm_init_4bit (H : u128) : list u128 :=
  let t8 := H in
  let t4 := REDUCE1BIT t8 in
  let t2 := REDUCE1BIT t4 in
  let t1 := REDUCE1BIT t2 in
  let t3 := xor128 t1 t2 in
  let t5 := xor128 t4 t1 in
  let t6 := xor128 t4 t2 in
  let t7 := xor128 t4 t3 in
  [U128 0 0; t1; t2; t3; t4; t5; t6; t7; t8; xor128 t8 t1; xor128 t8 t2; xor128 t8 t3; xor128 t8 t4; xor128 t8 t5;
   xor128 t8 t6; xor128 t8 t7].

Definition rem_4bit : list Z :=
  [PACK 0x0000; PACK 0x1C20; PACK 0x3840; PACK 0x2460; PACK 0x7080; PACK 0x6CA0; PACK 0x48C0; PACK 0x54E0;
   PACK 0xE100; PACK 0xFD20; PACK 0xD940; PACK 0xC560; PACK 0x9180; PACK 0x8DA0; PACK 0xA9C0; PACK 0xB5E0].

(** ** Multiplication and hash *)

(** Four bits out, and the remainder of what was shifted out added. *)
Definition shift_4bit (Z : u128) : u128 :=
  let rem := Z.land (lo Z) 0xf in
  U128 (Z.shiftr (hi Z) 4 ⊕ u64 (Z.shiftl (nth (Z.to_nat rem) rem_4bit 0) 32)) (Z.lor (u64 (Z.shiftl (hi Z) 60)) (Z.shiftr (lo Z) 4)).

Definition entry (Htable : list u128) (n : Z) : u128 := nth (Z.to_nat n) Htable (U128 0 0).

(** [while (1)]: [byte cnt] is the byte that the iteration reads. *)
Fixpoint mult_loop (Htable : list u128) (byte : nat -> Z) (cnt : nat) (nhi : Z) (Z : u128) : u128 :=
  let Z := xor128 (shift_4bit Z) (entry Htable nhi) in
  match cnt with
  | O => Z
  | S cnt =>
      let nlo := byte cnt in
      mult_loop Htable byte cnt (Z.shiftr nlo 4) (xor128 (shift_4bit Z) (entry Htable (Z.land nlo 0xf)))
  end.

Definition mult_bytes (Htable : list u128) (byte : nat -> Z) : u128 :=
  let nlo := byte 15%nat in
  mult_loop Htable byte 15 (Z.shiftr nlo 4) (entry Htable (Z.land nlo 0xf)).

Definition store128 (Z : u128) : bytes :=
  bytes_of_word (u32 (Z.shiftr (hi Z) 32)) ++ bytes_of_word (u32 (hi Z)) ++
  bytes_of_word (u32 (Z.shiftr (lo Z) 32)) ++ bytes_of_word (u32 (lo Z)).

Definition gcm_gmult_4bit (Xi : bytes) (Htable : list u128) : bytes := store128 (mult_bytes Htable (fun cnt => nth cnt Xi 0)).

(** do ... while (len > 0), for whole blocks. *)
Fixpoint ghash_loop (fuel : nat) (Xi : bytes) (Htable : list u128) (inp : bytes) : outcome bytes :=
  match fuel with
  | O => NoFuel
  | S fuel =>
      if (length inp <? 16)%nat then Crash OverRead
      else
        let Xi := store128 (mult_bytes Htable (fun cnt => nth cnt Xi 0 ⊕ nth cnt inp 0)) in
        match drop 16 inp with
        | [] => Done Xi
        | rest => ghash_loop fuel Xi Htable rest
        end
  end.

Definition gcm_ghash_4bit (Xi : bytes) (Htable : list u128) (inp : bytes) : outcome bytes :=
  ghash_loop (S (length inp)) Xi Htable inp.

(** H in the order of the host. *)
Definition load32 (p : bytes) : Z := pack4 (nth 0 p 0) (nth 1 p 0) (nth 2 p 0) (nth 3 p 0).
Definition load128 (p : bytes) : u128 :=
  U128 (Z.lor (u64 (Z.shiftl (load32 p) 32)) (load32 (drop 4 p))) (Z.lor (u64 (Z.shiftl (load32 (drop 8 p)) 32)) (load32 (drop 12 p))).

(** ** SP 800-38D *)

(** Blocks are numbers, the first bit the highest; [gf_R] is 11100001 and zeros. *)
Definition gf_R : Z := 0xe1 * 2 ^ 120.
Definition gf_step (v : Z) : Z := if Z.odd v then v / 2 ⊕ gf_R else v / 2.

(** Algorithm 1: the bits of [x] from the first on. *)
Fixpoint gf_loop (n : nat) (x z v : Z) : Z :=
  match n with
  | O => z
  | S n => gf_loop n x (if Z.testbit x (Z.of_nat n) then z ⊕ v else z) (gf_step v)
  end.
Definition gf_mul (x y : Z) : Z := gf_loop 128 x 0 y.

(** Algorithm 2, from a value [y]. *)
Fixpoint sp_ghash (h : Z) (y : Z) (blocks : list bytes) {struct blocks} : Z :=
  match blocks with
  | [] => y
  | x :: blocks => sp_ghash h (gf_mul (y ⊕ be_value x) h) blocks
  end.

(** Test case 2 of the specification of GCM: one block and the lengths. *)
Definition case2_H : bytes :=
  [0x66; 0xe9; 0x4b; 0xd4; 0xef; 0x8a; 0x2c; 0x3b; 0x88; 0x4c; 0xfa; 0x59; 0xca; 0x34; 0x2b; 0x2e].
Definition case2_C : bytes :=
  [0x03; 0x88; 0xda; 0xce; 0x60; 0xb6; 0xa3; 0x92; 0xf3; 0x28; 0xc2; 0xb9; 0x71; 0xb2; 0xfe; 0x78].
Definition case2_ghash : bytes :=
  [0xf3; 0x8c; 0xbb; 0x1a; 0xd6; 0x92; 0x23; 0xdc; 0xc3; 0x45; 0x7a; 0xe5; 0xb6; 0xb0; 0xf8; 0x85].

Example ghash_case2 :
  sp_ghash (be_value case2_H) 0 [case2_C; memset0 15 ++ [128]] = be_value case2_ghash /\
  gcm_ghash_4bit (memset0 16) (gcm_init_4bit (load128 case2_H)) (case2_C ++ memset0 15 ++ [128]) = Done case2_ghash.
Proof. vm_compute. split; reflexivity. Qed.

(** ** The field *)

Lemma half_lxor a b : (a ⊕ b) / 2 = a / 2 ⊕ b / 2.
Proof. rewrite <- !Z.div2_div, !Z.div2_spec. apply Z.shiftr_lxor. Qed.

Lemma odd_lxor a b : Z.odd (a ⊕ b) = xorb (Z.odd a) (Z.odd b).
Proof. rewrite <- !Z.bit0_odd. apply Z.lxor_spec. Qed.

Lemma gf_step_lxor a b : gf_step (a ⊕ b) = gf_step a ⊕ gf_step b.
Proof.
  unfold gf_step. rewrite odd_lxor, half_lxor. destruct (Z.odd a), (Z.odd b); cbn [xorb]; xor_solve.
Qed.

Lemma gf_step_zero : gf_step 0 = 0.
Proof. reflexivity. Qed.

Lemma gf_step_even a : gf_step (2 * a) = a.
Proof.
  unfold gf_step. rewrite Z.odd_mul. cbn [Z.odd andb]. rewrite Z.mul_comm. apply Z.div_mul. lia.
Qed.

Lemma steps_lxor n a b : Nat.iter n gf_step (a ⊕ b) = Nat.iter n gf_step a ⊕ Nat.iter n gf_step b.
Proof. induction n as [|n IH]; [reflexivity|]. by rewrite !Nat.iter_succ, IH, gf_step_lxor. Qed.

Lemma gf_loop_lxor n x z v : gf_loop n x z v = z ⊕ gf_loop n x 0 v.
Proof.
  revert z v. induction n as [|n IH]; intros z v; cbn [gf_loop]; [by rewrite Z.lxor_0_r|].
  destruct (Z.testbit x (Z.of_nat n)); [|apply IH]. rewrite IH, (IH (0 ⊕ v)), Z.lxor_0_l. apply Z.lxor_assoc.
Qed.

Lemma gf_loop_step n x v : gf_loop n x 0 (gf_step v) = gf_step (gf_loop n x 0 v).
Proof.
  revert v. induction n as [|n IH]; intros v; cbn [gf_loop]; [reflexivity|].
  destruct (Z.testbit x (Z.of_nat n)); [|apply IH]. rewrite !Z.lxor_0_l, gf_loop_lxor, (gf_loop_lxor n x v), IH.
  by rewrite gf_step_lxor.
Qed.

Lemma gf_loop_steps m n x v : gf_loop n x 0 (Nat.iter m gf_step v) = Nat.iter m gf_step (gf_loop n x 0 v).
Proof. induction m as [|m IH]; [reflexivity|]. by rewrite !Nat.iter_succ, gf_loop_step, IH. Qed.

(** The first [m] bits, and the others [m] places further on. *)
Lemma gf_loop_split m n x v :
  gf_loop (m + n) x 0 v = gf_loop m (x / 2 ^ Z.of_nat n) 0 v ⊕ Nat.iter m gf_step (gf_loop n x 0 v).
Proof.
  rewrite <- gf_loop_steps. generalize 0 at 1 2. revert v.
  induction m as [|m IH]; intros v z; [apply gf_loop_lxor|].
  cbn [Nat.add gf_loop]. rewrite IH, Nat.iter_succ_r, Z.div_pow2_bits, <- Nat2Z.inj_add by lia. reflexivity.
Qed.

(** Only the last [n] bits count. *)
Lemma gf_loop_mod n k x z v : (n <= k)%nat -> gf_loop n (x mod 2 ^ Z.of_nat k) z v = gf_loop n x z v.
Proof.
  revert z v. induction n as [|n IH]; intros z v Hn; cbn [gf_loop]; [reflexivity|].
  rewrite Z.mod_pow2_bits_low by lia. apply IH. lia.
Qed.

Lemma gf_step_range v : 0 <= v < 2 ^ 128 -> 0 <= gf_step v < 2 ^ 128.
Proof.
  intros Hv. assert (Hh : 0 <= v / 2 < 2 ^ 128) by (change (2 ^ 128) with (2 * 2 ^ 127) in *; Z.to_euclidean_division_equations; lia).
  unfold gf_step. destruct (Z.odd v); [|exact Hh]. apply lxor_bound; [lia|exact Hh|]. split; reflexivity || discriminate.
Qed.

Lemma gf_loop_range n x z v : 0 <= z < 2 ^ 128 -> 0 <= v < 2 ^ 128 -> 0 <= gf_loop n x z v < 2 ^ 128.
Proof.
  revert z v. induction n as [|n IH]; intros z v Hz Hv; cbn [gf_loop]; [exact Hz|].
  apply IH; [|by apply gf_step_range]. destruct (Z.testbit _ _); [|exact Hz]. apply lxor_bound; [lia|exact Hz|exact Hv].
Qed.

(** Four steps at once. *)
Definition gf_rem (r : Z) : Z := Nat.iter 4 gf_step r.

Lemma four_steps v : Nat.iter 4 gf_step v = v / 16 ⊕ gf_rem (v mod 16).
Proof.
  assert (Hv : v = 2 * (2 * (2 * (2 * (v / 16)))) ⊕ v mod 16).
  { replace (2 * (2 * (2 * (2 * (v / 16))))) with (Z.shiftl (v / 16) 4) by (rewrite Z.shiftl_mul_pow2 by lia; lia).
    rewrite lxor_shiftl_low by (try apply Z.mod_pos_bound; lia). pose proof (Z.div_mod v 16 ltac:(lia)). change (2 ^ 4) with 16. lia. }
  rewrite Hv at 1. rewrite steps_lxor. unfold gf_rem. f_equal.
  change (gf_step (gf_step (gf_step (gf_step (2 * (2 * (2 * (2 * (v / 16)))))))) = v / 16). by rewrite !gf_step_even.
Qed.

(** ** Pairs of 64-bit words as numbers *)

Definition join (V : u128) : Z := hi V * 2 ^ 64 + lo V.
Definition u128_ok (V : u128) : Prop := 0 <= hi V < 2 ^ 64 /\ 0 <= lo V < 2 ^ 64.

Lemma join_range V : u128_ok V -> 0 <= join V < 2 ^ 128.
Proof. unfold u128_ok, join. change (2 ^ 128) with (2 ^ 64 * 2 ^ 64). nia. Qed.

Lemma join_shiftl V : u128_ok V -> join V = Z.shiftl (hi V) 64 ⊕ lo V.
Proof. intros [_ Hl]. by rewrite lxor_shiftl_low by lia. Qed.

Lemma join_xor a b : u128_ok a -> u128_ok b -> join (xor128 a b) = join a ⊕ join b /\ u128_ok (xor128 a b).
Proof.
  intros Ha Hb. assert (Hx : u128_ok (xor128 a b)).
  { destruct Ha, Hb. split; cbn [hi lo xor128]; apply lxor_bound; (lia || assumption). }
  split; [|exact Hx]. rewrite !join_shiftl by assumption. cbn [hi lo xor128]. rewrite Z.shiftl_lxor. xor_solve.
Qed.

(** Both words shifted right by [k], the low bits of the first moved to the second. *)
Lemma join_shiftr k V : u128_ok V -> 0 < k < 64 ->
  let s := U128 (Z.shiftr (hi V) k) (Z.lor (u64 (Z.shiftl (hi V) (64 - k))) (Z.shiftr (lo V) k)) in
  join s = join V / 2 ^ k /\ u128_ok s.
Proof.
  intros [Hh Hl] Hk. destruct V as [h l]. cbn [hi lo] in *. cbn zeta.
  assert (Hp : 2 ^ 64 = 2 ^ k * 2 ^ (64 - k)) by (rewrite <- Z.pow_add_r by lia; f_equal; lia).
  assert (Hk0 : 0 < 2 ^ k) by (apply Z.pow_pos_nonneg; lia). assert (Hk1 : 0 < 2 ^ (64 - k)) by (apply Z.pow_pos_nonneg; lia).
  assert (Hu : u64 (Z.shiftl h (64 - k)) = Z.shiftl (h mod 2 ^ k) (64 - k)).
  { unfold u64, wrap. rewrite !Z.shiftl_mul_pow2 by lia. rewrite Hp. apply Z.mul_mod_distr_r; lia. }
  assert (Hl' : 0 <= l / 2 ^ k < 2 ^ (64 - k)).
  { split; [apply Z.div_pos; lia|]. apply Z.div_lt_upper_bound; [lia|]. rewrite <- Hp. lia. }
  pose proof (Z.mod_pos_bound h (2 ^ k) Hk0) as Hm. pose proof (Z.div_mod h (2 ^ k) ltac:(lia)) as Hd.
  unfold join, u128_ok. cbn [hi lo]. rewrite Hu, !Z.shiftr_div_pow2, lor_shiftl_low by lia. split; [|split].
  - rewrite Hd at 3. rewrite Hp.
    replace ((2 ^ k * (h / 2 ^ k) + h mod 2 ^ k) * (2 ^ k * 2 ^ (64 - k)) + l)
      with (l + ((h / 2 ^ k) * (2 ^ k * 2 ^ (64 - k)) + h mod 2 ^ k * 2 ^ (64 - k)) * 2 ^ k) by ring.
    rewrite Z.div_add by lia. ring.
  - split; [apply Z.div_pos; lia|]. apply Z.div_lt_upper_bound; nia.
  - rewrite Hp. nia.
Qed.

(** A word added to the first of the two. *)
Lemma xor_high s w : u128_ok s -> 0 <= w < 2 ^ 64 ->
  join (U128 (hi s ⊕ w) (lo s)) = join s ⊕ w * 2 ^ 64 /\ u128_ok (U128 (hi s ⊕ w) (lo s)).
Proof.
  intros Hs Hw. assert (Hv : u128_ok (U128 w 0)) by (split; cbn [hi lo]; [exact Hw|split; reflexivity || discriminate]).
  destruct (join_xor s _ Hs Hv) as [Hj Hok]. unfold xor128 in *. cbn [hi lo] in *. rewrite Z.lxor_0_r in *. split; [|exact Hok].
  rewrite Hj. unfold join at 2. cbn [hi lo]. by rewrite Z.add_0_r.
Qed.

Lemma join_mod_low V k : 0 <= k <= 64 -> join V mod 2 ^ k = lo V mod 2 ^ k.
Proof.
  intros Hk. unfold join. replace (2 ^ 64) with (2 ^ (64 - k) * 2 ^ k) by (rewrite <- Z.pow_add_r by lia; f_equal; lia).
  rewrite Z.mul_assoc, Z.add_comm. apply Z.mod_add, Z.pow_nonzero; lia.
Qed.

Lemma REDUCE1BIT_step V : u128_ok V -> join (REDUCE1BIT V) = gf_step (join V) /\ u128_ok (REDUCE1BIT V).
Proof.
  intros HV. destruct (join_shiftr 1 V HV ltac:(lia)) as [Hj Hok]. unfold REDUCE1BIT. set (T := Z.land 0xe1000000 _).
  assert (HT : T = if Z.odd (join V) then 0xe1000000 else 0).
  { unfold T. pose proof (join_mod_low V 1 ltac:(lia)) as Hm. change (2 ^ 1) with 2 in Hm.
    replace (Z.land (lo V) 1) with (lo V mod 2) by (symmetry; apply (Z.land_ones (lo V) 1); lia).
    rewrite <- Hm. rewrite Zmod_odd. destruct (Z.odd (join V)); reflexivity. }
  assert (Hw : 0 <= u64 (Z.shiftl T 32) < 2 ^ 64) by (apply (wrap_range 64); lia).
  destruct (xor_high _ _ Hok Hw) as [Hx Hxok]. cbn [hi lo] in Hx, Hxok. change (64 - 1) with 63 in *. split; [|exact Hxok].
  rewrite Hx, Hj. change (2 ^ 1) with 2. unfold gf_step. rewrite HT. destruct (Z.odd (join V)); [reflexivity|apply Z.lxor_0_r].
Qed.

Lemma below_16 r : 0 <= r < 16 -> r = 0 \/ r = 1 \/ r = 2 \/ r = 3 \/ r = 4 \/ r = 5 \/ r = 6 \/ r = 7 \/ r = 8 \/ r = 9 \/ r = 10 \/ r = 11 \/
  r = 12 \/ r = 13 \/ r = 14 \/ r = 15.
Proof. lia. Qed.

Ltac nibble r := let H := fresh in intros H; apply below_16 in H; repeat (destruct H as [->|H]); [..|subst r].

(** The table of remainders. *)
Lemma rem_4bit_rem r : 0 <= r < 16 -> u64 (Z.shiftl (nth (Z.to_nat r) rem_4bit 0) 32) * 2 ^ 64 = gf_rem r.
Proof. nibble r; vm_compute; reflexivity. Qed.

Lemma shift_4bit_steps V : u128_ok V -> join (shift_4bit V) = Nat.iter 4 gf_step (join V) /\ u128_ok (shift_4bit V).
Proof.
  intros HV. destruct (join_shiftr 4 V HV ltac:(lia)) as [Hj Hok]. unfold shift_4bit.
  assert (Hw : forall w, 0 <= u64 w < 2 ^ 64) by (intros w; apply (wrap_range 64); lia).
  destruct (xor_high _ _ Hok (Hw (Z.shiftl (nth (Z.to_nat (Z.land (lo V) 0xf)) rem_4bit 0) 32))) as [Hx Hxok]. cbn [hi lo] in Hx, Hxok.
  change (64 - 4) with 60 in *. split; [|exact Hxok]. rewrite Hx, Hj, four_steps. change (2 ^ 4) with 16. f_equal.
  pose proof (join_mod_low V 4 ltac:(lia)) as Hm. change (2 ^ 4) with 16 in Hm. rewrite Hm.
  replace (Z.land (lo V) 15) with (lo V mod 16) by (symmetry; apply (Z.land_ones (lo V) 4); lia).
  apply rem_4bit_rem, Z.mod_pos_bound. lia.
Qed.

(** ** The table of multiples *)

Definition table_ok (h : Z) (Htable : list u128) : Prop :=
  forall q, 0 <= q < 16 -> u128_ok (entry Htable q) /\ join (entry Htable q) = gf_loop 4 q 0 h.

Lemma init_table H : u128_ok H -> table_ok (join H) (gcm_init_4bit H).
Proof.
  intros H8. unfold gcm_init_4bit. cbn zeta. destruct (REDUCE1BIT_step H H8) as [E4 H4]. set (t4 := REDUCE1BIT H) in *.
  destruct (REDUCE1BIT_step t4 H4) as [E2 H2]. set (t2 := REDUCE1BIT t4) in *.
  destruct (REDUCE1BIT_step t2 H2) as [E1 H1]. set (t1 := REDUCE1BIT t2) in *. clearbody t1 t2 t4.
  destruct (join_xor t1 t2 H1 H2) as [E3 H3]. set (t3 := xor128 t1 t2) in *. clearbody t3.
  destruct (join_xor t4 t1 H4 H1) as [E5 H5], (join_xor t4 t2 H4 H2) as [E6 H6], (join_xor t4 t3 H4 H3) as [E7 H7].
  set (t5 := xor128 t4 t1) in *. set (t6 := xor128 t4 t2) in *. set (t7 := xor128 t4 t3) in *. clearbody t5 t6 t7.
  pose proof (fun t Ht => join_xor H t H8 Ht) as Hx.
  intros q. nibble q; unfold entry;
    (match goal with |- context [Z.to_nat ?p] => let n := eval vm_compute in (Z.to_nat p) in change (Z.to_nat p) with n end); cbn [nth];
    (match goal with
     | |- context [xor128 H ?t] => destruct (Hx t ltac:(assumption)) as [Et Hto]; split; [exact Hto|rewrite Et]
     | |- context [U128 0 0] => split; [split; split; reflexivity || discriminate|]
     | _ => split; [assumption|]
     end); cbn [gf_loop];
    (repeat match goal with |- context [Z.testbit ?a ?b] => let c := eval vm_compute in (Z.testbit a b) in change (Z.testbit a b) with c end);
    rewrite ?E7, ?E6, ?E5, ?E3, ?E1, ?E2, ?E4, ?Z.lxor_0_l; try reflexivity; try xor_solve.
Qed.

(** ** Multiplication *)

(** [byte cnt] is byte [cnt] of [x], for the first sixteen. *)
Definition bytes_of (x : Z) (byte : nat -> Z) : Prop :=
  forall cnt, (cnt <= 15)%nat -> byte cnt = (x / 2 ^ Z.of_nat (8 * (15 - cnt))) mod 256.

Lemma nibbles x n : 0 <= n ->
  Z.land ((x / 2 ^ n) mod 256) 0xf = (x / 2 ^ n) mod 16 /\ Z.shiftr ((x / 2 ^ n) mod 256) 4 = (x / 2 ^ (n + 4)) mod 16.
Proof.
  intros Hn. set (y := x / 2 ^ n). assert (Hy : x / 2 ^ (n + 4) = y / 16).
  { unfold y. rewrite Z.pow_add_r, <- Z.div_div by lia. reflexivity. }
  rewrite Hy. split.
  - change 15 with (Z.ones 4). rewrite Z.land_ones by lia. change (2 ^ 4) with 16. Z.to_euclidean_division_equations; lia.
  - rewrite Z.shiftr_div_pow2 by lia. change (2 ^ 4) with 16. Z.to_euclidean_division_equations; lia.
Qed.

Lemma entry_mod h T x : table_ok h T -> u128_ok (entry T (x mod 16)) /\ join (entry T (x mod 16)) = gf_loop 4 x 0 h.
Proof.
  intros HT. destruct (HT (x mod 16)) as [Hok Hj]; [apply Z.mod_pos_bound; lia|]. split; [exact Hok|].
  rewrite Hj. apply (gf_loop_mod 4 4). lia.
Qed.

(** One round takes in four more bits. *)
Lemma round_split h T x n V q :
  table_ok h T -> u128_ok V -> join V = gf_loop n x 0 h -> q = (x / 2 ^ Z.of_nat n) mod 16 ->
  u128_ok (xor128 (shift_4bit V) (entry T q)) /\ join (xor128 (shift_4bit V) (entry T q)) = gf_loop (4 + n) x 0 h.
Proof.
  intros HT HV Hj ->. destruct (shift_4bit_steps V HV) as [Es Hs], (entry_mod h T (x / 2 ^ Z.of_nat n) HT) as [He Ee].
  destruct (join_xor _ _ Hs He) as [Ex Hx]. split; [exact Hx|]. rewrite Ex, Es, Ee, Hj, gf_loop_split. apply Z.lxor_comm.
Qed.

Lemma mult_loop_spec h T x byte cnt nhi V :
  table_ok h T -> bytes_of x byte -> (cnt <= 15)%nat -> u128_ok V -> nhi = Z.shiftr (byte cnt) 4 ->
  join V = gf_loop (4 + 8 * (15 - cnt)) x 0 h ->
  u128_ok (mult_loop T byte cnt nhi V) /\ join (mult_loop T byte cnt nhi V) = gf_mul x h.
Proof.
  intros HT Hx. revert nhi V. induction cnt as [|cnt IH]; intros nhi V Hc HV -> Hj; cbn [mult_loop];
    rewrite (Hx _ Hc) by lia.
  - apply (round_split h T x (4 + 8 * (15 - 0)) V); try assumption. rewrite (proj2 (nibbles x (Z.of_nat (8 * (15 - 0))) ltac:(lia))).
    reflexivity.
  - destruct (nibbles x (Z.of_nat (8 * (15 - S cnt))) ltac:(lia)) as [_ En].
    destruct (round_split h T x (4 + 8 * (15 - S cnt)) V (Z.shiftr ((x / 2 ^ Z.of_nat (8 * (15 - S cnt))) mod 256) 4)) as [H1 J1];
      [assumption..|rewrite En; by replace (Z.of_nat (4 + 8 * (15 - S cnt))) with (Z.of_nat (8 * (15 - S cnt)) + 4) by lia|].
    set (V1 := xor128 _ _) in *. clearbody V1. rewrite (Hx cnt) by lia.
    destruct (nibbles x (Z.of_nat (8 * (15 - cnt))) ltac:(lia)) as [El _].
    destruct (round_split h T x (4 + (4 + 8 * (15 - S cnt))) V1 (Z.land ((x / 2 ^ Z.of_nat (8 * (15 - cnt))) mod 256) 15)) as [H2 J2];
      [assumption..|rewrite El; by replace (4 + (4 + 8 * (15 - S cnt)))%nat with (8 * (15 - cnt))%nat by lia|].
    apply IH; [lia|exact H2|by rewrite (Hx cnt) by lia|]. rewrite J2. f_equal. lia.
Qed.

Lemma mult_bytes_spec h T x byte :
  table_ok h T -> bytes_of x byte -> u128_ok (mult_bytes T byte) /\ join (mult_bytes T byte) = gf_mul x h.
Proof.
  intros HT Hx. unfold mult_bytes. cbn zeta. pose proof (Hx 15%nat ltac:(lia)) as Hb. change (Z.of_nat (8 * (15 - 15))) with 0 in Hb.
  destruct (nibbles x 0 ltac:(lia)) as [El _]. destruct (entry_mod h T x HT) as [He Ee].
  rewrite Hb, El. change (2 ^ 0) with 1 in *. rewrite Z.div_1_r in *.
  apply (mult_loop_spec h T x); try assumption; try lia. by rewrite Hb.
Qed.

(** ** Blocks of bytes *)

Definition block16 (p : bytes) : Prop := bytes_ok p /\ length p = 16%nat.

Lemma pow_256 n : 0 <= n -> 256 ^ n = 2 ^ (8 * n).
Proof. intros Hn. rewrite Z.pow_mul_r by lia. reflexivity. Qed.

Lemma be_value_byte p i : bytes_ok p -> (i < length p)%nat ->
  nth i p 0 = (be_value p / 2 ^ Z.of_nat (8 * (length p - 1 - i))) mod 256.
Proof.
  intros Hp. revert i. induction Hp as [|x p Hx Hp IH]; intros i Hi; [cbn in Hi; lia|]. cbn [length] in *.
  rewrite be_value_cons, pow_256 by apply zlen_nonneg. pose proof (be_value_range p Hp) as Hr. rewrite pow_256 in Hr by apply zlen_nonneg.
  unfold byte_ok in Hx. assert (Hz : 8 * zlen p = Z.of_nat (8 * length p)) by (unfold zlen; lia). rewrite Hz in *.
  destruct i as [|i]; cbn [nth].
  - replace (8 * (S (length p) - 1 - 0))%nat with (8 * length p)%nat by lia. rewrite Z.div_add_l by lia.
    rewrite (Z.div_small (be_value p)) by lia. rewrite Z.add_0_r, Z.mod_small; lia.
  - rewrite IH by lia. set (m := (8 * (length p - 1 - i))%nat). replace (8 * (S (length p) - 1 - S i))%nat with m by lia.
    assert (Hs : x * 2 ^ Z.of_nat (8 * length p) + be_value p = be_value p + (x * 2 ^ (Z.of_nat (8 * i)) * 256) * 2 ^ Z.of_nat m).
    { change 256 with (2 ^ 8). rewrite <- !Z.mul_assoc, <- !Z.pow_add_r by lia. rewrite Z.add_comm. do 3 f_equal. lia. }
    rewrite Hs, Z.div_add by (apply Z.pow_nonzero; lia). by rewrite Z.mod_add.
Qed.

Lemma be_value_xor a b : bytes_ok a -> bytes_ok b -> length a = length b -> be_value (xor_bytes a b) = be_value a ⊕ be_value b.
Proof.
  intros Ha. revert b. induction Ha as [|x a Hx Ha IH]; intros b Hb Hl; destruct Hb as [|y b Hy Hb]; try done.
  cbn [xor_bytes]. cbn [length] in Hl. rewrite !be_value_cons, IH by (assumption || lia).
  pose proof (be_value_range a Ha) as Hra. pose proof (be_value_range b Hb) as Hrb.
  assert (Hz : zlen b = zlen a) by (unfold zlen; lia). assert (Hz' : zlen (xor_bytes a b) = zlen a) by (unfold zlen; rewrite xor_bytes_length; lia).
  rewrite Hz, Hz' in *. rewrite !pow_256 in * by apply zlen_nonneg. pose proof (zlen_nonneg a).
  rewrite <- !lxor_shiftl_low by (try apply lxor_bound; lia). rewrite Z.shiftl_lxor. xor_solve.
Qed.

Lemma bytes_of_block p : block16 p -> bytes_of (be_value p) (fun cnt => nth cnt p 0).
Proof. intros [Hp Hl] cnt Hc. rewrite be_value_byte by (assumption || lia). by rewrite Hl. Qed.

Lemma nth_xor a b i : (i < length a)%nat -> length a = length b -> nth i (xor_bytes a b) 0 = nth i a 0 ⊕ nth i b 0.
Proof.
  revert b i. induction a as [|x a IH]; intros [|y b] i Hi Hl; try (cbn in *; lia). destruct i as [|i]; [done|].
  cbn [xor_bytes nth]. cbn [length] in *. apply IH; lia.
Qed.

Lemma bytes_of_xor p q : block16 p -> block16 q -> bytes_of (be_value p ⊕ be_value q) (fun cnt => nth cnt p 0 ⊕ nth cnt q 0).
Proof.
  intros [Hp Hl] [Hq Hm] cnt Hc. rewrite <- be_value_xor by (assumption || lia). rewrite <- nth_xor by lia.
  apply (bytes_of_block (xor_bytes p q)); [|exact Hc]. split; [by apply xor_bytes_ok|rewrite xor_bytes_length; lia].
Qed.

Lemma store128_value V : u128_ok V -> be_value (store128 V) = join V /\ block16 (store128 V).
Proof.
  intros [Hh Hl]. unfold store128. assert (Hu : forall w, 0 <= u32 w < 4294967296) by (intros w; apply (wrap_range 32); lia).
  destruct (bytes_of_word_value _ (Hu (Z.shiftr (hi V) 32))) as [V0 B0], (bytes_of_word_value _ (Hu (hi V))) as [V1 B1].
  destruct (bytes_of_word_value _ (Hu (Z.shiftr (lo V) 32))) as [V2 B2], (bytes_of_word_value _ (Hu (lo V))) as [V3 B3].
  split; [|split; [repeat (apply Forall_app; split); assumption|reflexivity]].
  rewrite !be_value_app, V0, V1, V2, V3. unfold join, u32, wrap. rewrite !Z.shiftr_div_pow2 by lia. unfold zlen. cbn [length app bytes_of_word].
  change (2 ^ 64) with 18446744073709551616 in *. change (2 ^ 32) with 4294967296.
  change (256 ^ Z.of_nat 12) with 79228162514264337593543950336. change (256 ^ Z.of_nat 8) with 18446744073709551616.
  change (256 ^ Z.of_nat 4) with 4294967296. Z.to_euclidean_division_equations. lia.
Qed.

Lemma load128_value p : block16 p -> join (load128 p) = be_value p /\ u128_ok (load128 p).
Proof.
  intros [Hp Hl]. do 16 (destruct p as [|? p]; [done|]). destruct p; [|done]. unfold bytes_ok in Hp. rewrite !Forall_cons in Hp.
  destruct Hp as (B0 & B1 & B2 & B3 & B4 & B5 & B6 & B7 & B8 & B9 & B10 & B11 & B12 & B13 & B14 & B15 & _).
  unfold load128, load32. cbn [drop nth].
  assert (Hw : forall a b, word a -> word b -> Z.lor (u64 (Z.shiftl a 32)) b = a * 4294967296 + b /\ 0 <= a * 4294967296 + b < 2 ^ 64).
  { intros a b Ha Hb. unfold word in *. unfold u64, wrap. change (2 ^ 64) with 18446744073709551616.
    rewrite Z.mod_small by (rewrite Z.shiftl_mul_pow2 by lia; change (2 ^ 32) with 4294967296; lia).
    rewrite lor_shiftl_low by (change (2 ^ 32) with 4294967296; lia). change (2 ^ 32) with 4294967296. lia. }
  destruct (Hw _ _ (pack4_word _ _ _ _ B0 B1 B2 B3) (pack4_word _ _ _ _ B4 B5 B6 B7)) as [E1 R1].
  destruct (Hw _ _ (pack4_word _ _ _ _ B8 B9 B10 B11) (pack4_word _ _ _ _ B12 B13 B14 B15)) as [E2 R2].
  rewrite E1, E2. split; [|split; assumption]. unfold join. cbn [hi lo]. rewrite !pack4_sum by assumption.
  rewrite !be_value_cons, be_value_nil. unfold zlen. cbn [length]. rewrite !pow_256 by lia.
  repeat match goal with |- context [2 ^ ?e] => let n := eval vm_compute in (2 ^ e) in change (2 ^ e) with n end. lia.
Qed.

Lemma gmult_block h T p : table_ok h T -> block16 p ->
  block16 (gcm_gmult_4bit p T) /\ be_value (gcm_gmult_4bit p T) = gf_mul (be_value p) h.
Proof.
  intros HT Hp. destruct (mult_bytes_spec h T (be_value p) (fun cnt => nth cnt p 0) HT (bytes_of_block p Hp)) as [Hok Hj].
  destruct (store128_value _ Hok) as [Hv Hb]. split; [exact Hb|]. unfold gcm_gmult_4bit. by rewrite Hv.
Qed.

(** ** The hash *)

Definition blocks16 (b : bytes) : list bytes := pieces (length b) 16 b.

Lemma blocks16_app n a b : length a = (16 * n)%nat -> blocks16 (a ++ b) = blocks16 a ++ blocks16 b.
Proof.
  intros Ha. unfold blocks16. rewrite (pieces_app 16 n) by lia. f_equal. apply pieces_exact; lia.
Qed.

Lemma blocks16_block p : length p = 16%nat -> blocks16 p = [p].
Proof.
  intros Hp. unfold blocks16. rewrite Hp. destruct p as [|x p]; [done|]. cbn [pieces]. rewrite take_ge by lia. rewrite drop_ge by lia. reflexivity.
Qed.

Lemma sp_ghash_app h y a b : sp_ghash h y (a ++ b) = sp_ghash h (sp_ghash h y a) b.
Proof. revert y. induction a as [|x a IH]; intros y; [done|]. apply IH. Qed.

Lemma nth_take_low n i (b : bytes) : (i < n)%nat -> nth i (take n b) 0 = nth i b 0.
Proof. revert i b. induction n as [|n IH]; intros [|i] [|x b] Hi; cbn [take nth]; try (done || lia). apply IH. lia. Qed.

#[local] Opaque gf_mul.

Lemma ghash_loop_blocks h T n fuel Xi inp :
  table_ok h T -> block16 Xi -> bytes_ok inp -> length inp = (16 * S n)%nat -> (n < fuel)%nat ->
  exists Y, ghash_loop fuel Xi T inp = Done Y /\ block16 Y /\ be_value Y = sp_ghash h (be_value Xi) (blocks16 inp).
Proof.
  intros HT. revert fuel Xi inp. induction n as [|n IH]; intros fuel Xi inp HXi Hi Hl Hf; (destruct fuel as [|fuel]; [lia|]); cbn [ghash_loop];
    (destruct (Nat.ltb_spec (length inp) 16) as [Hlt|_]; [lia|]); cbn zeta;
    assert (Hb : block16 (take 16 inp)) by (split; [by apply Forall_take|rewrite length_take; lia]);
    (assert (Hx : bytes_of (be_value Xi ⊕ be_value (take 16 inp)) (fun cnt => nth cnt Xi 0 ⊕ nth cnt inp 0));
      [intros cnt Hc; rewrite <- (bytes_of_xor Xi (take 16 inp) HXi Hb cnt Hc); by rewrite nth_take_low by lia|]);
    destruct (mult_bytes_spec h T _ _ HT Hx) as [Hok Hj]; destruct (store128_value _ Hok) as [Hv HY];
    set (Y := store128 _) in *; rewrite Hj in Hv; clearbody Y.
  - rewrite drop_ge by lia. exists Y. split; [reflexivity|]. split; [exact HY|].
    rewrite take_ge in Hv by lia. rewrite blocks16_block by lia. exact Hv.
  - assert (Hd : length (drop 16 inp) = (16 * S n)%nat) by (rewrite length_drop; lia).
    destruct (IH fuel Y (drop 16 inp) HY ltac:(by apply Forall_drop) Hd ltac:(lia)) as (Y' & HY' & Hok' & Hv').
    exists Y'. split; [|split; [exact Hok'|]].
    + destruct (drop 16 inp); [cbn in Hd; lia|exact HY'].
    + assert (Hs : blocks16 inp = [take 16 inp] ++ blocks16 (drop 16 inp)).
      { rewrite <- (blocks16_block (take 16 inp)) by (rewrite length_take; lia).
        rewrite <- (blocks16_app 1) by (rewrite length_take; lia). by rewrite take_drop. }
      rewrite Hv', Hv, Hs, sp_ghash_app. reflexivity.
Qed.

Lemma ghash_blocks h T n Xi inp :
  table_ok h T -> block16 Xi -> bytes_ok inp -> length inp = (16 * S n)%nat ->
  exists Y, gcm_ghash_4bit Xi T inp = Done Y /\ block16 Y /\ be_value Y = sp_ghash h (be_value Xi) (blocks16 inp).
Proof. intros HT HX Hi Hl. apply (ghash_loop_blocks h T n); try assumption. lia. Qed.

(** C36: Multiplication by four bits at a time, with the table of multiples that
    gcm_init_4bit makes of the block H and the table of remainders, is the
    multiplication of blocks of SP 800-38D, which goes bit by bit; and the hash of any
    number of whole blocks, from any value on, is GHASH, without a read past the end. *)
Theorem ghash_standard H Xi inp n :
  block16 H -> block16 Xi -> bytes_ok inp -> length inp = (16 * S n)%nat ->
  let Htable := gcm_init_4bit (load128 H) in
  be_value (gcm_gmult_4bit Xi Htable) = gf_mul (be_value Xi) (be_value H) /\
  exists Y, gcm_ghash_4bit Xi Htable inp = Done Y /\ block16 Y /\
    be_value Y = sp_ghash (be_value H) (be_value Xi) (blocks16 inp).
Proof.
  intros HH HX Hi Hl Htable. destruct (load128_value H HH) as [Hj Hok]. pose proof (init_table _ Hok) as HT. rewrite Hj in HT.
  split; [by apply gmult_block|by apply (ghash_blocks _ _ n)].
Qed.

Lemma ghash_standard_witness :
  be_value (gcm_gmult_4bit case2_C (gcm_init_4bit (load128 case2_H))) = gf_mul (be_value case2_C) (be_value case2_H) /\
  exists Y, gcm_ghash_4bit case2_C (gcm_init_4bit (load128 case2_H)) (case2_C ++ case2_H) = Done Y /\ block16 Y /\
    be_value Y = sp_ghash (be_value case2_H) (be_value case2_C) [case2_C; case2_H].
Proof.
  apply (ghash_standard case2_H case2_C (case2_C ++ case2_H) 1);
    first [reflexivity|split; [apply bytes_ok_checked; vm_compute; reflexivity|reflexivity]|apply bytes_ok_checked; vm_compute; reflexivity].
Defined.
