(* ===== verification/Gcm.v ===== *)
(** * Galois/counter mode (crypto/modes/gcm128.c)

    The mode over any block function: a context that takes additional data, then text,
    in calls of any sizes, and gives a tag.  Cipher text waits in the 48 bytes of [Xn]
    until whole blocks can be hashed; long texts go in chunks of 3072 bytes.  The mode
    is shown to be that of SP 800-38D.  Without assembler, on a little-endian machine
    with a size_t of 32 bits; an output may be the input, since each is read before it
    is written. *)

From S2P Require Import Prelude CLib Words Aes AesSpec Modes KeyWrap Cfb Ctr32 AesModes Ghash.

Record GCM128_CONTEXT := Gcm {
  Yi : bytes;
  EKi : bytes;
  EK0 : bytes;
  len_0 : Z;
  len_1 : Z;
  Xi : bytes;
  Hi : u128;
  Htable : list u128;
  mres : nat;
  ares : nat;
  Xn : bytes
}.

(** Assignments. *)
Definition put_Yi v c := Gcm v (EKi c) (EK0 c) (len_0 c) (len_1 c) (Xi c) (Hi c) (Htable c) (mres c) (ares c) (Xn c).
Definition put_EKi v c := Gcm (Yi c) v (EK0 c) (len_0 c) (len_1 c) (Xi c) (Hi c) (Htable c) (mres c) (ares c) (Xn c).
Definition put_EK0 v c := Gcm (Yi c) (EKi c) v (len_0 c) (len_1 c) (Xi c) (Hi c) (Htable c) (mres c) (ares c) (Xn c).
Definition put_len a m c := Gcm (Yi c) (EKi c) (EK0 c) a m (Xi c) (Hi c) (Htable c) (mres c) (ares c) (Xn c).
Definition put_Xi v c := Gcm (Yi c) (EKi c) (EK0 c) (len_0 c) (len_1 c) v (Hi c) (Htable c) (mres c) (ares c) (Xn c).
Definition put_mres n c := Gcm (Yi c) (EKi c) (EK0 c) (len_0 c) (len_1 c) (Xi c) (Hi c) (Htable c) n (ares c) (Xn c).
Definition put_ares n c := Gcm (Yi c) (EKi c) (EK0 c) (len_0 c) (len_1 c) (Xi c) (Hi c) (Htable c) (mres c) n (Xn c).
Definition put_Xn v c := Gcm (Yi c) (EKi c) (EK0 c) (len_0 c) (len_1 c) (Xi c) (Hi c) (Htable c) (mres c) (ares c) v.

Definition GCM_MUL (c : GCM128_CONTEXT) : GCM128_CONTEXT := put_Xi (gcm_gmult_4bit (Xi c) (Htable c)) c.
Definition GHASH (c : GCM128_CONTEXT) (inp : bytes) : outcome GCM128_CONTEXT :=
  x ← gcm_ghash_4bit (Xi c) (Htable c) inp; Done (put_Xi x c).

Definition GHASH_CHUNK : nat := 3072.

(** [for (i = 0; i < len; ++i) X[i] ^= d[i]], for at most as many bytes as [X] has. *)
Fixpoint xor_into (X d : bytes) : bytes :=
  match X, d with
  | x :: X, y :: d => x ⊕ y :: xor_into X d
  | _, _ => X
  end.

(** The bytes of a u64, the most significant first. *)
Definition bytes64 (n : Z) : bytes := map (fun s => u8 (Z.shiftr n s)) [56; 48; 40; 32; 24; 16; 8; 0].

(** A store into the array [Xn]. *)
Definition put_byte (buf : bytes) (n : nat) (x : Z) : outcome bytes :=
  if (n <? length buf)%nat then Done (<[n := x]> buf) else Crash BufferOverflow.

Section gcm.
Context `{BlockCipher}.

(** ** Initialisation *)

Definition CRYPTO_gcm128_init : GCM128_CONTEXT :=
  let h := load128 (encipher (memset0 16)) in
  Gcm (memset0 16) (memset0 16) (memset0 16) 0 0 (memset0 16) h (gcm_init_4bit h) 0 0 (memset0 48).

(** [while (len >= 16)]: what is left of the vector. *)
Fixpoint iv_blocks (fuel : nat) (c : GCM128_CONTEXT) (iv : bytes) : bytes * GCM128_CONTEXT :=
  match fuel with
  | O => (iv, c)
  | S fuel =>
      if (16 <=? length iv)%nat then iv_blocks fuel (GCM_MUL (put_Xi (xor_into (Xi c) (take 16 iv)) c)) (drop 16 iv)
      else (iv, c)
  end.

Definition CRYPTO_gcm128_setiv (c : GCM128_CONTEXT) (iv : bytes) : GCM128_CONTEXT :=
  let c := put_mres 0 (put_ares 0 (put_len 0 0 c)) in
  let '(ctr, c) :=
    if zlen iv =? 12 then (1, put_Yi (iv ++ [0; 0; 0; 1]) c)
    else
      let len0 := u64 (Z.shiftl (zlen iv) 3) in
      let '(rest, c) := iv_blocks (length iv) (put_Xi (memset0 16) c) iv in
      let c := match rest with [] => c | _ => GCM_MUL (put_Xi (xor_into (Xi c) rest) c) end in
      let c := GCM_MUL (put_Xi (take 8 (Xi c) ++ xor_into (drop 8 (Xi c)) (bytes64 len0)) c) in
      (get_ctr32 (Xi c), put_Yi (Xi c) c) in
  let c := put_EK0 (encipher (Yi c)) (put_Xi (memset0 16) c) in
  put_Yi (put_ctr32 (Yi c) (u32 (ctr + 1))) c.

(** ** Additional data *)

(** [while (n && len)]. *)
Fixpoint aad_head (n : nat) (X aad : bytes) : nat * bytes * bytes :=
  match aad with
  | [] => (n, X, [])
  | x :: aad' =>
      if (n =? 0)%nat then (n, X, aad)
      else aad_head ((n + 1) mod 16) (<[n := nth n X 0 ⊕ x]> X) aad'
  end.

(** From the whole blocks on. *)
Definition aad_rest (c : GCM128_CONTEXT) (aad : bytes) : outcome (Z * GCM128_CONTEXT) :=
  let i := (16 * (length aad / 16))%nat in
  c ← (if (i =? 0)%nat then Done c else GHASH c (take i aad));
  let aad := drop i aad in
  Done (0, put_ares (length aad) (put_Xi (xor_into (Xi c) aad) c)).

Definition CRYPTO_gcm128_aad (c : GCM128_CONTEXT) (aad : bytes) : outcome (Z * GCM128_CONTEXT) :=
  if negb (len_1 c =? 0) then Done (-2, c)
  else
    let alen := u64 (len_0 c + zlen aad) in
    if 2 ^ 61 <? alen then Done (-1, c)
    else
      let c := put_len alen (len_1 c) c in
      let '(n, X, rest) := aad_head (ares c) (Xi c) aad in
      if (ares c =? 0)%nat then aad_rest c aad
      else
        let c := put_Xi X c in
        if (n =? 0)%nat then aad_rest (GCM_MUL c) rest
        else Done (0, put_ares n c).

(** ** Text

    [enc] tells whether the output or the input is the cipher text, which is hashed:
    CRYPTO_gcm128_encrypt and CRYPTO_gcm128_decrypt agree otherwise. *)
Section crypt.
Context (enc : bool).

(** [while (n && len)]: the rest of the block of key stream at hand. *)
Fixpoint fill (n m : nat) (ek buf inp : bytes) : outcome (bytes * bytes * nat * nat * bytes) :=
  match inp with
  | [] => Done ([], [], n, m, buf)
  | x :: inp' =>
      if (n =? 0)%nat then Done ([], inp, n, m, buf)
      else
        let y := x ⊕ nth n ek 0 in
        buf ← put_byte buf m (if enc then y else x);
        '(out, rest, n, m, buf) ← fill ((n + 1) mod 16) (S m) ek buf inp';
        Done (y :: out, rest, n, m, buf)
  end.

(** [k] whole blocks of text; [ctr] is the counter in [Yi]. *)
Fixpoint crypt_blocks (k : nat) (ctr : Z) (c : GCM128_CONTEXT) (inp : bytes) : bytes * Z * GCM128_CONTEXT :=
  match k with
  | O => ([], ctr, c)
  | S k =>
      let c := put_EKi (encipher (Yi c)) c in
      let ctr := u32 (ctr + 1) in
      let c := put_Yi (put_ctr32 (Yi c) ctr) c in
      let out := xor_bytes (take 16 inp) (EKi c) in
      let '(out', ctr, c) := crypt_blocks k ctr c (drop 16 inp) in
      (out ++ out', ctr, c)
  end.

(** Whole blocks, enciphered and then hashed or hashed and then deciphered. *)
Definition crypt_run (ctr : Z) (c : GCM128_CONTEXT) (inp : bytes) : outcome (bytes * Z * GCM128_CONTEXT) :=
  let '(out, ctr, c) := crypt_blocks (length inp / 16) ctr c inp in
  c ← GHASH c (if enc then out else inp);
  Done (out, ctr, c).

(** [while (len >= GHASH_CHUNK)]. *)
Fixpoint chunks (fuel : nat) (ctr : Z) (c : GCM128_CONTEXT) (inp : bytes) : outcome (bytes * bytes * Z * GCM128_CONTEXT) :=
  match fuel with
  | O => NoFuel
  | S fuel =>
      if (GHASH_CHUNK <=? length inp)%nat then
        '(out, ctr, c) ← crypt_run ctr c (take GHASH_CHUNK inp);
        '(out', rest, ctr, c) ← chunks fuel ctr c (drop GHASH_CHUNK inp);
        Done (out ++ out', rest, ctr, c)
      else Done ([], inp, ctr, c)
  end.

(** [while (len--)]: the last bytes, of a new block. *)
Fixpoint crypt_tail (n m : nat) (ek buf inp : bytes) : outcome (bytes * nat * bytes) :=
  match inp with
  | [] => Done ([], m, buf)
  | x :: inp' =>
      let y := x ⊕ nth n ek 0 in
      buf ← put_byte buf m (if enc then y else x);
      '(out, m, buf) ← crypt_tail (S n) (S m) ek buf inp';
      Done (y :: out, m, buf)
  end.

(** From "if (len >= 16 && mres)" on. *)
Definition crypt_rest (c : GCM128_CONTEXT) (m : nat) (inp : bytes) : outcome (Z * bytes * GCM128_CONTEXT) :=
  let ctr := get_ctr32 (Yi c) in
  '(m, c) ← (if (16 <=? length inp)%nat && negb (m =? 0)%nat then c ← GHASH c (take m (Xn c)); Done (0%nat, c) else Done (m, c));
  '(out1, inp, ctr, c) ← chunks (S (length inp)) ctr c inp;
  let i := (16 * (length inp / 16))%nat in
  '(out2, ctr, c) ← (if (i =? 0)%nat then Done ([], ctr, c) else crypt_run ctr c (take i inp));
  match drop i inp with
  | [] => Done (0, out1 ++ out2, put_mres m c)
  | inp =>
      let c := put_EKi (encipher (Yi c)) c in
      let c := put_Yi (put_ctr32 (Yi c) (u32 (ctr + 1))) c in
      '(out3, m, buf) ← crypt_tail 0 m (EKi c) (Xn c) inp;
      Done (0, out1 ++ out2 ++ out3, put_mres m (put_Xn buf c))
  end.

(** From "n = mres % 16" on. *)
Definition crypt_from (c : GCM128_CONTEXT) (m : nat) (inp : bytes) : outcome (Z * bytes * GCM128_CONTEXT) :=
  if (m mod 16 =? 0)%nat then crypt_rest c m inp
  else
    '(out, rest, n, m, buf) ← fill (m mod 16) m (EKi c) (Xn c) inp;
    let c := put_Xn buf c in
    if negb (n =? 0)%nat then Done (0, out, put_mres m c)
    else
      c ← GHASH c (take m (Xn c));
      '(ret, out', c) ← crypt_rest c 0 rest;
      Done (ret, out ++ out', c).

Definition crypt (c : GCM128_CONTEXT) (inp : bytes) : outcome (Z * bytes * GCM128_CONTEXT) :=
  let mlen := u64 (len_1 c + zlen inp) in
  if 2 ^ 36 - 32 <? mlen then Done (-1, [], c)
  else
    let c := put_len (len_0 c) mlen c in
    if negb (ares c =? 0)%nat then
      if zlen inp =? 0 then Done (0, [], put_ares 0 (GCM_MUL c))
      else
        (* the block of additional data waits in Xn *)
        let c := put_Xn (Xi c ++ drop 16 (Xn c)) c in
        crypt_from (put_ares 0 (put_Xi (memset0 16) c)) 16 inp
    else crypt_from c (mres c) inp.
End crypt.

Definition CRYPTO_gcm128_encrypt := crypt true.
Definition CRYPTO_gcm128_decrypt := crypt false.

(** ** The end *)

(** The waiting bytes filled up with zeros, or the last block of additional data closed;
    with the number of bytes in [Xn]. *)
Definition close_block (c : GCM128_CONTEXT) : outcome (nat * GCM128_CONTEXT) :=
  if negb (mres c =? 0)%nat then
    let blocks := (16 * ((mres c + 15) / 16))%nat in
    buf ← write_at (Xn c) (Z.of_nat (mres c)) (memset0 (blocks - mres c));
    let c := put_Xn buf c in
    if (blocks =? 48)%nat then c ← GHASH c (take blocks (Xn c)); Done (0%nat, c) else Done (blocks, c)
  else Done (0%nat, if negb (ares c =? 0)%nat then GCM_MUL c else c).

Definition CRYPTO_gcm128_finish (c : GCM128_CONTEXT) (tag : option bytes) (len : Z) : outcome (Z * GCM128_CONTEXT) :=
  let alen := u64 (Z.shiftl (len_0 c) 3) in
  let clen := u64 (Z.shiftl (len_1 c) 3) in
  '(m, c) ← close_block c;
  (* without BSWAP8, the lengths in bits pass through [len], byte by byte *)
  let c := put_len alen clen c in
  buf ← write_at (Xn c) (Z.of_nat m) (bytes64 alen ++ bytes64 clen);
  c ← GHASH (put_Xn buf c) (take (m + 16) buf);
  let c := put_Xi (xor_bytes (Xi c) (EK0 c)) c in
  match tag with
  | Some t => if len <=? 16 then x ← CRYPTO_memcmp (Xi c) t len; Done (x, c) else Done (-1, c)
  | None => Done (-1, c)
  end.

Definition CRYPTO_gcm128_tag (c : GCM128_CONTEXT) (len : Z) : outcome (bytes * GCM128_CONTEXT) :=
  '(_, c) ← CRYPTO_gcm128_finish c None 0;
  Done (take (Z.to_nat (if len <=? 16 then len else 16)) (Xi c), c).

(** ** A message: additional data and text in pieces *)

Fixpoint gcm_aad_calls (c : GCM128_CONTEXT) (xs : list bytes) : outcome (bool * GCM128_CONTEXT) :=
  match xs with
  | [] => Done (true, c)
  | x :: xs =>
      '(ret, c) ← CRYPTO_gcm128_aad c x;
      if negb (ret =? 0) then Done (false, c) else gcm_aad_calls c xs
  end.

Fixpoint gcm_text_calls (enc : bool) (c : GCM128_CONTEXT) (xs : list bytes) : outcome (bool * bytes * GCM128_CONTEXT) :=
  match xs with
  | [] => Done (true, [], c)
  | x :: xs =>
      '(ret, out, c) ← (if enc then CRYPTO_gcm128_encrypt c x else CRYPTO_gcm128_decrypt c x);
      if negb (ret =? 0) then Done (false, out, c)
      else '(ok, outs, c) ← gcm_text_calls enc c xs; Done (ok, out ++ outs, c)
  end.

Definition gcm_message (enc : bool) (c : GCM128_CONTEXT) (iv : bytes) (aads texts : list bytes) : outcome (bool * bytes * GCM128_CONTEXT) :=
  '(ok, c) ← gcm_aad_calls (CRYPTO_gcm128_setiv c iv) aads;
  if negb ok then Done (false, [], c) else gcm_text_calls enc c texts.

(** ** SP 800-38D *)

Definition be_bytes (n : nat) (x : Z) : bytes := rev (le_bytes n x).

Definition sp_H : Z := be_value (encipher (memset0 16)).

(** inc32, applied [i] times. *)
Definition sp_inc (i : Z) (b : bytes) : bytes := take 12 b ++ be_bytes 4 ((be_value (drop 12 b) + i) mod 2 ^ 32).

Definition zeros_to_block (b : bytes) : bytes := memset0 (Z.to_nat (- zlen b mod 16)).

Definition sp_J0 (iv : bytes) : bytes :=
  if zlen iv =? 12 then iv ++ [0; 0; 0; 1]
  else be_bytes 16 (sp_ghash sp_H 0 (blocks16 (iv ++ zeros_to_block iv ++ memset0 8 ++ be_bytes 8 (8 * zlen iv)))).

(** GCTR: byte [j] is combined with its byte of the block function of block j / 16. *)
Definition sp_gctr (icb text : bytes) : bytes :=
  imap (fun j x => x ⊕ nth (j mod 16) (encipher (sp_inc (Z.of_nat (j / 16)) icb)) 0) text.

Definition sp_crypt (iv text : bytes) : bytes := sp_gctr (sp_inc 1 (sp_J0 iv)) text.

Definition sp_tag (iv a c : bytes) : bytes :=
  sp_gctr (sp_J0 iv) (be_bytes 16 (sp_ghash sp_H 0
    (blocks16 (a ++ zeros_to_block a ++ c ++ zeros_to_block c ++ be_bytes 8 (8 * zlen a) ++ be_bytes 8 (8 * zlen c))))).
End gcm.

(** ** What waits to be hashed

    [pending h y p d]: hashing the bytes [p] from the value [y] on is hashing [d] from
    the start; neither need be whole blocks. *)
Definition pending (h y : Z) (p d : bytes) : Prop :=
  exists pf df t m n, p = pf ++ t /\ d = df ++ t /\ length pf = (16 * m)%nat /\ length df = (16 * n)%nat /\ (length t < 16)%nat /\
    sp_ghash h y (blocks16 pf) = sp_ghash h 0 (blocks16 df).

#[local] Opaque gf_mul.

Lemma pending_start h : pending h 0 [] [].
Proof. exists [], [], [], 0%nat, 0%nat. split_and!; try done. cbn. lia. Qed.

Lemma pending_append h y p d x : pending h y p d -> pending h y (p ++ x) (d ++ x).
Proof.
  intros (pf & df & t & m & n & -> & -> & Hp & Hd & Ht & Hg). set (q := (length (t ++ x) / 16)%nat).
  pose proof (Nat.Div0.div_mod (length (t ++ x)) 16) as Hq. fold q in Hq.
  pose proof (Nat.mod_upper_bound (length (t ++ x)) 16 ltac:(lia)) as Hr.
  assert (Hl : length (take (16 * q) (t ++ x)) = (16 * q)%nat) by (rewrite length_take; lia).
  exists (pf ++ take (16 * q) (t ++ x)), (df ++ take (16 * q) (t ++ x)), (drop (16 * q) (t ++ x)), (m + q)%nat, (n + q)%nat.
  rewrite <- !app_assoc, take_drop, !length_app, Hl, length_drop. split_and!; try done; try lia.
  rewrite (blocks16_app m), (blocks16_app n), !sp_ghash_app by done. by rewrite Hg.
Qed.

Lemma pending_whole h y p d m : pending h y p d -> length p = (16 * m)%nat -> sp_ghash h y (blocks16 p) = sp_ghash h 0 (blocks16 d) /\
  exists n, length d = (16 * n)%nat.
Proof.
  intros (pf & df & t & m' & n & -> & -> & Hp & Hd & Ht & Hg) Hl. rewrite length_app in Hl.
  assert (t = []) as -> by (destruct t; [done|]; cbn [length] in *; lia). rewrite !app_nil_r. split; [exact Hg|by exists n].
Qed.

Lemma whole_pending h y p d m n : length p = (16 * m)%nat -> length d = (16 * n)%nat ->
  sp_ghash h y (blocks16 p) = sp_ghash h 0 (blocks16 d) -> pending h y p d.
Proof.
  intros Hp Hd Hg. exists p, d, [], m, n. rewrite !app_nil_r. split; [reflexivity|]. split; [reflexivity|]. split; [exact Hp|].
  split; [exact Hd|]. split; [cbn; lia|exact Hg].
Qed.

(** Whole blocks hashed are waiting no more. *)
Lemma pending_hashed h y p d m : pending h y p d -> length p = (16 * m)%nat -> pending h (sp_ghash h y (blocks16 p)) [] d.
Proof.
  intros Hp Hl. destruct (pending_whole h y p d m Hp Hl) as [Hg [n Hn]]. by apply (whole_pending _ _ _ _ 0 n).
Qed.

Lemma pending_mod h y p d : pending h y p d -> (length p mod 16 = length d mod 16)%nat.
Proof.
  intros (pf & df & t & m & n & -> & -> & Hp & Hd & _ & _). rewrite !length_app, Hp, Hd.
  rewrite !(Nat.add_comm (16 * _)), !(Nat.mul_comm 16), !Nat.Div0.mod_add. done.
Qed.

(** The function GHASH on what waits. *)
Lemma GHASH_pending h c p d m :
  table_ok h (Htable c) -> block16 (Xi c) -> bytes_ok p -> pending h (be_value (Xi c)) p d -> length p = (16 * S m)%nat ->
  exists x, GHASH c p = Done (put_Xi x c) /\ block16 x /\ pending h (be_value x) [] d.
Proof.
  intros HT HX Hb Hp Hl. destruct (ghash_blocks h (Htable c) m (Xi c) p HT HX Hb Hl) as (x & Hx & Hok & Hv).
  exists x. unfold GHASH. rewrite Hx. split; [reflexivity|]. split; [exact Hok|]. rewrite Hv. by apply (pending_hashed _ _ _ _ (S m)).
Qed.

(** ** Bytes of the key stream *)

Section keystream.
Context `{BlockLaws} (J0 : bytes) (HJ : block16 J0).

Definition ctr_block (i : nat) : bytes := put_ctr32 J0 (u32 (get_ctr32 J0 + Z.of_nat i)).
Definition key_byte (j : nat) : Z := nth (j mod 16) (encipher (ctr_block (1 + j / 16))) 0.
Definition keyed (j : nat) (x : bytes) : bytes := imap (fun i b => b ⊕ key_byte (j + i)) x.

Lemma keyed_app j a b : keyed j (a ++ b) = keyed j a ++ keyed (j + length a) b.
Proof.
  unfold keyed. rewrite imap_app. f_equal. apply imap_ext. intros i x _. unfold compose. by rewrite Nat.add_assoc.
Qed.

Lemma keyed_nil j : keyed j [] = [].
Proof. reflexivity. Qed.

Lemma length_keyed j x : length (keyed j x) = length x.
Proof. apply length_imap. Qed.

Lemma keyed_cons j x b : keyed j (x :: b) = x ⊕ key_byte j :: keyed (S j) b.
Proof.
  unfold keyed. rewrite imap_cons. rewrite Nat.add_0_r. f_equal. apply imap_ext. intros i y _. unfold compose. f_equal. f_equal. lia.
Qed.

Lemma counter_J0 : counter_ok J0.
Proof. by destruct HJ. Qed.

Lemma ctr_block_ok i : block16 (ctr_block i).
Proof. destruct (put_ctr32_spec J0 _ counter_J0 (u32_range (get_ctr32 J0 + Z.of_nat i))) as ([Hl Hok] & _). by split. Qed.

Lemma ctr_block_next i : put_ctr32 (ctr_block i) (u32 (get_ctr32 (ctr_block i) + 1)) = ctr_block (S i).
Proof.
  unfold ctr_block. pose proof counter_J0 as Hc. destruct (put_ctr32_spec J0 _ Hc (u32_range (get_ctr32 J0 + Z.of_nat i))) as (_ & Ht & _ & Hg).
  rewrite Hg. unfold put_ctr32 in *. rewrite Ht. do 2 f_equal. unfold u32, wrap. rewrite Zplus_mod_idemp_l. f_equal. lia.
Qed.

Lemma get_ctr_block i : get_ctr32 (ctr_block i) = u32 (get_ctr32 J0 + Z.of_nat i).
Proof. destruct (put_ctr32_spec J0 _ counter_J0 (u32_range (get_ctr32 J0 + Z.of_nat i))) as (_ & _ & _ & Hg). exact Hg. Qed.

Lemma encipher_block b : block16 b -> block16 (encipher b).
Proof. intros [Hb Hl]. split; [by apply encipher_bytes|by apply encipher_length]. Qed.

Lemma key_byte_ok j : byte_ok (key_byte j).
Proof. apply nth_byte. by destruct (encipher_block _ (ctr_block_ok (1 + j / 16))). Qed.

Lemma keyed_ok j x : bytes_ok x -> bytes_ok (keyed j x).
Proof.
  intros Hx. revert j. induction Hx as [|b x Hb _ IH]; intros j; [constructor|]. rewrite keyed_cons. constructor; [|apply IH].
  apply byte_lxor; [exact Hb|apply key_byte_ok].
Qed.

(** Within a block. *)
Lemma xor_key_block i n x : (n + length x <= 16)%nat -> xor_bytes x (drop n (encipher (ctr_block (S i)))) = keyed (16 * i + n) x.
Proof.
  destruct (encipher_block _ (ctr_block_ok (S i))) as [_ Hl]. revert n. induction x as [|b x IH]; intros n Hn; [reflexivity|].
  cbn [length] in Hn. destruct (lookup_lt_is_Some_2 (encipher (ctr_block (S i))) n) as [y Hy]; [lia|].
  rewrite (drop_S _ y n Hy). cbn [xor_bytes]. rewrite keyed_cons, IH by lia. f_equal; [|f_equal; lia]. f_equal. unfold key_byte.
  assert (Hd : ((16 * i + n) / 16 = i)%nat) by (symmetry; apply (Nat.div_unique _ 16 i n); lia).
  assert (Hm : ((16 * i + n) mod 16 = n)%nat) by (symmetry; apply (Nat.mod_unique _ 16 i n); lia).
  rewrite Hd, Hm. symmetry. by apply nth_lookup_Some.
Qed.
End keystream.

(** ** Stores into [Xn] *)

Lemma put_byte_take buf m y : (m < length buf)%nat -> put_byte buf m y = Done (<[m := y]> buf) /\
  take (S m) (<[m := y]> buf) = take m buf ++ [y] /\ length (<[m := y]> buf) = length buf.
Proof.
  intros Hm. unfold put_byte. destruct (Nat.ltb_spec m (length buf)); [|lia]. rewrite length_insert. split; [done|]. split; [|done].
  rewrite (take_S_r _ _ y) by (by apply list_lookup_insert_eq). f_equal. by apply take_insert_ge.
Qed.

(** The bytes in front of the first [m'] extended. *)
Definition stored (buf buf' : bytes) (m : nat) (x : bytes) : Prop :=
  take (m + length x) buf' = take m buf ++ x /\ length buf' = length buf /\ (bytes_ok buf -> bytes_ok x -> bytes_ok buf').

Lemma stored_nil buf m : stored buf buf m [].
Proof. unfold stored. rewrite Nat.add_0_r, app_nil_r. done. Qed.

Lemma stored_cons buf m y buf' x : (m < length buf)%nat -> stored (<[m := y]> buf) buf' (S m) x -> stored buf buf' m (y :: x).
Proof.
  intros Hm (Ht & Hl & Hok). destruct (put_byte_take buf m y Hm) as (_ & Hs & Hl'). unfold stored. cbn [length].
  rewrite <- Nat.add_succ_comm, Ht, Hs, <- app_assoc. split; [done|]. split; [lia|]. intros Hb Hx. apply Forall_cons in Hx as [Hy Hx].
  apply Hok; [by apply Forall_insert|exact Hx].
Qed.

Lemma crypt_tail_spec enc n m ek buf inp :
  length ek = 16%nat -> (n + length inp <= 16)%nat -> (m + length inp <= length buf)%nat ->
  let out := xor_bytes inp (drop n ek) in
  exists buf', crypt_tail enc n m ek buf inp = Done (out, (m + length inp)%nat, buf') /\ stored buf buf' m (if enc then out else inp).
Proof.
  intros Hek. revert n m buf. induction inp as [|x inp IH]; intros n m buf Hn Hm; cbn zeta; cbn [crypt_tail length].
  { exists buf. rewrite Nat.add_0_r. split; [done|]. cbn [xor_bytes]. destruct enc; apply stored_nil. }
  cbn [length] in *. destruct (lookup_lt_is_Some_2 ek n) as [k Hk]; [lia|]. rewrite (drop_S ek k n Hk), (nth_lookup_Some _ _ _ _ Hk).
  destruct (put_byte_take buf m (if enc then x ⊕ k else x)) as (-> & _ & Hl); [lia|]. cbn [mbind outcome_bind].
  destruct (IH (S n) (S m) (<[m := if enc then x ⊕ k else x]> buf)) as (buf' & -> & Hs); [lia|lia|]. cbn [mbind outcome_bind].
  exists buf'. split; [do 3 f_equal; lia|]. cbn [xor_bytes]. destruct enc; (apply stored_cons; [lia|exact Hs]).
Qed.

Lemma fill_spec enc n m ek buf inp :
  length ek = 16%nat -> (1 <= n <= 16)%nat -> (m + (16 - n) <= length buf)%nat ->
  let x := take (16 - n) inp in
  let out := xor_bytes x (drop n ek) in
  exists buf', fill enc (n mod 16) m ek buf inp = Done (out, drop (16 - n) inp, ((n + length x) mod 16)%nat, (m + length x)%nat, buf') /\
    stored buf buf' m (if enc then out else x).
Proof.
  intros Hek. revert n m buf. induction inp as [|x inp IH]; intros n m buf Hn Hm; cbn zeta; cbn [fill].
  { exists buf. rewrite take_nil, drop_nil, !Nat.add_0_r. split; [done|]. cbn [xor_bytes]. destruct enc; apply stored_nil. }
  destruct (Nat.eq_dec n 16%nat) as [->|Hne].
  { exists buf. change (16 mod 16)%nat with 0%nat. cbn [Nat.eqb Nat.sub take drop length]. rewrite !Nat.add_0_r. split; [done|].
    cbn [xor_bytes]. destruct enc; apply stored_nil. }
  rewrite Nat.mod_small by lia. destruct (Nat.eqb_spec n 0) as [|_]; [lia|].
  replace (16 - n)%nat with (S (16 - S n))%nat by lia. cbn [take drop length].
  destruct (lookup_lt_is_Some_2 ek n) as [k Hk]; [lia|]. rewrite (drop_S ek k n Hk), (nth_lookup_Some _ _ _ _ Hk).
  destruct (put_byte_take buf m (if enc then x ⊕ k else x)) as (-> & _ & Hl); [lia|]. cbn [mbind outcome_bind].
  replace (n + 1)%nat with (S n) by lia.
  destruct (IH (S n) (S m) (<[m := if enc then x ⊕ k else x]> buf)) as (buf' & -> & Hs); [lia|lia|]. cbn [mbind outcome_bind].
  exists buf'. split; [by rewrite <- !Nat.add_succ_comm|]. cbn [xor_bytes]. destruct enc; (apply stored_cons; [lia|exact Hs]).
Qed.

(** ** Text *)

#[local] Opaque gcm_ghash_4bit gcm_gmult_4bit put_ctr32 GHASH_CHUNK ctr_block keyed get_ctr32 key_byte.

Ltac gcm_fields :=
  cbn [Yi EKi EK0 len_0 len_1 Xi Hi Htable mres ares Xn put_Yi put_EKi put_EK0 put_len put_Xi put_mres put_ares put_Xn].

Section text.
Context `{BlockLaws} (enc : bool) (J0 : bytes) (HJ : block16 J0) (h : Z) (d0 : bytes) (Hd0 : (length d0 mod 16 = 0)%nat).

(** The state behind the cipher text [c], of which [m] bytes of [Xn] wait; [d0] is the
    additional data, padded. *)
Record text_at (c : bytes) (m : nat) (ctx : GCM128_CONTEXT) : Prop := {
  ta_table : table_ok h (Htable ctx);
  ta_Xi : block16 (Xi ctx);
  ta_Xn : bytes_ok (Xn ctx) /\ length (Xn ctx) = 48%nat;
  ta_Yi : Yi ctx = ctr_block J0 (1 + (length c + 15) / 16);
  ta_EKi : (length c mod 16 <> 0)%nat -> EKi ctx = encipher (ctr_block J0 (1 + length c / 16));
  ta_m : (m < 32)%nat;
  ta_pending : pending h (be_value (Xi ctx)) (take m (Xn ctx)) (d0 ++ c) }.

(** What the calls for text leave alone. *)
Definition same_rest (ctx ctx' : GCM128_CONTEXT) : Prop :=
  EK0 ctx' = EK0 ctx /\ len_0 ctx' = len_0 ctx /\ len_1 ctx' = len_1 ctx /\ ares ctx' = ares ctx.

Definition ct_of (j : nat) (x : bytes) : bytes := if enc then keyed J0 j x else x.

Lemma length_ct j x : length (ct_of j x) = length x.
Proof. unfold ct_of. destruct enc; [apply length_keyed|done]. Qed.

Lemma ct_ok j x : bytes_ok x -> bytes_ok (ct_of j x).
Proof. intros Hx. unfold ct_of. destruct enc; [by apply keyed_ok|exact Hx]. Qed.

Lemma ct_nil j : ct_of j [] = [].
Proof. unfold ct_of. destruct enc; [apply keyed_nil|done]. Qed.

Lemma ct_app j a b : ct_of j (a ++ b) = ct_of j a ++ ct_of (j + length a) b.
Proof. unfold ct_of. destruct enc; [apply keyed_app|done]. Qed.

Lemma ta_mod c m ctx : text_at c m ctx -> (m mod 16 = length c mod 16)%nat.
Proof.
  intros Ht. pose proof (pending_mod _ _ _ _ (ta_pending _ _ _ Ht)) as Hm. destruct (ta_Xn _ _ _ Ht) as [_ Hl].
  rewrite length_take, length_app in Hm. rewrite Nat.min_l in Hm by (pose proof (ta_m _ _ _ Ht); lia).
  rewrite Hm. rewrite (Nat.Div0.add_mod (length d0)), Hd0. cbn [Nat.add]. apply Nat.Div0.mod_mod.
Qed.

Lemma crypt_blocks_spec k i ctx inp :
  Yi ctx = ctr_block J0 (S i) -> length inp = (16 * k)%nat ->
  exists ek, crypt_blocks k (get_ctr32 (Yi ctx)) ctx inp =
    (keyed J0 (16 * i) inp, get_ctr32 (ctr_block J0 (S (i + k))), put_EKi ek (put_Yi (ctr_block J0 (S (i + k))) ctx)).
Proof.
  revert i ctx inp. induction k as [|k IH]; intros i ctx inp HY Hl; cbn [crypt_blocks].
  { exists (EKi ctx). rewrite Nat.add_0_r, <- HY. assert (inp = []) as -> by (destruct inp; [done|cbn in Hl; lia]). by destruct ctx. }
  gcm_fields. rewrite HY, ctr_block_next by done. set (ctx1 := put_Yi _ _).
  assert (HY1 : Yi ctx1 = ctr_block J0 (S (S i))) by reflexivity.
  assert (Hg : u32 (get_ctr32 (ctr_block J0 (S i)) + 1) = get_ctr32 (Yi ctx1)).
  { rewrite HY1, !get_ctr_block by done. unfold u32, wrap. rewrite Zplus_mod_idemp_l. f_equal. lia. }
  rewrite Hg. destruct (IH (S i) ctx1 (drop 16 inp) HY1) as (ek & ->); [rewrite length_drop; lia|].
  exists ek. rewrite <- (drop_0 (encipher _)), (xor_key_block J0 HJ i 0) by (rewrite length_take; lia).
  rewrite Nat.add_0_r. replace (S i + k)%nat with (i + S k)%nat by lia. f_equal. f_equal.
  rewrite <- (take_drop 16 inp) at 3. rewrite keyed_app. f_equal. rewrite length_take. f_equal. lia.
Qed.

Lemma ceil_whole i : ((16 * i + 15) / 16 = i)%nat.
Proof. symmetry. apply (Nat.div_unique _ 16 i 15); lia. Qed.

Lemma crypt_run_spec c i k ctx inp :
  text_at c 0 ctx -> length c = (16 * i)%nat -> bytes_ok inp -> length inp = (16 * S k)%nat ->
  exists ctx', crypt_run enc (get_ctr32 (Yi ctx)) ctx inp = Done (keyed J0 (length c) inp, get_ctr32 (Yi ctx'), ctx') /\
    text_at (c ++ ct_of (length c) inp) 0 ctx' /\ same_rest ctx ctx'.
Proof.
  intros Ht Hc Hi Hl. unfold crypt_run. rewrite Hl, (Nat.mul_comm 16 (S k)), Nat.div_mul by lia.
  destruct Ht as [HT HX [HXn HXnl] HY HE Hm Hp]. rewrite Hc, ceil_whole in HY.
  destruct (crypt_blocks_spec (S k) i ctx inp HY Hl) as (ek & ->).
  assert (Hct : (if enc then keyed J0 (16 * i) inp else inp) = ct_of (length c) inp) by (unfold ct_of; by rewrite Hc).
  rewrite Hct. cbn [take] in Hp. apply (pending_append _ _ _ _ (ct_of (length c) inp)) in Hp. cbn [app] in Hp.
  destruct (GHASH_pending h (put_EKi ek (put_Yi (ctr_block J0 (S (i + S k))) ctx)) (ct_of (length c) inp) ((d0 ++ c) ++ ct_of (length c) inp) k)
    as (x & -> & Hx & Hpx); [exact HT|exact HX|by apply ct_ok|exact Hp|by rewrite length_ct|]. cbn [mbind outcome_bind].
  exists (put_Xi x (put_EKi ek (put_Yi (ctr_block J0 (S (i + S k))) ctx))).
  split; [rewrite Hc; reflexivity|]. split; [|by split_and!].
  assert (Hlen : length (c ++ ct_of (length c) inp) = (16 * (i + S k))%nat) by (rewrite length_app, length_ct; lia).
  constructor; gcm_fields; [exact HT|exact Hx|by split| | |lia|].
  - rewrite Hlen, ceil_whole. reflexivity.
  - rewrite Hlen, Nat.mul_comm, Nat.Div0.mod_mul. done.
  - rewrite app_assoc. exact Hpx.
Qed.

Lemma same_refl ctx : same_rest ctx ctx.
Proof. by split_and!. Qed.

Lemma same_trans c1 c2 c3 : same_rest c1 c2 -> same_rest c2 c3 -> same_rest c1 c3.
Proof. intros (A1 & A2 & A3 & A4) (B1 & B2 & B3 & B4). split_and!; congruence. Qed.

(** Whole blocks done in any number of runs. *)
Definition blocks_done (c : bytes) (ctx : GCM128_CONTEXT) (inp out rest : bytes) (ctr : Z) (ctx' : GCM128_CONTEXT) : Prop :=
  exists x n, inp = x ++ rest /\ length x = (16 * n)%nat /\ out = keyed J0 (length c) x /\ ctr = get_ctr32 (Yi ctx') /\
    text_at (c ++ ct_of (length c) x) 0 ctx' /\ same_rest ctx ctx'.

Lemma chunk_size : GHASH_CHUNK = (16 * S 191)%nat.
Proof. reflexivity. Qed.

Lemma chunks_spec fuel c i ctx inp :
  text_at c 0 ctx -> length c = (16 * i)%nat -> bytes_ok inp -> (length inp < fuel)%nat ->
  exists out rest ctr ctx', chunks enc fuel (get_ctr32 (Yi ctx)) ctx inp = Done (out, rest, ctr, ctx') /\ blocks_done c ctx inp out rest ctr ctx'.
Proof.
  revert c i ctx inp. induction fuel as [|fuel IH]; intros c i ctx inp Ht Hc Hi Hf; [lia|]. cbn [chunks].
  destruct (Nat.leb_spec GHASH_CHUNK (length inp)) as [Hle|_].
  - set (x := take GHASH_CHUNK inp). rewrite chunk_size in Hle.
    assert (Hxl : length x = (16 * S 191)%nat) by (unfold x; rewrite length_take, chunk_size; lia).
    assert (Hx : bytes_ok x) by (by apply Forall_take).
    destruct (crypt_run_spec c i 191 ctx x Ht Hc Hx Hxl) as (ctx1 & -> & Ht1 & Hs1). cbn [mbind outcome_bind].
    set (c1 := c ++ ct_of (length c) x) in *.
    assert (Hc1 : length c1 = (16 * (i + S 191))%nat) by (unfold c1; rewrite length_app, length_ct; lia).
    destruct (IH c1 _ ctx1 (drop GHASH_CHUNK inp) Ht1 Hc1) as (out & rest & ctr & ctx2 & -> & y & n & Hy & Hyl & -> & -> & Ht2 & Hs2);
      [by apply Forall_drop|rewrite length_drop, chunk_size; lia|]. cbn [mbind outcome_bind].
    eexists _, rest, _, ctx2. split; [reflexivity|]. exists (x ++ y), (S 191 + n)%nat. split_and!.
    + rewrite <- app_assoc, <- Hy. unfold x. by rewrite take_drop.
    + rewrite length_app, Hxl, Hyl. lia.
    + unfold c1. rewrite keyed_app, length_app, length_ct. reflexivity.
    + reflexivity.
    + unfold c1 in Ht2. rewrite length_app, length_ct in Ht2. rewrite ct_app, app_assoc. exact Ht2.
    + exact (same_trans _ _ _ Hs1 Hs2).
  - exists [], inp, (get_ctr32 (Yi ctx)), ctx. split; [reflexivity|]. exists [], 0%nat. rewrite keyed_nil, ct_nil, app_nil_r.
    split_and!; first [reflexivity|exact Ht|exact (same_refl ctx)].
Qed.

(** The last bytes, fewer than a block, of a new block. *)
Lemma tail_done c i m ctx inp ctr :
  text_at c m ctx -> length c = (16 * i)%nat -> bytes_ok inp -> (length inp < 16)%nat -> ctr = get_ctr32 (Yi ctx) ->
  let ctx1 := put_EKi (encipher (Yi ctx)) ctx in
  let ctx2 := put_Yi (put_ctr32 (Yi ctx1) (u32 (ctr + 1))) ctx1 in
  inp <> [] ->
  exists buf m', crypt_tail enc 0 m (EKi ctx2) (Xn ctx2) inp = Done (keyed J0 (length c) inp, m', buf) /\
    text_at (c ++ ct_of (length c) inp) m' (put_mres m' (put_Xn buf ctx2)).
Proof.
  intros Ht Hc Hi Hl -> ctx1 ctx2 Hne. pose proof (ta_mod _ _ _ Ht) as Hmod. destruct Ht as [HT HX [HXn HXnl] HY HE Hm Hp].
  rewrite Hc, ceil_whole in HY. rewrite Hc, (Nat.mul_comm 16 i), Nat.Div0.mod_mul in Hmod.
  assert (Hek : encipher (Yi ctx) = encipher (ctr_block J0 (S i))) by (by rewrite HY).
  assert (Hekl : length (encipher (Yi ctx)) = 16%nat).
  { rewrite Hek. by destruct (encipher_block (ctr_block J0 (S i)) (ctr_block_ok J0 HJ (S i))). }
  destruct (crypt_tail_spec enc 0 m (encipher (Yi ctx)) (Xn ctx) inp Hekl) as (buf & Hc' & Ht' & Hbl & Hbok); [lia|lia|].
  rewrite Hek, (xor_key_block J0 HJ i 0), Nat.add_0_r, <- Hc in Hc', Ht', Hbok by lia. rewrite <- Hek in Hc'.
  assert (Hcc : (if enc then keyed J0 (length c) inp else inp) = ct_of (length c) inp) by (unfold ct_of; reflexivity).
  rewrite Hcc in Ht', Hbok. rewrite length_ct in Ht'.
  exists buf, (m + length inp)%nat. split; [exact Hc'|].
  assert (Hpos : (0 < length inp)%nat) by (destruct inp; [done|cbn; lia]).
  assert (Hlen : length (c ++ ct_of (length c) inp) = (16 * i + length inp)%nat) by (rewrite length_app, length_ct; lia).
  assert (Hm16 : (m <= 16)%nat) by (pose proof (Nat.Div0.div_mod m 16); lia).
  constructor; unfold ctx2, ctx1; gcm_fields; [exact HT|exact HX| | | |lia|].
  - split; [apply Hbok; [exact HXn|by apply ct_ok]|lia].
  - rewrite Hlen, HY, ctr_block_next by done. f_equal.
    rewrite <- (Nat.div_unique (16 * i + length inp + 15) 16 (S i) (length inp - 1)) by lia. reflexivity.
  - intros _. rewrite Hlen, Hek. do 2 f_equal. rewrite <- (Nat.div_unique (16 * i + length inp) 16 i (length inp)) by lia. reflexivity.
  - rewrite Ht', app_assoc. by apply pending_append.
Qed.

(** A call's answer: all of the input processed behind the cipher text [c]. *)
Definition text_done (c : bytes) (ctx : GCM128_CONTEXT) (inp : bytes) (r : outcome (Z * bytes * GCM128_CONTEXT)) : Prop :=
  exists ctx', r = Done (0, keyed J0 (length c) inp, ctx') /\ text_at (c ++ ct_of (length c) inp) (mres ctx') ctx' /\ same_rest ctx ctx'.

Lemma ta_put_mres c m ctx n : text_at c m ctx -> text_at c m (put_mres n ctx).
Proof. intros []. constructor; assumption. Qed.

Lemma ta_hashed c m ctx x : text_at c m ctx -> block16 x -> pending h (be_value x) [] (d0 ++ c) -> text_at c 0 (put_Xi x ctx).
Proof. intros [] Hx Hp. constructor; gcm_fields; try assumption. lia. Qed.

(** What waits is hashed when it is whole blocks. *)
Lemma flush c m ctx : text_at c m ctx -> (length c mod 16 = 0)%nat -> m <> 0%nat ->
  exists x, GHASH ctx (take m (Xn ctx)) = Done (put_Xi x ctx) /\ text_at c 0 (put_Xi x ctx).
Proof.
  intros Ht Hc Hm. pose proof (ta_mod _ _ _ Ht) as Hmod. rewrite Hc in Hmod. pose proof (Nat.Div0.div_mod m 16) as Hd.
  pose proof Ht as [HT HX [HXn HXnl] _ _ Hm32 Hp].
  destruct (GHASH_pending h ctx (take m (Xn ctx)) (d0 ++ c) (m / 16 - 1)) as (x & Hg & Hx & Hpx);
    [exact HT|exact HX|by apply Forall_take|exact Hp|rewrite length_take; lia|].
  exists x. split; [exact Hg|]. by apply (ta_hashed c m).
Qed.

(** Fewer bytes than a block, at the start of one. *)
Lemma crypt_rest_short c i m ctx inp :
  text_at c m ctx -> length c = (16 * i)%nat -> bytes_ok inp -> (length inp < 16)%nat -> text_done c ctx inp (crypt_rest enc ctx m inp).
Proof.
  intros Ht Hc Hi Hl. unfold crypt_rest. cbn zeta. destruct (Nat.leb_spec 16 (length inp)) as [|_]; [lia|]. cbn [andb mbind outcome_bind].
  cbn [chunks]. destruct (Nat.leb_spec GHASH_CHUNK (length inp)) as [Hbig|_]; [rewrite chunk_size in Hbig; lia|]. cbn [mbind outcome_bind].
  rewrite (Nat.div_small (length inp) 16), Nat.mul_0_r by lia. cbn [Nat.eqb mbind outcome_bind app]. rewrite drop_0.
  destruct inp as [|x inp].
  { exists (put_mres m ctx). rewrite keyed_nil, ct_nil, app_nil_r. split; [reflexivity|]. split; [by apply ta_put_mres|exact (same_refl ctx)]. }
  cbn zeta. destruct (tail_done c i m ctx (x :: inp) _ Ht Hc Hi Hl eq_refl ltac:(done)) as (buf & m' & -> & Ht'). cbn [mbind outcome_bind].
  eexists. split; [reflexivity|]. split; [exact Ht'|by split_and!].
Qed.

Lemma crypt_rest_spec c i m ctx inp :
  text_at c m ctx -> length c = (16 * i)%nat -> bytes_ok inp -> text_done c ctx inp (crypt_rest enc ctx m inp).
Proof.
  intros Ht Hc Hi. destruct (Nat.lt_ge_cases (length inp) 16) as [Hl|Hl]; [by apply (crypt_rest_short c i)|].
  unfold crypt_rest. cbn zeta. destruct (Nat.leb_spec 16 (length inp)) as [_|]; [|lia]. cbn [andb].
  assert (Hf : exists ctx1, (if negb (m =? 0)%nat then c ← GHASH ctx (take m (Xn ctx)); Done (0%nat, c) else Done (m, ctx)) = Done (0%nat, ctx1) /\
    text_at c 0 ctx1 /\ same_rest ctx ctx1 /\ Yi ctx1 = Yi ctx).
  { destruct (Nat.eqb_spec m 0) as [->|Hm]; cbn [negb]; [exists ctx; split; [reflexivity|]; split; [exact Ht|]; by split; [apply same_refl|]|].
    destruct (flush c m ctx Ht) as (x & -> & Hx); [rewrite Hc, Nat.mul_comm; apply Nat.Div0.mod_mul|exact Hm|].
    exists (put_Xi x ctx). split; [reflexivity|]. split; [exact Hx|]. by split_and!. }
  destruct Hf as (ctx1 & -> & Ht1 & Hs1 & HY1). cbn [mbind outcome_bind]. rewrite <- HY1.
  destruct (chunks_spec (S (length inp)) c i ctx1 inp Ht1 Hc Hi ltac:(lia)) as (out1 & rest & ctr & ctx2 & -> & x & n & -> & Hxl & -> & -> & Ht2 & Hs2).
  cbn [mbind outcome_bind]. set (c2 := c ++ ct_of (length c) x) in *.
  assert (Hc2 : length c2 = (16 * (i + n))%nat) by (unfold c2; rewrite length_app, length_ct; lia).
  apply Forall_app in Hi as [Hx Hrest]. set (q := (length rest / 16)%nat). pose proof (Nat.Div0.div_mod (length rest) 16) as Hdiv. fold q in Hdiv.
  pose proof (Nat.mod_upper_bound (length rest) 16 ltac:(lia)) as Hrem.
  assert (Hr : exists ctx3, (if (16 * q =? 0)%nat then Done ([], get_ctr32 (Yi ctx2), ctx2) else crypt_run enc (get_ctr32 (Yi ctx2)) ctx2 (take (16 * q) rest)) =
      Done (keyed J0 (length c2) (take (16 * q) rest), get_ctr32 (Yi ctx3), ctx3) /\
    text_at (c2 ++ ct_of (length c2) (take (16 * q) rest)) 0 ctx3 /\ same_rest ctx2 ctx3).
  { destruct (Nat.eqb_spec (16 * q) 0) as [Eq|Hq].
    - exists ctx2. rewrite Eq. cbn [take]. rewrite keyed_nil, ct_nil, app_nil_r. split; [reflexivity|]. split; [exact Ht2|apply same_refl].
    - apply (crypt_run_spec c2 (i + n) (q - 1)); [exact Ht2|exact Hc2|by apply Forall_take|rewrite length_take; lia]. }
  destruct Hr as (ctx3 & -> & Ht3 & Hs3). cbn [mbind outcome_bind]. set (y := take (16 * q) rest) in *. set (z := drop (16 * q) rest).
  assert (Hyl : length y = (16 * q)%nat) by (unfold y; rewrite length_take; lia).
  assert (Hzl : (length z < 16)%nat) by (unfold z; rewrite length_drop; lia).
  assert (Hyz : rest = y ++ z) by (unfold y, z; by rewrite take_drop).
  set (c3 := c2 ++ ct_of (length c2) y) in *.
  assert (Hc3 : length c3 = (16 * (i + n + q))%nat) by (unfold c3; rewrite length_app, length_ct; lia).
  pose proof (same_trans _ _ _ Hs1 (same_trans _ _ _ Hs2 Hs3)) as Hs.
  assert (Hout : keyed J0 (length c) (x ++ rest) = keyed J0 (length c) x ++ keyed J0 (length c2) y ++ keyed J0 (length c3) z).
  { rewrite Hyz, !keyed_app. unfold c3, c2. rewrite !length_app, !length_ct, ?length_app, ?length_ct. reflexivity. }
  assert (Hct : c ++ ct_of (length c) (x ++ rest) = c3 ++ ct_of (length c3) z).
  { rewrite Hyz, !ct_app. unfold c3, c2. rewrite !length_app, !length_ct, ?length_app, ?length_ct, <- !app_assoc. reflexivity. }
  unfold text_done. rewrite Hout, Hct.
  assert (Hz : bytes_ok z) by (by apply Forall_drop). clearbody z. destruct z as [|b z].
  { exists (put_mres 0 ctx3). rewrite keyed_nil, ct_nil, !app_nil_r. split; [reflexivity|]. split; [by apply ta_put_mres|exact Hs]. }
  cbn zeta. destruct (tail_done c3 (i + n + q) 0 ctx3 (b :: z) _ Ht3 Hc3 Hz Hzl eq_refl ltac:(done)) as (buf & m' & -> & Ht').
  cbn [mbind outcome_bind]. eexists. split; [reflexivity|]. split; [exact Ht'|exact Hs].
Qed.

(** The rest of a block: the bytes [x] of the input that it takes. *)
Lemma fill_done c m ctx inp :
  text_at c m ctx -> bytes_ok inp -> (m mod 16 <> 0)%nat ->
  let n := (m mod 16)%nat in
  let x := take (16 - n) inp in
  exists buf, fill enc n m (EKi ctx) (Xn ctx) inp = Done (keyed J0 (length c) x, drop (16 - n) inp, ((n + length x) mod 16)%nat, (m + length x)%nat, buf) /\
    bytes_ok buf /\ length buf = 48%nat /\ pending h (be_value (Xi ctx)) (take (m + length x) buf) (d0 ++ c ++ ct_of (length c) x).
Proof.
  intros Ht Hi Hm n x. pose proof (ta_mod _ _ _ Ht) as Hmod. fold n in Hmod, Hm. destruct Ht as [_ _ [HXn HXnl] _ HE Hm32 Hp].
  assert (Hn : (n < 16)%nat) by (apply Nat.mod_upper_bound; lia). pose proof (Nat.Div0.div_mod (length c) 16) as Hc. rewrite <- Hmod in Hc.
  pose proof (Nat.Div0.div_mod m 16) as Hdm. fold n in Hdm.
  specialize (HE ltac:(lia)). assert (Hekl : length (EKi ctx) = 16%nat).
  { rewrite HE. by destruct (encipher_block _ (ctr_block_ok J0 HJ (1 + length c / 16))). }
  destruct (fill_spec enc n m (EKi ctx) (Xn ctx) inp Hekl) as (buf & Hf & Ht' & Hbl & Hbok); [lia|lia|].
  rewrite (Nat.mod_small n) in Hf by lia. fold x in Hf, Ht', Hbok.
  assert (Hxl : (n + length x <= 16)%nat) by (unfold x; rewrite length_take; lia).
  rewrite HE in Hf, Ht', Hbok. rewrite (xor_key_block J0 HJ (length c / 16) n) in Hf, Ht', Hbok by exact Hxl. rewrite <- Hc in Hf, Ht', Hbok.
  change (if enc then keyed J0 (length c) x else x) with (ct_of (length c) x) in Ht', Hbok. rewrite length_ct in Ht'.
  exists buf. rewrite HE at 1. split; [exact Hf|]. split; [apply Hbok; [exact HXn|apply ct_ok; by apply Forall_take]|]. split; [lia|].
  rewrite Ht', app_assoc. by apply pending_append.
Qed.

Lemma crypt_from_spec c m ctx inp :
  text_at c m ctx -> bytes_ok inp -> text_done c ctx inp (crypt_from enc ctx m inp).
Proof.
  intros Ht Hi. unfold crypt_from. pose proof (ta_mod _ _ _ Ht) as Hmod. pose proof (Nat.Div0.div_mod (length c) 16) as Hc.
  destruct (Nat.eqb_spec (m mod 16) 0) as [E|E]; [apply (crypt_rest_spec c (length c / 16)); [exact Ht|lia|exact Hi]|].
  destruct (fill_done c m ctx inp Ht Hi E) as (buf & -> & Hbok & Hbl & Hp'). cbn [mbind outcome_bind].
  set (n := (m mod 16)%nat) in *. set (x := take (16 - n) inp) in *. set (rest := drop (16 - n) inp).
  assert (Hinp : inp = x ++ rest) by (unfold x, rest; by rewrite take_drop).
  assert (Hn : (n < 16)%nat) by (apply Nat.mod_upper_bound; lia). pose proof (Nat.Div0.div_mod m 16) as Hdm. fold n in Hdm.
  destruct Ht as [HT HX [HXn HXnl] HY HE Hm32 Hp]. rewrite <- Hmod in Hc. specialize (HE ltac:(lia)).
  assert (Hxl : (length x <= 16 - n)%nat) by (unfold x; rewrite length_take; lia).
  set (c1 := c ++ ct_of (length c) x) in *. assert (Hc1 : length c1 = (16 * (length c / 16) + n + length x)%nat) by (unfold c1; rewrite length_app, length_ct; lia).
  assert (Hceil : forall k, (0 < k <= 16)%nat -> ((16 * (length c / 16) + k + 15) / 16 = S (length c / 16))%nat).
  { intros k Hk. symmetry. apply (Nat.div_unique _ 16 (S (length c / 16)) (k - 1)); lia. }
  assert (HY1 : Yi ctx = ctr_block J0 (1 + (length c1 + 15) / 16)).
  { assert (H1 : ((length c + 15) / 16 = S (length c / 16))%nat) by (rewrite <- (Hceil n) by lia; f_equal; lia).
    assert (H2 : ((length c1 + 15) / 16 = S (length c / 16))%nat) by (rewrite <- (Hceil (n + length x)%nat) by lia; f_equal; lia).
    by rewrite HY, H1, H2. }
  destruct (Nat.eqb_spec ((n + length x) mod 16) 0) as [E2|E2]; cbn [negb].
  - assert (Hfull : (n + length x = 16)%nat) by (pose proof (Nat.Div0.div_mod (n + length x) 16); lia).
    destruct (GHASH_pending h (put_Xn buf ctx) (take (m + length x) buf) (d0 ++ c1) (m / 16)) as (y & Hg & Hy & Hpy);
      [exact HT|exact HX|by apply Forall_take|exact Hp'|rewrite length_take; lia|]. gcm_fields. rewrite Hg. cbn [mbind outcome_bind].
    assert (Ht1 : text_at c1 0 (put_Xi y (put_Xn buf ctx))).
    { constructor; gcm_fields; [exact HT|exact Hy|by split|exact HY1| |lia|exact Hpy].
      intros Hne. exfalso. apply Hne. rewrite Hc1. replace (16 * (length c / 16) + n + length x)%nat with ((length c / 16 + 1) * 16)%nat by lia.
      apply Nat.Div0.mod_mul. }
    destruct (crypt_rest_spec c1 (length c / 16 + 1) 0 _ rest Ht1) as (ctx2 & -> & Ht2 & Hs2); [lia|by apply Forall_drop|].
    cbn [mbind outcome_bind]. exists ctx2. rewrite Hinp, keyed_app, ct_app, app_assoc. unfold c1 in *. rewrite length_app, length_ct in *.
    split; [reflexivity|]. split; [exact Ht2|]. exact Hs2.
  - assert (Hx : x = inp).
    { unfold x. apply take_ge. destruct (Nat.le_gt_cases (length inp) (16 - n)) as [Hle|Hgt]; [exact Hle|]. exfalso. apply E2.
      assert (Hxx : length x = (16 - n)%nat) by (unfold x; rewrite length_take; lia). rewrite Hxx. replace (n + (16 - n))%nat with 16%nat by lia. reflexivity. }
    exists (put_mres (m + length x) (put_Xn buf ctx)). unfold c1 in *. rewrite <- Hx. split; [reflexivity|].
    split; [|by split_and!]. constructor; gcm_fields; [exact HT|exact HX|by split|exact HY1| | |exact Hp'].
    + intros _. rewrite HE, Hc1. do 2 f_equal. assert (Hlt : (n + length x < 16)%nat).
      { assert (n + length x <> 16)%nat by (intros Eq; apply E2; by rewrite Eq). lia. }
      rewrite <- (Nat.div_unique (16 * (length c / 16) + n + length x) 16 (length c / 16) (n + length x)) by lia. reflexivity.
    + assert (n + length x <> 16)%nat by (intros Eq; apply E2; by rewrite Eq). lia.
Qed.
End text.

(** ** Additional data *)

Lemma be_value_zeros n : be_value (memset0 n) = 0.
Proof.
  induction n as [|n IH]; [reflexivity|]. change (memset0 (S n)) with (0 :: memset0 n). rewrite be_value_cons, IH. reflexivity.
Qed.

Lemma xor_bytes_zeros (Y : bytes) n : (length Y <= n)%nat -> xor_bytes Y (memset0 n) = Y.
Proof.
  revert n. induction Y as [|y Y IH]; intros [|n] Hn; try (done || (cbn in Hn; lia)). change (memset0 (S n)) with (0 :: memset0 n).
  cbn [xor_bytes length] in *. rewrite IH by lia. by rewrite Z.lxor_0_r.
Qed.

Lemma xor_into_bytes (Y d : bytes) n : length Y = (length d + n)%nat -> xor_into Y d = xor_bytes Y (d ++ memset0 n).
Proof.
  revert Y. induction d as [|x d IH]; intros [|y Y] Hl; try (cbn in Hl; lia); try done.
  - cbn [xor_into app]. symmetry. apply xor_bytes_zeros. rewrite Hl. cbn. lia.
  - cbn [xor_into app xor_bytes]. cbn [length] in Hl. rewrite (IH Y) by lia. reflexivity.
Qed.

Lemma xor_set (Y t z : bytes) x : (length t < length Y)%nat ->
  <[length t := nth (length t) (xor_bytes Y (t ++ 0 :: z)) 0 ⊕ x]> (xor_bytes Y (t ++ 0 :: z)) = xor_bytes Y (t ++ x :: z).
Proof.
  revert Y. induction t as [|u t IH]; intros [|y Y] Hl; try (cbn in Hl; lia).
  - cbn [length app xor_bytes nth insert list_insert]. by rewrite Z.lxor_0_r.
  - cbn [length app xor_bytes nth insert list_insert]. f_equal. apply IH. cbn in Hl. lia.
Qed.

(** The head loop, from position [n] of the block on. *)
Lemma aad_head_spec n Y t aad :
  length Y = 16%nat -> length t = n -> (1 <= n <= 16)%nat ->
  let x := take (16 - n) aad in
  aad_head (n mod 16) (xor_bytes Y (t ++ memset0 (16 - n))) aad =
    (((n + length x) mod 16)%nat, xor_bytes Y ((t ++ x) ++ memset0 (16 - n - length x)), drop (16 - n) aad).
Proof.
  intros HY. revert n t. induction aad as [|x aad IH]; intros n t Ht Hn; cbn zeta; cbn [aad_head].
  { rewrite take_nil, drop_nil. cbn [length]. by rewrite Nat.add_0_r, Nat.sub_0_r, app_nil_r. }
  destruct (Nat.eq_dec n 16%nat) as [->|Hne].
  { change (16 mod 16)%nat with 0%nat. cbn [Nat.eqb Nat.sub take drop length]. change (memset0 0) with ([] : bytes). by rewrite !app_nil_r. }
  rewrite Nat.mod_small by lia. destruct (Nat.eqb_spec n 0) as [|_]; [lia|].
  replace (16 - n)%nat with (S (16 - S n))%nat by lia. change (memset0 (S (16 - S n))) with (0 :: memset0 (16 - S n)).
  rewrite <- Ht at 2 3. rewrite xor_set by lia. replace (n + 1)%nat with (S n) by lia.
  replace (t ++ x :: memset0 (16 - S n)) with ((t ++ [x]) ++ memset0 (16 - S n)) by (by rewrite <- app_assoc).
  rewrite (IH (S n) (t ++ [x])) by (rewrite ?length_app; cbn; lia). cbn [take drop length]. rewrite <- Nat.add_succ_comm.
  rewrite <- !app_assoc. reflexivity.
Qed.

Section aad.
Context `{BlockLaws} (J0 : bytes) (HJ : block16 J0) (h : Z).

(** The hash of whole blocks and, combined with it, the bytes [t] of the next. *)
Definition absorbed_aad (a : bytes) (X : bytes) (n : nat) : Prop :=
  exists f t Y k, a = f ++ t /\ length t = n /\ (n < 16)%nat /\ length f = (16 * k)%nat /\ block16 Y /\ be_value Y = sp_ghash h 0 (blocks16 f) /\
    bytes_ok t /\ X = xor_bytes Y (t ++ memset0 (16 - n)).

Record aad_at (a : bytes) (ctx : GCM128_CONTEXT) : Prop := {
  aa_table : table_ok h (Htable ctx);
  aa_Xn : bytes_ok (Xn ctx) /\ length (Xn ctx) = 48%nat;
  aa_Yi : Yi ctx = ctr_block J0 1;
  aa_mres : mres ctx = 0%nat;
  aa_absorbed : absorbed_aad a (Xi ctx) (ares ctx) }.

Lemma absorbed_start : absorbed_aad [] (memset0 16) 0.
Proof.
  exists [], [], (memset0 16), 0%nat. split_and!; try done; try lia.
  - split; [apply memset0_ok|reflexivity].
  - constructor.
Qed.

(** Nothing of a block yet: the bytes are the hash. *)
Lemma absorbed_whole a X : absorbed_aad a X 0 -> block16 X /\ be_value X = sp_ghash h 0 (blocks16 a) /\ exists k, length a = (16 * k)%nat.
Proof.
  intros (f & t & Y & k & -> & Ht & _ & Hf & [HY HYl] & Hv & _ & ->). destruct t; [|done]. cbn [app].
  rewrite xor_bytes_zeros, app_nil_r by lia. split; [by split|]. split; [exact Hv|by exists k].
Qed.

Lemma whole_absorbed a X k : block16 X -> be_value X = sp_ghash h 0 (blocks16 a) -> length a = (16 * k)%nat -> absorbed_aad a X 0.
Proof.
  intros HX Hv Hl. exists a, [], X, k. rewrite app_nil_r. split_and!; try done; try lia; [constructor|].
  cbn [app]. rewrite xor_bytes_zeros; [done|by destruct HX; lia].
Qed.

Lemma zeros_to_block_nat (b : bytes) : zeros_to_block b = memset0 ((16 - length b mod 16) mod 16).
Proof.
  unfold zeros_to_block, zlen. f_equal. pose proof (Nat.mod_upper_bound (length b) 16 ltac:(lia)) as Hm. apply Nat2Z.inj.
  rewrite Z2Nat.id by (apply Z.mod_pos_bound; lia). rewrite Nat2Z.inj_mod, Nat2Z.inj_sub, Nat2Z.inj_mod by lia.
  change (Z.of_nat 16) with 16. Z.to_euclidean_division_equations; lia.
Qed.

Lemma zeros_whole (b : bytes) : exists k, length (b ++ zeros_to_block b) = (16 * k)%nat.
Proof.
  rewrite zeros_to_block_nat, length_app. unfold memset0. rewrite length_replicate.
  pose proof (Nat.Div0.div_mod (length b) 16) as Hd. pose proof (Nat.mod_upper_bound (length b) 16 ltac:(lia)) as Hm.
  destruct (Nat.eq_dec (length b mod 16)%nat 0%nat) as [E|E].
  - exists (length b / 16)%nat. rewrite E. change ((16 - 0) mod 16)%nat with 0%nat. lia.
  - exists (length b / 16 + 1)%nat. rewrite (Nat.mod_small (16 - _)) by lia. lia.
Qed.

(** A started block, hashed: the data padded. *)
Lemma absorbed_block a X n : absorbed_aad a X n -> n <> 0%nat ->
  block16 X /\ sp_ghash h 0 [X] = sp_ghash h 0 (blocks16 (a ++ zeros_to_block a)).
Proof.
  intros (f & t & Y & k & -> & Ht & Hn & Hf & [HY HYl] & Hv & Hto & ->) Hne. set (p := t ++ memset0 (16 - n)).
  assert (Hpl : length p = 16%nat) by (unfold p, memset0; rewrite length_app, length_replicate; lia).
  assert (Hp : bytes_ok p) by (apply Forall_app; split; [exact Hto|apply memset0_ok]).
  assert (Hz : (f ++ t) ++ zeros_to_block (f ++ t) = f ++ p).
  { assert (E : (length (f ++ t) mod 16 = n)%nat).
    { rewrite length_app, Hf, Ht, (Nat.add_comm (16 * k)), (Nat.mul_comm 16), Nat.Div0.mod_add. by apply Nat.mod_small. }
    rewrite zeros_to_block_nat, E, Nat.mod_small, <- app_assoc by lia. reflexivity. }
  split; [split; [by apply xor_bytes_ok|rewrite xor_bytes_length; lia]|]. rewrite Hz, (blocks16_app k), sp_ghash_app, (blocks16_block p) by lia.
  cbn [sp_ghash]. by rewrite Z.lxor_0_l, be_value_xor, Hv by (assumption || lia).
Qed.
End aad.

(** ** The calls *)

Section calls.
Context `{BlockLaws} (J0 : bytes) (HJ : block16 J0) (h : Z).

Lemma aad_rest_spec a ctx x :
  aad_at J0 h a (put_ares 0 ctx) -> bytes_ok x ->
  exists ctx', aad_rest ctx x = Done (0, ctx') /\ aad_at J0 h (a ++ x) ctx' /\ EK0 ctx' = EK0 ctx /\ len_0 ctx' = len_0 ctx /\ len_1 ctx' = len_1 ctx.
Proof.
  intros [HT HXn HY Hm Ha] Hx. destruct (absorbed_whole h _ _ Ha) as (HX & Hv & k & Hk). gcm_fields. cbn [Xi put_ares] in HX, Hv.
  unfold aad_rest. cbn zeta. set (q := (length x / 16)%nat). pose proof (Nat.Div0.div_mod (length x) 16) as Hd. fold q in Hd.
  pose proof (Nat.mod_upper_bound (length x) 16 ltac:(lia)) as Hr.
  assert (Hg : exists y, (if (16 * q =? 0)%nat then Done ctx else GHASH ctx (take (16 * q) x)) = Done (put_Xi y ctx) /\ block16 y /\
    be_value y = sp_ghash h 0 (blocks16 (a ++ take (16 * q) x))).
  { destruct (Nat.eqb_spec (16 * q) 0) as [Eq|Hq].
    - exists (Xi ctx). rewrite Eq. cbn [take]. rewrite app_nil_r. by destruct ctx.
    - destruct (ghash_blocks h (Htable ctx) (q - 1) (Xi ctx) (take (16 * q) x) HT HX) as (y & Hy & Hyo & Hyv);
        [by apply Forall_take|rewrite length_take; lia|].
      exists y. unfold GHASH. rewrite Hy. split; [reflexivity|]. split; [exact Hyo|]. rewrite Hyv, Hv, (blocks16_app k), sp_ghash_app by exact Hk. reflexivity. }
  destruct Hg as (y & -> & Hy & Hyv). cbn [mbind outcome_bind]. gcm_fields. set (t := drop (16 * q) x).
  assert (Htl : (length t < 16)%nat) by (unfold t; rewrite length_drop; lia).
  eexists. split; [reflexivity|]. split; [|by split_and!].
  constructor; gcm_fields; [exact HT|exact HXn|exact HY|exact Hm|].
  exists (a ++ take (16 * q) x), t, y, (k + q)%nat. split_and!; try assumption.
  - unfold t. by rewrite <- app_assoc, take_drop.
  - reflexivity.
  - rewrite length_app, length_take, Hk. lia.
  - by apply Forall_drop.
  - rewrite (xor_into_bytes y t (16 - length t)); [reflexivity|]. destruct Hy. lia.
Qed.

Lemma gcm_aad_call a ctx x :
  aad_at J0 h a ctx -> bytes_ok x -> len_0 ctx = zlen a -> len_1 ctx = 0 -> zlen (a ++ x) <= 2 ^ 61 ->
  exists ctx', CRYPTO_gcm128_aad ctx x = Done (0, ctx') /\ aad_at J0 h (a ++ x) ctx' /\ EK0 ctx' = EK0 ctx /\
    len_0 ctx' = zlen (a ++ x) /\ len_1 ctx' = 0.
Proof.
  intros Ha Hx Hl0 Hl1 Hmax. unfold CRYPTO_gcm128_aad. rewrite Hl1. cbn [Z.eqb negb]. rewrite Hl0, <- zlen_app.
  assert (Hu : u64 (zlen (a ++ x)) = zlen (a ++ x)).
  { unfold u64, wrap. apply Z.mod_small. pose proof (zlen_nonneg (a ++ x)). change (2 ^ 64) with (8 * 2 ^ 61). lia. }
  rewrite Hu. destruct (Z.ltb_spec (2 ^ 61) (zlen (a ++ x))) as [|_]; [lia|]. cbn zeta. set (ctx1 := put_len _ _ _).
  assert (Ha1 : aad_at J0 h a ctx1) by (destruct Ha; by constructor). assert (Hl1' : len_1 ctx1 = 0) by reflexivity.
  assert (Hl0' : len_0 ctx1 = zlen (a ++ x)) by reflexivity. assert (HE : EK0 ctx1 = EK0 ctx) by reflexivity. clearbody ctx1. rewrite <- HE. clear HE Ha Hl0 Hl1.
  destruct (Nat.eqb_spec (ares ctx1) 0) as [E|E].
  - destruct (aad_head (ares ctx1) (Xi ctx1) x) as [[n X] rest].
    destruct (aad_rest_spec a ctx1 x) as (ctx' & -> & Ha' & HE & H0 & H1); [|exact Hx|].
    { destruct Ha1 as [HT HXn HY Hm Ha]. rewrite E in Ha. constructor; assumption. }
    exists ctx'. split; [reflexivity|]. split; [exact Ha'|]. split; [exact HE|]. split; [by rewrite H0|by rewrite H1].
  - destruct Ha1 as [HT HXn HY Hm (f & t & Y & k & Haft & Ht & Hn & Hf & HYb & Hv & Hto & HXi)].
    pose proof (aad_head_spec (ares ctx1) Y t x (proj2 HYb) Ht ltac:(lia)) as Hh. cbn zeta in Hh.
    rewrite (Nat.mod_small (ares ctx1)) in Hh by lia. rewrite HXi, Hh. set (n := ares ctx1) in *. set (u := take (16 - n) x) in *.
    set (rest := drop (16 - n) x). assert (Hxs : x = u ++ rest) by (unfold u, rest; by rewrite take_drop).
    assert (Hul : (n + length u <= 16)%nat) by (unfold u; rewrite length_take; lia).
    assert (Hu' : bytes_ok u) by (by apply Forall_take). assert (Hrest : bytes_ok rest) by (by apply Forall_drop).
    destruct (Nat.eqb_spec ((n + length u) mod 16) 0) as [E2|E2].
    + assert (Hfull : (n + length u = 16)%nat) by (pose proof (Nat.Div0.div_mod (n + length u) 16); lia).
      replace (16 - n - length u)%nat with 0%nat by lia. change (memset0 0) with ([] : bytes). rewrite app_nil_r.
      assert (Hb : block16 (xor_bytes Y (t ++ u))).
      { destruct HYb. split; [apply xor_bytes_ok; [done|by apply Forall_app]|rewrite xor_bytes_length, length_app; lia]. }
      assert (Hbv : be_value (xor_bytes Y (t ++ u)) = be_value Y ⊕ be_value (t ++ u)).
      { destruct HYb. apply be_value_xor; [done|by apply Forall_app|rewrite length_app; lia]. }
      destruct (gmult_block h (Htable ctx1) _ HT Hb) as [Hg Hgv].
      destruct (aad_rest_spec (a ++ u) (GCM_MUL (put_Xi (xor_bytes Y (t ++ u)) ctx1)) rest) as (ctx' & -> & Ha' & HE' & H0 & H1); [|exact Hrest|].
      { constructor; unfold GCM_MUL; gcm_fields; try assumption. apply (whole_absorbed h _ _ (k + 1)); [exact Hg| |rewrite Haft, !length_app; lia].
        rewrite Hgv, Hbv, Haft, <- app_assoc, (blocks16_app k), sp_ghash_app, (blocks16_block (t ++ u)), Hv by (rewrite ?length_app; lia). reflexivity. }
      exists ctx'. rewrite <- app_assoc, <- Hxs in Ha'. split; [reflexivity|]. split; [exact Ha'|]. split; [exact HE'|]. split; [by rewrite H0|by rewrite H1].
    + assert (Hlt : (n + length u < 16)%nat). { assert (n + length u <> 16)%nat by (intros Eq; apply E2; by rewrite Eq). lia. }
      assert (Hux : u = x) by (unfold u in *; apply take_ge; rewrite length_take in Hlt; lia).
      eexists. split; [reflexivity|]. split; [|split; [reflexivity|]; split; [exact Hl0'|exact Hl1']].
      constructor; gcm_fields; try assumption. rewrite Nat.mod_small by lia. exists f, (t ++ u), Y, k.
      split_and!; try assumption; try (by apply Forall_app).
      * by rewrite Haft, <- app_assoc, Hux.
      * rewrite length_app. lia.
      * do 3 f_equal. lia.
Qed.

(** The additional data, padded, in front of the cipher text. *)
Definition padded_aad (a : bytes) : bytes := a ++ zeros_to_block a.

Lemma padded_whole a : (length (padded_aad a) mod 16 = 0)%nat.
Proof. destruct (zeros_whole a) as [k Hk]. unfold padded_aad. rewrite Hk, Nat.mul_comm. apply Nat.Div0.mod_mul. Qed.

(** What a hashed text starts from. *)
Lemma text_start a ctx m :
  table_ok h (Htable ctx) -> bytes_ok (Xn ctx) /\ length (Xn ctx) = 48%nat -> Yi ctx = ctr_block J0 1 -> block16 (Xi ctx) -> (m < 32)%nat ->
  pending h (be_value (Xi ctx)) (take m (Xn ctx)) (padded_aad a) -> text_at J0 h (padded_aad a) [] m ctx.
Proof.
  intros HT HXn HY HX Hm Hp. constructor; try assumption; [done|]. by rewrite app_nil_r.
Qed.

Lemma aad_to_text a ctx : aad_at J0 h a ctx -> ares ctx = 0%nat -> text_at J0 h (padded_aad a) [] 0 ctx.
Proof.
  intros [HT HXn HY Hm Ha] E. rewrite E in Ha. destruct (absorbed_whole h _ _ Ha) as (HX & Hv & k & Hk).
  apply text_start; try assumption; [lia|]. unfold padded_aad. rewrite zeros_to_block_nat, Hk, Nat.mul_comm, Nat.Div0.mod_mul.
  change (memset0 ((16 - 0) mod 16)) with ([] : bytes). rewrite app_nil_r. cbn [take].
  apply (whole_pending _ _ _ _ 0 k); [reflexivity|exact Hk|exact Hv].
Qed.

Lemma aad_closed a ctx : aad_at J0 h a ctx -> ares ctx <> 0%nat -> text_at J0 h (padded_aad a) [] 0 (put_ares 0 (GCM_MUL ctx)).
Proof.
  intros [HT HXn HY Hm Ha] E. destruct (absorbed_block h _ _ _ Ha E) as [HX Hs]. destruct (gmult_block h (Htable ctx) _ HT HX) as [Hg Hgv].
  destruct (zeros_whole a) as [k Hk]. apply text_start; unfold GCM_MUL; gcm_fields; try assumption; [lia|]. cbn [take].
  apply (whole_pending _ _ _ _ 0 k); [reflexivity|exact Hk|]. rewrite Hgv. unfold padded_aad. rewrite <- Hs.
  cbn [sp_ghash]. rewrite Z.lxor_0_l. reflexivity.
Qed.

Lemma aad_kept a ctx : aad_at J0 h a ctx -> ares ctx <> 0%nat ->
  text_at J0 h (padded_aad a) [] 16 (put_ares 0 (put_Xi (memset0 16) (put_Xn (Xi ctx ++ drop 16 (Xn ctx)) ctx))).
Proof.
  intros [HT [HXn HXnl] HY Hm Ha] E. destruct (absorbed_block h _ _ _ Ha E) as [[HX HXl] Hs]. destruct (zeros_whole a) as [k Hk].
  apply text_start; gcm_fields; try assumption; [|split; [apply memset0_ok|reflexivity]|lia|].
  - split; [apply Forall_app; split; [exact HX|by apply Forall_drop]|rewrite length_app, length_drop; lia].
  - rewrite take_app_length' by (symmetry; exact HXl). apply (whole_pending _ _ _ _ 1 k); [exact HXl|exact Hk|].
    rewrite be_value_zeros, blocks16_block by exact HXl. exact Hs.
Qed.

(** Ready for text behind the additional data [a] and the cipher text [c]. *)
Definition gcm_ready (a c : bytes) (ctx : GCM128_CONTEXT) : Prop :=
  ((aad_at J0 h a ctx /\ c = []) \/ (ares ctx = 0%nat /\ text_at J0 h (padded_aad a) c (mres ctx) ctx)) /\
  EK0 ctx = encipher J0 /\ len_0 ctx = zlen a /\ len_1 ctx = zlen c.

Lemma gcm_text_call enc a c ctx x :
  gcm_ready a c ctx -> bytes_ok x -> zlen (c ++ x) <= 2 ^ 36 - 32 ->
  exists ctx', crypt enc ctx x = Done (0, keyed J0 (length c) x, ctx') /\ gcm_ready a (c ++ ct_of enc J0 (length c) x) ctx'.
Proof.
  intros (Hr & HE & H0 & H1) Hx Hmax. unfold crypt. cbn zeta. rewrite H1, <- zlen_app.
  assert (Hu : u64 (zlen (c ++ x)) = zlen (c ++ x)).
  { unfold u64, wrap. apply Z.mod_small. pose proof (zlen_nonneg (c ++ x)). change (2 ^ 36) with 68719476736 in *.
    change (2 ^ 64) with 18446744073709551616. lia. }
  rewrite Hu. destruct (Z.ltb_spec (2 ^ 36 - 32) (zlen (c ++ x))) as [|_]; [lia|].
  set (ctx1 := put_len (len_0 ctx) (zlen (c ++ x)) ctx).
  assert (Hlen : zlen (c ++ ct_of enc J0 (length c) x) = zlen (c ++ x)).
  { unfold zlen. rewrite !length_app. unfold ct_of. destruct enc; [by rewrite length_keyed|done]. }
  (* the rest of a call on a context for text *)
  assert (Hfrom : forall m ctx2, text_at J0 h (padded_aad a) c m ctx2 -> ares ctx2 = 0%nat -> EK0 ctx2 = EK0 ctx1 -> len_0 ctx2 = len_0 ctx1 ->
    len_1 ctx2 = len_1 ctx1 -> exists ctx', crypt_from enc ctx2 m x = Done (0, keyed J0 (length c) x, ctx') /\
      gcm_ready a (c ++ ct_of enc J0 (length c) x) ctx').
  { intros m ctx2 Ht Har HE2 H02 H12. destruct (crypt_from_spec enc J0 HJ h (padded_aad a) (padded_whole a) c m ctx2 x Ht Hx) as (ctx' & -> & Ht' & SE & S0 & S1 & Sa).
    exists ctx'. split; [reflexivity|]. split; [right; split; [by rewrite Sa|exact Ht']|]. rewrite SE, S0, S1, HE2, H02, H12, Hlen. by split_and!. }
  assert (Hta : forall m ctx0, text_at J0 h (padded_aad a) c m ctx0 -> text_at J0 h (padded_aad a) c m (put_len (len_0 ctx) (zlen (c ++ x)) ctx0)).
  { intros m ctx0 []. by constructor. }
  destruct Hr as [[Ha ->]|[Har Ht]].
  - assert (Ha1 : aad_at J0 h a ctx1) by (destruct Ha; by constructor).
    destruct (Nat.eqb_spec (ares ctx1) 0) as [E|E]; cbn [negb].
    + rewrite (aa_mres _ _ _ _ Ha1). apply Hfrom; try done. by apply aad_to_text.
    + destruct (Z.eqb_spec (zlen x) 0) as [Ez|_].
      * assert (x = []) as -> by (by destruct x). exists (put_ares 0 (GCM_MUL ctx1)). rewrite keyed_nil, ct_nil. split; [reflexivity|].
        split; [right; split; [reflexivity|]|by split_and!]. change (mres (put_ares 0 (GCM_MUL ctx1))) with (mres ctx1).
        rewrite (aa_mres _ _ _ _ Ha1). by apply aad_closed.
      * apply Hfrom; try done. by apply aad_kept.
  - change (ares ctx1) with (ares ctx). rewrite Har. cbn [Nat.eqb negb]. apply Hfrom; try done. by apply Hta.
Qed.

(** *** The end *)

Lemma bytes64_ok n : bytes_ok (bytes64 n) /\ length (bytes64 n) = 8%nat.
Proof. split; [|reflexivity]. unfold bytes64. apply Forall_map, Forall_forall. intros s _. apply (wrap_range 8). lia. Qed.

(** What is hashed in the end. *)
Definition all_data (a c : bytes) : bytes :=
  ((padded_aad a ++ c) ++ zeros_to_block c) ++ bytes64 (u64 (Z.shiftl (zlen a) 3)) ++ bytes64 (u64 (Z.shiftl (zlen c) 3)).

(** The waiting bytes filled up to whole blocks. *)
Lemma finish_pads a c ctx :
  text_at J0 h (padded_aad a) c (mres ctx) ctx -> ares ctx = 0%nat ->
  exists m buf, close_block ctx = Done ((16 * m)%nat, put_Xn buf ctx) /\
    (m <= 2)%nat /\ bytes_ok buf /\ length buf = 48%nat /\
    pending h (be_value (Xi ctx)) (take (16 * m) buf) ((padded_aad a ++ c) ++ zeros_to_block c).
Proof.
  intros Ht Har. unfold close_block. pose proof (ta_mod J0 h _ (padded_whole a) _ _ _ Ht) as Hmod. destruct Ht as [HT HX [HXn HXnl] HY HE Hm Hp].
  pose proof (Nat.Div0.div_mod (mres ctx) 16) as Hd. pose proof (Nat.mod_upper_bound (mres ctx) 16 ltac:(lia)) as Hr.
  rewrite zeros_to_block_nat, <- Hmod. destruct (Nat.eqb_spec (mres ctx) 0) as [E|E]; cbn [negb].
  - rewrite Har. cbn [Nat.eqb negb]. exists 0%nat, (Xn ctx). rewrite E in Hp |- *. change (memset0 ((16 - 0 mod 16) mod 16)) with ([] : bytes).
    rewrite app_nil_r, Nat.mul_0_r. split; [by destruct ctx|]. split; [lia|]. split; [exact HXn|]. split; [exact HXnl|exact Hp].
  - cbn zeta. set (m := ((mres ctx + 15) / 16)%nat).
    assert (Hmm : (16 * m = mres ctx + (16 - mres ctx mod 16) mod 16)%nat).
    { unfold m. destruct (Nat.eq_dec (mres ctx mod 16)%nat 0%nat) as [Ez|Ez].
      - rewrite Ez. change ((16 - 0) mod 16)%nat with 0%nat. rewrite <- (Nat.div_unique (mres ctx + 15) 16 (mres ctx / 16) 15) by lia. lia.
      - rewrite (Nat.mod_small (16 - _)) by lia.
        rewrite <- (Nat.div_unique (mres ctx + 15) 16 (mres ctx / 16 + 1) (mres ctx mod 16 - 1)) by lia. lia. }
    assert (Hz : ((16 - mres ctx mod 16) mod 16 < 16)%nat) by (apply Nat.mod_upper_bound; lia).
    assert (Hm2 : (m <= 2)%nat) by lia. set (z := ((16 - mres ctx mod 16) mod 16)%nat) in *. replace (16 * m - mres ctx)%nat with z by lia.
    assert (Hzl : length (memset0 z) = z) by apply length_replicate.
    rewrite write_at_inside by (rewrite Hzl; lia). cbn [mbind outcome_bind]. destruct (Nat.eqb_spec (16 * m) 48) as [|_]; [lia|].
    exists m, (take (mres ctx) (Xn ctx) ++ memset0 z ++ drop (mres ctx + length (memset0 z)) (Xn ctx)). split; [reflexivity|].
    split; [exact Hm2|]. assert (Htl : length (take (mres ctx) (Xn ctx)) = mres ctx) by (rewrite length_take; lia). split; [|split].
    + repeat (apply Forall_app; split); [by apply Forall_take|apply memset0_ok|by apply Forall_drop].
    + rewrite !length_app, length_drop, Htl, Hzl. lia.
    + rewrite app_assoc, take_app_length' by (rewrite length_app, Htl, Hzl; lia). by apply pending_append.
Qed.

Lemma block_closed a c ctx :
  gcm_ready a c ctx ->
  exists m buf ctx0, close_block ctx = Done ((16 * m)%nat, put_Xn buf ctx0) /\ (m <= 2)%nat /\ bytes_ok buf /\ length buf = 48%nat /\
    pending h (be_value (Xi ctx0)) (take (16 * m) buf) ((padded_aad a ++ c) ++ zeros_to_block c) /\
    table_ok h (Htable ctx0) /\ block16 (Xi ctx0) /\ EK0 ctx0 = EK0 ctx.
Proof.
  intros (Hr & _). assert (Ht : forall ctx, text_at J0 h (padded_aad a) c (mres ctx) ctx -> ares ctx = 0%nat ->
    exists m buf ctx0, close_block ctx = Done ((16 * m)%nat, put_Xn buf ctx0) /\ (m <= 2)%nat /\ bytes_ok buf /\ length buf = 48%nat /\
    pending h (be_value (Xi ctx0)) (take (16 * m) buf) ((padded_aad a ++ c) ++ zeros_to_block c) /\
    table_ok h (Htable ctx0) /\ block16 (Xi ctx0) /\ EK0 ctx0 = EK0 ctx).
  { intros c0 Ht Har. destruct (finish_pads a c c0 Ht Har) as (m & buf & Hpad & Hm2 & Hbok & Hbl & Hp). exists m, buf, c0.
    destruct Ht. by split_and!. }
  destruct Hr as [[Ha ->]|[Har H1]]; [|by apply Ht]. pose proof (aa_mres _ _ _ _ Ha) as Hm.
  destruct (Nat.eq_dec (ares ctx) 0%nat) as [E|E]; [apply Ht; [rewrite Hm; by apply aad_to_text|exact E]|].
  destruct (aad_closed a ctx Ha E) as [HT HX [HXn HXnl] _ _ _ Hp]. exists 0%nat, (Xn ctx), (GCM_MUL ctx). unfold close_block.
  rewrite Hm. cbn [Nat.eqb negb]. destruct (Nat.eqb_spec (ares ctx) 0) as [|_]; [contradiction|]. cbn [negb].
  split; [by destruct ctx|]. split; [lia|]. split; [exact HXn|]. split; [exact HXnl|]. split; [|by split_and!].
  change (zeros_to_block []) with ([] : bytes). rewrite !app_nil_r in *. exact Hp.
Qed.

Lemma finish_hash a c ctx :
  gcm_ready a c ctx ->
  exists x ctx', block16 x /\ be_value x = sp_ghash h 0 (blocks16 (all_data a c)) /\ Xi ctx' = xor_bytes x (encipher J0) /\
    (table_ok h (Htable ctx') /\ bytes_ok (Xn ctx') /\ length (Xn ctx') = 48%nat) /\
    forall tag len, CRYPTO_gcm128_finish ctx tag len =
      match tag with
      | Some t => if len <=? 16 then y ← CRYPTO_memcmp (Xi ctx') t len; Done (y, ctx') else Done (-1, ctx')
      | None => Done (-1, ctx')
      end.
Proof.
  intros Hready. pose proof Hready as (_ & HE & H0 & H1).
  destruct (block_closed a c ctx Hready) as (m & buf & ctx0 & Hpad & Hm2 & Hbok & Hbl & Hp & HT & HX & HE0).
  set (lens := bytes64 (u64 (Z.shiftl (zlen a) 3)) ++ bytes64 (u64 (Z.shiftl (zlen c) 3))).
  assert (Hll : length lens = 16%nat) by reflexivity. assert (Hlo : bytes_ok lens) by (apply Forall_app; split; apply bytes64_ok).
  assert (Htl : length (take (16 * m) buf) = (16 * m)%nat) by (rewrite length_take; lia).
  apply (pending_append _ _ _ _ lens) in Hp.
  set (buf' := take (16 * m) buf ++ lens ++ drop (16 * m + length lens) buf).
  set (ctx2 := put_len (u64 (Z.shiftl (zlen a) 3)) (u64 (Z.shiftl (zlen c) 3)) ctx0).
  assert (Htake : take (16 * m + 16) buf' = take (16 * m) buf ++ lens).
  { unfold buf'. rewrite app_assoc, take_app_length' by (rewrite length_app, Htl, Hll; lia). reflexivity. }
  destruct (GHASH_pending h (put_Xn buf' ctx2) (take (16 * m) buf ++ lens) (all_data a c) m) as (x & Hg & Hx & Hpx);
    [exact HT|exact HX|apply Forall_app; split; [by apply Forall_take|exact Hlo]|exact Hp|rewrite length_app, Htl, Hll; lia|].
  exists x, (put_Xi (xor_bytes x (encipher J0)) (put_Xi x (put_Xn buf' ctx2))). split; [exact Hx|]. split; [|split; [reflexivity|split]].
  - exact (proj1 (pending_whole _ _ _ _ 0 Hpx eq_refl)).
  - gcm_fields. split; [exact HT|]. unfold buf'. split.
    + apply Forall_app; split; [by apply Forall_take|]. apply Forall_app; split; [exact Hlo|by apply Forall_drop].
    + rewrite !length_app, length_drop, Htl, Hll. lia.
  - intros tag len. unfold CRYPTO_gcm128_finish. cbn zeta. rewrite Hpad. cbn [mbind outcome_bind]. gcm_fields.
    rewrite H0, H1. fold lens. rewrite write_at_inside by (rewrite Hll; lia). cbn [mbind outcome_bind]. fold buf'. rewrite Htake.
    change (put_Xn buf' (put_len (u64 (Z.shiftl (zlen a) 3)) (u64 (Z.shiftl (zlen c) 3)) (put_Xn buf ctx0))) with (put_Xn buf' ctx2). rewrite Hg. cbn [mbind outcome_bind]. unfold ctx2. gcm_fields. rewrite HE0, HE. reflexivity.
Qed.

(** *** Several calls *)

Lemma gcm_aad_calls_spec xs a ctx :
  aad_at J0 h a ctx -> Forall bytes_ok xs -> EK0 ctx = encipher J0 -> len_0 ctx = zlen a -> len_1 ctx = 0 -> zlen (a ++ concat xs) <= 2 ^ 61 ->
  exists ctx', gcm_aad_calls ctx xs = Done (true, ctx') /\ gcm_ready (a ++ concat xs) [] ctx'.
Proof.
  intros Ha Hxs. revert a ctx Ha. induction Hxs as [|x xs Hx _ IH]; intros a ctx Ha HE H0 H1 Hmax; cbn [gcm_aad_calls concat].
  { exists ctx. rewrite app_nil_r. split; [reflexivity|]. split; [by left|]. by split_and!. }
  cbn [concat] in Hmax. rewrite app_assoc in Hmax. destruct (gcm_aad_call a ctx x Ha Hx H0 H1) as (ctx1 & -> & Ha1 & HE1 & H01 & H11).
  { rewrite zlen_app in Hmax. pose proof (zlen_nonneg (concat xs)). lia. }
  cbn [mbind outcome_bind Z.eqb negb]. rewrite app_assoc. apply IH; [exact Ha1|by rewrite HE1|exact H01|exact H11|exact Hmax].
Qed.

Lemma gcm_text_calls_spec enc xs a c ctx :
  gcm_ready a c ctx -> Forall bytes_ok xs -> zlen (c ++ concat xs) <= 2 ^ 36 - 32 ->
  exists ctx', gcm_text_calls enc ctx xs = Done (true, keyed J0 (length c) (concat xs), ctx') /\ gcm_ready a (c ++ ct_of enc J0 (length c) (concat xs)) ctx'.
Proof.
  intros Hr Hxs. revert c ctx Hr. induction Hxs as [|x xs Hx _ IH]; intros c ctx Hr Hmax; cbn [gcm_text_calls concat].
  { exists ctx. rewrite keyed_nil, ct_nil, app_nil_r. by split. }
  cbn [concat] in Hmax. rewrite app_assoc in Hmax.
  destruct (gcm_text_call enc a c ctx x Hr Hx) as (ctx1 & Hc & Hr1). { rewrite zlen_app in Hmax. pose proof (zlen_nonneg (concat xs)). lia. }
  assert (Hcall : (if enc then CRYPTO_gcm128_encrypt ctx x else CRYPTO_gcm128_decrypt ctx x) = crypt enc ctx x) by (by destruct enc).
  rewrite Hcall, Hc. cbn [mbind outcome_bind Z.eqb negb].
  assert (Hl : length (c ++ ct_of enc J0 (length c) x) = (length c + length x)%nat) by (rewrite length_app, length_ct; lia).
  destruct (IH _ _ Hr1) as (ctx2 & -> & Hr2).
  { rewrite !zlen_app in *. assert (zlen (ct_of enc J0 (length c) x) = zlen x) as -> by (unfold zlen; by rewrite length_ct). exact Hmax. }
  cbn [mbind outcome_bind]. exists ctx2. rewrite Hl in *. rewrite keyed_app, ct_app, app_assoc. by split.
Qed.

(** ** The standard *)

Lemma be_bytes_4 w : be_bytes 4 w = bytes_of_word w.
Proof.
  unfold be_bytes. rewrite le_bytes_4. unfold bytes_of_word, u8, wrap. rewrite !land_255. reflexivity.
Qed.

Lemma sp_inc_put b i : block16 b -> sp_inc i b = put_ctr32 b (u32 (get_ctr32 b + i)).
Proof.
  intros [Hb Hl]. destruct (get_ctr32_value b) as [Hv _]; [by split|]. unfold sp_inc. rewrite be_bytes_4, <- Hv.
  with_strategy transparent [put_ctr32] (unfold put_ctr32). reflexivity.
Qed.

Lemma sp_inc_block i j : sp_inc (Z.of_nat j) (ctr_block J0 i) = ctr_block J0 (i + j).
Proof.
  rewrite sp_inc_put by (by apply ctr_block_ok). rewrite get_ctr_block by done.
  with_strategy transparent [ctr_block] (unfold ctr_block).
  destruct (put_ctr32_spec J0 (u32 (get_ctr32 J0 + Z.of_nat i)) (counter_J0 J0 HJ) (u32_range _)) as (_ & Ht & _).
  with_strategy transparent [put_ctr32] (unfold put_ctr32 in * ). rewrite Ht. do 2 f_equal. unfold u32, wrap. rewrite Zplus_mod_idemp_l. f_equal. lia.
Qed.

Lemma ctr_block_0 : ctr_block J0 0 = J0.
Proof.
  pose proof (counter_J0 J0 HJ) as Hc. destruct (get_ctr32_value J0 Hc) as [Hv Hr]. with_strategy transparent [ctr_block] (unfold ctr_block).
  rewrite Z.add_0_r. assert (u32 (get_ctr32 J0) = get_ctr32 J0) as -> by (unfold u32, wrap; by apply Z.mod_small).
  with_strategy transparent [put_ctr32] (unfold put_ctr32). destruct HJ as [Hb Hl]. rewrite <- (take_drop 12 J0) at 3. f_equal.
  destruct (bytes_of_word_value _ Hr) as [Hw Hwo]. apply be_value_inj; [exact Hwo|by apply Forall_drop|rewrite length_drop, Hl; reflexivity|].
  by rewrite Hw.
Qed.

Lemma sp_gctr_keyed text : sp_gctr (sp_inc 1 J0) text = keyed J0 0 text.
Proof.
  with_strategy transparent [keyed key_byte] (unfold keyed, key_byte). unfold sp_gctr. apply imap_ext. intros j x _.
  rewrite <- ctr_block_0 at 1. change 1 with (Z.of_nat 1). rewrite sp_inc_block, sp_inc_block. reflexivity.
Qed.

Lemma sp_gctr_block x : length x = 16%nat -> sp_gctr J0 x = xor_bytes x (encipher J0).
Proof.
  intros Hl. destruct (encipher_block J0 HJ) as [_ HEl]. unfold sp_gctr.
  enough (Hn : forall n, (n + length x <= 16)%nat -> imap (fun j b => b ⊕ nth ((n + j) mod 16) (encipher (sp_inc (Z.of_nat ((n + j) / 16)) J0)) 0) x =
    xor_bytes x (drop n (encipher J0))) by (apply (Hn 0%nat); lia).
  assert (E0 : sp_inc (Z.of_nat 0) J0 = J0) by (rewrite <- ctr_block_0 at 1; rewrite sp_inc_block; exact ctr_block_0).
  clear Hl. induction x as [|b x IH]; intros n Hn; [reflexivity|]. cbn [length] in Hn. rewrite imap_cons.
  destruct (lookup_lt_is_Some_2 (encipher J0) n) as [y Hy]; [lia|]. rewrite (drop_S _ y n Hy). cbn [xor_bytes]. f_equal.
  - rewrite Nat.add_0_r, Nat.mod_small, Nat.div_small by lia. rewrite E0. f_equal. by apply nth_lookup_Some.
  - rewrite <- (IH (S n)) by lia. apply imap_ext. intros j z _. unfold compose. by rewrite Nat.add_succ_comm.
Qed.

Lemma be_bytes_value b : bytes_ok b -> be_bytes (length b) (be_value b) = b.
Proof.
  intros Hb. unfold be_bytes, be_value. assert (Hle : forall l, le_value l = le_num l) by (induction l as [|x l IH]; [done|]; cbn [le_num]; rewrite <- IH; reflexivity).
  rewrite Hle, <- length_rev, le_bytes_num by (by apply Forall_rev). apply rev_involutive.
Qed.

Lemma bytes64_be n : 0 <= n < 2 ^ 61 -> bytes64 (u64 (Z.shiftl n 3)) = be_bytes 8 (8 * n).
Proof.
  intros Hn. assert (u64 (Z.shiftl n 3) = 8 * n) as ->.
  { unfold u64, wrap. rewrite Z.shiftl_mul_pow2, Z.mod_small by (change (2 ^ 64) with (2 ^ 3 * 2 ^ 61); change (2 ^ 3) with 8; lia). change (2 ^ 3) with 8. lia. }
  unfold bytes64, be_bytes, u8, wrap. cbn [le_bytes rev app map]. rewrite !Z.shiftr_div_pow2 by lia. rewrite !Z.div_div by lia.
  repeat f_equal. by rewrite Z.div_1_r.
Qed.

End calls.

(** ** The initial value *)

Section setiv.
Context `{BlockLaws}.

(** A context whose tables belong to the key; whatever else it was used for. *)
Definition usable (ctx : GCM128_CONTEXT) : Prop := table_ok sp_H (Htable ctx) /\ bytes_ok (Xn ctx) /\ length (Xn ctx) = 48%nat.

Lemma init_usable : usable CRYPTO_gcm128_init.
Proof.
  unfold usable, CRYPTO_gcm128_init. cbn zeta. gcm_fields. destruct (encipher_block (memset0 16)) as [Hb Hl]; [split; [apply memset0_ok|reflexivity]|].
  destruct (load128_value (encipher (memset0 16))) as [Hv Hok]; [by split|]. split; [|split; [apply memset0_ok|reflexivity]].
  unfold sp_H. rewrite <- Hv. by apply init_table.
Qed.

Lemma xor_into_16 (Y d : bytes) : length Y = 16%nat -> length d = 16%nat -> xor_into Y d = xor_bytes Y d.
Proof. intros HY Hd. rewrite (xor_into_bytes Y d 0) by lia. change (memset0 0) with ([] : bytes). by rewrite app_nil_r. Qed.

(** A block combined with the hash, and multiplied. *)
Lemma absorb_block h c f k d n :
  table_ok h (Htable c) -> block16 (Xi c) -> be_value (Xi c) = sp_ghash h 0 (blocks16 f) -> length f = (16 * k)%nat ->
  bytes_ok d -> (length d + n = 16)%nat ->
  let X := gcm_gmult_4bit (xor_into (Xi c) d) (Htable c) in
  block16 X /\ be_value X = sp_ghash h 0 (blocks16 (f ++ d ++ memset0 n)).
Proof.
  intros HT [HX HXl] Hv Hf Hd Hn X. assert (Hl : length (d ++ memset0 n) = 16%nat) by (rewrite length_app; unfold memset0; rewrite length_replicate; lia).
  assert (Hok : bytes_ok (d ++ memset0 n)) by (apply Forall_app; split; [exact Hd|apply memset0_ok]).
  assert (Hx : xor_into (Xi c) d = xor_bytes (Xi c) (d ++ memset0 n)) by (apply xor_into_bytes; lia).
  assert (Hb : block16 (xor_bytes (Xi c) (d ++ memset0 n))) by (split; [by apply xor_bytes_ok|rewrite xor_bytes_length; lia]).
  unfold X. rewrite Hx. destruct (gmult_block h (Htable c) _ HT Hb) as [Hg Hgv]. split; [exact Hg|].
  rewrite Hgv, be_value_xor, Hv, (blocks16_app k), sp_ghash_app, (blocks16_block (d ++ memset0 n)) by (assumption || lia). reflexivity.
Qed.

Lemma iv_blocks_spec h fuel c iv f k :
  table_ok h (Htable c) -> block16 (Xi c) -> be_value (Xi c) = sp_ghash h 0 (blocks16 f) -> length f = (16 * k)%nat ->
  bytes_ok iv -> (length iv <= fuel)%nat ->
  exists X rest g m, iv_blocks fuel c iv = (rest, put_Xi X c) /\ iv = g ++ rest /\ length (f ++ g) = (16 * m)%nat /\ (length rest < 16)%nat /\
    block16 X /\ be_value X = sp_ghash h 0 (blocks16 (f ++ g)).
Proof.
  revert c iv f k. induction fuel as [|fuel IH]; intros c iv f k HT HX Hv Hf Hi Hl; cbn [iv_blocks].
  - exists (Xi c), iv, [], k. rewrite app_nil_r. split; [by destruct c|]. split; [reflexivity|]. split; [exact Hf|]. split; [lia|]. by split.
  - destruct (Nat.leb_spec 16 (length iv)) as [Hle|Hlt].
    + destruct (absorb_block h c f k (take 16 iv) 0 HT HX Hv Hf) as [Hg Hgv]; [by apply Forall_take|rewrite length_take; lia|].
      change (memset0 0) with ([] : bytes) in Hgv. rewrite app_nil_r in Hgv.
      set (c1 := GCM_MUL (put_Xi (xor_into (Xi c) (take 16 iv)) c)).
      destruct (IH c1 (drop 16 iv) (f ++ take 16 iv) (k + 1)%nat) as (X & rest & g & m & -> & Hiv & Hm & Hr & HXb & HXv);
        [exact HT|exact Hg|exact Hgv|rewrite length_app, length_take; lia|by apply Forall_drop|rewrite length_drop; lia|].
      exists X, rest, (take 16 iv ++ g), m. rewrite <- app_assoc in Hm, HXv.
      split; [reflexivity|]. split; [|split; [exact Hm|split; [exact Hr|by split]]].
      rewrite <- app_assoc, <- Hiv. by rewrite take_drop.
    + exists (Xi c), iv, [], k. rewrite app_nil_r. split; [by destruct c|]. split; [reflexivity|]. split; [exact Hf|]. split; [lia|]. by split.
Qed.

Lemma xor_low_half (Y l : bytes) : length Y = 16%nat -> length l = 8%nat -> take 8 Y ++ xor_into (drop 8 Y) l = xor_into Y (memset0 8 ++ l).
Proof.
  intros HY Hl. do 16 (destruct Y as [|? Y]; [done|]). destruct Y; [|done]. cbn [take drop memset0 replicate app xor_into].
  by rewrite !Z.lxor_0_r.
Qed.

(** What the hash of an initial value is made of. *)
Lemma setiv_hash c iv :
  usable c -> bytes_ok iv -> zlen iv < 2 ^ 32 -> Xi c = memset0 16 ->
  let '(rest, c1) := iv_blocks (length iv) c iv in
  let c2 := match rest with [] => c1 | _ => GCM_MUL (put_Xi (xor_into (Xi c1) rest) c1) end in
  let c3 := GCM_MUL (put_Xi (take 8 (Xi c2) ++ xor_into (drop 8 (Xi c2)) (bytes64 (u64 (Z.shiftl (zlen iv) 3)))) c2) in
  exists X, c3 = put_Xi X c /\ block16 X /\
    X = be_bytes 16 (sp_ghash sp_H 0 (blocks16 (iv ++ zeros_to_block iv ++ memset0 8 ++ be_bytes 8 (8 * zlen iv)))).
Proof.
  intros (HT & _) Hi Hz HX0. assert (HX : block16 (Xi c)) by (rewrite HX0; split; [apply memset0_ok|reflexivity]).
  destruct (iv_blocks_spec sp_H (length iv) c iv [] 0 HT HX) as (X1 & rest & g & m & -> & Hiv & Hm & Hr & HX1 & HX1v);
    [rewrite HX0; apply be_value_zeros|reflexivity|exact Hi|lia|]. cbn [app] in Hm, HX1v. cbn zeta.
  assert (Hrest : bytes_ok rest) by (rewrite Hiv in Hi; by apply Forall_app in Hi as [_ Hi]).
  set (c2 := match rest with [] => _ | _ => _ end).
  assert (H2 : exists X2, c2 = put_Xi X2 c /\ block16 X2 /\ be_value X2 = sp_ghash sp_H 0 (blocks16 (iv ++ zeros_to_block iv))).
  { unfold c2. destruct rest as [|b rest0].
    - exists X1. split; [reflexivity|]. split; [exact HX1|]. rewrite app_nil_r in Hiv. rewrite HX1v, Hiv, zeros_to_block_nat, Hm, Nat.mul_comm, Nat.Div0.mod_mul.
      change (memset0 ((16 - 0) mod 16)) with ([] : bytes). by rewrite app_nil_r.
    - set (r := b :: rest0) in *. destruct (absorb_block sp_H (put_Xi X1 c) g m r (16 - length r) HT HX1 HX1v Hm Hrest) as [Hg Hgv]; [lia|].
      gcm_fields. eexists. split; [reflexivity|]. split; [exact Hg|]. gcm_fields. cbn [Xi Htable put_Xi] in Hgv. rewrite Hgv. do 2 f_equal.
      rewrite app_assoc, <- Hiv. f_equal. rewrite zeros_to_block_nat. f_equal.
      assert (E : (length iv mod 16 = length r)%nat).
      { rewrite Hiv, length_app, Hm, (Nat.add_comm (16 * m)), (Nat.mul_comm 16), Nat.Div0.mod_add. by apply Nat.mod_small. }
      rewrite E, Nat.mod_small; [reflexivity|]. unfold r. cbn [length]. lia. }
  destruct H2 as (X2 & -> & HX2 & HX2v). gcm_fields. destruct (zeros_whole iv) as [k Hk].
  rewrite bytes64_be by (pose proof (zlen_nonneg iv); change (2 ^ 61) with (2 ^ 29 * 2 ^ 32); change (2 ^ 29) with 536870912; lia).
  assert (Hbl : length (be_bytes 8 (8 * zlen iv)) = 8%nat) by (unfold be_bytes; rewrite length_rev; apply length_le_bytes).
  assert (Hbo : bytes_ok (be_bytes 8 (8 * zlen iv))) by (unfold be_bytes; apply Forall_rev, le_bytes_ok).
  rewrite xor_low_half by (assumption || (by destruct HX2)).
  destruct (absorb_block sp_H (put_Xi X2 c) (iv ++ zeros_to_block iv) k (memset0 8 ++ be_bytes 8 (8 * zlen iv)) 0 HT HX2 HX2v Hk) as [Hg Hgv];
    [apply Forall_app; split; [apply memset0_ok|exact Hbo]|rewrite length_app, Hbl; reflexivity|].
  eexists. split; [reflexivity|]. split; [exact Hg|]. cbn [Xi Htable put_Xi] in Hg, Hgv |- *. change (memset0 0) with ([] : bytes) in Hgv.
  rewrite app_nil_r, <- !app_assoc in Hgv. rewrite <- Hgv. destruct Hg as [Hgo Hgl]. rewrite <- Hgl at 1. symmetry. by apply be_bytes_value.
Qed.

Lemma setiv_spec c iv :
  usable c -> bytes_ok iv -> zlen iv < 2 ^ 32 ->
  block16 (sp_J0 iv) /\
  (aad_at (sp_J0 iv) sp_H [] (CRYPTO_gcm128_setiv c iv) /\ EK0 (CRYPTO_gcm128_setiv c iv) = encipher (sp_J0 iv) /\
   len_0 (CRYPTO_gcm128_setiv c iv) = 0 /\ len_1 (CRYPTO_gcm128_setiv c iv) = 0).
Proof.
  intros Hu Hi Hz. unfold CRYPTO_gcm128_setiv, sp_J0. cbn zeta. set (c0 := put_mres 0 (put_ares 0 (put_len 0 0 c))).
  assert (Hend : forall J c1, block16 J -> usable c1 -> mres c1 = 0%nat -> ares c1 = 0%nat -> len_0 c1 = 0 -> len_1 c1 = 0 -> Yi c1 = J ->
    let c2 := put_EK0 (encipher (Yi c1)) (put_Xi (memset0 16) c1) in
    let c3 := put_Yi (put_ctr32 (Yi c2) (u32 (get_ctr32 J + 1))) c2 in
    block16 J /\ (aad_at J sp_H [] c3 /\ EK0 c3 = encipher J /\ len_0 c3 = 0 /\ len_1 c3 = 0)).
  { intros J c1 HJ (HT & HXn) Hm Ha H0 H1 <- c2 c3. split; [exact HJ|]. split; [|by split_and!]. constructor; unfold c3, c2; gcm_fields; try assumption.
    - with_strategy transparent [ctr_block] (unfold ctr_block). reflexivity.
    - rewrite Ha. apply absorbed_start. }
  destruct (Z.eqb_spec (zlen iv) 12) as [E|E].
  - assert (Hb : block16 (iv ++ [0; 0; 0; 1])).
    { split; [apply Forall_app; split; [exact Hi|by apply bytes_ok_checked]|rewrite length_app; unfold zlen in E; cbn [length]; lia]. }
    assert (Hg : get_ctr32 (iv ++ [0; 0; 0; 1]) = 1).
    { destruct (get_ctr32_value (iv ++ [0; 0; 0; 1])) as [Hv _]; [by destruct Hb|]. rewrite Hv, drop_app_length' by (unfold zlen in E; lia). reflexivity. }
    specialize (Hend (iv ++ [0; 0; 0; 1]) (put_Yi (iv ++ [0; 0; 0; 1]) c0) Hb Hu eq_refl eq_refl eq_refl eq_refl eq_refl).
    cbn zeta in Hend. rewrite Hg in Hend. exact Hend.
  - pose proof (setiv_hash (put_Xi (memset0 16) c0) iv Hu Hi Hz eq_refl) as Hh.
    destruct (iv_blocks (length iv) (put_Xi (memset0 16) c0) iv) as [rest c1]. cbn zeta in Hh. destruct Hh as (X & HX3 & HX & ->).
    rewrite HX3. gcm_fields. set (J := be_bytes 16 _) in *.
    exact (Hend J (put_Yi J (put_Xi J (put_Xi (memset0 16) c0))) HX Hu eq_refl eq_refl eq_refl eq_refl eq_refl).
Qed.
End setiv.

(** ** Messages *)

Section message.
Context `{BlockLaws}.

(** What can be processed. *)
Definition gcm_inputs_ok (iv : bytes) (aads texts : list bytes) : Prop :=
  bytes_ok iv /\ zlen iv < 2 ^ 32 /\ Forall bytes_ok aads /\ Forall bytes_ok texts /\ zlen (concat aads) < 2 ^ 61 /\
  zlen (concat texts) <= 2 ^ 36 - 32.

Lemma length_sp_crypt (iv x : bytes) : length (sp_crypt iv x) = length x.
Proof. apply length_imap. Qed.

Lemma message_spec enc ctx iv aads texts :
  usable ctx -> gcm_inputs_ok iv aads texts ->
  let out := sp_crypt iv (concat texts) in
  exists ctx', gcm_message enc ctx iv aads texts = Done (true, out, ctx') /\ block16 (sp_J0 iv) /\
    gcm_ready (sp_J0 iv) sp_H (concat aads) (if enc then out else concat texts) ctx'.
Proof.
  intros Hu (Hiv & Hivl & Ha & Ht & Hal & Htl). cbn zeta. destruct (setiv_spec ctx iv Hu Hiv Hivl) as (HJ & Haad & HE & H0 & H1).
  unfold gcm_message. destruct (gcm_aad_calls_spec (sp_J0 iv) sp_H aads [] (CRYPTO_gcm128_setiv ctx iv) Haad Ha HE H0 H1) as (ctx1 & -> & Hr); [cbn [app]; lia|].
  cbn [mbind outcome_bind negb app]. destruct (gcm_text_calls_spec (sp_J0 iv) HJ sp_H enc texts _ [] ctx1 Hr Ht) as (ctx2 & -> & Hr2); [exact Htl|].
  cbn [app length] in *. unfold sp_crypt. rewrite (sp_gctr_keyed (sp_J0 iv) HJ). exists ctx2. split; [reflexivity|]. split; [exact HJ|exact Hr2].
Qed.

Lemma data_of_tag (a c : bytes) : zlen a < 2 ^ 61 -> zlen c <= 2 ^ 36 - 32 ->
  all_data a c = a ++ zeros_to_block a ++ c ++ zeros_to_block c ++ be_bytes 8 (8 * zlen a) ++ be_bytes 8 (8 * zlen c).
Proof.
  intros Ha Hc. unfold all_data, padded_aad. pose proof (zlen_nonneg a). pose proof (zlen_nonneg c).
  rewrite !bytes64_be by (change (2 ^ 36) with 68719476736 in *; change (2 ^ 61) with 2305843009213693952 in *; lia). by rewrite <- !app_assoc.
Qed.

Lemma finish_tag (iv a c : bytes) ctx :
  block16 (sp_J0 iv) -> gcm_ready (sp_J0 iv) sp_H a c ctx -> zlen a < 2 ^ 61 -> zlen c <= 2 ^ 36 - 32 ->
  exists ctx', Xi ctx' = sp_tag iv a c /\ block16 (sp_tag iv a c) /\ usable ctx' /\
    forall tag len, CRYPTO_gcm128_finish ctx tag len =
      match tag with
      | Some t => if len <=? 16 then y ← CRYPTO_memcmp (Xi ctx') t len; Done (y, ctx') else Done (-1, ctx')
      | None => Done (-1, ctx')
      end.
Proof.
  intros HJ Hr Ha Hc. destruct (finish_hash (sp_J0 iv) sp_H a c ctx Hr) as (x & ctx' & [Hx Hxl] & Hv & HXi & Hu & Hf).
  assert (Htag : sp_tag iv a c = xor_bytes x (encipher (sp_J0 iv))).
  { unfold sp_tag. rewrite <- data_of_tag by assumption. rewrite <- Hv. rewrite <- Hxl at 1. rewrite be_bytes_value by exact Hx.
    by apply (sp_gctr_block (sp_J0 iv) HJ). }
  exists ctx'. rewrite Htag. split; [exact HXi|]. destruct (encipher_block _ HJ) as [He Hel]. split; [|split; [exact Hu|exact Hf]].
  split; [by apply xor_bytes_ok|rewrite xor_bytes_length; lia].
Qed.

(** C37: Enciphering in Galois/counter mode is that of SP 800-38D: for every block
    cipher, whatever the context was used for with the same key, an initial value of
    12 bytes or of any other length, and however the additional data and the text are
    cut into calls - with whole blocks, parts of blocks, chunks of 3 KB or nothing in
    them -, the bytes written are GCTR of the text from the second counter block on,
    the tag has the front of the standard's, and no store leaves the 48 bytes in
    which cipher text waits; the context can then be used for another message. *)
Theorem gcm_encrypt_standard ctx iv aads texts n :
  usable ctx -> gcm_inputs_ok iv aads texts -> 0 <= n <= 16 ->
  let c := sp_crypt iv (concat texts) in
  exists ctx' ctx'', gcm_message true ctx iv aads texts = Done (true, c, ctx') /\
    CRYPTO_gcm128_tag ctx' n = Done (take (Z.to_nat n) (sp_tag iv (concat aads) c), ctx'') /\ usable ctx''.
Proof.
  intros Hu Hok Hn. cbn zeta. destruct (message_spec true ctx iv aads texts Hu Hok) as (ctx' & Hm & HJ & Hr).
  destruct Hok as (_ & _ & _ & _ & Hal & Htl). assert (Hcl : zlen (sp_crypt iv (concat texts)) <= 2 ^ 36 - 32) by (unfold zlen in *; by rewrite length_sp_crypt).
  destruct (finish_tag iv _ _ ctx' HJ Hr Hal Hcl) as (ctx'' & HX & _ & Hu'' & Hf). exists ctx', ctx''. split; [exact Hm|]. split; [|exact Hu''].
  unfold CRYPTO_gcm128_tag. rewrite Hf. cbn [mbind outcome_bind]. destruct (Z.leb_spec n 16); [|lia]. by rewrite HX.
Qed.

Lemma sp_gctr_twice (icb x : bytes) : sp_gctr icb (sp_gctr icb x) = x.
Proof.
  apply list_eq. intros i. unfold sp_gctr. rewrite !list_lookup_imap. destruct (x !! i) as [b|]; [|done].
  cbn [fmap option_fmap option_map]. by rewrite Z.lxor_assoc, Z.lxor_nilpotent, Z.lxor_0_r.
Qed.

(** C38: Deciphering gives GCTR of the input, which for enciphered data is the text, and
    the end compares with the tag of SP 800-38D over the input: a tag of at most 16
    bytes is accepted exactly when it is the front of that one, so that one of no bytes
    is always accepted, and a longer or absent one never. *)
Theorem gcm_decrypt_checks ctx iv aads texts t :
  usable ctx -> gcm_inputs_ok iv aads texts -> bytes_ok t ->
  let m := sp_tag iv (concat aads) (concat texts) in
  exists ctx' ctx'' r, gcm_message false ctx iv aads texts = Done (true, sp_crypt iv (concat texts), ctx') /\
    (forall text : bytes, concat texts = sp_crypt iv text -> sp_crypt iv (concat texts) = text) /\
    CRYPTO_gcm128_finish ctx' (Some t) (zlen t) = Done (r, ctx'') /\ usable ctx'' /\
    (if zlen t <=? 16 then r = 0 <-> t = take (length t) m else r = -1) /\
    CRYPTO_gcm128_finish ctx' None (zlen t) = Done (-1, ctx'').
Proof.
  intros Hu Hok Ht. cbn zeta. destruct (message_spec false ctx iv aads texts Hu Hok) as (ctx' & Hm & HJ & Hr).
  destruct Hok as (_ & _ & _ & _ & Hal & Htl). destruct (finish_tag iv _ _ ctx' HJ Hr Hal Htl) as (ctx'' & HX & [Hmo Hml] & Hu'' & Hf).
  set (m := sp_tag iv (concat aads) (concat texts)) in *. exists ctx', ctx''. rewrite !Hf, HX.
  assert (Htwice : forall text, concat texts = sp_crypt iv text -> sp_crypt iv (concat texts) = text) by (intros text ->; apply sp_gctr_twice).
  destruct (Z.leb_spec (zlen t) 16) as [Hl|Hl].
  - destruct (memcmp_spec (take (length t) m) (drop (length t) m) t [] (zlen t)) as (y & Hy & Hyi);
      [by apply Forall_take|exact Ht|unfold zlen in *; rewrite length_take; lia|reflexivity|]. rewrite take_drop, app_nil_r in Hy.
    exists y. rewrite Hy. cbn [mbind outcome_bind]. split; [exact Hm|]. split; [exact Htwice|]. split; [reflexivity|]. split; [exact Hu''|]. split; [|reflexivity].
    rewrite Hyi. split; congruence.
  - exists (-1). split; [exact Hm|]. split; [exact Htwice|]. by split_and!.
Qed.
End message.

(** ** With AES *)

Definition gcm_key : bytes := [0xfe; 0xff; 0xe9; 0x92; 0x86; 0x65; 0x73; 0x1c; 0x6d; 0x6a; 0x8f; 0x94; 0x67; 0x30; 0x83; 0x08].
Definition gcm_iv : bytes := [0xca; 0xfe; 0xba; 0xbe; 0xfa; 0xce; 0xdb; 0xad].
Definition gcm_aads : list bytes := [[0xfe; 0xed; 0xfa]; []; [0xce; 0xde; 0xad; 0xbe; 0xef; 0xfe; 0xed; 0xfa; 0xce; 0xde; 0xad; 0xbe; 0xef; 0xab; 0xad; 0xda; 0xd2]].
Definition gcm_text : bytes :=
  [0xd9; 0x31; 0x32; 0x25; 0xf8; 0x84; 0x06; 0xe5; 0xa5; 0x59; 0x09; 0xc5; 0xaf; 0xf5; 0x26; 0x9a; 0x86; 0xa7; 0xa9; 0x53;
   0x15; 0x34; 0xf7; 0xda; 0x2e; 0x4c; 0x30; 0x3d; 0x8a; 0x31; 0x8a; 0x72; 0x1c; 0x3c; 0x0c; 0x95; 0x95; 0x68; 0x09; 0x53;
   0x2f; 0xcf; 0x0e; 0x24; 0x49; 0xa6; 0xb5; 0x25; 0xb1; 0x6a; 0xed; 0xf5; 0xaa; 0x0d; 0xe6; 0x57; 0xba; 0x63; 0x7b; 0x39].
Definition gcm_sealed : bytes :=
  [0x61; 0x35; 0x3b; 0x4c; 0x28; 0x06; 0x93; 0x4a; 0x77; 0x7f; 0xf5; 0x1f; 0xa2; 0x2a; 0x47; 0x55; 0x69; 0x9b; 0x2a; 0x71;
   0x4f; 0xcd; 0xc6; 0xf8; 0x37; 0x66; 0xe5; 0xf9; 0x7b; 0x6c; 0x74; 0x23; 0x73; 0x80; 0x69; 0x00; 0xe4; 0x9f; 0x24; 0xb2;
   0x2b; 0x09; 0x75; 0x44; 0xd4; 0x89; 0x6b; 0x42; 0x49; 0x89; 0xb5; 0xe1; 0xeb; 0xac; 0x0f; 0x07; 0xc2; 0x3f; 0x45; 0x98].
Definition gcm_tag : bytes := [0x36; 0x12; 0xd2; 0xe7; 0x9e; 0x3b; 0x07; 0x85; 0x56; 0x1b; 0xe1; 0x4a; 0xac; 0xa2; 0xfc; 0xcb].
Definition gcm_aes : BlockCipher := aes_cipher gcm_key 128.

(** Test case 5 of the specification of GCM, the code on pieces of it. *)
Example gcm_case5 :
  match @gcm_message gcm_aes true (@CRYPTO_gcm128_init gcm_aes) gcm_iv gcm_aads [take 5 gcm_text; []; drop 5 gcm_text] with
  | Done (ok, out, c) => match CRYPTO_gcm128_tag c 16 with Done (t, _) => (ok, out, t) = (true, gcm_sealed, gcm_tag) | _ => False end
  | _ => False
  end.
Proof. vm_compute. reflexivity. Qed.

Lemma gcm_aes_laws : BlockLaws gcm_aes.
Proof. apply (aes_laws gcm_key 128 4 10); [by repeat constructor|apply bytes_ok_checked; vm_compute; reflexivity]. Qed.

Lemma gcm_inputs_checked texts : Forall bytes_ok texts -> zlen (concat texts) <= 1000 -> gcm_inputs_ok gcm_iv gcm_aads texts.
Proof.
  intros Ht Hl. split; [apply bytes_ok_checked; reflexivity|]. split; [reflexivity|].
  split; [repeat (apply Forall_cons; split; [apply bytes_ok_checked; reflexivity|]); by apply Forall_nil|]. split; [exact Ht|].
  split; [reflexivity|]. change (2 ^ 36) with 68719476736. lia.
Qed.

Lemma gcm_encrypt_standard_witness :
  exists ctx' ctx'', @gcm_message gcm_aes true (@CRYPTO_gcm128_init gcm_aes) gcm_iv gcm_aads [take 5 gcm_text; []; drop 5 gcm_text] =
      Done (true, @sp_crypt gcm_aes gcm_iv gcm_text, ctx') /\
    CRYPTO_gcm128_tag ctx' 12 = Done (take 12 (@sp_tag gcm_aes gcm_iv (concat gcm_aads) (@sp_crypt gcm_aes gcm_iv gcm_text)), ctx'') /\
    @usable gcm_aes ctx''.
Proof.
  assert (Ht : Forall bytes_ok [take 5 gcm_text; []; drop 5 gcm_text]).
  { repeat (apply Forall_cons; split; [apply bytes_ok_checked; vm_compute; reflexivity|]). by apply Forall_nil. }
  exact (@gcm_encrypt_standard gcm_aes gcm_aes_laws _ gcm_iv gcm_aads [take 5 gcm_text; []; drop 5 gcm_text] 12
    (@init_usable gcm_aes gcm_aes_laws) (gcm_inputs_checked _ Ht ltac:(vm_compute; discriminate)) ltac:(lia)).
Defined.

Lemma gcm_decrypt_checks_witness :
  exists ctx' ctx'' r, @gcm_message gcm_aes false (@CRYPTO_gcm128_init gcm_aes) gcm_iv gcm_aads [gcm_sealed] =
      Done (true, @sp_crypt gcm_aes gcm_iv gcm_sealed, ctx') /\
    CRYPTO_gcm128_finish ctx' (Some gcm_tag) 16 = Done (r, ctx'') /\
    (r = 0 <-> gcm_tag = take 16 (@sp_tag gcm_aes gcm_iv (concat gcm_aads) gcm_sealed)) /\
    CRYPTO_gcm128_finish ctx' None 16 = Done (-1, ctx'').
Proof.
  assert (Ht : Forall bytes_ok [gcm_sealed]) by (apply Forall_cons; split; [apply bytes_ok_checked; vm_compute; reflexivity|by apply Forall_nil]).
  destruct (@gcm_decrypt_checks gcm_aes gcm_aes_laws _ gcm_iv gcm_aads [gcm_sealed] gcm_tag (@init_usable gcm_aes gcm_aes_laws)
    (gcm_inputs_checked _ Ht ltac:(vm_compute; discriminate)) ltac:(apply bytes_ok_checked; vm_compute; reflexivity))
    as (c1 & c2 & r & Hm & _ & Hf & _ & Hr & Hn).
  exists c1, c2, r. split; [exact Hm|]. split; [exact Hf|]. split; [exact Hr|exact Hn].
Defined.

(** ** What the standard does not allow *)

(** Additional data of 2^61 bytes are taken, though their length in bits, for which the
    standard has 64 bits, then counts as zero. *)
Lemma aad_length_wraps :
  match CRYPTO_gcm128_aad (put_len (2 ^ 61 - 1) 0 (@CRYPTO_gcm128_init demo_cipher)) [0] with
  | Done (ret, c) => (ret, len_0 c) = (0, 2 ^ 61) /\ bytes64 (u64 (Z.shiftl (len_0 c) 3)) = memset0 8
  | _ => False
  end.
Proof. vm_compute. split; reflexivity. Qed.

(** A call for text without any text closes the block of additional data at hand, and
    more additional data are accepted behind it: the tag is that of other data. *)
Lemma empty_text_pads :
  let C := gcm_aes in
  match CRYPTO_gcm128_aad (CRYPTO_gcm128_setiv CRYPTO_gcm128_init gcm_iv) [1] with
  | Done (_, c1) =>
      match CRYPTO_gcm128_encrypt c1 [] with
      | Done (ret, _, c2) =>
          match CRYPTO_gcm128_aad c2 [2], CRYPTO_gcm128_aad c1 [2] with
          | Done (ret', c3), Done (_, c4) =>
              match CRYPTO_gcm128_tag c3 16, CRYPTO_gcm128_tag c4 16 with
              | Done (t3, _), Done (t4, _) => (ret, ret') = (0, 0) /\ t3 <> t4
              | _, _ => False
              end
          | _, _ => False
          end
      | _ => False
      end
  | _ => False
  end.
Proof. vm_compute. split; [reflexivity|]. intros H. discriminate. Qed.
